(* ===== verification/_CoqProject ===== *)
-Q . S2P
Prelude.v
GoIO.v
GoStrings.v
Json.v
Codec.v
Protocol.v
GoTime.v
Registry.v
RateLimiter.v
Guessing.v
Session.v
SessionSteps.v
SessionProps.v
SessionWire.v
SessionEof.v
SessionDelivery.v
SessionEnd.v
StreamRelay.v
Base64.v
Crypto.v
GoText.v
GoFS.v
Auth.v
AuthProps.v
GoNet.v
Config.v
Trust.v
Server.v
ServerProps.v
Socks5.v
HttpConnect.v
SystemProxy.v
SystemProxyProps.v
Runtime.v
Exit.v
Manager.v
ManagerProps.v
Relay.v
Logging.v
WindowsProxy.v
Transport.v
Setup.v
GoFlag.v
Commands.v
ClientStreams.v
Shell.v
Probe.v
Forwarding.v
Tunnel.v
Handlers.v
FrontEnds.v
ServerRun.v
ClientMain.v
