(* ===== verification/Prelude.v ===== *)
(** * lnproxy: a verification library

    lnproxy is a proxy in three parts written in Go: a client that offers HTTP
    and SOCKS5 proxies on the local machine, a server, and exits.  Clients and
    exits connect to the server over QUIC or TLS, prove knowledge of a password,
    and speak a framed protocol over which streams are multiplexed; the server
    routes a client's streams to an exit, or dials itself.  This library models
    the program's own logic as executable Rocq definitions and proves the
    theorems that make it correct.  All paths below are under [src/].

    ** Files

    What the program uses of Go and its standard library:
    - [Prelude.v]: errors ([error], [errors.Is]), [result], machine integers
      (values of [Z] with their wrap-around), bytes, big-endian numbers.
    - [GoIO.v]: a connection is the bytes still to come and the error after
      them ([Reader]), and the bytes accepted and the room left ([Sink]).
    - [GoStrings.v], [GoText.v], [GoNet.v], [GoTime.v]: [strconv], [strings],
      host/port strings, clocks.
    - [Json.v], [Codec.v]: [encoding/json], the text and the struct level;
      class [Json] is a Go type with its tags, class [JsonLaws] the promise that
      decoding inverts encoding.
    - [Base64.v], [Crypto.v]: base64, SHA-256, HMAC, constant-time comparison.
    - [GoFS.v]: files, system calls with faults, the write-and-rename idiom.

    The program:
    - [Protocol.v]: [internal/protocol] - frames, messages, [ReadFrame],
      [WriteFrame], [DecodeOpen].
    - [Registry.v]: [internal/node/registry.go] - the table of exits and the
      selection of one.
    - [RateLimiter.v]: the limiter of [internal/auth/auth.go].  [Guessing.v]: the
      overlapping connections of one address that call it.
    - [Session.v]: [internal/session/session.go], every method as a function of
      the session; streams live in a heap, a pointer is an index, a channel is
      its buffer.  [SessionSteps.v]: its goroutines as a step relation, with a
      step for every chunk of a [Write].  [SessionProps.v]: its theorems;
      [SessionDelivery.v]: a read loop that waits for a reader.
      [SessionEnd.v]: the steps of a closed session until [Wait] returns, those
      of frames its connection still delivers among them.
      [SessionWire.v]: two sessions at the ends of one connection;
      [SessionEof.v]: what the end of a stream means.  [StreamRelay.v]: [io.Copy] over
      the streams of sessions and over sockets, behind one interface
      ([side] with [SideLaws]), and the way of a tunnel's bytes through client,
      server and exit.
    - [Auth.v], [AuthProps.v]: [internal/auth] - verifier, verifier file,
      passphrase sources, the handshakes of both sides.
    - [Config.v]: [internal/config/config.go].
    - [Trust.v]: certificate pinning in [internal/transport] and in the probe.
    - [Server.v], [ServerProps.v]: [internal/node/server.go] and the address
      part of [dialer.go]; handlers are cut where they block, and [server_step]
      interleaves the pieces.
    - [Socks5.v], [HttpConnect.v]: the front ends of [internal/proxy].
    - [SystemProxy.v], [SystemProxyProps.v]: [internal/systemproxy], the journal
      and the Linux providers, in a monad in which the process can die at any
      action; a program logic for it.
    - [Runtime.v]: [internal/client/runtime.go].
    - [Exit.v]: [internal/node/exit.go].
    - [Manager.v]: [internal/client/manager.go], with the callbacks it makes.
      [ManagerProps.v]: the interleavings of its methods and goroutines, and the
      theorems.
    - [Relay.v]: the two [Relay] functions ([internal/session/relay.go],
      [internal/proxy/dialer.go]) as interleaved reads and writes of two copies,
      with what the other sides of the two connections do meanwhile.
    - [Logging.v]: [internal/logging/logging.go], rotation with its faults.
    - [WindowsProxy.v]: the Windows provider of [internal/systemproxy], over a
      registry given by class [RegistryKey] with [RegistryLaws]; names of values
      are compared without regard to case.
    - [Transport.v]: [internal/transport/conn.go] - configurations, sockets, the
      control stream of a QUIC connection.
    - [Setup.v]: [internal/initnode], [internal/silentserver] and the
      certificate files of [internal/config].
    - [GoFlag.v], [Commands.v]: package [flag], and the node, init and Windows
      server programs under [cmd].
    - [ClientStreams.v]: [managerDialer] and the counted streams of
      [internal/client/runtime.go].
    - [Shell.v]: [internal/client/shell.go] and the end of [lnproxy-client].
    - [Probe.v]: [cmd/lnproxy-probe].
    - [Forwarding.v]: the whole of [forwardOpen] and [serveExitStream], and the
      client, the server and an exit together.
    - [Tunnel.v]: a front end's request on its way through the dialer, the
      manager, a session, the server and an exit's dialer, and back.
    - [Handlers.v]: the connections of both front ends with the counted streams
      they hold.
    - [FrontEnds.v]: listeners, accept loops and accepted sockets of
      [internal/proxy/socks5] and [internal/proxy/httpconnect].
    - [ServerRun.v]: [Run], [acceptQUIC] and [acceptTCP] of the server, with the
      accepted TCP sockets and the queue of the QUIC listener.
    - [ClientMain.v]: the start of [cmd/lnproxy-client].

    ** What the theorems show

    - Wire protocol: what is written is read back, frame by frame; whatever
      bytes arrive, an accepted frame is the encoding of itself and within the
      limit; a truncated frame is an error; open requests round-trip.
    - Registry: selection is optimal, safe and independent of the iteration
      order of Go's maps; expiry removes exactly the stale entries.
    - Rate limiter: it refines a specification that keeps one peer's failures
      only, and bounds guessing by the number of connections under way at once,
      which the server does not bound.
    - Sessions: an invariant of all reachable states, for every peer and every
      interleaving; streams are byte pipes, and what one side writes the other
      side receives, for every interleaving of both sides; the end of a stream
      is the end of what the peer wrote; a delivery that waits for its reader;
      every outcome of Read, Write and Open; shutdown, and what is left of a closed
      session's goroutines: nothing, or a read loop the peer keeps in [ReadFrame].
    - Authentication: whoever is accepted answered this connection's own
      challenge with the key, in a frame of the right type; the handshake of an honest pair completes; the
      verifier file.
    - Trust: a pinned certificate stays pinned, for every store that obeys
      [TrustLaws], with the expected fingerprints the program passes; the known-hosts file round-trips, so that what the user once
      confirmed holds in every later run of the client.
    - Server: only authenticated peers are served, and refused handshakes are
      counted; the tables match the running handlers in every interleaving, as
      far as they do (an exit may be missing from the registry); how far the connection limit holds;
      routing.
    - Proxies: the SOCKS5 conversation, exactly; where an HTTP request goes.
    - Client: the desktop's proxy settings survive any sequence of crashes, for
      every provider that obeys [SystemProxyLaws] (the KDE provider does, the
      GNOME provider does not); the manager's state is truthful, and what its
      callback is told follows that state.
    - Exit: it reconnects with bounded delays and gives up only on cancellation
      or an untrusted certificate; its registration arrives.
    - The three programs together: an open request reaches the exit unchanged
      and is dialled there, and the client's [Open] returns the exit's verdict;
      a SOCKS5 or HTTP CONNECT request becomes a tunnel to the destination the
      user named; the tunnel carries the bytes of both directions unchanged
      (from the server to the exit, when no other stream has its ID);
      a relay waits or ends, and delivers everything when both sides are in good
      order.
    - Lifetimes: the accept loops of a closed front end end, the server's [Run]
      closes its listeners and its UDP socket and cannot hang, a log keeps its newest records
      within its limits, no handler of a front end loses its counted stream, the
      shell returns.
    - Programs: a bundle made by [Initialize] runs in any directory; the two
      ways of initialising a node do the same; the probe's exit code says what
      happened.
    Some theorems state what the code does wrong: a data frame after a close
    frame panics the reader, a reconnecting exit vanishes from the registry, a
    [Close] during a [Reconnect] is undone, a failed [Apply] keeps its changes,
    two clients of one exit share a slot of its session, a failed rotation ends
    logging, the shell's [disconnect] is final, the callback is not told of a
    [Close] and may be told of states in the wrong order, closing a session whose
    read loop waits for a slow reader panics, a relay passes a failed read on as an
    ordinary end, any number of connections may guess before the first has failed.

    ** Fuel

    Recursion that is not structural takes fuel that the definitions themselves
    supply: the JSON parser twice the length of the text plus two (every value
    consumes a byte), [Read] the length of the stream's queue, [Write] the
    length of its data (every chunk is at least one byte long), numerals one
    digit per bit, [portString] five digits (a port has sixteen bits), the shell
    the length of its input plus one (every line consumes a byte).  The
    round-trip theorems and [shell_returns] show that it is enough.  Step
    relations need no fuel; where termination is claimed, a measure bounds the
    number of steps: [Relay.fuel], with two steps more for each byte that arrives
    later; [SessionEnd.fuel], with two more for each frame received after the
    close; [FrontEnds.fuel].

    ** Parameters and what is not modelled

    [argon2.IDKey], the desktop's configuration commands and the Windows
    registry are parameters, with what is relied on as hypotheses.  Random
    bytes, clocks, results of dialling, certificates, prompts, map iteration
    orders and faults are arguments.  Not modelled: TLS and QUIC themselves,
    deadlines on streams (their setters do nothing in the program), signals, and
    the functions that only return a field.  A call that blocks has no step until
    it can go on.  Left for later: the shutdown of a server with live tunnels,
    and what a client's [Shutdown] does to connections that were accepted and
    have not dialled yet. *)
From Stdlib Require Export ZArith Lia Wf_nat.
From Stdlib Require Export Strings.Byte.
From Stdlib Require Import Ascii.
From stdpp Require Export base tactics list gmap strings sorting.

#[global] Open Scope Z_scope.

(* ------------------------------------------------------------------ *)
(** ** Errors and results *)

(** Go error values.  The sentinel errors the program compares against with
    [errors.Is] are constructors; [ENew] is [errors.New] (or [fmt.Errorf]
    without [%w]) with its rendered text, [EWrap] is [fmt.Errorf] with [%w],
    [ETrust] is [transport.TrustError], and [EForeign] is any error value
    produced outside the program (operating system, TLS, QUIC). *)
Inductive error : Type :=
  | EOF
  | ErrUnexpectedEOF
  | ErrClosed
  | ErrCanceled
  | ErrDeadlineExceeded
  | ErrNotExist
  | ErrInvalidPassword
  | ErrRateLimited
  | ErrNoExit
  | ErrExitUnavailable
  | ErrUnsupported
  | ENew (msg : string)
  | EWrap (msg : string) (inner : error)
  | ETrust (inner : error)
  | EForeign (code : Z) (msg : string).

#[export] Instance error_eq_dec : EqDecision error.
Proof. solve_decision. Defined.

(** [errors.Is]: the error itself or one it wraps. *)
Fixpoint errors_Is (e target : error) : bool :=
  bool_decide (e = target) ||
  match e with
  | EWrap _ inner | ETrust inner => errors_Is inner target
  | _ => false
  end.

(** [error.Error()]. *)
Fixpoint Error (e : error) : string :=
  match e with
  | EOF => "EOF"
  | ErrUnexpectedEOF => "unexpected EOF"
  | ErrClosed => "use of closed network connection"
  | ErrCanceled => "context canceled"
  | ErrDeadlineExceeded => "context deadline exceeded"
  | ErrNotExist => "file does not exist"
  | ErrInvalidPassword => "authentication failed"
  | ErrRateLimited => "too many authentication failures"
  | ErrNoExit => "no healthy exit is available"
  | ErrExitUnavailable => "selected exit is unavailable"
  | ErrUnsupported => "system proxy settings are unsupported in this environment"
  | ENew msg => msg
  | EWrap msg inner => msg +:+ Error inner
  | ETrust inner => Error inner
  | EForeign _ msg => msg
  end.

Inductive result (A : Type) : Type :=
  | Ok (a : A)
  | Err (e : error).
Arguments Ok {A} a.
Arguments Err {A} e.

Definition is_ok {A} (r : result A) : bool :=
  match r with Ok _ => true | Err _ => false end.

Definition result_bind {A B} (r : result A) (f : A -> result B) : result B :=
  match r with Ok a => f a | Err e => Err e end.

Declare Scope go_scope.
Delimit Scope go_scope with go.
Notation "'let?' x ':=' r 'in' k" :=
  (result_bind r (fun x => k))
  (at level 10, x pattern, r at level 100, k at level 200)
  : go_scope.
#[global] Open Scope go_scope.

Lemma result_bind_Ok {A B} (r : result A) (f : A -> result B) b :
  result_bind r f = Ok b <-> exists a, r = Ok a /\ f a = Ok b.
Proof. destruct r; simpl; split; [eauto|by intros (? & [= ->] & ?)|done|by intros (? & ? & _)]. Qed.

(* ------------------------------------------------------------------ *)
(** ** Machine integers *)

(** Go's [int] is 64 bits wide on the released (amd64) targets. *)
Definition wrap_u (w z : Z) : Z := z mod 2 ^ w.
Definition wrap_i64 (z : Z) : Z := (z + 2 ^ 63) mod 2 ^ 64 - 2 ^ 63.

Definition in_i64 (z : Z) : Prop := - 2 ^ 63 <= z < 2 ^ 63.
Definition in_u64 (z : Z) : Prop := 0 <= z < 2 ^ 64.

Lemma wrap_i64_small z : in_i64 z -> wrap_i64 z = z.
Proof. unfold in_i64, wrap_i64. intros. rewrite Z.mod_small; lia. Qed.

Lemma wrap_i64_range z : in_i64 (wrap_i64 z).
Proof.
  unfold in_i64, wrap_i64.
  pose proof (Z.mod_pos_bound (z + 2 ^ 63) (2 ^ 64)). lia.
Qed.

Lemma wrap_u_small w z : 0 <= z < 2 ^ w -> wrap_u w z = z.
Proof. apply Z.mod_small. Qed.

(* ------------------------------------------------------------------ *)
(** ** Bytes, byte slices and strings *)

#[export] Instance byte_eq_dec' : EqDecision byte := Byte.byte_eq_dec.

Abbreviation bytes := (list byte).

Definition byte_to_Z (b : byte) : Z := Z.of_N (Byte.to_N b).
(** Go's conversion [byte(z)]: the low eight bits. *)
Definition byte_of_Z (z : Z) : byte :=
  default x00 (Byte.of_N (Z.to_N (z mod 256))).

Lemma byte_to_Z_range b : 0 <= byte_to_Z b < 256.
Proof.
  unfold byte_to_Z. pose proof (Byte.to_N_bounded b). lia.
Qed.

Lemma byte_to_of_Z z : byte_to_Z (byte_of_Z z) = z mod 256.
Proof.
  unfold byte_to_Z, byte_of_Z.
  pose proof (Z.mod_pos_bound z 256 ltac:(lia)).
  destruct (Byte.of_N _) eqn:E; simpl.
  - apply Byte.to_of_N in E. rewrite E. lia.
  - apply Byte.of_N_None_iff in E. lia.
Qed.

Lemma byte_of_to_Z b : byte_of_Z (byte_to_Z b) = b.
Proof.
  unfold byte_of_Z. rewrite Z.mod_small by apply byte_to_Z_range.
  unfold byte_to_Z. by rewrite N2Z.id, Byte.of_to_N.
Qed.

Lemma byte_to_Z_inj a b : byte_to_Z a = byte_to_Z b -> a = b.
Proof. intros H. rewrite <- (byte_of_to_Z a), H. apply byte_of_to_Z. Qed.

(** [\[\]byte(s)] and [string(b)]. *)
Definition bytes_of (s : string) : bytes := String.list_byte_of_string s.
Definition string_of (b : bytes) : string := String.string_of_list_byte b.

Lemma string_of_bytes_of s : string_of (bytes_of s) = s.
Proof. apply String.string_of_list_byte_of_string. Qed.
Lemma bytes_of_string_of b : bytes_of (string_of b) = b.
Proof. apply String.list_byte_of_string_of_list_byte. Qed.

(** [binary.BigEndian]: the [n] low bytes of [z], most significant first. *)
Fixpoint be_encode (n : nat) (z : Z) : bytes :=
  match n with
  | O => []
  | S k => byte_of_Z (Z.shiftr z (8 * Z.of_nat k)) :: be_encode k z
  end.

Fixpoint be_decode_acc (acc : Z) (b : bytes) : Z :=
  match b with
  | [] => acc
  | x :: r => be_decode_acc (Z.lor (Z.shiftl acc 8) (byte_to_Z x)) r
  end.
Definition be_decode (b : bytes) : Z := be_decode_acc 0 b.

Lemma length_be_encode n z : length (be_encode n z) = n.
Proof. induction n; simpl; congruence. Qed.

Lemma lor_shiftl a b n :
  0 <= n -> 0 <= b < 2 ^ n -> Z.lor (Z.shiftl a n) b = a * 2 ^ n + b.
Proof.
  intros Hn Hb. rewrite <- Z.shiftl_mul_pow2 by done.
  rewrite <- Z.add_lor_land.
  assert (Z.land (Z.shiftl a n) b = 0) as ->; [|lia].
  apply Z.bits_inj_iff'. intros i Hi. rewrite Z.land_spec, Z.bits_0.
  rewrite Z.shiftl_spec by done. destruct (Z.lt_ge_cases i n).
  - by rewrite Z.testbit_neg_r by lia.
  - rewrite <- (Z.mod_small b (2 ^ n)), Z.mod_pow2_bits_high by lia.
    apply andb_false_r.
Qed.

Lemma be_decode_acc_cons acc x r :
  be_decode_acc acc (x :: r) = be_decode_acc (acc * 256 + byte_to_Z x) r.
Proof. simpl. by rewrite lor_shiftl by (done || apply byte_to_Z_range). Qed.

Lemma be_decode_acc_spec acc b :
  be_decode_acc acc b = acc * 256 ^ Z.of_nat (length b) + be_decode b.
Proof.
  revert acc. induction b as [|x r IH]; intros acc; [unfold be_decode; simpl; lia|].
  unfold be_decode. rewrite !be_decode_acc_cons, IH, (IH (0 * 256 + _)).
  replace (Z.of_nat (length (x :: r))) with (Z.succ (Z.of_nat (length r)))
    by (cbn [length]; lia).
  rewrite Z.pow_succ_r by lia. nia.
Qed.

Lemma be_decode_cons x r :
  be_decode (x :: r) = byte_to_Z x * 256 ^ Z.of_nat (length r) + be_decode r.
Proof. unfold be_decode at 1. by rewrite be_decode_acc_cons, be_decode_acc_spec. Qed.

Lemma be_decode_range b : 0 <= be_decode b < 256 ^ Z.of_nat (length b).
Proof.
  induction b as [|x r IH]; [done|].
  rewrite be_decode_cons. pose proof (byte_to_Z_range x).
  replace (Z.of_nat (length (x :: r))) with (Z.succ (Z.of_nat (length r)))
    by (cbn [length]; lia).
  rewrite Z.pow_succ_r by lia. nia.
Qed.

Lemma be_decode_encode n z : be_decode (be_encode n z) = z mod 256 ^ Z.of_nat n.
Proof.
  induction n as [|n IH]; [by rewrite Z.mod_1_r|].
  cbn [be_encode]. rewrite be_decode_cons, length_be_encode, IH, byte_to_of_Z.
  rewrite Z.shiftr_div_pow2, Z.pow_mul_r by lia. change (2 ^ 8) with 256.
  replace (Z.of_nat (S n)) with (Z.of_nat n + 1) by lia.
  rewrite Z.pow_add_r, Z.pow_1_r by lia.
  rewrite Z.rem_mul_r by lia. lia.
Qed.

Lemma be_decode_inj a b :
  length a = length b -> be_decode a = be_decode b -> a = b.
Proof.
  revert b. induction a as [|x a IH]; intros [|y b] Hl; try done.
  rewrite !be_decode_cons. injection Hl as Hl. rewrite Hl. intros H.
  pose proof (be_decode_range a). pose proof (be_decode_range b).
  pose proof (byte_to_Z_range x). pose proof (byte_to_Z_range y).
  rewrite Hl in *. set (p := 256 ^ Z.of_nat (length b)) in *.
  assert (byte_to_Z x = byte_to_Z y) as Hxy by nia.
  f_equal; [by apply byte_to_Z_inj|apply IH; [done|nia]].
Qed.

Lemma be_encode_decode b : be_encode (length b) (be_decode b) = b.
Proof.
  apply be_decode_inj; [apply length_be_encode|].
  rewrite be_decode_encode. apply Z.mod_small, be_decode_range.
Qed.
