(* ===== verification/GoIO.v ===== *)
(** * Byte streams: the [io.Reader] and [io.Writer] the program is handed

    A connection is read through [io.ReadFull] only and written through
    [Write] only, so a reader is modelled by the bytes that are still to come
    and the error reported after them, however the transport cuts them into
    segments; a writer by the bytes accepted so far, the room left before the
    transport fails and the error it fails with. *)
From S2P Require Import Prelude.

Record Reader := mkReader { rd_buf : bytes; rd_err : error }.

(** [io.ReadFull(r, buf)] with [len(buf) = n]: [io.EOF] only when not a single
    byte could be read, [io.ErrUnexpectedEOF] after a partial read. *)
Definition ReadFull (n : nat) (r : Reader) : result bytes * Reader :=
  if (n <=? length r.(rd_buf))%nat
  then (Ok (take n r.(rd_buf)), mkReader (drop n r.(rd_buf)) r.(rd_err))
  else
    let e :=
      match r.(rd_buf), r.(rd_err) with
      | _ :: _, EOF => ErrUnexpectedEOF
      | _, e => e
      end in
    (Err e, mkReader [] r.(rd_err)).

Record Sink := mkSink { sk_out : bytes; sk_room : option nat; sk_err : error }.

(** [w.Write(p)]: everything is accepted while there is room; a write that
    does not fit is cut short and reports the transport's error. *)
Definition Sink_Write (p : bytes) (w : Sink) : option error * Sink :=
  match w.(sk_room) with
  | None => (None, mkSink (w.(sk_out) ++ p) None w.(sk_err))
  | Some k =>
      if (length p <=? k)%nat
      then (None, mkSink (w.(sk_out) ++ p) (Some (k - length p)%nat) w.(sk_err))
      else (Some w.(sk_err), mkSink (w.(sk_out) ++ take k p) (Some 0%nat) w.(sk_err))
  end.

(** A connection: what is still to be read from it and what was written to it. *)
Record ReadWriter := mkRW { rw_in : Reader; rw_out : Sink }.

(** Whether the transport accepts [n] more bytes. *)
Definition has_room (w : Sink) (n : nat) : Prop :=
  match w.(sk_room) with None => True | Some k => (n <= k)%nat end.

Definition sink_append (w : Sink) (p : bytes) : Sink :=
  mkSink (w.(sk_out) ++ p) ((fun k => (k - length p)%nat) <$> w.(sk_room)) w.(sk_err).

Lemma ReadFull_app n p rest e :
  length p = n ->
  ReadFull n (mkReader (p ++ rest) e) = (Ok p, mkReader rest e).
Proof.
  intros <-. unfold ReadFull; simpl. rewrite length_app.
  rewrite (proj2 (Nat.leb_le _ _)) by lia. by rewrite take_app_length, drop_app_length.
Qed.

Lemma ReadFull_short n r :
  (length r.(rd_buf) < n)%nat -> exists e, ReadFull n r = (Err e, mkReader [] r.(rd_err)).
Proof.
  intros H. unfold ReadFull. rewrite (proj2 (Nat.leb_gt _ _)) by done. eauto.
Qed.

Lemma ReadFull_Ok n r p r' :
  ReadFull n r = (Ok p, r') ->
  length p = n /\ r.(rd_buf) = p ++ r'.(rd_buf) /\ r'.(rd_err) = r.(rd_err).
Proof.
  unfold ReadFull. destruct (Nat.leb_spec n (length r.(rd_buf))); [|done].
  intros [= <- <-]; simpl. rewrite length_take, take_drop. auto with lia.
Qed.

Lemma ReadFull_partial n x buf e :
  (length (x :: buf) < n)%nat ->
  fst (ReadFull n (mkReader (x :: buf) EOF)) = Err ErrUnexpectedEOF /\
  (e <> EOF -> fst (ReadFull n (mkReader (x :: buf) e)) = Err e).
Proof.
  intros H. unfold ReadFull; cbn [rd_buf rd_err].
  rewrite (proj2 (Nat.leb_gt _ _)) by done. by destruct e.
Qed.

Lemma Sink_Write_room p w :
  has_room w (length p) -> Sink_Write p w = (None, sink_append w p).
Proof.
  unfold has_room, Sink_Write, sink_append. destruct (sk_room w); [|done].
  intros H. by rewrite (proj2 (Nat.leb_le _ _)).
Qed.

Lemma Sink_Write_None p w w' : Sink_Write p w = (None, w') -> w' = sink_append w p.
Proof.
  unfold Sink_Write, sink_append. destruct (sk_room w) as [k|]; [|by intros [= <-]].
  destruct (Nat.leb_spec (length p) k); [|done]. by intros [= <-].
Qed.

Lemma Sink_Write_full p w :
  ~ has_room w (length p) -> fst (Sink_Write p w) = Some w.(sk_err).
Proof.
  unfold has_room, Sink_Write. destruct (sk_room w); [|naive_solver].
  intros H. by rewrite (proj2 (Nat.leb_gt _ _)) by lia.
Qed.

Lemma sink_append_app w (p q : bytes) : sink_append (sink_append w p) q = sink_append w (p ++ q).
Proof.
  unfold sink_append; simpl. rewrite app_assoc. f_equal.
  destruct (sk_room w); simpl; [|done]. rewrite length_app. f_equal. lia.
Qed.

Lemma sink_append_nil k : sink_append k [] = k.
Proof.
  unfold sink_append. rewrite app_nil_r. destruct k as [? [r|] ?]; cbn; [|done].
  by rewrite Nat.sub_0_r.
Qed.

Lemma has_room_app w (p q : bytes) :
  has_room w (length p + length q) ->
  has_room w (length p) /\ has_room (sink_append w p) (length q).
Proof. unfold has_room, sink_append; destruct (sk_room w); simpl; lia. Qed.
