(* ===== verification/GoStrings.v ===== *)
(** * [strconv] and [strings]: the text functions the program calls *)
From S2P Require Import Prelude.

(* ------------------------------------------------------------------ *)
(** ** Decimal numerals *)

Definition digit (n : Z) : byte := byte_of_Z (48 + n).
Definition is_digit (b : byte) : bool := (48 <=? byte_to_Z b) && (byte_to_Z b <=? 57).
Definition digit_val (b : byte) : Z := byte_to_Z b - 48.

Fixpoint utoa_aux (fuel : nat) (n : Z) (acc : bytes) : bytes :=
  match fuel with
  | O => acc
  | S f =>
      let acc := digit (n mod 10) :: acc in
      if n <? 10 then acc else utoa_aux f (n / 10) acc
  end.
(** [strconv.FormatUint(n, 10)]; one digit per bit is enough fuel. *)
Definition utoa (n : Z) : bytes := utoa_aux (S (Z.to_nat (Z.log2 n))) n [].
(** [strconv.Itoa]. *)
Definition itoa (n : Z) : bytes := if n <? 0 then x2d :: utoa (- n) else utoa n.

(** The value of a run of digits; [None] when a byte is not a digit. *)
Fixpoint dec_acc (a : Z) (b : bytes) : option Z :=
  match b with
  | [] => Some a
  | x :: r => if is_digit x then dec_acc (a * 10 + digit_val x) r else None
  end.
Definition dec_value (b : bytes) : option Z :=
  match b with [] => None | _ => dec_acc 0 b end.

(** A decimal integer with an optional sign. *)
Definition signed_value (b : bytes) : option Z :=
  match b with
  | x2d :: r => Z.opp <$> dec_value r
  | x2b :: r => dec_value r
  | _ => dec_value b
  end.

(** [strconv.Atoi]: base ten, an optional sign, an [int] in range. *)
Definition Atoi (s : string) : result Z :=
  match signed_value (bytes_of s) with
  | Some n =>
      if (- 2 ^ 63 <=? n) && (n <? 2 ^ 63) then Ok n
      else Err (EForeign 34 "value out of range")
  | None => Err (EForeign 22 "invalid syntax")
  end.
Definition Itoa (n : Z) : string := string_of (itoa n).

Lemma is_digit_digit n : 0 <= n < 10 -> is_digit (digit n) = true.
Proof.
  intros. unfold is_digit, digit. rewrite byte_to_of_Z, Z.mod_small by lia. lia.
Qed.
Lemma digit_val_digit n : 0 <= n < 10 -> digit_val (digit n) = n.
Proof. intros. unfold digit_val, digit. rewrite byte_to_of_Z, Z.mod_small; lia. Qed.

Lemma dec_acc_utoa_aux fuel n acc :
  0 <= n < 10 ^ Z.of_nat fuel -> dec_acc 0 (utoa_aux fuel n acc) = dec_acc n acc.
Proof.
  revert n acc. induction fuel as [|f IH]; intros n acc Hn; [simpl in *; f_equal; lia|].
  rewrite Nat2Z.inj_succ, Z.pow_succ_r in Hn by lia. cbn [utoa_aux].
  assert (0 <= n mod 10 < 10) by (apply Z.mod_pos_bound; lia).
  destruct (Z.ltb_spec n 10).
  - cbn [dec_acc]. rewrite is_digit_digit, digit_val_digit by done.
    by rewrite Z.mod_small by lia.
  - rewrite IH by (split; [apply Z.div_pos|apply Z.div_lt_upper_bound]; lia).
    cbn [dec_acc]. rewrite is_digit_digit, digit_val_digit by done.
    f_equal. pose proof (Z.div_mod n 10). lia.
Qed.

Lemma utoa_fuel n : 0 <= n -> n < 10 ^ Z.of_nat (S (Z.to_nat (Z.log2 n))).
Proof.
  intros Hn. destruct (Z.eq_dec n 0) as [->|]; [done|].
  pose proof (Z.log2_spec n ltac:(lia)). pose proof (Z.log2_nonneg n).
  rewrite Nat2Z.inj_succ, Z2Nat.id by done.
  apply Z.lt_le_trans with (2 ^ Z.succ (Z.log2 n)); [lia|].
  apply Z.pow_le_mono_l; lia.
Qed.

Lemma utoa_aux_hd fuel n acc :
  0 < n < 10 ^ Z.of_nat fuel ->
  exists d r, utoa_aux fuel n acc = digit d :: r /\ 1 <= d <= 9.
Proof.
  revert n acc. induction fuel as [|f IH]; intros n acc Hn; [simpl in Hn; lia|].
  rewrite Nat2Z.inj_succ, Z.pow_succ_r in Hn by lia. cbn [utoa_aux].
  destruct (Z.ltb_spec n 10).
  - rewrite Z.mod_small by lia. eauto with lia.
  - apply IH. split; [apply Z.div_str_pos|apply Z.div_lt_upper_bound]; lia.
Qed.

Lemma utoa_hd n : 0 < n -> exists d r, utoa n = digit d :: r /\ 1 <= d <= 9.
Proof. intros. apply utoa_aux_hd. split; [done|]. apply utoa_fuel. lia. Qed.

Lemma utoa_aux_cons fuel n acc : exists x r, utoa_aux (S fuel) n acc = x :: r.
Proof.
  revert n acc. induction fuel as [|f IH]; intros n acc; cbn [utoa_aux].
  - destruct (n <? 10); eauto.
  - destruct (n <? 10); [eauto|apply IH].
Qed.

Lemma dec_value_utoa n : 0 <= n -> dec_value (utoa n) = Some n.
Proof.
  intros Hn. pose proof (utoa_fuel n Hn).
  pose proof (dec_acc_utoa_aux _ n [] (conj Hn H)) as E. fold (utoa n) in E.
  destruct (utoa_aux_cons (Z.to_nat (Z.log2 n)) n []) as (x & r & Hx).
  fold (utoa n) in Hx. by rewrite Hx in *.
Qed.

Lemma utoa_aux_digits fuel n acc :
  0 <= n -> Forall (fun b => is_digit b = true) acc ->
  Forall (fun b => is_digit b = true) (utoa_aux fuel n acc).
Proof.
  revert n acc. induction fuel as [|f IH]; intros n acc Hn Ha; [done|]. cbn [utoa_aux].
  assert (Forall (fun b => is_digit b = true) (digit (n mod 10) :: acc)).
  { constructor; [|done]. apply is_digit_digit, Z.mod_pos_bound. lia. }
  destruct (n <? 10); [done|apply IH; [apply Z.div_pos; lia|done]].
Qed.

Lemma utoa_digits n : 0 <= n -> Forall (fun b => is_digit b = true) (utoa n).
Proof. intros. by apply utoa_aux_digits. Qed.

Lemma is_digit_range x : is_digit x = true -> 48 <= byte_to_Z x <= 57.
Proof. unfold is_digit. rewrite andb_true_iff, !Z.leb_le. lia. Qed.

Lemma signed_value_digits b :
  Forall (fun x => is_digit x = true) b -> signed_value b = dec_value b.
Proof.
  intros H. destruct b as [|x r]; [done|]. inversion H as [|? ? Hx _]; subst.
  unfold signed_value. destruct x; try done; discriminate Hx.
Qed.

Lemma signed_value_itoa n : signed_value (itoa n) = Some n.
Proof.
  unfold itoa. destruct (Z.ltb_spec n 0).
  - cbn [signed_value]. rewrite dec_value_utoa by lia. simpl. f_equal. lia.
  - by rewrite signed_value_digits, dec_value_utoa by (done || by apply utoa_digits).
Qed.

Lemma Atoi_Itoa n : in_i64 n -> Atoi (Itoa n) = Ok n.
Proof.
  unfold in_i64, Atoi, Itoa. intros H. rewrite bytes_of_string_of, signed_value_itoa.
  destruct (Z.leb_spec (- 2 ^ 63) n), (Z.ltb_spec n (2 ^ 63)); simpl; (done || lia).
Qed.

(* ------------------------------------------------------------------ *)
(** ** Quoting ([%q]) *)

Definition lower_hex (n : Z) : byte := if n <? 10 then byte_of_Z (48 + n) else byte_of_Z (87 + n).

(** [strconv.Quote] on one byte; the bytes of multi-byte runes are kept. *)
Definition quote_byte (b : byte) : bytes :=
  match b with
  | x22 => [x5c; x22] | x5c => [x5c; x5c]
  | x07 => [x5c; x61] | x08 => [x5c; x62] | x0c => [x5c; x66] | x0a => [x5c; x6e]
  | x0d => [x5c; x72] | x09 => [x5c; x74] | x0b => [x5c; x76]
  | _ =>
      if (byte_to_Z b <? 0x20) || (byte_to_Z b =? 0x7f)
      then [x5c; x78; lower_hex (Z.shiftr (byte_to_Z b) 4); lower_hex (Z.land (byte_to_Z b) 15)]
      else [b]
  end.
Definition Quote (s : string) : string :=
  string_of ([x22] ++ concat (map quote_byte (bytes_of s)) ++ [x22]).

(** ** The order of strings: [a < b] compares bytes. *)
Lemma ltb_negb_leb a b : String.ltb a b = negb (String.leb b a).
Proof.
  unfold String.ltb, String.leb. rewrite (String.compare_antisym b a).
  by destruct (String.compare a b).
Qed.
Lemma string_le_total a b : String.le a b \/ String.le b a.
Proof. unfold String.le. destruct (String.leb_total a b) as [->| ->]; auto. Qed.
Lemma ltb_true a b : String.ltb a b = true -> String.le a b /\ a <> b.
Proof.
  rewrite ltb_negb_leb, negb_true_iff. intros H.
  destruct (string_le_total a b) as [?|Hle]; [|unfold String.le in Hle; rewrite H in Hle; done].
  split; [done|]. intros ->. unfold String.le in *. by rewrite H in *.
Qed.
Lemma ltb_false a b : String.ltb a b = false -> String.le b a.
Proof. rewrite ltb_negb_leb, negb_false_iff. unfold String.le. intros ->. done. Qed.
