(* ===== verification/Json.v ===== *)
(** * [encoding/json]: values, text and the parser

    The messages of the protocol and the files of the program are JSON
    written by [json.Marshal] and read by [json.Unmarshal].  This file models
    the text level: the value tree, Go's compact printer (with its HTML-safe
    escapes and its replacement of invalid UTF-8) and the parser with its
    nesting limit, and shows that the parser inverts the printer. *)
From S2P Require Import Prelude GoStrings.

Notation "a =b b" := (Byte.eqb a b) (at level 70) : go_scope.

Lemma byte_eqb_spec a b : reflect (a = b) (a =b b).
Proof.
  destruct (a =b b) eqn:E; constructor; [by apply Byte.byte_dec_bl|by apply Byte.eqb_false].
Qed.

#[local] Set Warnings "-register-all".
Inductive json : Type :=
  | JNull
  | JBool (b : bool)
  | JNum (lit : bytes)
  | JStr (s : bytes)
  | JArr (l : list json)
  | JObj (l : list (bytes * json)).

(* ------------------------------------------------------------------ *)
(** ** UTF-8 *)

(** A string is walked rune by rune; a byte that starts no well-formed
    sequence is a rune error of width one. *)
Inductive rune : Type := RValid (b : bytes) | RBad.

Definition in_range (lo hi : Z) (b : byte) : bool :=
  (lo <=? byte_to_Z b) && (byte_to_Z b <=? hi).
Definition is_cont : byte -> bool := in_range 0x80 0xBF.
Definition is_seq2 (b1 b2 : byte) : bool := in_range 0xC2 0xDF b1 && is_cont b2.
Definition second_ok (b1 b2 : byte) : bool :=
  in_range
    (if b1 =b xe0 then 0xA0 else if b1 =b xf0 then 0x90 else 0x80)
    (if b1 =b xed then 0x9F else if b1 =b xf4 then 0x8F else 0xBF) b2.
Definition is_seq3 (b1 b2 b3 : byte) : bool :=
  in_range 0xE0 0xEF b1 && second_ok b1 b2 && is_cont b3.
Definition is_seq4 (b1 b2 b3 b4 : byte) : bool :=
  in_range 0xF0 0xF4 b1 && second_ok b1 b2 && is_cont b3 && is_cont b4.

Fixpoint runes (s : bytes) : list rune :=
  match s with
  | [] => []
  | b1 :: r1 =>
      if byte_to_Z b1 <? 0x80 then RValid [b1] :: runes r1
      else
        match r1 with
        | [] => [RBad]
        | b2 :: r2 =>
            if is_seq2 b1 b2 then RValid [b1; b2] :: runes r2
            else
              match r2 with
              | [] => RBad :: runes r1
              | b3 :: r3 =>
                  if is_seq3 b1 b2 b3 then RValid [b1; b2; b3] :: runes r3
                  else
                    match r3 with
                    | [] => RBad :: runes r1
                    | b4 :: r4 =>
                        if is_seq4 b1 b2 b3 b4 then RValid [b1; b2; b3; b4] :: runes r4
                        else RBad :: runes r1
                    end
              end
        end
  end.

Definition rune_ok (r : rune) : bool := match r with RValid _ => true | RBad => false end.
(** [utf8.ValidString]. *)
Definition utf8_valid (s : bytes) : bool := forallb rune_ok (runes s).

(** [utf8.AppendRune]. *)
Definition encode_rune (r : Z) : bytes :=
  if r <? 0x80 then [byte_of_Z r]
  else if r <? 0x800 then
    [byte_of_Z (Z.lor 0xC0 (Z.shiftr r 6)); byte_of_Z (Z.lor 0x80 (Z.land r 0x3F))]
  else if (0xD800 <=? r) && (r <=? 0xDFFF) || (0x10FFFF <? r) then [xef; xbf; xbd]
  else if r <? 0x10000 then
    [byte_of_Z (Z.lor 0xE0 (Z.shiftr r 12));
     byte_of_Z (Z.lor 0x80 (Z.land (Z.shiftr r 6) 0x3F));
     byte_of_Z (Z.lor 0x80 (Z.land r 0x3F))]
  else
    [byte_of_Z (Z.lor 0xF0 (Z.shiftr r 18));
     byte_of_Z (Z.lor 0x80 (Z.land (Z.shiftr r 12) 0x3F));
     byte_of_Z (Z.lor 0x80 (Z.land (Z.shiftr r 6) 0x3F));
     byte_of_Z (Z.lor 0x80 (Z.land r 0x3F))].

(* ------------------------------------------------------------------ *)
(** ** The printer *)

Definition hex_digit (n : Z) : byte := if n <? 10 then byte_of_Z (48 + n) else byte_of_Z (87 + n).
Definition hex_escape (n : Z) : bytes :=
  [x5c; x75; x30; x30; hex_digit (Z.shiftr n 4); hex_digit (Z.land n 15)].

Definition quote_ascii (b : byte) : bytes :=
  if (b =b x22) || (b =b x5c) then [x5c; b]
  else if b =b x08 then [x5c; x62]
  else if b =b x0c then [x5c; x66]
  else if b =b x0a then [x5c; x6e]
  else if b =b x0d then [x5c; x72]
  else if b =b x09 then [x5c; x74]
  else if (byte_to_Z b <? 0x20) || (b =b x3c) || (b =b x3e) || (b =b x26)
  then hex_escape (byte_to_Z b)
  else [b].

Definition quote_rune (r : rune) : bytes :=
  match r with
  | RBad => [x5c; x75; x66; x66; x66; x64]
  | RValid [b] => quote_ascii b
  | RValid [b1; b2; b3] =>
      if (b1 =b xe2) && (b2 =b x80) && ((b3 =b xa8) || (b3 =b xa9))
      then [x5c; x75; x32; x30; x32; (if b3 =b xa8 then x38 else x39)]
      else [b1; b2; b3]
  | RValid b => b
  end.

Definition quote_body (s : bytes) : bytes := concat (map quote_rune (runes s)) ++ [x22].
Definition quote (s : bytes) : bytes := x22 :: quote_body s.

(** The text of a value in a layout: [nl d] is written before each item and
    before the closing bracket of a non-empty array or object at depth [d], and
    [sp] after each colon. *)
Fixpoint print_with (nl : nat -> bytes) (sp : bytes) (d : nat) (j : json) : bytes :=
  match j with
  | JNull => [x6e; x75; x6c; x6c]
  | JBool true => [x74; x72; x75; x65]
  | JBool false => [x66; x61; x6c; x73; x65]
  | JNum lit => lit
  | JStr s => quote s
  | JArr l =>
      x5b ::
      (fix elems (first : bool) (l : list json) : bytes :=
         match l with
         | [] => (if first then [] else nl d) ++ [x5d]
         | v :: l =>
             (if first then [] else [x2c]) ++ nl (S d) ++ print_with nl sp (S d) v ++ elems false l
         end) true l
  | JObj l =>
      x7b ::
      (fix members (first : bool) (l : list (bytes * json)) : bytes :=
         match l with
         | [] => (if first then [] else nl d) ++ [x7d]
         | (k, v) :: l =>
             (if first then [] else [x2c]) ++ nl (S d) ++ quote k ++ x3a :: sp ++
             print_with nl sp (S d) v ++ members false l
         end) true l
  end.

(** [json.Marshal] writes no white space; [json.MarshalIndent] with an empty
    prefix and two spaces starts a line per item. *)
Definition print (j : json) : bytes := print_with (fun _ => []) [] 0 j.
Definition print_indent (j : json) : bytes :=
  print_with (fun d => x0a :: repeat x20 (2 * d)) [x20] 0 j.

(* ------------------------------------------------------------------ *)
(** ** The parser *)

Definition is_ws (b : byte) : bool := (b =b x20) || (b =b x09) || (b =b x0a) || (b =b x0d).
Fixpoint skip_ws (s : bytes) : bytes :=
  match s with
  | [] => []
  | b :: r => if is_ws b then skip_ws r else s
  end.

Definition hex_val (b : byte) : option Z :=
  if is_digit b then Some (digit_val b)
  else if in_range 97 102 b then Some (byte_to_Z b - 87)
  else if in_range 65 70 b then Some (byte_to_Z b - 55)
  else None.
Definition hex4 (a b c d : byte) : option Z :=
  match hex_val a, hex_val b, hex_val c, hex_val d with
  | Some a, Some b, Some c, Some d => Some (((a * 16 + b) * 16 + c) * 16 + d)
  | _, _, _, _ => None
  end.

Definition push (b : bytes) (o : option (bytes * bytes)) : option (bytes * bytes) :=
  match o with Some (s, r) => Some (b ++ s, r) | None => None end.

Definition simple_escape (c : byte) : option byte :=
  if (c =b x22) || (c =b x5c) || (c =b x2f) then Some c
  else if c =b x62 then Some x08
  else if c =b x66 then Some x0c
  else if c =b x6e then Some x0a
  else if c =b x72 then Some x0d
  else if c =b x74 then Some x09
  else None.

Definition is_high (u : Z) : bool := (0xD800 <=? u) && (u <? 0xDC00).
Definition is_low (u : Z) : bool := (0xDC00 <=? u) && (u <? 0xE000).
Definition join_surrogates (hi lo : Z) : Z :=
  Z.lor (Z.shiftl (hi - 0xD800) 10) (lo - 0xDC00) + 0x10000.

(** The low surrogate that follows a high one, when there is one. *)
Definition low_escape (s : bytes) : option Z :=
  match s with
  | e :: u :: a :: b :: c :: d :: _ =>
      if (e =b x5c) && (u =b x75) then
        match hex4 a b c d with
        | Some v => if is_low v then Some v else None
        | None => None
        end
      else None
  | _ => None
  end.

(** The characters after an opening quote, up to and with the closing one:
    the decoded string and the rest of the input. *)
Fixpoint parse_chars (s : bytes) : option (bytes * bytes) :=
  match s with
  | [] => None
  | b :: r =>
      if b =b x22 then Some ([], r)
      else if b =b x5c then
        match r with
        | [] => None
        | c :: r1 =>
            if c =b x75 then
              match r1 with
              | h1 :: h2 :: h3 :: h4 :: r2 =>
                  match hex4 h1 h2 h3 h4 with
                  | None => None
                  | Some u =>
                      match (if is_high u then low_escape r2 else None), r2 with
                      | Some lo, _ :: _ :: _ :: _ :: _ :: _ :: r3 =>
                          push (encode_rune (join_surrogates u lo)) (parse_chars r3)
                      | _, _ => push (encode_rune u) (parse_chars r2)
                      end
                  end
              | _ => None
              end
            else
              match simple_escape c with
              | Some x => push [x] (parse_chars r1)
              | None => None
              end
        end
      else if byte_to_Z b <? 0x20 then None
      else if byte_to_Z b <? 0x80 then push [b] (parse_chars r)
      else
        match r with
        | [] => None
        | b2 :: r2 =>
            if is_seq2 b b2 then push [b; b2] (parse_chars r2)
            else
              match r2 with
              | [] => push [xef; xbf; xbd] (parse_chars r)
              | b3 :: r3 =>
                  if is_seq3 b b2 b3 then push [b; b2; b3] (parse_chars r3)
                  else
                    match r3 with
                    | [] => push [xef; xbf; xbd] (parse_chars r)
                    | b4 :: r4 =>
                        if is_seq4 b b2 b3 b4 then push [b; b2; b3; b4] (parse_chars r4)
                        else push [xef; xbf; xbd] (parse_chars r)
                    end
              end
        end
  end.

Fixpoint span_digits (s : bytes) : bytes * bytes :=
  match s with
  | [] => ([], [])
  | b :: r =>
      if is_digit b then let '(d, t) := span_digits r in (b :: d, t) else ([], s)
  end.

Definition parse_frac (s : bytes) : option (bytes * bytes) :=
  match s with
  | b :: r =>
      if b =b x2e then
        match span_digits r with ([], _) => None | (d, t) => Some (b :: d, t) end
      else Some ([], s)
  | [] => Some ([], [])
  end.

Definition parse_exp (s : bytes) : option (bytes * bytes) :=
  match s with
  | b :: r =>
      if (b =b x65) || (b =b x45) then
        let '(sign, r1) :=
          match r with
          | c :: r1 => if (c =b x2b) || (c =b x2d) then ([c], r1) else ([], r)
          | [] => ([], [])
          end in
        match span_digits r1 with ([], _) => None | (d, t) => Some (b :: sign ++ d, t) end
      else Some ([], s)
  | [] => Some ([], [])
  end.

Definition parse_int (s : bytes) : option (bytes * bytes) :=
  match s with
  | b :: r =>
      if b =b x30 then Some ([b], r)
      else match span_digits s with ([], _) => None | (d, t) => Some (d, t) end
  | [] => None
  end.

Definition parse_number (s : bytes) : option (bytes * bytes) :=
  let '(sign, s1) :=
    match s with
    | b :: r => if b =b x2d then ([b], r) else ([], s)
    | [] => ([], [])
    end in
  match parse_int s1 with
  | None => None
  | Some (i, s2) =>
      match parse_frac s2 with
      | None => None
      | Some (f, s3) =>
          match parse_exp s3 with
          | None => None
          | Some (e, s4) => Some (sign ++ i ++ f ++ e, s4)
          end
      end
  end.

Definition strip_prefix (p s : bytes) : option bytes :=
  if bool_decide (take (length p) s = p) then Some (drop (length p) s) else None.

(** The scanner refuses more than 10000 open arrays and objects. *)
Definition max_depth : Z := 10000.

Fixpoint parse_value (fuel : nat) (depth : Z) (s : bytes) : option (json * bytes) :=
  match fuel with
  | O => None
  | S f =>
      match skip_ws s with
      | [] => None
      | b :: r =>
          if b =b x22 then
            match parse_chars r with Some (v, t) => Some (JStr v, t) | None => None end
          else if b =b x5b then
            if max_depth <=? depth then None else
            match skip_ws r with
            | c :: t =>
                if c =b x5d then Some (JArr [], t)
                else match parse_elems f (depth + 1) r with
                     | Some (l, t) => Some (JArr l, t)
                     | None => None
                     end
            | [] => None
            end
          else if b =b x7b then
            if max_depth <=? depth then None else
            match skip_ws r with
            | c :: t =>
                if c =b x7d then Some (JObj [], t)
                else match parse_members f (depth + 1) r with
                     | Some (l, t) => Some (JObj l, t)
                     | None => None
                     end
            | [] => None
            end
          else if b =b x6e then
            match strip_prefix [x75; x6c; x6c] r with Some t => Some (JNull, t) | None => None end
          else if b =b x74 then
            match strip_prefix [x72; x75; x65] r with Some t => Some (JBool true, t) | None => None end
          else if b =b x66 then
            match strip_prefix [x61; x6c; x73; x65] r with
            | Some t => Some (JBool false, t)
            | None => None
            end
          else
            match parse_number (b :: r) with Some (n, t) => Some (JNum n, t) | None => None end
      end
  end
with parse_elems (fuel : nat) (depth : Z) (s : bytes) : option (list json * bytes) :=
  match fuel with
  | O => None
  | S f =>
      match parse_value f depth s with
      | None => None
      | Some (v, r) =>
          match skip_ws r with
          | c :: t =>
              if c =b x5d then Some ([v], t)
              else if c =b x2c then
                match parse_elems f depth t with
                | Some (l, t') => Some (v :: l, t')
                | None => None
                end
              else None
          | [] => None
          end
      end
  end
with parse_members (fuel : nat) (depth : Z) (s : bytes) : option (list (bytes * json) * bytes) :=
  match fuel with
  | O => None
  | S f =>
      match skip_ws s with
      | q :: r =>
          if q =b x22 then
            match parse_chars r with
            | None => None
            | Some (k, r1) =>
                match skip_ws r1 with
                | c :: r2 =>
                    if c =b x3a then
                      match parse_value f depth r2 with
                      | None => None
                      | Some (v, r3) =>
                          match skip_ws r3 with
                          | c :: t =>
                              if c =b x7d then Some ([(k, v)], t)
                              else if c =b x2c then
                                match parse_members f depth t with
                                | Some (l, t') => Some ((k, v) :: l, t')
                                | None => None
                                end
                              else None
                          | [] => None
                          end
                      end
                    else None
                | [] => None
                end
            end
          else None
      | [] => None
      end
  end.

(** One value and nothing but white space after it.  Every nested call
    consumes input at least every second step, so twice the length is enough
    fuel. *)
Definition parse (s : bytes) : option json :=
  match parse_value (2 * length s + 2) 0 s with
  | Some (j, r) => match skip_ws r with [] => Some j | _ => None end
  | None => None
  end.

(* ------------------------------------------------------------------ *)
(** ** The parser inverts the printer *)

(** The shape of a well-formed rune. *)
Inductive wf_rune : rune -> Prop :=
  | wf_rune1 b1 : byte_to_Z b1 < 0x80 -> wf_rune (RValid [b1])
  | wf_rune2 b1 b2 : is_seq2 b1 b2 = true -> wf_rune (RValid [b1; b2])
  | wf_rune3 b1 b2 b3 :
      is_seq2 b1 b2 = false -> is_seq3 b1 b2 b3 = true -> wf_rune (RValid [b1; b2; b3])
  | wf_rune4 b1 b2 b3 b4 :
      is_seq2 b1 b2 = false -> is_seq3 b1 b2 b3 = false -> is_seq4 b1 b2 b3 b4 = true ->
      wf_rune (RValid [b1; b2; b3; b4]).

Definition rune_bytes (r : rune) : bytes := match r with RValid b => b | RBad => [] end.

Lemma runes_step b1 r1 :
  (exists p t, b1 :: r1 = p ++ t /\ p <> [] /\ wf_rune (RValid p) /\
     runes (b1 :: r1) = RValid p :: runes t) \/
  exists l, runes (b1 :: r1) = RBad :: l.
Proof.
  cbn [runes]. destruct (Z.ltb_spec (byte_to_Z b1) 0x80) as [H|H].
  { left. exists [b1], r1. split_and!; try done. by constructor. }
  destruct r1 as [|b2 r2]; [eauto|].
  destruct (is_seq2 b1 b2) eqn:E2.
  { left. exists [b1; b2], r2. split_and!; try done. by constructor. }
  destruct r2 as [|b3 r3]; [eauto|].
  destruct (is_seq3 b1 b2 b3) eqn:E3.
  { left. exists [b1; b2; b3], r3. split_and!; try done. by constructor. }
  destruct r3 as [|b4 r4]; [eauto|].
  destruct (is_seq4 b1 b2 b3 b4) eqn:E4; [|eauto].
  left. exists [b1; b2; b3; b4], r4. split_and!; try done. by constructor.
Qed.

Lemma runes_valid s :
  utf8_valid s = true -> Forall wf_rune (runes s) /\ concat (map rune_bytes (runes s)) = s.
Proof.
  unfold utf8_valid. induction s as [s IH] using (induction_ltof1 _ length).
  unfold ltof in IH. destruct s as [|b1 r1]; [by repeat constructor|].
  destruct (runes_step b1 r1) as [(p & t & Hs & Hp & Hw & ->)|[l ->]]; [|done].
  intros Ht. destruct (IH t) as [H1 H2]; [|done|].
  - rewrite Hs, length_app. destruct p; [done|simpl; lia].
  - split; [by constructor|]. cbn [map concat rune_bytes]. by rewrite H2, Hs.
Qed.

Lemma high_byte b :
  0x80 <= byte_to_Z b ->
  (b =b x22) = false /\ (b =b x5c) = false /\
  (byte_to_Z b <? 0x20) = false /\ (byte_to_Z b <? 0x80) = false.
Proof.
  intros H. destruct (byte_eqb_spec b x22) as [->|]; [by vm_compute in H|].
  destruct (byte_eqb_spec b x5c) as [->|]; [by vm_compute in H|].
  repeat split; lia.
Qed.

Lemma in_range_true lo hi b : in_range lo hi b = true -> lo <= byte_to_Z b <= hi.
Proof. unfold in_range. lia. Qed.

Lemma parse_chars_ascii b rest :
  byte_to_Z b < 0x80 -> parse_chars (quote_ascii b ++ rest) = push [b] (parse_chars rest).
Proof. intros H. destruct b; first [reflexivity|by vm_compute in H]. Qed.

Lemma parse_chars_rune r rest :
  wf_rune r -> parse_chars (quote_rune r ++ rest) = push (rune_bytes r) (parse_chars rest).
Proof.
  assert (forall b, 0x80 <= byte_to_Z b -> forall (A : Type) (x y z u v : A),
    (if b =b x22 then x else if b =b x5c then y else if byte_to_Z b <? 0x20 then z
     else if byte_to_Z b <? 0x80 then u else v) = v) as skip.
  { intros b Hb A x y z u v. by destruct (high_byte b Hb) as (-> & -> & -> & ->). }
  destruct 1 as [b1 H|b1 b2 H|b1 b2 b3 H2 H|b1 b2 b3 b4 H2 H3 H].
  - by apply parse_chars_ascii.
  - assert (0x80 <= byte_to_Z b1).
    { apply andb_true_iff in H as [H _]. apply in_range_true in H. lia. }
    cbn [quote_rune app parse_chars]. by rewrite skip, H.
  - assert (0x80 <= byte_to_Z b1).
    { unfold is_seq3 in H. rewrite !andb_true_iff in H.
      destruct H as [[H _] _]. apply in_range_true in H. lia. }
    cbn [quote_rune]. destruct ((b1 =b xe2) && (b2 =b x80) && _) eqn:E.
    + rewrite !andb_true_iff, orb_true_iff in E.
      destruct E as [[->%Byte.byte_dec_bl ->%Byte.byte_dec_bl] [->%Byte.byte_dec_bl| ->%Byte.byte_dec_bl]];
        reflexivity.
    + cbn [app parse_chars]. by rewrite skip, H2, H.
  - assert (0x80 <= byte_to_Z b1).
    { unfold is_seq4 in H. rewrite !andb_true_iff in H.
      destruct H as [[[H _] _] _]. apply in_range_true in H. lia. }
    cbn [quote_rune app parse_chars]. by rewrite skip, H2, H3, H.
Qed.

Lemma parse_chars_runes l rest :
  Forall wf_rune l ->
  parse_chars (concat (map quote_rune l) ++ x22 :: rest) =
  Some (concat (map rune_bytes l), rest).
Proof.
  induction 1 as [|r l Hr _ IH]; [done|].
  cbn [map concat]. rewrite <- app_assoc, parse_chars_rune, IH by done. done.
Qed.

Lemma parse_chars_quote s rest :
  utf8_valid s = true -> parse_chars (quote_body s ++ rest) = Some (s, rest).
Proof.
  intros [Hw Hs]%runes_valid. unfold quote_body.
  rewrite <- app_assoc. cbn [app]. by rewrite parse_chars_runes, Hs.
Qed.

(** *** Numbers *)

Definition delim (s : bytes) : Prop :=
  match s with
  | [] => True
  | b :: _ => b = x2c \/ b = x5d \/ b = x7d \/ is_ws b = true
  end.

Lemma span_digits_app d rest :
  Forall (fun b => is_digit b = true) d ->
  match rest with [] => True | b :: _ => is_digit b = false end ->
  span_digits (d ++ rest) = (d, rest).
Proof.
  intros Hd Hr. induction Hd as [|x d Hx _ IH]; cbn [app span_digits].
  - destruct rest as [|b r]; [done|]. cbn [span_digits]. by rewrite Hr.
  - by rewrite Hx, IH.
Qed.

Lemma delim_stop s :
  delim s ->
  match s with [] => True | b :: _ => is_digit b = false end /\
  parse_frac s = Some ([], s) /\ parse_exp s = Some ([], s).
Proof.
  destruct s as [|b r]; [done|]. intros [->|[->|[->|H]]]; try done.
  by destruct b; try discriminate H.
Qed.

Definition num_lit (lit : bytes) : Prop :=
  forall rest, delim rest -> parse_number (lit ++ rest) = Some (lit, rest).

Lemma parse_int_utoa n rest :
  0 <= n -> delim rest -> parse_int (utoa n ++ rest) = Some (utoa n, rest).
Proof.
  intros Hn Hr. destruct (Z.eq_dec n 0) as [->|Hnz]; [done|].
  pose proof (utoa_digits n Hn) as Hd.
  destruct (utoa_hd n ltac:(lia)) as (d & r & Hu & Hd1).
  unfold parse_int. rewrite span_digits_app by (done || by apply delim_stop).
  rewrite Hu. cbn [app]. destruct (byte_eqb_spec (digit d) x30) as [E|]; [|done].
  apply (f_equal digit_val) in E. rewrite digit_val_digit in E by lia.
  change (digit_val x30) with 0 in E. lia.
Qed.

Lemma utoa_not_minus n : 0 <= n -> exists x r, utoa n = x :: r /\ is_digit x = true.
Proof.
  intros Hn. pose proof (utoa_digits n Hn) as Hd.
  destruct (utoa_aux_cons (Z.to_nat (Z.log2 n)) n []) as (x & r & Hx).
  fold (utoa n) in Hx. rewrite Hx in *. inversion Hd; eauto.
Qed.

Lemma num_lit_itoa n : num_lit (itoa n).
Proof.
  intros rest Hr. unfold itoa, parse_number.
  destruct (delim_stop rest Hr) as (_ & Hf & He).
  destruct (Z.ltb_spec n 0).
  - cbn [app Byte.eqb]. change (x2d =b x2d) with true. cbn iota.
    rewrite parse_int_utoa by (done || lia). by rewrite Hf, He, !app_nil_r.
  - destruct (utoa_not_minus n ltac:(lia)) as (x & r & Hu & Hx).
    pose proof (parse_int_utoa n rest ltac:(lia) Hr) as Hp.
    rewrite Hu in *. cbn [app] in *. destruct (byte_eqb_spec x x2d) as [->|]; [done|].
    by rewrite Hp, Hf, He, !app_nil_r.
Qed.

(** *** Values *)

(** What [json.Marshal] is given: integers and valid UTF-8. *)
Fixpoint jwf (j : json) : Prop :=
  match j with
  | JNull | JBool _ => True
  | JNum lit => exists n, lit = itoa n
  | JStr s => utf8_valid s = true
  | JArr l => (fix all l := match l with [] => True | v :: l => jwf v /\ all l end) l
  | JObj l =>
      (fix all l :=
         match l with
         | [] => True
         | (k, v) :: l => utf8_valid k = true /\ jwf v /\ all l
         end) l
  end.

Fixpoint jdepth (j : json) : Z :=
  match j with
  | JArr l => 1 + (fix go l := match l with [] => 0 | v :: l => Z.max (jdepth v) (go l) end) l
  | JObj l =>
      1 + (fix go l := match l with [] => 0 | (_, v) :: l => Z.max (jdepth v) (go l) end) l
  | _ => 0
  end.

Fixpoint jfuel (j : json) : nat :=
  match j with
  | JArr l => S ((fix go l := match l with [] => O | v :: l => S (jfuel v + go l) end) l)
  | JObj l => S ((fix go l := match l with [] => O | (_, v) :: l => S (jfuel v + go l) end) l)
  | _ => 1%nat
  end.
Fixpoint elems_fuel (l : list json) : nat :=
  match l with [] => O | v :: l => S (jfuel v + elems_fuel l) end.
Fixpoint members_fuel (l : list (bytes * json)) : nat :=
  match l with [] => O | kv :: l => S (jfuel kv.2 + members_fuel l) end.

Lemma jfuel_JArr l : jfuel (JArr l) = S (elems_fuel l).
Proof. reflexivity. Qed.
Lemma jfuel_JObj l : jfuel (JObj l) = S (members_fuel l).
Proof.
  cbn [jfuel]. f_equal. induction l as [|[k v] l IH]; [done|]. cbn in *. by rewrite IH.
Qed.
Lemma jwf_JArr l : jwf (JArr l) <-> Forall jwf l.
Proof. cbn [jwf]. induction l as [|v l IH]; [done|]. rewrite Forall_cons, IH. done. Qed.
Lemma jwf_JObj l :
  jwf (JObj l) <-> Forall (fun kv => utf8_valid kv.1 = true /\ jwf kv.2) l.
Proof.
  cbn [jwf]. induction l as [|[k v] l IH]; [done|].
  rewrite Forall_cons, IH. simpl. tauto.
Qed.
Lemma jdepth_JArr d l :
  d + jdepth (JArr l) <= max_depth -> Forall (fun v => d + 1 + jdepth v <= max_depth) l.
Proof.
  cbn [jdepth]. induction l as [|v l IH]; [constructor|].
  intros H. constructor; [lia|]. apply IH. lia.
Qed.
Lemma jdepth_JObj d l :
  d + jdepth (JObj l) <= max_depth -> Forall (fun kv => d + 1 + jdepth kv.2 <= max_depth) l.
Proof.
  cbn [jdepth]. induction l as [|[k v] l IH]; [constructor|].
  intros H. constructor; [simpl; lia|]. apply IH. lia.
Qed.
Lemma jdepth_nonneg j : 0 <= jdepth j.
Proof.
  destruct j as [| | | |l|l]; cbn [jdepth]; try done.
  - induction l; lia.
  - induction l as [|[? ?] ? ?]; lia.
Qed.
Lemma jdepth_open d l : d + jdepth (JArr l) <= max_depth -> (max_depth <=? d) = false.
Proof. intros H. apply Z.leb_gt. cbn [jdepth] in H.
  enough (0 <= (fix go l := match l with [] => 0 | v :: l => Z.max (jdepth v) (go l) end) l) by lia.
  clear. induction l; lia.
Qed.
Lemma jdepth_open_obj d l : d + jdepth (JObj l) <= max_depth -> (max_depth <=? d) = false.
Proof. intros H. apply Z.leb_gt. cbn [jdepth] in H.
  enough (0 <= (fix go l := match l with [] => 0 | (_, v) :: l => Z.max (jdepth v) (go l) end) l) by lia.
  clear. induction l as [|[? ?] ? ?]; lia.
Qed.

(** The first byte of a printed value. *)
Definition starts_value (b : byte) : Prop :=
  is_ws b = false /\ (b =b x5d) = false /\ (b =b x7d) = false.

Lemma itoa_hd n : exists b r, itoa n = b :: r /\ (b = x2d \/ is_digit b = true).
Proof.
  unfold itoa. destruct (Z.ltb_spec n 0); [eauto|].
  destruct (utoa_not_minus n ltac:(lia)) as (x & r & -> & ?). eauto.
Qed.
Lemma digit_starts b : b = x2d \/ is_digit b = true ->
  starts_value b /\ (b =b x22) = false /\ (b =b x5b) = false /\ (b =b x7b) = false /\
  (b =b x6e) = false /\ (b =b x74) = false /\ (b =b x66) = false.
Proof. intros [->|H]; [done|]. destruct b; try done; discriminate H. Qed.

(** *** White space *)

Definition ws_only (s : bytes) : Prop := Forall (fun b => is_ws b = true) s.

Lemma skip_ws_app u s : ws_only u -> skip_ws (u ++ s) = skip_ws s.
Proof. induction 1 as [|b u Hb _ IH]; [done|]. cbn. by rewrite Hb. Qed.

Lemma skip_ws_cons b s : is_ws b = false -> skip_ws (b :: s) = b :: s.
Proof. intros H. cbn. by rewrite H. Qed.

Lemma parse_value_ws f d u s : ws_only u -> parse_value f d (u ++ s) = parse_value f d s.
Proof. intros H. destruct f; [done|]. cbn [parse_value]. by rewrite skip_ws_app. Qed.

Lemma parse_elems_ws f d u s : ws_only u -> parse_elems f d (u ++ s) = parse_elems f d s.
Proof. intros H. destruct f; [done|]. cbn [parse_elems]. by rewrite parse_value_ws. Qed.

Lemma parse_members_ws f d u s : ws_only u -> parse_members f d (u ++ s) = parse_members f d s.
Proof. intros H. destruct f; [done|]. cbn [parse_members]. by rewrite skip_ws_app. Qed.

Lemma delim_ws u s : ws_only u -> delim s -> delim (u ++ s).
Proof. intros [|b u' Hb _] Hs; [done|]. right; right; right. done. Qed.

(** *** Values in a layout *)

Section Layout.
Variables (nl : nat -> bytes) (sp : bytes).
Hypothesis nl_ws : forall d, ws_only (nl d).
Hypothesis sp_ws : ws_only sp.

Abbreviation text := (print_with nl sp).

Fixpoint print_elems (d : nat) (first : bool) (l : list json) : bytes :=
  match l with
  | [] => (if first then [] else nl d) ++ [x5d]
  | v :: l => (if first then [] else [x2c]) ++ nl (S d) ++ text (S d) v ++ print_elems d false l
  end.
Fixpoint print_members (d : nat) (first : bool) (l : list (bytes * json)) : bytes :=
  match l with
  | [] => (if first then [] else nl d) ++ [x7d]
  | (k, v) :: l =>
      (if first then [] else [x2c]) ++ nl (S d) ++ quote k ++ x3a :: sp ++
      text (S d) v ++ print_members d false l
  end.
Lemma print_JArr d l : text d (JArr l) = x5b :: print_elems d true l.
Proof.
  cbn [print_with]. f_equal. generalize true. induction l as [|v l IH]; intros b; [done|].
  cbn [print_elems]. by rewrite IH.
Qed.
Lemma print_JObj d l : text d (JObj l) = x7b :: print_members d true l.
Proof.
  cbn [print_with]. f_equal. generalize true. induction l as [|[k v] l IH]; intros b; [done|].
  cbn [print_members]. by rewrite IH.
Qed.

Lemma print_hd d j : jwf j -> exists b r, text d j = b :: r /\ starts_value b.
Proof.
  destruct j as [|[]|lit|s|l|l]; cbn [jwf]; try (by intros _; eexists _, _).
  intros [n ->]. destruct (itoa_hd n) as (b & r & E & H).
  exists b, r. split; [done|]. by apply digit_starts.
Qed.

Definition parses (j : json) : Prop :=
  forall f d lv rest,
    (jfuel j <= f)%nat -> d + jdepth j <= max_depth -> delim rest ->
    parse_value f d (text lv j ++ rest) = Some (j, rest).

Lemma delim_elems lv l rest : delim (print_elems lv false l ++ rest).
Proof.
  destruct l; cbn [print_elems]; [|by left]. rewrite <-app_assoc. apply delim_ws; [done|].
  by right; left.
Qed.
Lemma delim_members lv l rest : delim (print_members lv false l ++ rest).
Proof.
  destruct l as [|[k v] l]; cbn [print_members]; [|by left]. rewrite <-app_assoc.
  apply delim_ws; [done|]. by right; right; left.
Qed.

Lemma print_elems_true lv v l rest :
  print_elems lv true (v :: l) ++ rest =
  nl (S lv) ++ text (S lv) v ++ print_elems lv false l ++ rest.
Proof. cbn [print_elems app]. by rewrite <- !app_assoc. Qed.
Lemma print_elems_false lv v l rest :
  print_elems lv false (v :: l) ++ rest = x2c :: print_elems lv true (v :: l) ++ rest.
Proof. done. Qed.
Lemma print_members_true lv k v l rest :
  print_members lv true ((k, v) :: l) ++ rest =
  nl (S lv) ++ x22 :: quote_body k ++ x3a :: sp ++ text (S lv) v ++ print_members lv false l ++ rest.
Proof.
  cbn [print_members app]. unfold quote. cbn [app]. rewrite <- app_assoc. cbn [app].
  rewrite <- !app_assoc. cbn [app]. by rewrite <- !app_assoc.
Qed.
Lemma print_members_false lv kv l rest :
  print_members lv false (kv :: l) ++ rest = x2c :: print_members lv true (kv :: l) ++ rest.
Proof. by destruct kv. Qed.
Lemma skip_elems_end lv rest : skip_ws (print_elems lv false [] ++ rest) = x5d :: rest.
Proof. cbn [print_elems]. rewrite <-app_assoc. by rewrite skip_ws_app. Qed.
Lemma skip_members_end lv rest : skip_ws (print_members lv false [] ++ rest) = x7d :: rest.
Proof. cbn [print_members]. rewrite <-app_assoc. by rewrite skip_ws_app. Qed.

Lemma parse_elems_print lv v l f d rest :
  Forall parses (v :: l) ->
  Forall (fun v => d + jdepth v <= max_depth) (v :: l) ->
  (elems_fuel (v :: l) <= f)%nat ->
  parse_elems f d (print_elems lv true (v :: l) ++ rest) = Some (v :: l, rest).
Proof.
  revert v f. induction l as [|w l IH]; intros v f [Hv Hl]%Forall_cons [Dv Dl]%Forall_cons Hf;
    (destruct f as [|f]; [cbn in Hf; lia|]); rewrite print_elems_true, parse_elems_ws by done;
    cbn [parse_elems]; rewrite Hv by (cbn in Hf; lia || done || apply delim_elems).
  - by rewrite skip_elems_end.
  - rewrite print_elems_false.
    change (skip_ws (x2c :: ?r)) with (x2c :: r). cbn iota.
    by rewrite IH by (cbn in *; lia || done).
Qed.

Lemma parse_members_print lv k v l f d rest :
  Forall (fun kv => utf8_valid kv.1 = true /\ parses kv.2) ((k, v) :: l) ->
  Forall (fun kv => d + jdepth kv.2 <= max_depth) ((k, v) :: l) ->
  (members_fuel ((k, v) :: l) <= f)%nat ->
  parse_members f d (print_members lv true ((k, v) :: l) ++ rest) = Some ((k, v) :: l, rest).
Proof.
  revert k v f. induction l as [|[k2 w] l IH];
    intros k v f [[Hk Hv] Hl]%Forall_cons [Dv Dl]%Forall_cons Hf; simpl in Hk, Hv, Dv;
    (destruct f as [|f]; [cbn in Hf; lia|]); rewrite print_members_true, parse_members_ws by done;
    cbn [parse_members];
    change (skip_ws (x22 :: ?r)) with (x22 :: r); cbn iota;
    rewrite parse_chars_quote by done;
    change (skip_ws (x3a :: ?r)) with (x3a :: r); cbn iota;
    rewrite parse_value_ws by done;
    rewrite Hv by (cbn in Hf; lia || done || apply delim_members).
  - by rewrite skip_members_end.
  - rewrite print_members_false.
    change (skip_ws (x2c :: ?r)) with (x2c :: r). cbn iota.
    by rewrite IH by (cbn in *; lia || done).
Qed.

Lemma elems_fuel_elem v l : v ∈ l -> (S (jfuel v) <= elems_fuel l)%nat.
Proof. induction 1; simpl; lia. Qed.
Lemma members_fuel_elem kv l : kv ∈ l -> (S (jfuel kv.2) <= members_fuel l)%nat.
Proof. induction 1; simpl; lia. Qed.

Lemma parse_value_print j : jwf j -> parses j.
Proof.
  induction j as [j IH] using (induction_ltof1 _ jfuel). unfold ltof in IH.
  intros Hw f d lv rest Hf Hd Hr. destruct f as [|f]; [destruct j; simpl in Hf; lia|].
  destruct j as [|[]|lit|s|l|l]; try reflexivity.
  - destruct Hw as [n ->]. destruct (itoa_hd n) as (b & r & Hn & Hb).
    pose proof (num_lit_itoa n rest Hr) as Hp.
    destruct (digit_starts b Hb) as ((Hws & _) & E1 & E2 & E3 & E4 & E5 & E6).
    cbn [print_with]. rewrite Hn in *. cbn [app] in *.
    cbn [parse_value skip_ws]. by rewrite Hws, E1, E2, E3, E4, E5, E6, Hp.
  - cbn. unfold quote. cbn [app]. change (is_ws x22) with false.
    cbn. change (x22 =b x22) with true. cbn iota.
    by rewrite parse_chars_quote.
  - rewrite jfuel_JArr in Hf, IH. rewrite jwf_JArr in Hw. rewrite print_JArr.
    pose proof (jdepth_open d l Hd) as Hopen. apply jdepth_JArr in Hd.
    cbn [parse_value app skip_ws]. change (is_ws x5b) with false.
    change (x5b =b x22) with false. change (x5b =b x5b) with true. cbn iota.
    rewrite Hopen. destruct l as [|v l]; [done|].
    assert (Forall parses (v :: l)) as Hp.
    { apply Forall_forall. intros u Hu. rewrite Forall_forall in Hw.
      apply IH; [|by apply Hw]. apply elems_fuel_elem in Hu. lia. }
    destruct (print_hd (S lv) v) as (b & r & Hv & (Hb1 & Hb2 & _));
      [by apply Forall_cons in Hw as [? _]|].
    pose proof (parse_elems_print lv v l f (d + 1) rest Hp Hd ltac:(lia)) as E.
    rewrite E, print_elems_true, skip_ws_app, Hv by done. cbn [app].
    by rewrite skip_ws_cons, Hb2.
  - rewrite jfuel_JObj in Hf, IH. rewrite jwf_JObj in Hw. rewrite print_JObj.
    pose proof (jdepth_open_obj d l Hd) as Hopen. apply jdepth_JObj in Hd.
    cbn [parse_value app skip_ws]. change (is_ws x7b) with false.
    change (x7b =b x22) with false. change (x7b =b x5b) with false.
    change (x7b =b x7b) with true. cbn iota.
    rewrite Hopen. destruct l as [|[k v] l]; [done|].
    assert (Forall (fun kv => utf8_valid kv.1 = true /\ parses kv.2) ((k, v) :: l)) as Hp.
    { apply Forall_forall. intros u Hu. rewrite Forall_forall in Hw.
      destruct (Hw u Hu). split; [done|].
      apply IH; [|done]. apply members_fuel_elem in Hu. lia. }
    pose proof (parse_members_print lv k v l f (d + 1) rest Hp Hd ltac:(lia)) as E.
    rewrite E, print_members_true, skip_ws_app by done. by rewrite skip_ws_cons.
Qed.

Lemma print_length j : forall d, jwf j -> (jfuel j + 1 <= 2 * length (text d j))%nat.
Proof.
  induction j as [j IH] using (induction_ltof1 _ jfuel). unfold ltof in IH. intros d Hw.
  destruct j as [|[]|lit|s|l|l]; try (simpl; lia).
  - destruct Hw as [n ->]. destruct (itoa_hd n) as (b & r & E & _). cbn [print_with]. rewrite E.
    simpl. lia.
  - rewrite print_JArr. rewrite jfuel_JArr in *. rewrite jwf_JArr in Hw. cbn [length].
    enough (forall b, (elems_fuel l + 1 <= 2 * length (print_elems d b l))%nat) as H
      by (specialize (H true); lia).
    clear -IH Hw. induction l as [|v l IHl]; intros b; [cbn; rewrite length_app; cbn; lia|].
    apply Forall_cons in Hw as [Hv Hl]. cbn [print_elems].
    rewrite !length_app. cbn [elems_fuel] in *.
    specialize (IHl ltac:(intros; apply IH; [lia|done]) Hl false).
    specialize (IH v ltac:(lia) (S d) Hv). lia.
  - rewrite print_JObj. rewrite jfuel_JObj in *. rewrite jwf_JObj in Hw. cbn [length].
    enough (forall b, (members_fuel l + 1 <= 2 * length (print_members d b l))%nat) as H
      by (specialize (H true); lia).
    clear -IH Hw. induction l as [|[k v] l IHl]; intros b; [cbn; rewrite length_app; cbn; lia|].
    apply Forall_cons in Hw as [[_ Hv] Hl]. cbn [print_members].
    rewrite !length_app. cbn [length]. rewrite !length_app.
    cbn [members_fuel snd] in *.
    specialize (IHl ltac:(intros; apply IH; [lia|done]) Hl false).
    specialize (IH v ltac:(lia) (S d) Hv). lia.
Qed.

(** Text in any layout, with white space after it, parses back. *)
Lemma parse_text j tail :
  jwf j -> jdepth j <= max_depth -> ws_only tail -> parse (text 0 j ++ tail) = Some j.
Proof.
  intros Hw Hd Ht. unfold parse. pose proof (print_length j 0 Hw).
  rewrite (parse_value_print j Hw).
  - rewrite <-(app_nil_r tail). by rewrite skip_ws_app.
  - rewrite length_app. lia.
  - lia.
  - rewrite <-(app_nil_r tail). by apply delim_ws.
Qed.

End Layout.

(** Text written by [json.Marshal] parses back to the value it was written
    from, and so does text written by [json.MarshalIndent]. *)
Lemma parse_print j : jwf j -> jdepth j <= max_depth -> parse (print j) = Some j.
Proof.
  intros Hw Hd. rewrite <- (app_nil_r (print j)).
  by apply parse_text; [intros _| | | |]; try apply Forall_nil_2.
Qed.

Lemma parse_print_indent j tail :
  jwf j -> jdepth j <= max_depth -> ws_only tail -> parse (print_indent j ++ tail) = Some j.
Proof.
  intros Hw Hd Ht. apply parse_text; try done.
  - intros d. apply Forall_cons. split; [done|]. by induction (2 * d)%nat; [apply Forall_nil_2|apply Forall_cons].
  - by repeat constructor.
Qed.
