(* ===== verification/Codec.v ===== *)
(** * [json.Marshal] and [json.Unmarshal] on the program's structs

    Decoding follows Go: the variable decoded into keeps its value for a
    [null] or an absent member, members are matched by exact name and then by
    case folding, unknown members are skipped, a value of the wrong type is
    remembered as the first error while decoding goes on. *)
From S2P Require Import Prelude GoStrings Json.

Definition json_type_error : error := EForeign 1 "json: cannot unmarshal value".
Definition json_syntax_error : error := EForeign 2 "json: invalid syntax".

(** Decode a value into a variable that holds the second argument. *)
Abbreviation decoder T := (json -> T -> T * option error).

Definition first_err (a b : option error) : option error :=
  match a with Some e => Some e | None => b end.

Definition dec_string : decoder string := fun j cur =>
  match j with
  | JStr s => (string_of s, None)
  | JNull => (cur, None)
  | _ => (cur, Some json_type_error)
  end.

Definition dec_bool : decoder bool := fun j cur =>
  match j with
  | JBool b => (b, None)
  | JNull => (cur, None)
  | _ => (cur, Some json_type_error)
  end.

(** A signed integer of the given range. *)
Definition dec_int (lo hi : Z) : decoder Z := fun j cur =>
  match j with
  | JNum lit =>
      match signed_value lit with
      | Some n => if (lo <=? n) && (n <=? hi) then (n, None) else (cur, Some json_type_error)
      | None => (cur, Some json_type_error)
      end
  | JNull => (cur, None)
  | _ => (cur, Some json_type_error)
  end.
Definition dec_i64 : decoder Z := dec_int (- 2 ^ 63) (2 ^ 63 - 1).

(** An unsigned integer of [w] bits: no sign is accepted. *)
Definition dec_uint (w : Z) : decoder Z := fun j cur =>
  match j with
  | JNum lit =>
      match dec_value lit with
      | Some n => if n <? 2 ^ w then (n, None) else (cur, Some json_type_error)
      | None => (cur, Some json_type_error)
      end
  | JNull => (cur, None)
  | _ => (cur, Some json_type_error)
  end.

(** A slice: elements are decoded over the ones the slice already holds, and
    the slice is cut to the length of the array. *)
Fixpoint dec_elems {T} (d : decoder T) (zero : T) (l : list json) (cur : list T)
  : list T * option error :=
  match l with
  | [] => ([], None)
  | j :: l =>
      let '(v, e) := d j (default zero (head cur)) in
      let '(vs, e') := dec_elems d zero l (tail cur) in
      (v :: vs, first_err e e')
  end.
Definition dec_slice {T} (d : decoder T) (zero : T) : decoder (list T) := fun j cur =>
  match j with
  | JArr l => dec_elems d zero l cur
  | JNull => ([], None)
  | _ => (cur, Some json_type_error)
  end.

(** [foldName]: lower case, with the two non-ASCII letters that fold to an
    ASCII one (the long s and the Kelvin sign). *)
Fixpoint fold_name (s : bytes) : bytes :=
  match s with
  | [] => []
  | b :: r =>
      if in_range 65 90 b then byte_of_Z (byte_to_Z b + 32) :: fold_name r
      else if b =b xc5 then
        match r with
        | c :: r' => if c =b xbf then x73 :: fold_name r' else b :: fold_name r
        | [] => [b]
        end
      else if b =b xe2 then
        match r with
        | c :: d :: r' =>
            if (c =b x84) && (d =b xaa) then x6b :: fold_name r' else b :: fold_name r
        | _ => b :: fold_name r
        end
      else b :: fold_name r
  end.

Definition field (A : Type) : Type := string * decoder A.

Definition lookup_field {A} (fs : list (field A)) (k : bytes) : option (decoder A) :=
  match find (fun f => bool_decide (bytes_of f.1 = k)) fs with
  | Some f => Some f.2
  | None =>
      match find (fun f => bool_decide (fold_name (bytes_of f.1) = fold_name k)) fs with
      | Some f => Some f.2
      | None => None
      end
  end.

Definition dec_member {A} (fs : list (field A)) (st : A * option error) (kv : bytes * json)
  : A * option error :=
  match lookup_field fs kv.1 with
  | None => st
  | Some d => let '(a, e) := d kv.2 st.1 in (a, first_err st.2 e)
  end.

Definition dec_struct {A} (fs : list (field A)) : decoder A := fun j cur =>
  match j with
  | JObj l => fold_left (dec_member fs) l (cur, None)
  | JNull => (cur, None)
  | _ => (cur, Some json_type_error)
  end.

(** A field of type [T] of the struct [A]. *)
Definition mkfield {A T} (name : string) (d : decoder T) (get : A -> T) (set : T -> A -> A)
  : field A := (name, fun j a => let '(v, e) := d j (get a) in (set v a, e)).

(** *** Encoding *)

Definition enc_string (s : string) : json := JStr (bytes_of s).
Definition enc_int (n : Z) : json := JNum (itoa n).

(** A member, left out when its value is empty and the tag says [omitempty]. *)
Definition member (name : string) (omit : bool) (v : json) : list (bytes * json) :=
  if omit then [] else [(bytes_of name, v)].

(** A Go type that goes through [encoding/json]. *)
Class Json (A : Type) := {
  to_json : A -> json;
  json_zero : A;
  json_dec : decoder A
}.

Definition Marshal {A} `{Json A} (a : A) : result bytes := Ok (print (to_json a)).

(** [json.Unmarshal(data, &v)] for a zero [v]: the value and the error. *)
Definition Unmarshal {A} `{Json A} (data : bytes) : A * option error :=
  match parse data with
  | Some j => json_dec j json_zero
  | None => (json_zero, Some json_syntax_error)
  end.

(** What a type promises of its encoding: on the values for which [json_ok]
    holds (valid UTF-8, integers of their width), decoding inverts encoding. *)
Class JsonLaws (A : Type) `{Json A} := {
  json_ok : A -> Prop;
  to_json_jwf a : json_ok a -> jwf (to_json a);
  to_json_depth a : jdepth (to_json a) <= max_depth;
  json_dec_to_json a : json_ok a -> json_dec (to_json a) json_zero = (a, None)
}.

Lemma Unmarshal_Marshal {A} `{JsonLaws A} (a : A) p :
  json_ok a -> Marshal a = Ok p -> Unmarshal p = (a, None).
Proof.
  intros Hok [= <-]. unfold Unmarshal.
  rewrite parse_print by (by apply to_json_jwf || apply to_json_depth).
  by apply json_dec_to_json.
Qed.

(** *** Round trips of the basic types *)

Definition string_ok (s : string) : Prop := utf8_valid (bytes_of s) = true.

Lemma dec_enc_string s cur : dec_string (enc_string s) cur = (s, None).
Proof. simpl. by rewrite string_of_bytes_of. Qed.

Lemma dec_enc_int lo hi n cur : lo <= n <= hi -> dec_int lo hi (enc_int n) cur = (n, None).
Proof.
  intros. unfold dec_int, enc_int. rewrite signed_value_itoa.
  by rewrite (proj2 (Z.leb_le lo n)), (proj2 (Z.leb_le n hi)) by lia.
Qed.
Lemma dec_enc_i64 n cur : in_i64 n -> dec_i64 (enc_int n) cur = (n, None).
Proof. unfold in_i64. intros. apply dec_enc_int. lia. Qed.

Lemma dec_enc_uint w n cur : 0 <= n < 2 ^ w -> dec_uint w (enc_int n) cur = (n, None).
Proof.
  intros. unfold dec_uint, enc_int, itoa.
  rewrite (proj2 (Z.ltb_ge n 0)), dec_value_utoa by lia.
  by rewrite (proj2 (Z.ltb_lt n (2 ^ w))) by lia.
Qed.

Lemma dec_enc_slice {T} (d : decoder T) zero (enc : T -> json) l cur :
  (forall x c, x ∈ l -> d (enc x) c = (x, None)) ->
  dec_slice d zero (JArr (map enc l)) cur = (l, None).
Proof.
  unfold dec_slice. revert cur. induction l as [|x l IH]; intros cur H; [done|].
  cbn [map dec_elems]. rewrite H by constructor.
  rewrite IH by (intros; apply H; by constructor). done.
Qed.

Lemma jwf_enc_int n : jwf (enc_int n).
Proof. by exists n. Qed.
Lemma jwf_enc_string s : string_ok s -> jwf (enc_string s).
Proof. done. Qed.

Create HintDb json.
#[export] Hint Resolve jwf_enc_int jwf_enc_string : json.

(** *** Round trips of structs *)

Lemma mkfield_dec {A T} name (d : decoder T) (get : A -> T) set v a x :
  d v (get a) = (x, None) -> (mkfield name d get set).2 v a = (set x a, None).
Proof. intros H. unfold mkfield; simpl. by rewrite H. Qed.

Lemma dec_member_known {A} (fs : list (field A)) a a' k v d :
  lookup_field fs k = Some d -> d v a = (a', None) ->
  dec_member fs (a, None) (k, v) = (a', None).
Proof. intros H1 H2. unfold dec_member; simpl. by rewrite H1, H2. Qed.

Ltac solve_basic_dec :=
  first
    [ apply dec_enc_string
    | apply dec_enc_i64; solve [eauto]
    | apply dec_enc_uint; solve [eauto]
    | reflexivity ].

(** Decode the members one after the other. *)
Ltac solve_dec_struct solve_field :=
  cbn [json_dec to_json json_zero dec_struct app];
  repeat
    (cbn [fold_left];
     erewrite dec_member_known;
     [ | reflexivity | apply mkfield_dec; solve_field ]);
  cbn [fold_left];
  reflexivity.

(** *** Invariants of decoded values *)

Lemma lookup_field_elem {A} (fs : list (field A)) k d :
  lookup_field fs k = Some d -> exists n, (n, d) ∈ fs.
Proof.
  unfold lookup_field. intros H. repeat case_match; simplify_eq;
    match goal with E : find _ _ = Some ?f |- _ => apply find_some in E as [E _]; destruct f as [n d] end;
    exists n; by apply list_elem_of_In.
Qed.

(** What every field's decoder preserves, decoding preserves, whatever the
    input. *)
Lemma dec_struct_inv {A} (P : A -> Prop) (fs : list (field A)) j a :
  Forall (fun f => forall j a, P a -> P (fst (f.2 j a))) fs -> P a ->
  P (fst (dec_struct fs j a)).
Proof.
  intros Hfs Ha. destruct j; try done. cbn [dec_struct].
  assert (forall st : A * option error, P st.1 -> P (fold_left (dec_member fs) l st).1) as H.
  { clear Ha. induction l as [|[k v] l IH]; intros [b e] Hb; [done|]. cbn [fold_left].
    apply IH. unfold dec_member; cbn. destruct (lookup_field fs k) as [d|] eqn:E; [|done].
    apply lookup_field_elem in E as [n Hn]. rewrite Forall_forall in Hfs.
    specialize (Hfs _ Hn v b Hb). cbn in Hfs. by destruct (d v b). }
  by apply H.
Qed.

Lemma dec_acc_nonneg b : forall a n, 0 <= a -> dec_acc a b = Some n -> 0 <= n.
Proof.
  induction b as [|x b IH]; intros a n Ha; cbn; [by intros [= <-]|].
  destruct (is_digit x) eqn:E; [|done]. apply is_digit_range in E.
  apply IH. unfold digit_val. lia.
Qed.

Lemma dec_uint_range w j cur :
  0 <= cur < 2 ^ w -> 0 <= fst (dec_uint w j cur) < 2 ^ w.
Proof.
  intros H. destruct j; try done. unfold dec_uint.
  destruct (dec_value lit) as [n|] eqn:E; [|done].
  assert (0 <= n) by (destruct lit; [done|]; by eapply dec_acc_nonneg in E).
  destruct (Z.ltb_spec n (2 ^ w)); cbn; lia.
Qed.
