(* ===== verification/Protocol.v ===== *)
(** * The wire protocol: [internal/protocol/frame.go], [catalog.go] *)
From S2P Require Import Prelude GoIO GoStrings Json Codec.

(* ------------------------------------------------------------------ *)
(** ** Constants and messages *)

Definition Version : Z := 2.
Definition MaxFrameSize : Z := Z.shiftl 1 20.
Definition MaxDataSize : Z := Z.shiftl 64 10.
Definition headerSize : nat := 13.
Definition ProtocolTCP : string := "tcp".
Definition ProtocolQUIC : string := "quic".
Definition ProtocolTLS : string := "tls".
Definition ALPN : string := "lnproxy/2".

(** [type FrameType uint8]. *)
Abbreviation FrameType := byte.
Definition FrameChallenge : FrameType := x01.
Definition FrameAuthResponse : FrameType := x02.
Definition FrameAuthResult : FrameType := x03.
Definition FrameRegister : FrameType := x04.
Definition FrameHeartbeat : FrameType := x05.
Definition FrameCatalog : FrameType := x06.
Definition FrameOpen : FrameType := x07.
Definition FrameOpenAck : FrameType := x08.
Definition FrameData : FrameType := x09.
Definition FrameClose : FrameType := x0a.
Definition FrameError : FrameType := x0b.
Definition FrameStreamReady : FrameType := x0c.

Record Frame := mkFrame { fr_Type : FrameType; fr_ID : Z; fr_Payload : bytes }.

#[export] Instance Frame_eq_dec : EqDecision Frame.
Proof. solve_decision. Defined.

Record OpenRequest := mkOpenRequest {
  or_RequestID : Z;
  or_ExitID : string;
  or_Destination : string;
  or_Port : Z;
  or_Protocol : string;
  or_ClientSelected : bool
}.

Record Ack := mkAck {
  ack_OK : bool;
  ack_Error : string;
  ack_ExitID : string;
  ack_Message : string
}.

Record AuthResult := mkAuthResult { ar_OK : bool; ar_Error : string; ar_Version : Z }.

Record ExitRegistration := mkExitRegistration {
  er_ID : string;
  er_Name : string;
  er_Capacity : Z;
  er_Features : list string
}.

Record Heartbeat := mkHeartbeat {
  hb_ExitID : string;
  hb_Active : Z;
  hb_Capacity : Z;
  hb_TimestampMS : Z
}.

Record ErrorMessage := mkErrorMessage { em_Message : string }.

Record ExitInfo := mkExitInfo {
  ei_ID : string;
  ei_Name : string;
  ei_Type : string;
  ei_Health : string;
  ei_LatencyMS : Z;
  ei_ActiveConnections : Z;
  ei_Capacity : Z;
  ei_Features : list string;
  ei_HeartbeatTime : Z
}.

#[export] Instance ExitInfo_eq_dec : EqDecision ExitInfo.
Proof. solve_decision. Defined.
#[export] Instance OpenRequest_eq_dec : EqDecision OpenRequest.
Proof. solve_decision. Defined.

Record Catalog := mkCatalog { cat_Exits : list ExitInfo }.

(* ------------------------------------------------------------------ *)
(** ** The messages as JSON *)

Definition empty_string (s : string) : bool := bool_decide (s = ""%string).
Definition enc_strings (l : list string) : json := JArr (map enc_string l).
Definition dec_strings : decoder (list string) := dec_slice dec_string ""%string.
Definition no_strings (l : list string) : bool := match l with [] => true | _ => false end.

#[export] Instance OpenRequest_Json : Json OpenRequest := {|
  to_json r := JObj (
    member "request_id" false (enc_int r.(or_RequestID)) ++
    member "exit_id" (empty_string r.(or_ExitID)) (enc_string r.(or_ExitID)) ++
    member "destination_host" false (enc_string r.(or_Destination)) ++
    member "destination_port" false (enc_int r.(or_Port)) ++
    member "protocol" false (enc_string r.(or_Protocol)) ++
    member "client_selected" (negb r.(or_ClientSelected)) (JBool r.(or_ClientSelected)));
  json_zero := mkOpenRequest 0 "" "" 0 "" false;
  json_dec := dec_struct [
    mkfield "request_id" (dec_uint 64) or_RequestID
      (fun v '(mkOpenRequest _ b c d e f) => mkOpenRequest v b c d e f);
    mkfield "exit_id" dec_string or_ExitID
      (fun v '(mkOpenRequest a _ c d e f) => mkOpenRequest a v c d e f);
    mkfield "destination_host" dec_string or_Destination
      (fun v '(mkOpenRequest a b _ d e f) => mkOpenRequest a b v d e f);
    mkfield "destination_port" (dec_uint 16) or_Port
      (fun v '(mkOpenRequest a b c _ e f) => mkOpenRequest a b c v e f);
    mkfield "protocol" dec_string or_Protocol
      (fun v '(mkOpenRequest a b c d _ f) => mkOpenRequest a b c d v f);
    mkfield "client_selected" dec_bool or_ClientSelected
      (fun v '(mkOpenRequest a b c d e _) => mkOpenRequest a b c d e v)]
|}.

#[export] Instance Ack_Json : Json Ack := {|
  to_json a := JObj (
    member "ok" false (JBool a.(ack_OK)) ++
    member "error" (empty_string a.(ack_Error)) (enc_string a.(ack_Error)) ++
    member "exit_id" (empty_string a.(ack_ExitID)) (enc_string a.(ack_ExitID)) ++
    member "message" (empty_string a.(ack_Message)) (enc_string a.(ack_Message)));
  json_zero := mkAck false "" "" "";
  json_dec := dec_struct [
    mkfield "ok" dec_bool ack_OK (fun v '(mkAck _ b c d) => mkAck v b c d);
    mkfield "error" dec_string ack_Error (fun v '(mkAck a _ c d) => mkAck a v c d);
    mkfield "exit_id" dec_string ack_ExitID (fun v '(mkAck a b _ d) => mkAck a b v d);
    mkfield "message" dec_string ack_Message (fun v '(mkAck a b c _) => mkAck a b c v)]
|}.

#[export] Instance AuthResult_Json : Json AuthResult := {|
  to_json a := JObj (
    member "ok" false (JBool a.(ar_OK)) ++
    member "error" (empty_string a.(ar_Error)) (enc_string a.(ar_Error)) ++
    member "version" false (enc_int a.(ar_Version)));
  json_zero := mkAuthResult false "" 0;
  json_dec := dec_struct [
    mkfield "ok" dec_bool ar_OK (fun v '(mkAuthResult _ b c) => mkAuthResult v b c);
    mkfield "error" dec_string ar_Error (fun v '(mkAuthResult a _ c) => mkAuthResult a v c);
    mkfield "version" dec_i64 ar_Version (fun v '(mkAuthResult a b _) => mkAuthResult a b v)]
|}.

#[export] Instance ExitRegistration_Json : Json ExitRegistration := {|
  to_json r := JObj (
    member "id" false (enc_string r.(er_ID)) ++
    member "name" false (enc_string r.(er_Name)) ++
    member "capacity" false (enc_int r.(er_Capacity)) ++
    member "features" (no_strings r.(er_Features)) (enc_strings r.(er_Features)));
  json_zero := mkExitRegistration "" "" 0 [];
  json_dec := dec_struct [
    mkfield "id" dec_string er_ID
      (fun v '(mkExitRegistration _ b c d) => mkExitRegistration v b c d);
    mkfield "name" dec_string er_Name
      (fun v '(mkExitRegistration a _ c d) => mkExitRegistration a v c d);
    mkfield "capacity" dec_i64 er_Capacity
      (fun v '(mkExitRegistration a b _ d) => mkExitRegistration a b v d);
    mkfield "features" dec_strings er_Features
      (fun v '(mkExitRegistration a b c _) => mkExitRegistration a b c v)]
|}.

#[export] Instance Heartbeat_Json : Json Heartbeat := {|
  to_json h := JObj (
    member "exit_id" false (enc_string h.(hb_ExitID)) ++
    member "active" false (enc_int h.(hb_Active)) ++
    member "capacity" false (enc_int h.(hb_Capacity)) ++
    member "timestamp_ms" false (enc_int h.(hb_TimestampMS)));
  json_zero := mkHeartbeat "" 0 0 0;
  json_dec := dec_struct [
    mkfield "exit_id" dec_string hb_ExitID (fun v '(mkHeartbeat _ b c d) => mkHeartbeat v b c d);
    mkfield "active" dec_i64 hb_Active (fun v '(mkHeartbeat a _ c d) => mkHeartbeat a v c d);
    mkfield "capacity" dec_i64 hb_Capacity (fun v '(mkHeartbeat a b _ d) => mkHeartbeat a b v d);
    mkfield "timestamp_ms" dec_i64 hb_TimestampMS
      (fun v '(mkHeartbeat a b c _) => mkHeartbeat a b c v)]
|}.

#[export] Instance ErrorMessage_Json : Json ErrorMessage := {|
  to_json m := JObj (member "message" false (enc_string m.(em_Message)));
  json_zero := mkErrorMessage "";
  json_dec := dec_struct [
    mkfield "message" dec_string em_Message (fun v _ => mkErrorMessage v)]
|}.

#[export] Instance ExitInfo_Json : Json ExitInfo := {|
  to_json i := JObj (
    member "id" false (enc_string i.(ei_ID)) ++
    member "name" false (enc_string i.(ei_Name)) ++
    member "type" false (enc_string i.(ei_Type)) ++
    member "health" false (enc_string i.(ei_Health)) ++
    member "latency_ms" false (enc_int i.(ei_LatencyMS)) ++
    member "active_connections" false (enc_int i.(ei_ActiveConnections)) ++
    member "capacity" false (enc_int i.(ei_Capacity)) ++
    member "features" (no_strings i.(ei_Features)) (enc_strings i.(ei_Features)) ++
    member "heartbeat_time" false (enc_int i.(ei_HeartbeatTime)));
  json_zero := mkExitInfo "" "" "" "" 0 0 0 [] 0;
  json_dec := dec_struct [
    mkfield "id" dec_string ei_ID
      (fun v '(mkExitInfo _ b c d e f g h i) => mkExitInfo v b c d e f g h i);
    mkfield "name" dec_string ei_Name
      (fun v '(mkExitInfo a _ c d e f g h i) => mkExitInfo a v c d e f g h i);
    mkfield "type" dec_string ei_Type
      (fun v '(mkExitInfo a b _ d e f g h i) => mkExitInfo a b v d e f g h i);
    mkfield "health" dec_string ei_Health
      (fun v '(mkExitInfo a b c _ e f g h i) => mkExitInfo a b c v e f g h i);
    mkfield "latency_ms" dec_i64 ei_LatencyMS
      (fun v '(mkExitInfo a b c d _ f g h i) => mkExitInfo a b c d v f g h i);
    mkfield "active_connections" dec_i64 ei_ActiveConnections
      (fun v '(mkExitInfo a b c d e _ g h i) => mkExitInfo a b c d e v g h i);
    mkfield "capacity" dec_i64 ei_Capacity
      (fun v '(mkExitInfo a b c d e f _ h i) => mkExitInfo a b c d e f v h i);
    mkfield "features" dec_strings ei_Features
      (fun v '(mkExitInfo a b c d e f g _ i) => mkExitInfo a b c d e f g v i);
    mkfield "heartbeat_time" dec_i64 ei_HeartbeatTime
      (fun v '(mkExitInfo a b c d e f g h _) => mkExitInfo a b c d e f g h v)]
|}.

#[export] Instance Catalog_Json : Json Catalog := {|
  to_json c := JObj (member "exits" false (JArr (map to_json c.(cat_Exits))));
  json_zero := mkCatalog [];
  json_dec := dec_struct [
    mkfield "exits" (dec_slice json_dec json_zero) cat_Exits (fun v _ => mkCatalog v)]
|}.

(* ------------------------------------------------------------------ *)
(** ** Frames *)

Definition frame_size_error (size : Z) : error :=
  ENew ("frame size " +:+ Itoa size +:+ " exceeds limit").

Definition ReadFrame (r : Reader) : result Frame * Reader :=
  match ReadFull headerSize r with
  | (Err e, r) => (Err e, r)
  | (Ok header, r) =>
      let size := be_decode (take 4 (drop 9 header)) in
      if MaxFrameSize <? size then (Err (frame_size_error size), r)
      else
        match ReadFull (Z.to_nat size) r with
        | (Err e, r) => (Err e, r)
        | (Ok payload, r) =>
            (Ok (mkFrame (default x00 (head header)) (be_decode (take 8 (drop 1 header))) payload),
             r)
        end
  end.

(** The header of a frame: type, ID and payload length, big endian. *)
Definition frame_header (f : Frame) : bytes :=
  f.(fr_Type) :: be_encode 8 f.(fr_ID)
  ++ be_encode 4 (wrap_u 32 (Z.of_nat (length f.(fr_Payload)))).

Definition WriteFrame (w : Sink) (f : Frame) : option error * Sink :=
  if MaxFrameSize <? Z.of_nat (length f.(fr_Payload))
  then (Some (frame_size_error (Z.of_nat (length f.(fr_Payload)))), w)
  else
    match Sink_Write (frame_header f) w with
    | (Some e, w) => (Some e, w)
    | (None, w) =>
        match f.(fr_Payload) with
        | [] => (None, w)
        | _ => Sink_Write f.(fr_Payload) w
        end
    end.

(** [Writer.Write]: one frame under the writer's mutex. *)
Definition Writer_Write (w : Sink) (f : Frame) : option error * Sink := WriteFrame w f.

Definition WriteJSON {A} `{Json A} (w : Sink) (t : FrameType) (id : Z) (value : A)
  : option error * Sink :=
  match Marshal value with
  | Err e => (Some e, w)
  | Ok payload => Writer_Write w (mkFrame t id payload)
  end.

(** The value decoded so far and the error, as Go returns both. *)
Definition DecodeJSON {A} `{Json A} (f : Frame) : A * option error :=
  Unmarshal f.(fr_Payload).

Definition DecodeOpen (f : Frame) : result OpenRequest :=
  match DecodeJSON f with
  | (_, Some e) => Err e
  | (r, None) =>
      let '(mkOpenRequest id exit dest port proto sel) := r in
      let id := if id =? 0 then f.(fr_ID) else id in
      let proto := if empty_string proto then ProtocolTCP else proto in
      if empty_string dest || (port =? 0)
      then Err (ENew "destination and port are required")
      else if negb (bool_decide (proto = ProtocolTCP))
      then Err (ENew ("unsupported protocol " +:+ Quote proto))
      else Ok (mkOpenRequest id exit dest port proto sel)
  end.

(** What Go's types and the size limit make of a frame. *)
Definition frame_ok (f : Frame) : Prop :=
  0 <= f.(fr_ID) < 2 ^ 64 /\ Z.of_nat (length f.(fr_Payload)) <= MaxFrameSize.

Definition frame_bytes (f : Frame) : bytes := frame_header f ++ f.(fr_Payload).

(** Read frames until the reader fails: the frames and the error. *)
Fixpoint read_frames (fuel : nat) (r : Reader) : list Frame * option error :=
  match fuel with
  | O => ([], None)
  | S n =>
      match ReadFrame r with
      | (Err e, _) => ([], Some e)
      | (Ok f, r) => let '(fs, e) := read_frames n r in (f :: fs, e)
      end
  end.

Fixpoint write_frames (w : Sink) (fs : list Frame) : option error * Sink :=
  match fs with
  | [] => (None, w)
  | f :: fs =>
      match Writer_Write w f with
      | (Some e, w) => (Some e, w)
      | (None, w) => write_frames w fs
      end
  end.

(* ------------------------------------------------------------------ *)
(** ** The codecs keep their promise *)

Definition OpenRequest_ok (r : OpenRequest) : Prop :=
  in_u64 r.(or_RequestID) /\ 0 <= r.(or_Port) < 2 ^ 16 /\
  string_ok r.(or_ExitID) /\ string_ok r.(or_Destination) /\ string_ok r.(or_Protocol).
Definition Ack_ok (a : Ack) : Prop :=
  string_ok a.(ack_Error) /\ string_ok a.(ack_ExitID) /\ string_ok a.(ack_Message).
Definition AuthResult_ok (a : AuthResult) : Prop :=
  string_ok a.(ar_Error) /\ in_i64 a.(ar_Version).
Definition ExitRegistration_ok (r : ExitRegistration) : Prop :=
  string_ok r.(er_ID) /\ string_ok r.(er_Name) /\ in_i64 r.(er_Capacity) /\
  Forall string_ok r.(er_Features).
Definition Heartbeat_ok (h : Heartbeat) : Prop :=
  string_ok h.(hb_ExitID) /\ in_i64 h.(hb_Active) /\ in_i64 h.(hb_Capacity) /\
  in_i64 h.(hb_TimestampMS).
Definition ErrorMessage_ok (m : ErrorMessage) : Prop := string_ok m.(em_Message).
Definition ExitInfo_ok (i : ExitInfo) : Prop :=
  string_ok i.(ei_ID) /\ string_ok i.(ei_Name) /\ string_ok i.(ei_Type) /\
  string_ok i.(ei_Health) /\ in_i64 i.(ei_LatencyMS) /\ in_i64 i.(ei_ActiveConnections) /\
  in_i64 i.(ei_Capacity) /\ Forall string_ok i.(ei_Features) /\ in_i64 i.(ei_HeartbeatTime).
Definition Catalog_ok (c : Catalog) : Prop := Forall ExitInfo_ok c.(cat_Exits).

Lemma jwf_strings l : Forall string_ok l -> jwf (enc_strings l).
Proof. intros H. apply jwf_JArr. by apply Forall_map. Qed.
Lemma jdepth_strings l : jdepth (enc_strings l) <= 1.
Proof. unfold enc_strings. induction l as [|s l IH]; cbn in *; lia. Qed.
Lemma dec_enc_strings l cur : dec_strings (enc_strings l) cur = (l, None).
Proof. apply dec_enc_slice. intros. apply dec_enc_string. Qed.

Lemma empty_string_spec s : empty_string s = true -> s = ""%string.
Proof. apply bool_decide_eq_true. Qed.

Ltac solve_msg_dec :=
  first [ solve_basic_dec | apply dec_enc_strings ].

(** Split on what [omitempty] leaves out. *)
Ltac split_omitted :=
  unfold member;
  repeat match goal with
  | |- context [empty_string ?s] =>
      let E := fresh "E" in destruct (empty_string s) eqn:E;
      [apply empty_string_spec in E; subst|clear E]
  | |- context [no_strings ?l] => destruct l; cbn [no_strings]
  | |- context [negb ?b] => destruct b; cbn [negb]
  end.

Lemma jdepth_obj b l :
  0 <= b -> Forall (fun kv => jdepth kv.2 <= b) l -> jdepth (JObj l) <= 1 + b.
Proof.
  intros Hb Hl. cbn [jdepth]. induction Hl as [|[k v] l Hv _ IH]; cbn in *; lia.
Qed.
Lemma jdepth_arr b l :
  0 <= b -> Forall (fun v => jdepth v <= b) l -> jdepth (JArr l) <= 1 + b.
Proof. intros Hb Hl. cbn [jdepth]. induction Hl as [|v l Hv _ IH]; cbn in *; lia. Qed.

Lemma member_depth name omit v b :
  jdepth v <= b -> Forall (fun kv : bytes * json => jdepth kv.2 <= b) (member name omit v).
Proof. destruct omit; repeat constructor; done. Qed.
Lemma member_jwf name omit v :
  utf8_valid (bytes_of name) = true -> jwf v ->
  Forall (fun kv => utf8_valid kv.1 = true /\ jwf kv.2) (member name omit v).
Proof. destruct omit; repeat constructor; done. Qed.

Ltac solve_members tac :=
  first [apply Forall_app; split; [tac|solve_members tac] | tac].

Ltac solve_jwf :=
  let H := fresh in
  intros ? H; red in H; destruct_and?; apply jwf_JObj;
  solve_members ltac:(apply member_jwf;
    [reflexivity|first [apply jwf_enc_int|apply jwf_enc_string; assumption
                       |apply jwf_strings; assumption|exact I]]).
Ltac solve_depth :=
  intros ?; transitivity (1 + 3); [|done]; apply jdepth_obj; [done|];
  solve_members ltac:(apply member_depth;
    first [done|etransitivity; [apply jdepth_strings|done]]).
Ltac solve_dec :=
  let H := fresh in
  intros [] H; red in H; destruct_and?; cbn in *;
  split_omitted; cbn [app]; solve_dec_struct solve_msg_dec.

#[export] Instance OpenRequest_laws : JsonLaws OpenRequest.
Proof. refine (Build_JsonLaws _ _ OpenRequest_ok _ _ _); [solve_jwf|solve_depth|solve_dec]. Defined.
#[export] Instance Ack_laws : JsonLaws Ack.
Proof. refine (Build_JsonLaws _ _ Ack_ok _ _ _); [solve_jwf|solve_depth|solve_dec]. Defined.
#[export] Instance AuthResult_laws : JsonLaws AuthResult.
Proof. refine (Build_JsonLaws _ _ AuthResult_ok _ _ _); [solve_jwf|solve_depth|solve_dec]. Defined.
#[export] Instance ExitRegistration_laws : JsonLaws ExitRegistration.
Proof. refine (Build_JsonLaws _ _ ExitRegistration_ok _ _ _); [solve_jwf|solve_depth|solve_dec]. Defined.
#[export] Instance Heartbeat_laws : JsonLaws Heartbeat.
Proof. refine (Build_JsonLaws _ _ Heartbeat_ok _ _ _); [solve_jwf|solve_depth|solve_dec]. Defined.
#[export] Instance ErrorMessage_laws : JsonLaws ErrorMessage.
Proof. refine (Build_JsonLaws _ _ ErrorMessage_ok _ _ _); [solve_jwf|solve_depth|solve_dec]. Defined.
#[export] Instance ExitInfo_laws : JsonLaws ExitInfo.
Proof. refine (Build_JsonLaws _ _ ExitInfo_ok _ _ _); [solve_jwf|solve_depth|solve_dec]. Defined.

Lemma json_dec_to_json_ExitInfo (i cur : ExitInfo) :
  ExitInfo_ok i -> (ei_Features i = [] -> ei_Features cur = []) ->
  json_dec (to_json i) cur = (i, None).
Proof.
  destruct i, cur; intros H Hf; red in H; destruct_and?; cbn in *.
  unfold member. destruct (no_strings ei_Features0) eqn:E; cbn [app].
  - destruct ei_Features0; [|done]. rewrite Hf by done. solve_dec_struct solve_msg_dec.
  - solve_dec_struct solve_msg_dec.
Qed.

#[export] Instance Catalog_laws : JsonLaws Catalog.
Proof.
  refine (Build_JsonLaws _ _ Catalog_ok _ _ _).
  - intros c H. apply jwf_JObj, member_jwf; [done|]. apply jwf_JArr, Forall_map.
    eapply Forall_impl; [exact H|]. intros i Hi. exact (to_json_jwf (A := ExitInfo) i Hi).
  - intros c. transitivity (1 + (1 + 4)); [|done].
    apply jdepth_obj, member_depth, jdepth_arr, Forall_map, Forall_true; [done..|].
    clear c. intros []. transitivity (1 + 3); [|done]. apply jdepth_obj; [done|].
    solve_members ltac:(apply member_depth;
      first [done|etransitivity; [apply jdepth_strings|done]]).
  - intros [l] H. red in H. cbn in H. cbn [to_json json_dec json_zero Catalog_Json cat_Exits]. unfold member.
    assert (forall l, Forall ExitInfo_ok l ->
      dec_slice json_dec json_zero (JArr (map to_json l)) [] = (l, None)) as D.
    { clear. unfold dec_slice. induction 1 as [|i l Hi _ IH]; [done|].
      cbn [map dec_elems]. rewrite json_dec_to_json_ExitInfo by done.
      change (tail (@nil ExitInfo)) with (@nil ExitInfo). by rewrite IH. }
    solve_dec_struct ltac:(by apply D).
Defined.

(* ------------------------------------------------------------------ *)
(** ** Lemmas on frames *)

Lemma length_frame_header f : length (frame_header f) = headerSize.
Proof. unfold frame_header. cbn [length]. by rewrite length_app, !length_be_encode. Qed.

Lemma ReadFrame_frame_bytes f rest e :
  frame_ok f ->
  ReadFrame (mkReader (frame_bytes f ++ rest) e) = (Ok f, mkReader rest e).
Proof.
  destruct f as [t id p]. intros [Hid Hlen]; cbn in Hid, Hlen.
  assert (MaxFrameSize = 1048576) as HM by done.
  unfold ReadFrame, frame_bytes. rewrite <- app_assoc.
  rewrite ReadFull_app by apply length_frame_header.
  unfold frame_header. cbn [fr_Type fr_ID fr_Payload head default].
  assert (take 4 (drop 9 (t :: be_encode 8 id ++ be_encode 4 (wrap_u 32 (Z.of_nat (length p)))))
          = be_encode 4 (wrap_u 32 (Z.of_nat (length p)))) as -> by done.
  assert (take 8 (drop 1 (t :: be_encode 8 id ++ be_encode 4 (wrap_u 32 (Z.of_nat (length p)))))
          = be_encode 8 id) as -> by done.
  rewrite !be_decode_encode, (wrap_u_small 32), !Z.mod_small by lia.
  rewrite (proj2 (Z.ltb_ge _ _)), Nat2Z.id by lia.
  by rewrite ReadFull_app.
Qed.

Lemma WriteFrame_room w f :
  Z.of_nat (length f.(fr_Payload)) <= MaxFrameSize ->
  has_room w (length (frame_bytes f)) ->
  WriteFrame w f = (None, sink_append w (frame_bytes f)).
Proof.
  intros Hl Hr. unfold WriteFrame, frame_bytes in *. rewrite length_app in Hr.
  apply has_room_app in Hr as [Hr1 Hr2].
  rewrite (proj2 (Z.ltb_ge _ _)), Sink_Write_room by done.
  destruct (fr_Payload f) as [|b p] eqn:Ep.
  - by rewrite app_nil_r.
  - by rewrite Sink_Write_room, sink_append_app.
Qed.

Lemma WriteFrame_None w f w' : WriteFrame w f = (None, w') -> w' = sink_append w (frame_bytes f).
Proof.
  unfold WriteFrame, frame_bytes. destruct (_ <? _); [done|].
  destruct (Sink_Write (frame_header f) w) as [[|] w1] eqn:E; [done|].
  apply Sink_Write_None in E as ->. rewrite <-sink_append_app. destruct (fr_Payload f) as [|b p] eqn:Ep.
  - intros [= <-]. by rewrite sink_append_nil.
  - apply Sink_Write_None.
Qed.

Lemma read_frames_frames fs e :
  Forall frame_ok fs ->
  read_frames (S (length fs)) (mkReader (concat (map frame_bytes fs)) e) =
  (fs, Some e).
Proof.
  intros H. induction H as [|f fs Hf _ IH]; [by destruct e|].
  cbn [length read_frames map concat]. rewrite ReadFrame_frame_bytes by done.
  cbn [length read_frames] in IH. by rewrite IH.
Qed.

Lemma write_frames_room fs : forall w,
  Forall frame_ok fs ->
  has_room w (length (concat (map frame_bytes fs))) ->
  write_frames w fs = (None, sink_append w (concat (map frame_bytes fs))).
Proof.
  induction fs as [|f fs IH]; intros w Hok Hr; cbn [write_frames map concat] in *.
  - unfold sink_append. rewrite app_nil_r. destruct w as [? [k|] ?]; cbn; [|done].
    by rewrite Nat.sub_0_r.
  - apply Forall_cons in Hok as [[_ Hf] Hok]. rewrite length_app in Hr.
    apply has_room_app in Hr as [Hr1 Hr2]. unfold Writer_Write.
    by rewrite WriteFrame_room, IH, sink_append_app.
Qed.

Lemma header_split (h : bytes) :
  length h = headerSize ->
  exists t id len, h = t :: id ++ len /\ length id = 8%nat /\ length len = 4%nat.
Proof.
  intros H. destruct h as [|t h]; [done|]. injection H as H.
  exists t, (take 8 h), (drop 8 h). rewrite take_drop, length_take, length_drop.
  split_and!; try done; lia.
Qed.

Lemma ReadFrame_Ok_bytes r f r' :
  ReadFrame r = (Ok f, r') ->
  frame_ok f /\ r.(rd_buf) = frame_bytes f ++ r'.(rd_buf) /\ r'.(rd_err) = r.(rd_err).
Proof.
  unfold ReadFrame. destruct (ReadFull headerSize r) as [[h|] r1] eqn:E1; [|done].
  apply ReadFull_Ok in E1 as (Hh & Hb & He). destruct (header_split h Hh) as (t & id & len & -> & H8 & H4).
  assert (take 4 (drop 9 (t :: id ++ len)) = len) as ->.
  { change 9%nat with (S 8). cbn [drop]. rewrite drop_app_length' by done.
    apply take_ge. lia. }
  assert (take 8 (drop 1 (t :: id ++ len)) = id) as -> by (cbn [drop]; by apply take_app_length').
  destruct (Z.ltb_spec MaxFrameSize (be_decode len)) as [|Hs]; [done|].
  destruct (ReadFull (Z.to_nat (be_decode len)) r1) as [[p|] r2] eqn:E2; [|done].
  apply ReadFull_Ok in E2 as (Hp & Hb2 & He2). intros [= <- <-].
  pose proof (be_decode_range len) as Hlen. rewrite H4 in Hlen.
  pose proof (be_decode_range id) as Hid. rewrite H8 in Hid.
  change (256 ^ Z.of_nat 8) with (2 ^ 64) in Hid. change (256 ^ Z.of_nat 4) with (2 ^ 32) in Hlen.
  assert (Z.of_nat (length p) = be_decode len) as Hpl by lia.
  split; [split; cbn; lia|]. split; [|congruence].
  unfold frame_bytes, frame_header. cbn [fr_Type fr_ID fr_Payload].
  rewrite Hpl, wrap_u_small by done.
  rewrite <- H8 at 1. rewrite <- H4 at 1. rewrite !be_encode_decode.
  by rewrite Hb, Hb2, <- !app_assoc.
Qed.

Lemma ReadFull_eof_short n p :
  (length p < n)%nat ->
  fst (ReadFull n (mkReader p EOF)) = Err (match p with [] => EOF | _ => ErrUnexpectedEOF end).
Proof.
  intros H. unfold ReadFull; cbn [rd_buf rd_err].
  rewrite (proj2 (Nat.leb_gt _ _)) by done. by destruct p.
Qed.

(** Decoding the header of a frame and asking for its payload. *)
Lemma ReadFrame_header f p e :
  frame_ok f ->
  fst (ReadFrame (mkReader (frame_header f ++ p) e)) =
  result_bind (fst (ReadFull (length f.(fr_Payload)) (mkReader p e)))
    (fun payload => Ok (mkFrame f.(fr_Type) f.(fr_ID) payload)).
Proof.
  destruct f as [t id pl]. intros [Hid Hlen]; cbn in Hid, Hlen.
  assert (MaxFrameSize = 1048576) as HM by done.
  unfold ReadFrame. rewrite ReadFull_app by apply length_frame_header.
  unfold frame_header. cbn [fr_Type fr_ID fr_Payload head default].
  assert (take 4 (drop 9 (t :: be_encode 8 id ++ be_encode 4 (wrap_u 32 (Z.of_nat (length pl)))))
          = be_encode 4 (wrap_u 32 (Z.of_nat (length pl)))) as -> by done.
  assert (take 8 (drop 1 (t :: be_encode 8 id ++ be_encode 4 (wrap_u 32 (Z.of_nat (length pl)))))
          = be_encode 8 id) as -> by done.
  rewrite !be_decode_encode, (wrap_u_small 32), !Z.mod_small by lia.
  rewrite (proj2 (Z.ltb_ge _ _)), Nat2Z.id by lia.
  by destruct (ReadFull (length pl) (mkReader p e)) as [[?|?] ?].
Qed.

Lemma DecodeOpen_Marshal t id (r : OpenRequest) p :
  OpenRequest_ok r -> Marshal r = Ok p ->
  r.(or_RequestID) <> 0 -> r.(or_Destination) <> ""%string -> r.(or_Port) <> 0 ->
  r.(or_Protocol) = ProtocolTCP ->
  DecodeOpen (mkFrame t id p) = Ok r.
Proof.
  intros Hok Hm Hid Hd Hp Ht. unfold DecodeOpen, DecodeJSON. cbn [fr_Payload fr_ID].
  rewrite (@Unmarshal_Marshal OpenRequest OpenRequest_Json OpenRequest_laws r p Hok Hm). destruct r; cbn in *. subst.
  rewrite (proj2 (Z.eqb_neq _ _)) by done. unfold empty_string.
  rewrite bool_decide_eq_false_2 by done. by rewrite (proj2 (Z.eqb_neq _ _)) by done.
Qed.

Lemma OpenRequest_port_range p :
  0 <= (fst (Unmarshal (A := OpenRequest) p)).(or_Port) < 2 ^ 16.
Proof.
  unfold Unmarshal. destruct (parse p) as [j|]; [|cbn; lia].
  apply (dec_struct_inv (fun r => 0 <= or_Port r < 2 ^ 16)); [|cbn; lia].
  rewrite !Forall_cons. split_and!; try apply Forall_nil_2; intros j' [] H;
    cbn [mkfield snd or_Port] in *;
    try (by destruct (dec_string _ _)); try (by destruct (dec_bool _ _)).
  - by destruct (dec_uint 64 _ _).
  - pose proof (dec_uint_range 16 j' or_Port0 H). by destruct (dec_uint 16 _ _).
Qed.

(* ------------------------------------------------------------------ *)
(** ** Properties *)

(** C11: frames written one after the other through [Writer.Write] onto a
    connection with room for them are read back, frame by frame and in order,
    by repeated [ReadFrame]; the reader then reports the connection's own
    error. *)
Theorem frame_stream_roundtrip (w : Sink) (fs : list Frame) (e : error)
  (Hok : Forall frame_ok fs)
  (Hroom : has_room w (length (concat (map frame_bytes fs)))) :
  exists stream,
    write_frames w fs = (None, sink_append w stream) /\
    read_frames (S (length fs)) (mkReader stream e) = (fs, Some e).
Proof. eauto using write_frames_room, read_frames_frames. Qed.

Lemma frame_stream_roundtrip_witness :
  exists stream,
    write_frames (mkSink [] (Some 40%nat) EOF)
      [mkFrame FrameData 42 [x70; x61; x79]; mkFrame FrameStreamReady 0 []]
      = (None, sink_append (mkSink [] (Some 40%nat) EOF) stream) /\
    read_frames 3 (mkReader stream EOF) =
      ([mkFrame FrameData 42 [x70; x61; x79]; mkFrame FrameStreamReady 0 []], Some EOF).
Proof.
  apply (frame_stream_roundtrip (mkSink [] (Some 40%nat) EOF)
    [mkFrame FrameData 42 [x70; x61; x79]; mkFrame FrameStreamReady 0 []] EOF).
  - rewrite !Forall_cons. split_and!; [split; vm_compute; intuition discriminate..|].
    apply Forall_nil_2.
  - vm_compute. lia.
Defined.

(** Whatever bytes arrive, a frame that [ReadFrame] accepts is within the
    size limit and is the only reading of the bytes it consumed: they are
    exactly the encoding of that frame. *)
Theorem ReadFrame_sound (r r' : Reader) (f : Frame) (H : ReadFrame r = (Ok f, r')) :
  frame_ok f /\ r.(rd_buf) = frame_bytes f ++ r'.(rd_buf) /\ r'.(rd_err) = r.(rd_err).
Proof. by apply ReadFrame_Ok_bytes. Qed.

Lemma ReadFrame_sound_witness :
  frame_ok (mkFrame x09 1 [x41]) /\
  [x09; x00; x00; x00; x00; x00; x00; x00; x01; x00; x00; x00; x01; x41; x42]
    = frame_bytes (mkFrame x09 1 [x41]) ++ [x42] /\ EOF = EOF.
Proof.
  apply (ReadFrame_sound
    (mkReader [x09; x00; x00; x00; x00; x00; x00; x00; x01; x00; x00; x00; x01; x41; x42] EOF)
    (mkReader [x42] EOF) (mkFrame x09 1 [x41])).
  vm_compute. reflexivity.
Defined.

(** A connection that ends inside a frame makes [ReadFrame] fail, never
    return a short frame.  The error is [io.ErrUnexpectedEOF], except when the
    connection ends before the frame or exactly between its header and its
    payload: there it is [io.EOF]. *)
Theorem ReadFrame_truncated (f : Frame) (p q : bytes)
  (Hok : frame_ok f) (Hpq : frame_bytes f = p ++ q) (Hq : q <> []) :
  fst (ReadFrame (mkReader p EOF)) =
  Err (if bool_decide (p = [] \/ length p = headerSize) then EOF else ErrUnexpectedEOF).
Proof.
  unfold frame_bytes in Hpq.
  apply app_eq_inv in Hpq as [(k & Hh & ->)|(k & -> & Hp)].
  - pose proof (length_frame_header f) as Hl. rewrite Hh, length_app in Hl.
    destruct k as [|x k].
    + rewrite app_nil_r in Hh. subst p. cbn [app] in Hq.
      rewrite bool_decide_eq_true_2 by (right; apply length_frame_header).
      rewrite <- (app_nil_r (frame_header f)), ReadFrame_header, ReadFull_eof_short; [done| |done].
      destruct (fr_Payload f); [done|cbn; lia].
    + cbn in Hl. unfold ReadFrame.
      pose proof (ReadFull_eof_short headerSize p ltac:(unfold headerSize in *; lia)) as E.
      destruct (ReadFull headerSize _) as [[?|?] ?]; [done|]. cbn [fst] in E |- *.
      injection E as ->. destruct p; [done|].
      rewrite bool_decide_eq_false_2; [done|]. intros [?|?]; [done|unfold headerSize in *; cbn in *; lia].
  - rewrite ReadFrame_header by done. rewrite length_app, length_frame_header.
    rewrite ReadFull_eof_short by (rewrite Hp, length_app; destruct q; [done|cbn; lia]).
    destruct k as [|x k].
    + by rewrite bool_decide_eq_true_2 by (right; unfold headerSize; cbn; lia).
    + rewrite bool_decide_eq_false_2; [done|]. intros [E|?]; [|unfold headerSize in *; cbn in *; lia].
      apply (f_equal length) in E. rewrite length_app, length_frame_header in E. cbn in E. lia.
Qed.

Lemma ReadFrame_truncated_witness :
  fst (ReadFrame (mkReader [x09; x00; x00; x00; x00; x00; x00; x00; x01; x00; x00; x00; x02; x41] EOF))
  = Err ErrUnexpectedEOF.
Proof.
  apply (ReadFrame_truncated (mkFrame x09 1 [x41; x42])
    [x09; x00; x00; x00; x00; x00; x00; x00; x01; x00; x00; x00; x02; x41] [x42]).
  - split; cbn; [lia|]. vm_compute. discriminate.
  - vm_compute. reflexivity.
  - discriminate.
Defined.

(** An open request survives the wire: a request with a destination, a
    port, an ID and protocol tcp, whose strings are valid UTF-8, is decoded by
    [DecodeOpen] from the frame [WriteJSON] wrote for it. *)
Theorem open_request_roundtrip (w : Sink) (id : Z) (r : OpenRequest)
  (Hok : OpenRequest_ok r)
  (Hid : r.(or_RequestID) <> 0) (Hdest : r.(or_Destination) <> ""%string)
  (Hport : r.(or_Port) <> 0) (Hproto : r.(or_Protocol) = ProtocolTCP)
  (Hsize : Z.of_nat (length (print (to_json r))) <= MaxFrameSize)
  (Hid64 : 0 <= id < 2 ^ 64) (Hroom : w.(sk_room) = None) :
  exists f,
    WriteJSON w FrameOpen id r = (None, sink_append w (frame_bytes f)) /\
    f.(fr_Type) = FrameOpen /\ f.(fr_ID) = id /\ DecodeOpen f = Ok r.
Proof.
  exists (mkFrame FrameOpen id (print (to_json r))). unfold WriteJSON, Writer_Write, Marshal.
  rewrite WriteFrame_room by (done || unfold has_room; by rewrite Hroom).
  split_and!; try done. by apply DecodeOpen_Marshal.
Qed.

Lemma open_request_roundtrip_witness :
  exists f,
    WriteJSON (mkSink [] None EOF) FrameOpen 1
      (mkOpenRequest 1 "auto" "example.com" 443 "tcp" false)
      = (None, sink_append (mkSink [] None EOF) (frame_bytes f)) /\
    f.(fr_Type) = FrameOpen /\ f.(fr_ID) = 1 /\
    DecodeOpen f = Ok (mkOpenRequest 1 "auto" "example.com" 443 "tcp" false).
Proof.
  apply (open_request_roundtrip (mkSink [] None EOF) 1
    (mkOpenRequest 1 "auto" "example.com" 443 "tcp" false)); try done.
Defined.

(** C22: a request [DecodeOpen] accepts, whatever the peer sent, names a
    destination and a port between 1 and 65535 and asks for protocol tcp; its
    ID is the one in the message, or the frame's when the message has none. *)
Theorem DecodeOpen_valid (f : Frame) (r : OpenRequest) (H : DecodeOpen f = Ok r) :
  r.(or_Destination) <> ""%string /\ 1 <= r.(or_Port) <= 65535 /\
  r.(or_Protocol) = ProtocolTCP /\
  (r.(or_RequestID) = 0 -> f.(fr_ID) = 0).
Proof.
  unfold DecodeOpen, DecodeJSON in H. pose proof (OpenRequest_port_range f.(fr_Payload)) as Hp.
  destruct (Unmarshal _) as [[id exit dest port proto sel] [e|]]; [done|]. cbn in Hp.
  destruct (empty_string dest || (port =? 0)) eqn:E1; [done|].
  apply orb_false_iff in E1 as [Ed Ep]. apply Z.eqb_neq in Ep.
  apply bool_decide_eq_false in Ed.
  destruct (bool_decide _) eqn:E2 in H; [|done]. apply bool_decide_eq_true in E2.
  injection H as <-. cbn. split_and!; try done; [lia..|].
  destruct (Z.eqb_spec id 0); [done|]. intros. lia.
Qed.

Lemma DecodeOpen_valid_witness :
  "h"%string <> ""%string /\ 1 <= 80 <= 65535 /\ ProtocolTCP = ProtocolTCP /\ (7 = 0 -> 7 = 0).
Proof.
  apply (DecodeOpen_valid
    (mkFrame FrameOpen 7 (print (to_json (mkOpenRequest 0 "" "h" 80 "" false))))
    (mkOpenRequest 7 "" "h" 80 "tcp" false)).
  vm_compute. reflexivity.
Defined.
