(* ===== verification/GoTime.v ===== *)
(** * [time]: instants and durations

    An instant is a count of nanoseconds; Go's zero [time.Time] is [0] and
    every reading of the clock is later.  A duration is an [int64] count of
    nanoseconds. *)
From S2P Require Import Prelude.

Abbreviation Time := Z.
Abbreviation Duration := Z.

Definition Millisecond : Duration := 10 ^ 6.
Definition Second : Duration := 10 ^ 9.
Definition Minute : Duration := 60 * Second.

(** [t.Sub(u)] saturates at the extreme durations. *)
Definition Sub (t u : Time) : Duration := Z.max (- 2 ^ 63) (Z.min (2 ^ 63 - 1) (t - u)).
Definition Before (t u : Time) : bool := t <? u.
Definition IsZero (t : Time) : bool := t =? 0.
(** [t.Add(d)]. *)
Definition TAdd (t : Time) (d : Duration) : Time := t + d.
(** [t.UnixMilli()], with [unix_epoch] the instant of the Unix epoch. *)
Definition unix_epoch : Time := 62135596800 * Second.
Definition UnixMilli (t : Time) : Z := (t - unix_epoch) / Millisecond.

Lemma Sub_gt t u d : - 2 ^ 63 <= d < 2 ^ 63 - 1 -> (d <? Sub t u) = (d <? t - u).
Proof. unfold Sub. intros. apply eq_true_iff_eq. rewrite !Z.ltb_lt. lia. Qed.
