(* ===== verification/Registry.v ===== *)
(** * The exit registry: [internal/node/registry.go]

    Go iterates a map in an unspecified order.  Operations that range over
    the map take that order as an argument, a list of the map's entries; the
    theorems quantify over every permutation of them. *)
From S2P Require Import Prelude GoStrings GoTime Protocol.

Record exitEntry := mkEntry {
  ee_info : ExitInfo;
  ee_heartbeat : Time;
  ee_persistent : bool
}.

Record Registry := mkRegistry {
  rg_exits : gmap string exitEntry;
  rg_staleFor : Duration
}.

Abbreviation order := (list (string * exitEntry)).
(** An order in which [range] may visit the map. *)
Definition visits (ord : order) (r : Registry) : Prop := ord ≡ₚ map_to_list r.(rg_exits).

Definition NewRegistry (staleFor : Duration) : Registry :=
  mkRegistry ∅ (if staleFor <=? 0 then 45 * Second else staleFor).

Definition set_health_time (i : ExitInfo) (health : string) (ms : Z) : ExitInfo :=
  mkExitInfo i.(ei_ID) i.(ei_Name) i.(ei_Type) health i.(ei_LatencyMS)
    i.(ei_ActiveConnections) i.(ei_Capacity) i.(ei_Features) ms.

Definition add (now : Time) (info : ExitInfo) (health : string) (persistent : bool)
  (r : Registry) : Registry :=
  let info := set_health_time info health (UnixMilli now) in
  mkRegistry (<[info.(ei_ID) := mkEntry info now persistent]> r.(rg_exits)) r.(rg_staleFor).

Definition Add (now : Time) (info : ExitInfo) (health : string) (r : Registry) : Registry :=
  add now info health false r.
Definition AddPersistent (now : Time) (info : ExitInfo) (health : string) (r : Registry)
  : Registry := add now info health true r.

Definition healthFor (active capacity : Z) : string :=
  if (capacity <=? 0) || (capacity <=? active) then "at-capacity"
  else if wrap_i64 (capacity * 90) <? wrap_i64 (active * 100) then "degraded"
  else "healthy".

Definition heartbeat_entry (now : Time) (h : Heartbeat) (e : exitEntry) : exitEntry :=
  let i := e.(ee_info) in
  let active := h.(hb_Active) in
  let capacity := if 0 <? h.(hb_Capacity) then h.(hb_Capacity) else i.(ei_Capacity) in
  mkEntry
    (mkExitInfo i.(ei_ID) i.(ei_Name) i.(ei_Type) (healthFor active capacity) i.(ei_LatencyMS)
       active capacity i.(ei_Features) (UnixMilli now))
    now e.(ee_persistent).

Definition Registry_Heartbeat (now : Time) (h : Heartbeat) (r : Registry) : Registry :=
  match r.(rg_exits) !! h.(hb_ExitID) with
  | Some e =>
      mkRegistry (<[h.(hb_ExitID) := heartbeat_entry now h e]> r.(rg_exits)) r.(rg_staleFor)
  | None => r
  end.

Definition Remove (id : string) (r : Registry) : Registry :=
  mkRegistry (delete id r.(rg_exits)) r.(rg_staleFor).

Definition expire_step (now : Time) (staleFor : Duration)
  (m : gmap string exitEntry) (kv : string * exitEntry) : gmap string exitEntry :=
  if kv.2.(ee_persistent) then m
  else if staleFor <? Sub now kv.2.(ee_heartbeat) then delete kv.1 m
  else m.

(** The loop of [Expire]; its result, [r.Snapshot()], is taken separately. *)
Definition Expire (now : Time) (ord : order) (r : Registry) : Registry :=
  mkRegistry (fold_left (expire_step now r.(rg_staleFor)) ord r.(rg_exits)) r.(rg_staleFor).

Definition id_le (a b : ExitInfo) : Prop := String.le a.(ei_ID) b.(ei_ID).
#[export] Instance id_le_dec : RelDecision id_le.
Proof. intros a b. unfold id_le. apply _. Defined.

Definition Snapshot (ord : order) : list ExitInfo :=
  merge_sort id_le (map (fun kv => kv.2.(ee_info)) ord).

Definition Get (id : string) (r : Registry) : option ExitInfo :=
  ee_info <$> r.(rg_exits) !! id.

Definition eligible (i : ExitInfo) : bool :=
  bool_decide (i.(ei_Health) = "healthy"%string) && (i.(ei_ActiveConnections) <? i.(ei_Capacity)).

Definition score (i : ExitInfo) : Z :=
  let available := wrap_i64 (i.(ei_Capacity) - i.(ei_ActiveConnections)) in
  wrap_i64 (wrap_i64 (available * 1000) - i.(ei_LatencyMS)).

Definition select_step (sel : option (ExitInfo * Z)) (kv : string * exitEntry)
  : option (ExitInfo * Z) :=
  let info := kv.2.(ee_info) in
  if negb (eligible info) then sel
  else
    let cur := score info in
    match sel with
    | None => Some (info, cur)
    | Some (s, sc) =>
        if (sc <? cur) || ((cur =? sc) && String.ltb info.(ei_ID) s.(ei_ID))
        then Some (info, cur) else sel
    end.

Definition selectAny (ord : order) : result ExitInfo :=
  match find (fun kv => eligible kv.2.(ee_info)) ord with
  | Some kv => Ok kv.2.(ee_info)
  | None => Err ErrNoExit
  end.

Definition Select (ord : order) (exitID : string) (fallback : bool) (r : Registry)
  : result ExitInfo :=
  if bool_decide (exitID = ""%string) || bool_decide (exitID = "auto"%string) then
    match fold_left select_step ord None with
    | None => Err ErrNoExit
    | Some (s, _) => Ok s
    end
  else
    match r.(rg_exits) !! exitID with
    | Some e =>
        if eligible e.(ee_info) then Ok e.(ee_info)
        else if fallback then selectAny ord else Err ErrExitUnavailable
    | None => if fallback then selectAny ord else Err ErrExitUnavailable
    end.

(* ------------------------------------------------------------------ *)
(** ** The invariant: an entry is stored under its own ID *)

Definition registry_wf (r : Registry) : Prop :=
  map_Forall (fun id e => e.(ee_info).(ei_ID) = id) r.(rg_exits).

Inductive reg_op : Type :=
  | OpAdd (info : ExitInfo) (health : string) (persistent : bool)
  | OpHeartbeat (h : Heartbeat)
  | OpRemove (id : string)
  | OpExpire.

(** One operation at a time; [OpExpire] visits the map in its own order. *)
Definition apply_op (now : Time) (op : reg_op) (r : Registry) : Registry :=
  match op with
  | OpAdd info health persistent => add now info health persistent r
  | OpHeartbeat h => Registry_Heartbeat now h r
  | OpRemove id => Remove id r
  | OpExpire => Expire now (map_to_list r.(rg_exits)) r
  end.

Definition run_ops (ops : list (Time * reg_op)) (r : Registry) : Registry :=
  fold_left (fun r '(now, op) => apply_op now op r) ops r.

(** What [Expire] keeps. *)
Definition keeps (now : Time) (staleFor : Duration) (e : exitEntry) : bool :=
  e.(ee_persistent) || negb (staleFor <? Sub now e.(ee_heartbeat)).

Lemma expire_fold_lookup now st ord m id :
  NoDup ord.*1 ->
  fold_left (expire_step now st) ord m !! id =
  match list_find (fun kv => kv.1 = id) ord with
  | Some (_, kv) => if keeps now st kv.2 then m !! id else None
  | None => m !! id
  end.
Proof.
  revert m. induction ord as [|[k e] ord IH]; intros m Hnd; [done|].
  cbn [fmap list_fmap fst] in Hnd. apply NoDup_cons in Hnd as [Hk Hnd].
  cbn [fold_left list_find]. rewrite IH by done. unfold expire_step. cbn [fst snd].
  destruct (decide (k = id)) as [->|Hne].
  - assert (list_find (fun kv : string * exitEntry => kv.1 = id) ord = None) as ->.
    { apply list_find_None, Forall_forall. intros kv Hkv Heq. apply Hk.
      rewrite <- Heq. by apply list_elem_of_fmap_2. }
    unfold keeps. cbn [snd].
    destruct (ee_persistent e), (st <? Sub now (ee_heartbeat e)); cbn [orb negb];
      by rewrite ?lookup_delete_eq.
  - destruct (list_find _ ord) as [[? [? ?]]|]; cbn [fmap option_fmap option_map prod_map fst snd];
      destruct (ee_persistent e), (st <? Sub now (ee_heartbeat e)); by rewrite ?lookup_delete_ne.
Qed.

Lemma list_find_map_to_list (ord : order) (m : gmap string exitEntry) id :
  ord ≡ₚ map_to_list m ->
  match list_find (fun kv => kv.1 = id) ord with
  | Some (_, kv) => kv.1 = id /\ m !! id = Some kv.2
  | None => m !! id = None
  end.
Proof.
  intros Hp. destruct (list_find _ ord) as [[n [k e]]|] eqn:E.
  - apply list_find_Some in E as (Hl & Hk & _). cbn in Hk |- *. subst k. split; [done|].
    apply elem_of_map_to_list. rewrite <- Hp. by eapply list_elem_of_lookup_2.
  - apply list_find_None in E. destruct (m !! id) as [e|] eqn:El; [|done].
    apply elem_of_map_to_list in El. rewrite <- Hp in El.
    rewrite Forall_forall in E. by destruct (E _ El).
Qed.

Lemma visits_map_to_list r : visits (map_to_list r.(rg_exits)) r.
Proof. by unfold visits. Qed.

Lemma visits_NoDup ord r : visits ord r -> NoDup ord.*1.
Proof. unfold visits. intros ->. apply NoDup_fst_map_to_list. Qed.

Lemma Expire_lookup now ord r id :
  visits ord r ->
  (Expire now ord r).(rg_exits) !! id =
  match r.(rg_exits) !! id with
  | Some e => if keeps now r.(rg_staleFor) e then Some e else None
  | None => None
  end.
Proof.
  intros Hv. unfold Expire; cbn [rg_exits]. rewrite expire_fold_lookup by by eapply visits_NoDup.
  pose proof (list_find_map_to_list ord r.(rg_exits) id Hv) as H.
  destruct (list_find _ ord) as [[n kv]|]; [destruct H as [_ ->]|by rewrite H].
  by destruct (keeps _ _ _).
Qed.

Lemma registry_wf_lookup r id e :
  registry_wf r -> r.(rg_exits) !! id = Some e -> e.(ee_info).(ei_ID) = id.
Proof. intros Hw. apply Hw. Qed.

Lemma wf_insert r id e :
  registry_wf r -> e.(ee_info).(ei_ID) = id ->
  registry_wf (mkRegistry (<[id := e]> r.(rg_exits)) r.(rg_staleFor)).
Proof. intros Hw He. by apply map_Forall_insert_2. Qed.

Lemma apply_op_wf now op r : registry_wf r -> registry_wf (apply_op now op r).
Proof.
  intros Hw. destruct op as [info health p|h|id|]; cbn [apply_op].
  - by apply wf_insert.
  - unfold Registry_Heartbeat. destruct (_ !! _) as [e|] eqn:E; [|done].
    apply wf_insert; [done|]. exact (Hw _ _ E).
  - by apply map_Forall_delete.
  - intros id e. rewrite Expire_lookup by apply visits_map_to_list.
    destruct (rg_exits r !! id) eqn:E; [|done]. destruct (keeps _ _ _); [|done].
    intros [= <-]. exact (Hw _ _ E).
Qed.

Lemma run_ops_wf ops : forall r, registry_wf r -> registry_wf (run_ops ops r).
Proof.
  induction ops as [|[now op] ops IH]; intros r Hw; [done|].
  apply IH. by apply apply_op_wf.
Qed.

(* ------------------------------------------------------------------ *)
(** ** Selection *)

(** [b] is preferred to [x], or as good: a higher score, or the same score
    and an ID that is not later. *)
Definition better (b x : ExitInfo) : Prop :=
  score x < score b \/ score x = score b /\ String.le b.(ei_ID) x.(ei_ID).

Lemma better_refl b : better b b.
Proof. right. split; [done|]. reflexivity. Qed.
Lemma better_trans a b c : better a b -> better b c -> better a c.
Proof.
  unfold better. intros [?|[? H1]] [?|[? H2]]; [left; lia..|].
  right. split; [lia|]. by etransitivity.
Qed.
Lemma better_antisym a b : better a b -> better b a -> a.(ei_ID) = b.(ei_ID).
Proof.
  unfold better. intros [?|[? H1]] [?|[? H2]]; try lia. by apply (anti_symm String.le).
Qed.

(** The loop's invariant: the best of the entries seen so far. *)
Definition best_of (seen : list ExitInfo) (sel : option (ExitInfo * Z)) : Prop :=
  match sel with
  | None => Forall (fun i => eligible i = false) seen
  | Some (b, sc) =>
      b ∈ seen /\ eligible b = true /\ sc = score b /\
      Forall (fun x => eligible x = true -> better b x) seen
  end.

Lemma select_step_best seen sel kv :
  best_of seen sel -> best_of (seen ++ [kv.2.(ee_info)]) (select_step sel kv).
Proof.
  unfold select_step. set (i := ee_info kv.2). destruct (eligible i) eqn:Ei; cbn [negb].
  - destruct sel as [[b sc]|]; cbn [best_of].
    + intros (Hin & He & -> & Hall).
      destruct ((score b <? score i) || _) eqn:E; cbn [best_of].
      * assert (better i b) as Hib.
        { apply orb_true_iff in E as [E|E]; [left; lia|]. apply andb_true_iff in E as [E1 E2].
          right. split; [lia|]. by apply ltb_true. }
        split_and!; [apply elem_of_app; rewrite ?list_elem_of_singleton; auto|done|done|]. apply Forall_app. split.
        -- eapply Forall_impl; [exact Hall|]. eauto using better_trans.
        -- apply Forall_singleton. intros _. apply better_refl.
      * apply orb_false_iff in E as [E1 E2].
        split_and!; [apply elem_of_app; rewrite ?list_elem_of_singleton; auto|done|done|]. apply Forall_app. split; [done|].
        apply Forall_singleton. intros _. apply andb_false_iff in E2 as [E2|E2]; [left; lia|].
        destruct (Z.lt_ge_cases (score i) (score b)); [by left|right].
        split; [lia|]. by apply ltb_false.
    + intros Hall. split_and!; [apply elem_of_app; rewrite ?list_elem_of_singleton; auto|done|done|]. apply Forall_app. split.
      * eapply Forall_impl; [exact Hall|]. intros x Hx. by rewrite Hx.
      * apply Forall_singleton. intros _. apply better_refl.
  - destruct sel as [[b sc]|]; cbn [best_of].
    + intros (Hin & He & -> & Hall). split_and!; [apply elem_of_app; rewrite ?list_elem_of_singleton; auto|done|done|].
      apply Forall_app. split; [done|]. apply Forall_singleton. by rewrite Ei.
    + intros Hall. apply Forall_app. split; [done|]. by apply Forall_singleton.
Qed.

Lemma select_fold_best ord : forall seen sel,
  best_of seen sel ->
  best_of (seen ++ map (fun kv => kv.2.(ee_info)) ord) (fold_left select_step ord sel).
Proof.
  induction ord as [|kv ord IH]; intros seen sel H; cbn [fold_left map].
  - by rewrite app_nil_r.
  - rewrite cons_middle, app_assoc. by apply IH, select_step_best.
Qed.

(** The entries of the map, in the order of the visit. *)
Lemma visits_elem ord r i :
  visits ord r ->
  i ∈ map (fun kv => kv.2.(ee_info)) ord <->
  exists id e, r.(rg_exits) !! id = Some e /\ e.(ee_info) = i.
Proof.
  intros Hv. rewrite list_elem_of_In, in_map_iff. split.
  - intros ([id e] & <- & Hin). exists id, e. split; [|done].
    apply elem_of_map_to_list. rewrite <- Hv. by apply list_elem_of_In.
  - intros (id & e & He & <-). exists (id, e). split; [done|].
    apply list_elem_of_In. rewrite Hv. by apply elem_of_map_to_list.
Qed.

Definition auto_id (id : string) : bool :=
  bool_decide (id = ""%string) || bool_decide (id = "auto"%string).

(** What automatic selection answers, whatever the visiting order. *)
Definition is_best (r : Registry) (i : ExitInfo) : Prop :=
  (exists id e, r.(rg_exits) !! id = Some e /\ e.(ee_info) = i) /\ eligible i = true /\
  forall id e, r.(rg_exits) !! id = Some e -> eligible e.(ee_info) = true ->
    better i e.(ee_info).

Lemma Select_auto ord id fb r :
  visits ord r -> auto_id id = true ->
  match Select ord id fb r with
  | Ok i => is_best r i
  | Err e =>
      e = ErrNoExit /\
      forall id e, r.(rg_exits) !! id = Some e -> eligible e.(ee_info) = false
  end.
Proof.
  intros Hv Hid. unfold Select. unfold auto_id in Hid. rewrite Hid.
  pose proof (select_fold_best ord [] None (Forall_nil_2 _)) as H. cbn [app] in H.
  destruct (fold_left select_step ord None) as [[b sc]|]; cbn [best_of] in H.
  - destruct H as (Hin & He & _ & Hall). split; [by eapply visits_elem|]. split; [done|].
    intros id' e' He' Hel. rewrite Forall_forall in Hall. apply Hall; [|done].
    apply (visits_elem ord r); eauto.
  - split; [done|]. intros id' e' He'. rewrite Forall_forall in H. apply H.
    apply (visits_elem ord r); eauto.
Qed.

Lemma is_best_unique r i j : registry_wf r -> is_best r i -> is_best r j -> i = j.
Proof.
  intros Hw ((idi & ei & Hi & <-) & Ei & Bi) ((idj & ej & Hj & <-) & Ej & Bj).
  pose proof (better_antisym _ _ (Bi _ _ Hj Ej) (Bj _ _ Hi Ei)) as H.
  rewrite (registry_wf_lookup _ _ _ Hw Hi), (registry_wf_lookup _ _ _ Hw Hj) in H.
  subst. congruence.
Qed.

Lemma score_exact i :
  0 <= i.(ei_Capacity) < 2 ^ 40 -> 0 <= i.(ei_ActiveConnections) < 2 ^ 40 ->
  0 <= i.(ei_LatencyMS) < 2 ^ 40 ->
  score i = (i.(ei_Capacity) - i.(ei_ActiveConnections)) * 1000 - i.(ei_LatencyMS).
Proof.
  intros. unfold score.
  rewrite (wrap_i64_small (ei_Capacity i - _)) by (unfold in_i64; lia).
  rewrite (wrap_i64_small (_ * 1000)) by (unfold in_i64; lia).
  apply wrap_i64_small. unfold in_i64. lia.
Qed.

(* ------------------------------------------------------------------ *)
(** ** Snapshots *)

#[export] Instance id_le_trans : Transitive id_le.
Proof. intros a b c. unfold id_le. apply transitivity. Qed.
#[export] Instance id_le_total : Total id_le.
Proof. intros a b. apply string_le_total. Qed.

Lemma Snapshot_unique ord ord' r :
  registry_wf r -> visits ord r -> visits ord' r -> Snapshot ord = Snapshot ord'.
Proof.
  intros Hw Hv Hv'. unfold Snapshot.
  apply (StronglySorted_unique_strong id_le); try apply (StronglySorted_merge_sort id_le).
  - intros x y. rewrite !merge_sort_Permutation.
    rewrite (visits_elem ord r x), (visits_elem ord' r y) by done.
    intros (idx & ex & Hx & <-) (idy & ey & Hy & <-) H1 H2.
    assert (ei_ID (ee_info ex) = ei_ID (ee_info ey)) as E by by apply (anti_symm String.le).
    rewrite (registry_wf_lookup _ _ _ Hw Hx), (registry_wf_lookup _ _ _ Hw Hy) in E.
    subst. congruence.
  - rewrite !merge_sort_Permutation. apply Permutation_map. by rewrite Hv, Hv'.
Qed.

(* ------------------------------------------------------------------ *)
(** ** Staying registered *)

(** [id], last seen at [seen], is never older than [staleFor] when an
    expiry pass of [ops] runs, and is not removed. *)
Fixpoint kept_fresh (id : string) (staleFor : Duration) (seen : Time)
  (ops : list (Time * reg_op)) : Prop :=
  match ops with
  | [] => True
  | (now, op) :: ops =>
      match op with
      | OpAdd info _ _ =>
          kept_fresh id staleFor (if bool_decide (info.(ei_ID) = id) then now else seen) ops
      | OpHeartbeat h =>
          kept_fresh id staleFor (if bool_decide (h.(hb_ExitID) = id) then now else seen) ops
      | OpRemove id' => id' <> id /\ kept_fresh id staleFor seen ops
      | OpExpire => now - seen <= staleFor /\ kept_fresh id staleFor seen ops
      end
  end.

Lemma apply_op_staleFor now op r : (apply_op now op r).(rg_staleFor) = r.(rg_staleFor).
Proof. destruct op; cbn; try done. unfold Registry_Heartbeat. by destruct (_ !! _). Qed.

Lemma kept_fresh_lookup id ops : forall r seen e,
  0 < r.(rg_staleFor) < 2 ^ 63 - 1 ->
  r.(rg_exits) !! id = Some e -> seen <= e.(ee_heartbeat) ->
  kept_fresh id r.(rg_staleFor) seen ops ->
  exists e', (run_ops ops r).(rg_exits) !! id = Some e'.
Proof.
  induction ops as [|[now op] ops IH]; intros r seen e Hst He Hseen Hk; [eauto|].
  cbn [run_ops fold_left]. fold (run_ops ops (apply_op now op r)).
  rewrite <- (apply_op_staleFor now op r) in Hst, Hk.
  destruct op as [info health p|h|id'|]; cbn [kept_fresh] in Hk.
  - case_bool_decide as E.
    + eapply (IH _ now); [done| | |exact Hk]; [cbn; by rewrite <- E, lookup_insert_eq|cbn; lia].
    + eapply IH; [done| |exact Hseen|exact Hk]. cbn. by rewrite lookup_insert_ne.
  - cbn [apply_op] in *. unfold Registry_Heartbeat in *. case_bool_decide as E.
    + rewrite E, He in *. eapply (IH _ now); [done| | |exact Hk];
        [apply lookup_insert_eq|cbn; lia].
    + destruct (rg_exits r !! hb_ExitID h); (eapply IH; [done| |exact Hseen|exact Hk]); [|done].
      cbn. by rewrite lookup_insert_ne.
  - destruct Hk as [Hne Hk]. eapply IH; [done| |exact Hseen|exact Hk].
    cbn. by rewrite lookup_delete_ne.
  - destruct Hk as [Hage Hk]. eapply IH; [done| |exact Hseen|exact Hk].
    cbn [apply_op]. rewrite Expire_lookup by apply visits_map_to_list.
    rewrite He. unfold keeps. cbn in Hst, Hage. rewrite Sub_gt by lia.
    rewrite (proj2 (Z.ltb_ge _ _)) by lia. by rewrite orb_true_r.
Qed.

(* ------------------------------------------------------------------ *)
(** ** Properties *)

(** Every sequence of registry operations from a new registry keeps each
    entry under its own ID. *)
Theorem registry_invariant (d : Duration) (ops : list (Time * reg_op)) :
  registry_wf (run_ops ops (NewRegistry d)).
Proof. apply run_ops_wf. by apply map_Forall_empty. Qed.

(** Automatic selection does not depend on the order in which Go happens
    to iterate the map, nor on the fallback flag: two runs on the same
    registry give the same exit, or both none. *)
Theorem Select_order_independent (r : Registry) (ord ord' : order) (id : string) (fb fb' : bool)
  (Hwf : registry_wf r) (Hv : visits ord r) (Hv' : visits ord' r) (Hid : auto_id id = true) :
  Select ord id fb r = Select ord' id fb' r.
Proof.
  pose proof (Select_auto ord id fb r Hv Hid) as H.
  pose proof (Select_auto ord' id fb' r Hv' Hid) as H'.
  destruct (Select ord id fb r) as [i|e], (Select ord' id fb' r) as [j|e'].
  - f_equal. by eapply is_best_unique.
  - destruct H as ((k & x & Hk & <-) & He & _), H' as [_ H']. by rewrite (H' _ _ Hk) in He.
  - destruct H' as ((k & x & Hk & <-) & He & _), H as [_ H]. by rewrite (H _ _ Hk) in He.
  - destruct H as [-> _], H' as [-> _]. done.
Qed.

Definition two_exits : Registry :=
  Add 7 (mkExitInfo "b" "b" "exit" "" 10 0 2 [] 0) "healthy"
    (Add 5 (mkExitInfo "a" "a" "exit" "" 10 0 2 [] 0) "healthy" (NewRegistry 0)).

Lemma two_exits_wf : registry_wf two_exits.
Proof.
  apply (run_ops_wf
    [(5, OpAdd (mkExitInfo "a" "a" "exit" "" 10 0 2 [] 0) "healthy" false);
     (7, OpAdd (mkExitInfo "b" "b" "exit" "" 10 0 2 [] 0) "healthy" false)] (NewRegistry 0)).
  by apply map_Forall_empty.
Qed.

Lemma Select_order_independent_witness :
  let ord := map_to_list two_exits.(rg_exits) in
  Select ord "auto" false two_exits = Select (reverse ord) "auto" true two_exits.
Proof.
  apply (Select_order_independent two_exits).
  - apply two_exits_wf.
  - apply visits_map_to_list.
  - unfold visits. apply reverse_Permutation.
  - reflexivity.
Defined.

(** C14: automatic selection picks, among the healthy exits with a free slot,
    one with the largest value of free slots times 1000 minus latency, and the
    smallest ID among those; it fails with [ErrNoExit] exactly when no exit is
    healthy with a free slot.  (The counts are assumed small enough for the
    score not to overflow an [int64].) *)
Theorem Select_auto_optimal (r : Registry) (ord : order) (id : string) (fb : bool)
  (Hv : visits ord r) (Hid : auto_id id = true)
  (Hsmall : forall k e, r.(rg_exits) !! k = Some e ->
     0 <= e.(ee_info).(ei_Capacity) < 2 ^ 40 /\
     0 <= e.(ee_info).(ei_ActiveConnections) < 2 ^ 40 /\
     0 <= e.(ee_info).(ei_LatencyMS) < 2 ^ 40) :
  let value i := (i.(ei_Capacity) - i.(ei_ActiveConnections)) * 1000 - i.(ei_LatencyMS) in
  match Select ord id fb r with
  | Ok i =>
      i.(ei_Health) = "healthy"%string /\ i.(ei_ActiveConnections) < i.(ei_Capacity) /\
      forall k e, r.(rg_exits) !! k = Some e -> eligible e.(ee_info) = true ->
        value e.(ee_info) < value i \/
        value e.(ee_info) = value i /\ String.le i.(ei_ID) e.(ee_info).(ei_ID)
  | Err e =>
      e = ErrNoExit /\ forall k e, r.(rg_exits) !! k = Some e -> eligible e.(ee_info) = false
  end.
Proof.
  intros value. pose proof (Select_auto ord id fb r Hv Hid) as H.
  destruct (Select ord id fb r) as [i|]; [|done].
  destruct H as ((k & e & Hk & <-) & He & Hb).
  unfold eligible in He. apply andb_true_iff in He as [He1 He2].
  apply bool_decide_eq_true in He1. split_and!; [done|lia|].
  intros k' e' Hk' He'. specialize (Hb _ _ Hk' He'). unfold better in Hb.
  destruct (Hsmall _ _ Hk) as (? & ? & ?), (Hsmall _ _ Hk') as (? & ? & ?).
  rewrite !score_exact in Hb by done. exact Hb.
Qed.

Lemma Select_auto_optimal_witness :
  match Select (map_to_list two_exits.(rg_exits)) "" false two_exits with
  | Ok i => i.(ei_ID) = "a"%string /\ i.(ei_ActiveConnections) < i.(ei_Capacity)
  | Err _ => False
  end.
Proof.
  pose proof (Select_auto_optimal two_exits (map_to_list two_exits.(rg_exits)) "" false
    (visits_map_to_list _) eq_refl) as H.
  assert (forall k e, two_exits.(rg_exits) !! k = Some e ->
     0 <= e.(ee_info).(ei_Capacity) < 2 ^ 40 /\
     0 <= e.(ee_info).(ei_ActiveConnections) < 2 ^ 40 /\
     0 <= e.(ee_info).(ei_LatencyMS) < 2 ^ 40) as Hs.
  { unfold two_exits. cbn. intros k e. rewrite !lookup_insert, lookup_empty.
    repeat case_decide; intros [= <-]; cbn; lia. }
  specialize (H Hs). revert H. vm_compute. intros (_ & Hlt & _). split; [reflexivity|exact Hlt].
Defined.

(** What holds of a selected exit. *)
Lemma Select_sound (r : Registry) (ord : order) (id : string) (fb : bool) (i : ExitInfo)
  (Hv : visits ord r) (H : Select ord id fb r = Ok i) :
  (exists k e, r.(rg_exits) !! k = Some e /\ e.(ee_info) = i) /\
  i.(ei_Health) = "healthy"%string /\ i.(ei_ActiveConnections) < i.(ei_Capacity) /\
  (auto_id id = false -> fb = false -> Get id r = Some i).
Proof.
  assert (forall i, eligible i = true ->
    i.(ei_Health) = "healthy"%string /\ i.(ei_ActiveConnections) < i.(ei_Capacity)) as Hel.
  { intros j [Hj1%bool_decide_eq_true Hj2]%andb_true_iff. split; [done|lia]. }
  assert (selectAny ord = Ok i -> (exists k e, r.(rg_exits) !! k = Some e /\ e.(ee_info) = i) /\
    eligible i = true) as Hany.
  { unfold selectAny. destruct (find _ ord) as [[k e]|] eqn:Ef; [|done]. intros [= <-].
    apply find_some in Ef as [Hin He]. split; [|done]. exists k, e. split; [|done].
    apply elem_of_map_to_list. rewrite <- Hv. by apply list_elem_of_In. }
  destruct (auto_id id) eqn:Ea.
  - pose proof (Select_auto ord id fb r Hv Ea) as Hs. rewrite H in Hs.
    destruct Hs as (Hex & He & _). destruct (Hel _ He). done.
  - unfold Select in H. unfold auto_id in Ea. rewrite Ea in H. unfold Get.
    destruct (rg_exits r !! id) as [e|] eqn:El.
    + destruct (eligible (ee_info e)) eqn:Ee.
      * injection H as <-. destruct (Hel _ Ee). eauto 10.
      * destruct fb; [|done]. destruct (Hany H) as [? He]. destruct (Hel _ He). done.
    + destruct fb; [|done]. destruct (Hany H) as [? He]. destruct (Hel _ He). done.
Qed.

(** Selection never returns an exit that is not registered, not healthy or
    full; and an explicit request without fallback returns that very exit. *)
Theorem Select_safe (r : Registry) (ord : order) (id : string) (fb : bool) (i : ExitInfo)
  (Hv : visits ord r) (H : Select ord id fb r = Ok i) :
  (exists k e, r.(rg_exits) !! k = Some e /\ e.(ee_info) = i) /\
  i.(ei_Health) = "healthy"%string /\ i.(ei_ActiveConnections) < i.(ei_Capacity) /\
  (auto_id id = false -> fb = false -> Get id r = Some i).
Proof. by apply (Select_sound r ord id fb i). Qed.

Lemma Select_safe_witness :
  let r := two_exits in
  let i := set_health_time (mkExitInfo "b" "b" "exit" "" 10 0 2 [] 0) "healthy" (UnixMilli 7) in
  (exists k e, r.(rg_exits) !! k = Some e /\ e.(ee_info) = i) /\
  i.(ei_Health) = "healthy"%string /\ i.(ei_ActiveConnections) < i.(ei_Capacity) /\
  (auto_id "b" = false -> false = false -> Get "b" r = Some i).
Proof.
  apply (Select_safe two_exits (map_to_list two_exits.(rg_exits)) "b" false).
  - apply visits_map_to_list.
  - vm_compute. reflexivity.
Defined.

(** A snapshot is the list of the registered exits sorted by ID, the same
    for every iteration order of the map. *)
Theorem Snapshot_canonical (r : Registry) (ord ord' : order)
  (Hwf : registry_wf r) (Hv : visits ord r) (Hv' : visits ord' r) :
  Snapshot ord = Snapshot ord' /\ StronglySorted id_le (Snapshot ord) /\
  forall i, i ∈ Snapshot ord <-> exists k e, r.(rg_exits) !! k = Some e /\ e.(ee_info) = i.
Proof.
  split_and!.
  - by eapply Snapshot_unique.
  - apply (StronglySorted_merge_sort id_le).
  - intros i. unfold Snapshot. rewrite merge_sort_Permutation. by apply visits_elem.
Qed.

Lemma Snapshot_canonical_witness :
  let ord := map_to_list two_exits.(rg_exits) in
  Snapshot ord = Snapshot (reverse ord) /\ StronglySorted id_le (Snapshot ord) /\
  forall i, i ∈ Snapshot ord <->
    exists k e, two_exits.(rg_exits) !! k = Some e /\ e.(ee_info) = i.
Proof.
  apply (Snapshot_canonical two_exits).
  - apply two_exits_wf.
  - apply visits_map_to_list.
  - unfold visits. apply reverse_Permutation.
Defined.

(** An expiry pass removes exactly the entries that are not persistent
    and whose last heartbeat is older than [staleFor], in whatever order it
    visits them, and leaves the others untouched. *)
Theorem Expire_exact (r : Registry) (now : Time) (ord : order) (id : string)
  (Hv : visits ord r) (Hst : 0 < r.(rg_staleFor) < 2 ^ 63 - 1) :
  (Expire now ord r).(rg_exits) !! id =
  match r.(rg_exits) !! id with
  | Some e =>
      if negb e.(ee_persistent) && (r.(rg_staleFor) <? now - e.(ee_heartbeat))
      then None else Some e
  | None => None
  end.
Proof.
  rewrite Expire_lookup by done. destruct (rg_exits r !! id) as [e|]; [|done].
  unfold keeps. rewrite Sub_gt by lia. by destruct (ee_persistent e), (_ <? _).
Qed.

Lemma Expire_exact_witness :
  (Expire (45 * Second + 6) (map_to_list two_exits.(rg_exits)) two_exits).(rg_exits) !! "a" = None.
Proof.
  rewrite (Expire_exact two_exits (45 * Second + 6) (map_to_list two_exits.(rg_exits)) "a").
  - vm_compute. reflexivity.
  - apply visits_map_to_list.
  - vm_compute. split; reflexivity.
Defined.

(** An exit that is heard of (registration or heartbeat) at most
    [staleFor] before each expiry pass stays registered through any sequence
    of operations that does not remove it explicitly. *)
Theorem heartbeat_keeps_exit (id : string) (ops : list (Time * reg_op)) (r : Registry)
  (e : exitEntry) (Hst : 0 < r.(rg_staleFor) < 2 ^ 63 - 1)
  (He : r.(rg_exits) !! id = Some e)
  (Hfresh : kept_fresh id r.(rg_staleFor) e.(ee_heartbeat) ops) :
  exists e', (run_ops ops r).(rg_exits) !! id = Some e'.
Proof. eapply kept_fresh_lookup; [done|done|reflexivity|done]. Qed.

Lemma heartbeat_keeps_exit_witness :
  exists e', (run_ops
    [(30 * Second, OpHeartbeat (mkHeartbeat "a" 1 2 0)); (50 * Second, OpExpire);
     (60 * Second, OpRemove "b")] two_exits).(rg_exits) !! "a" = Some e'.
Proof.
  apply (heartbeat_keeps_exit "a" _ two_exits
    (mkEntry (set_health_time (mkExitInfo "a" "a" "exit" "" 10 0 2 [] 0) "healthy" (UnixMilli 5)) 5 false)).
  - vm_compute. split; reflexivity.
  - vm_compute. reflexivity.
  - vm_compute. repeat split; discriminate.
Defined.
