(* ===== verification/RateLimiter.v ===== *)
(** * Authentication rate limiting: [RateLimiter] of [internal/auth/auth.go] *)
From S2P Require Import Prelude GoTime.

Record attempt := mkAttempt {
  at_count : Z;
  at_windowStart : Time;
  at_blockedTill : Time
}.
(** Go's zero value, which the map yields for an absent key. *)
Definition zero_attempt : attempt := mkAttempt 0 0 0.

Record RateLimiter := mkRateLimiter {
  rl_limit : Z;
  rl_window : Duration;
  rl_blockFor : Duration;
  rl_attempts : gmap string attempt
}.

Definition with_attempts (l : RateLimiter) (m : gmap string attempt) : RateLimiter :=
  mkRateLimiter l.(rl_limit) l.(rl_window) l.(rl_blockFor) m.

Definition NewRateLimiter (limit : Z) (window blockFor : Duration) : RateLimiter :=
  mkRateLimiter limit window blockFor ∅.

Definition attempt_of (l : RateLimiter) (key : string) : attempt :=
  default zero_attempt (l.(rl_attempts) !! key).

Definition Allowed (now : Time) (key : string) (l : RateLimiter) : option error * RateLimiter :=
  let state := attempt_of l key in
  if Before now state.(at_blockedTill) then (Some ErrRateLimited, l)
  else if IsZero state.(at_windowStart) || (l.(rl_window) <? Sub now state.(at_windowStart))
  then (None, with_attempts l (delete key l.(rl_attempts)))
  else (None, l).

Definition Fail_ (now : Time) (key : string) (l : RateLimiter) : RateLimiter :=
  let state := attempt_of l key in
  let state :=
    if IsZero state.(at_windowStart) || (l.(rl_window) <? Sub now state.(at_windowStart))
    then mkAttempt 0 now 0 else state in
  let count := wrap_i64 (state.(at_count) + 1) in
  let blockedTill :=
    if l.(rl_limit) <=? count then TAdd now l.(rl_blockFor) else state.(at_blockedTill) in
  with_attempts l
    (<[key := mkAttempt count state.(at_windowStart) blockedTill]> l.(rl_attempts)).

Definition Success (key : string) (l : RateLimiter) : RateLimiter :=
  with_attempts l (delete key l.(rl_attempts)).

(** The calls the server makes. *)
Inductive limiter_op : Type :=
  | CallAllowed (key : string)
  | CallFail (key : string)
  | CallSuccess (key : string).

(** One call at an instant, and what it answers. *)
Definition limiter_step (now : Time) (op : limiter_op) (l : RateLimiter)
  : option error * RateLimiter :=
  match op with
  | CallAllowed key => Allowed now key l
  | CallFail key => (None, Fail_ now key l)
  | CallSuccess key => (None, Success key l)
  end.

Fixpoint limiter_run (ops : list (Time * limiter_op)) (l : RateLimiter)
  : list (option error) * RateLimiter :=
  match ops with
  | [] => ([], l)
  | (now, op) :: ops =>
      let '(a, l) := limiter_step now op l in
      let '(as_, l) := limiter_run ops l in (a :: as_, l)
  end.

(* ------------------------------------------------------------------ *)
(** ** Specification: the failures of a key in its current window *)

(** The instants of the failures since the window of the key opened, oldest
    first. *)
Abbreviation failures := (list Time).

Section Spec.
Context (limit : Z) (window blockFor : Duration).

(** The window is open at [now]. *)
Definition spec_open (now : Time) (fs : failures) : bool :=
  match fs with [] => false | start :: _ => now - start <=? window end.

Definition spec_blocked (now : Time) (fs : failures) : bool :=
  (limit <=? Z.of_nat (length fs)) && (now <? default 0 (last fs) + blockFor).

Definition spec_step (now : Time) (op : limiter_op) (key : string) (fs : failures)
  : option error * failures :=
  match op with
  | CallAllowed k =>
      if bool_decide (k = key) then
        if spec_blocked now fs then (Some ErrRateLimited, fs)
        else (None, if spec_open now fs then fs else [])
      else (None, fs)
  | CallFail k =>
      if bool_decide (k = key)
      then (None, (if spec_open now fs then fs else []) ++ [now]) else (None, fs)
  | CallSuccess k => if bool_decide (k = key) then (None, []) else (None, fs)
  end.

(** The answers the specification gives to the calls about [key]; [None]
    stands for calls about other keys. *)
Fixpoint spec_run (ops : list (Time * limiter_op)) (key : string) (fs : failures)
  : list (option error) * failures :=
  match ops with
  | [] => ([], fs)
  | (now, op) :: ops =>
      let '(a, fs) := spec_step now op key fs in
      let '(as_, fs) := spec_run ops key fs in (a :: as_, fs)
  end.

(** The record the limiter keeps for a list of failures. *)
Definition attempt_for (fs : failures) : option attempt :=
  match fs with
  | [] => None
  | start :: _ =>
      Some (mkAttempt (Z.of_nat (length fs)) start
              (if limit <=? Z.of_nat (length fs) then default 0 (last fs) + blockFor else 0))
  end.

End Spec.

Definition op_key (op : limiter_op) : string :=
  match op with CallAllowed k | CallFail k | CallSuccess k => k end.

Definition limiter_params (l : RateLimiter) : Prop :=
  0 <= l.(rl_window) < 2 ^ 63 - 1 /\ 0 <= l.(rl_blockFor) /\ 1 <= l.(rl_limit).

(** The limiter's record of [key] is the one of the failures [fs]. *)
Definition tracks (l : RateLimiter) (key : string) (fs : failures) : Prop :=
  l.(rl_attempts) !! key = attempt_for l.(rl_limit) l.(rl_blockFor) fs /\
  Forall (fun t => 0 < t) fs.

Lemma last_pos fs : Forall (fun t => 0 < t) fs -> fs <> [] -> 0 < default 0 (last fs).
Proof.
  intros H Hne. destruct (last fs) as [t|] eqn:E; [|by apply last_None in E].
  rewrite Forall_forall in H. apply H. by apply last_Some_elem_of in E.
Qed.

Lemma tracks_start l key fs :
  tracks l key fs ->
  at_windowStart (attempt_of l key) = default 0 (head fs) /\
  at_count (attempt_of l key) = Z.of_nat (length fs) /\
  at_blockedTill (attempt_of l key) =
    match fs with
    | [] => 0
    | _ => if l.(rl_limit) <=? Z.of_nat (length fs) then default 0 (last fs) + l.(rl_blockFor) else 0
    end.
Proof. intros [H _]. unfold attempt_of. rewrite H. by destruct fs. Qed.

Lemma window_closed l now fs :
  limiter_params l -> Forall (fun t => 0 < t) fs ->
  (IsZero (default 0 (head fs)) || (l.(rl_window) <? Sub now (default 0 (head fs))))
  = negb (spec_open l.(rl_window) now fs).
Proof.
  intros (Hw & _) Hp. destruct fs as [|t fs]; [done|]. apply Forall_cons in Hp as [Ht _].
  unfold IsZero, spec_open; cbn. rewrite (proj2 (Z.eqb_neq t 0)) by lia.
  rewrite Sub_gt by lia. cbn. rewrite Z.leb_antisym. by rewrite negb_involutive.
Qed.

Lemma blocked_iff l now key fs :
  limiter_params l -> tracks l key fs -> 0 < now ->
  Before now (at_blockedTill (attempt_of l key))
  = spec_blocked l.(rl_limit) l.(rl_blockFor) now fs.
Proof.
  intros (_ & _ & Hl) Ht Hn. destruct (tracks_start _ _ _ Ht) as (_ & _ & ->).
  unfold Before, spec_blocked. destruct fs as [|t fs].
  - cbn [length last default]. rewrite (proj2 (Z.leb_gt _ _)) by (cbn; lia).
    rewrite (proj2 (Z.ltb_ge _ _)) by lia. done.
  - destruct (_ <=? _); [done|]. rewrite (proj2 (Z.ltb_ge _ _)) by lia. done.
Qed.

Lemma tracks_other l key key' fs m :
  key <> key' -> tracks l key fs -> m !! key = l.(rl_attempts) !! key ->
  tracks (with_attempts l m) key fs.
Proof. intros _ [H Hp] Hm. split; [cbn; by rewrite Hm|done]. Qed.

(** The answer of a call about [key], [None] for calls about other keys. *)
Definition answer (key : string) (op : limiter_op) (a : option error) : option error :=
  if bool_decide (op_key op = key) then a else None.

Lemma limiter_step_refines now op l key fs :
  limiter_params l -> 0 < now -> Z.of_nat (length fs) < 2 ^ 62 -> tracks l key fs ->
  let '(a, l') := limiter_step now op l in
  let '(a', fs') := spec_step l.(rl_limit) l.(rl_window) l.(rl_blockFor) now op key fs in
  answer key op a = a' /\ tracks l' key fs' /\ rl_limit l' = rl_limit l /\
  rl_window l' = rl_window l /\ rl_blockFor l' = rl_blockFor l.
Proof.
  intros Hpar Hnow Hlen Ht. pose proof Ht as [Hm Hpos]. unfold answer.
  destruct (tracks_start _ _ _ Ht) as (Hs & Hc & Hb).
  destruct op as [k|k|k]; cbn [limiter_step spec_step op_key]; case_bool_decide as Ek; subst.
  - unfold Allowed. rewrite (blocked_iff l now key fs), Hs, window_closed by done.
    destruct (spec_blocked _ _ _ _); [done|].
    destruct (spec_open _ _ _); cbn [negb]; [done|].
    split_and!; try done. split; [cbn; by rewrite lookup_delete_eq|constructor].
  - unfold Allowed. destruct (Before _ _); [done|]. destruct (_ || _); [|done].
    split_and!; try done. eapply tracks_other; [by apply not_eq_sym|done|].
    by rewrite lookup_delete_ne.
  - unfold Fail_. rewrite Hs, window_closed by done.
    split_and!; try done. split; cbn [rl_attempts with_attempts rl_limit rl_blockFor].
    + rewrite lookup_insert_eq.
      destruct fs as [|t fs]; [|destruct (spec_open _ _ _)]; cbn [negb spec_open].
      * cbn. rewrite wrap_i64_small by (unfold in_i64; lia). by destruct (_ <=? _).
      * rewrite Hc, Hb, Hs. rewrite wrap_i64_small by (unfold in_i64; lia).
        unfold attempt_for. cbn [app]. rewrite app_comm_cons, last_snoc, length_app.
        cbn [length default head]. rewrite Nat2Z.inj_add. change (Z.of_nat 1) with 1.
        destruct (Z.leb_spec (rl_limit l) (Z.of_nat (S (length fs)) + 1)); [done|].
        by rewrite (proj2 (Z.leb_gt (rl_limit l) (Z.of_nat (S (length fs))))) by lia.
      * cbn. rewrite wrap_i64_small by (unfold in_i64; lia). by destruct (_ <=? _).
    + destruct (spec_open _ _ _); [apply Forall_app; split|]; auto using Forall_singleton.
      all: by apply Forall_singleton.
  - split_and!; try done. eapply tracks_other; [by apply not_eq_sym|done|].
    by rewrite lookup_insert_ne.
  - split_and!; try done. split; [cbn; by rewrite lookup_delete_eq|constructor].
  - split_and!; try done. eapply tracks_other; [by apply not_eq_sym|done|].
    by rewrite lookup_delete_ne.
Qed.

Lemma spec_step_length limit window blockFor now op key fs :
  (length (spec_step limit window blockFor now op key fs).2 <= S (length fs))%nat.
Proof.
  destruct op; cbn; repeat case_match; cbn; rewrite ?length_app; cbn; lia.
Qed.

Lemma limiter_run_refines ops : forall l key fs,
  limiter_params l -> Forall (fun o => 0 < o.1) ops ->
  Z.of_nat (length fs + length ops) < 2 ^ 62 -> tracks l key fs ->
  let '(ans, l') := limiter_run ops l in
  let '(ans', fs') := spec_run l.(rl_limit) l.(rl_window) l.(rl_blockFor) ops key fs in
  zip_with (fun o a => answer key o.2 a) ops ans = ans' /\ tracks l' key fs'.
Proof.
  induction ops as [|[now op] ops IH]; intros l key fs Hpar Hops Hlen Ht; [done|].
  apply Forall_cons in Hops as [Hnow Hops]. cbn [limiter_run spec_run].
  cbn [length] in Hlen.
  pose proof (limiter_step_refines now op l key fs Hpar Hnow ltac:(lia) Ht) as Hstep.
  pose proof (spec_step_length (rl_limit l) (rl_window l) (rl_blockFor l) now op key fs) as Hl.
  destruct (limiter_step now op l) as [a l1].
  destruct (spec_step _ _ _ now op key fs) as [a' fs1]. cbn in Hl.
  destruct Hstep as (Ha & Ht1 & E1 & E2 & E3).
  specialize (IH l1 key fs1). rewrite E1, E2, E3 in IH.
  assert (limiter_params l1) as Hpar1 by (unfold limiter_params; by rewrite E1, E2, E3).
  specialize (IH Hpar1 Hops ltac:(lia) Ht1).
  destruct (limiter_run ops l1) as [ans l2].
  destruct (spec_run _ _ _ ops key fs1) as [ans' fs2].
  destruct IH as [IH1 IH2]. split; [|done]. cbn. by rewrite Ha, IH1.
Qed.

Lemma tracks_new limit window blockFor key :
  tracks (NewRateLimiter limit window blockFor) key [].
Proof. split; [apply lookup_empty|constructor]. Qed.

(* ------------------------------------------------------------------ *)
(** ** Properties *)

(** C13: the limiter refines its specification: over any sequence of calls by
    any peers, the answers about a peer are those of the list of that peer's
    failures in its current window (blocked when there are at least [limit]
    and the last is less than [blockFor] old), and the calls of other peers
    have no influence on them. *)
Theorem limiter_refines (limit : Z) (window blockFor : Duration)
  (ops : list (Time * limiter_op)) (key : string)
  (Hw : 0 <= window < 2 ^ 63 - 1) (Hb : 0 <= blockFor) (Hl : 1 <= limit)
  (Hops : Forall (fun o => 0 < o.1) ops) (Hlen : Z.of_nat (length ops) < 2 ^ 62) :
  zip_with (fun o a => answer key o.2 a) ops
    (limiter_run ops (NewRateLimiter limit window blockFor)).1
  = (spec_run limit window blockFor ops key []).1.
Proof.
  pose proof (limiter_run_refines ops (NewRateLimiter limit window blockFor) key []
    ltac:(done) Hops Hlen (tracks_new _ _ _ _)) as H.
  cbn [rl_limit rl_window rl_blockFor NewRateLimiter] in H.
  destruct (limiter_run _ _) as [ans l], (spec_run _ _ _ _ _ _) as [ans' fs]. apply H.
Qed.

Definition limiter_calls : list (Time * limiter_op) :=
  [(1, CallFail "p"); (2, CallFail "q"); (3, CallFail "p"); (4, CallAllowed "p"); (4, CallAllowed "q")].

Lemma limiter_refines_witness :
  zip_with (fun o a => answer "p" o.2 a) limiter_calls
    (limiter_run limiter_calls (NewRateLimiter 2 Minute Minute)).1
  = [None; None; None; Some ErrRateLimited; None].
Proof.
  rewrite (limiter_refines 2 Minute Minute limiter_calls "p").
  - vm_compute. reflexivity.
  - vm_compute. split; [discriminate|reflexivity].
  - vm_compute. discriminate.
  - lia.
  - unfold limiter_calls. rewrite !Forall_cons. split_and!; try (cbn; lia). apply Forall_nil_2.
  - vm_compute. reflexivity.
Defined.
