(* ===== verification/Guessing.v ===== *)
(** * What the rate limiter leaves an attacker

    [handleConnection] of [internal/node/server.go] calls [Allowed] when a
    connection arrives and [Fail] when its handshake has failed.  Nothing is
    locked in between, so the connections of one address overlap: several can be
    let in before the first has failed.  This file runs the two calls of any
    number of connections in any order and bounds the failed handshakes in any
    span of time by the number of connections that are under way at once. *)
From stdpp Require Import relations.
From S2P Require Import Prelude GoTime RateLimiter.

(** One address: the limiter, its connections that were let in and have not
    failed yet, the clock, and the instants of its failures, oldest first. *)
Record Peer := mkPeer {
  pe_limiter : RateLimiter;
  pe_flight : nat;
  pe_now : Time;
  pe_failed : list Time
}.

(** The calls, at instants that do not go back.  No handshake of the address
    succeeds; other addresses do what they like. *)
Inductive gstep (c : nat) (key : string) (g : Peer) : Peer -> Prop :=
  | g_refused t e l :
      g.(pe_now) <= t -> Allowed t key g.(pe_limiter) = (Some e, l) ->
      gstep c key g (mkPeer l g.(pe_flight) t g.(pe_failed))
  | g_admitted t l :
      g.(pe_now) <= t -> (g.(pe_flight) < c)%nat -> Allowed t key g.(pe_limiter) = (None, l) ->
      gstep c key g (mkPeer l (S g.(pe_flight)) t g.(pe_failed))
  | g_failed t n :
      g.(pe_now) <= t -> g.(pe_flight) = S n ->
      gstep c key g (mkPeer (Fail_ t key g.(pe_limiter)) n t (g.(pe_failed) ++ [t]))
  | g_other t op :
      g.(pe_now) <= t -> op_key op <> key ->
      gstep c key g (mkPeer (limiter_step t op g.(pe_limiter)).2 g.(pe_flight) t g.(pe_failed)).

Definition new_peer (limit : Z) (window blockFor : Duration) (now : Time) : Peer :=
  mkPeer (NewRateLimiter limit window blockFor) 0 now [].

(** The failures in a span. *)
Definition within (lo hi : Time) (fs : list Time) : list Time := filter (fun f => lo <= f <= hi) fs.

Section Bound.
Context (limit : Z) (window blockFor : Duration) (c : nat).
Context (Hlimit : 1 <= limit) (Hwindow : 0 < window < 2 ^ 63 - 1) (Hblock : 0 < blockFor).

(** How many failures a window can hold. *)
Definition per_window : Z := limit - 1 + Z.of_nat c * (1 + window / blockFor).

(* ------------------------------------------------------------------ *)
(** ** Windows *)

(** The failures of one window. *)
Definition window_of (s : Time) (w : failures) : Prop :=
  head w = Some s /\ Forall (fun f => s <= f <= s + window) w /\ Z.of_nat (length w) <= per_window.

(** Windows, newest first; each was over when the next one, or [t], began. *)
Fixpoint apart (t : Time) (ws : list failures) : Prop :=
  match ws with
  | [] => True
  | w :: ws => exists s, window_of s w /\ s + window < t /\ apart s ws
  end.

Lemma apart_later t t' ws : apart t ws -> t <= t' -> apart t' ws.
Proof. destruct ws as [|w ws]; [done|]. intros (s & Hw & Hs & Ha) Ht. exists s. split_and!; [done|lia|done]. Qed.

Lemma within_app lo hi fs gs : within lo hi (fs ++ gs) = within lo hi fs ++ within lo hi gs.
Proof. apply filter_app. Qed.

Lemma within_none lo hi fs : Forall (fun f => f < lo \/ hi < f) fs -> within lo hi fs = [].
Proof.
  intros H. unfold within. induction H as [|f fs Hf _ IH]; [done|]. rewrite filter_cons.
  rewrite decide_False by lia. exact IH.
Qed.

Lemma within_le lo hi s w : window_of s w -> Z.of_nat (length (within lo hi w)) <= per_window.
Proof. intros (_ & _ & H). pose proof (length_filter (fun f => lo <= f <= hi) w). unfold within. lia. Qed.

Definition windows (x : Z) : Z := Z.max 0 ((x + window - 1) / window).

Lemma windows_step x y : 0 < x -> y + window < x -> windows y + 1 <= windows x.
Proof.
  intros Hx Hy. unfold windows. assert (1 <= (x + window - 1) / window) by (apply Z.div_le_lower_bound; lia).
  assert ((y + window - 1) / window + 1 <= (x + window - 1) / window); [|lia].
  replace ((y + window - 1) / window + 1) with ((y + window - 1 + 1 * window) / window) by (rewrite Z.div_add by lia; lia).
  apply Z.div_le_mono; lia.
Qed.

Lemma windows_mono x y : x <= y -> windows x <= windows y.
Proof. intros H. unfold windows. assert ((x + window - 1) / window <= (y + window - 1) / window) by (apply Z.div_le_mono; lia). lia. Qed.

Lemma per_window_pos : 0 <= per_window.
Proof. unfold per_window. pose proof (Z.div_pos window blockFor ltac:(lia) Hblock). nia. Qed.

(** The windows that were over at [t] and reach past [lo]. *)
Lemma within_before lo hi ws : forall t, apart t ws ->
  Z.of_nat (length (within lo hi (concat (rev ws)))) <= windows (t - lo) * per_window.
Proof.
  pose proof per_window_pos. induction ws as [|w ws IH]; intros t Ha.
  { cbn. unfold windows. nia. }
  destruct Ha as (s & Hw & Hs & Ha). cbn [rev]. rewrite concat_app, within_app, length_app. cbn [concat]. rewrite app_nil_r.
  specialize (IH s Ha). rewrite Nat2Z.inj_add. destruct (Z.le_gt_cases t lo).
  - rewrite (within_none lo hi w).
    + pose proof (windows_mono (s - lo) (t - lo) ltac:(lia)). cbn [length]. nia.
    + destruct Hw as (_ & Hf & _). eapply Forall_impl; [exact Hf|]. cbn. lia.
  - pose proof (within_le lo hi s w Hw). pose proof (windows_step (t - lo) (s - lo) ltac:(lia) ltac:(lia)). nia.
Qed.

Lemma within_span lo hi ws : lo <= hi -> forall t, apart t ws ->
  Z.of_nat (length (within lo hi (concat (rev ws)))) <= (1 + windows (hi - lo)) * per_window.
Proof.
  intros Hspan. pose proof per_window_pos. induction ws as [|w ws IH]; intros t Ha.
  { cbn. unfold windows. nia. }
  destruct Ha as (s & Hw & Hs & Ha). cbn [rev]. rewrite concat_app, within_app, length_app. cbn [concat]. rewrite app_nil_r, Nat2Z.inj_add.
  destruct (Z.le_gt_cases s hi).
  - pose proof (within_le lo hi s w Hw). pose proof (within_before lo hi ws s Ha).
    pose proof (windows_mono (s - lo) (hi - lo) ltac:(lia)). nia.
  - rewrite (within_none lo hi w); [cbn; specialize (IH s Ha); lia|].
    destruct Hw as (_ & Hf & _). eapply Forall_impl; [exact Hf|]. cbn. lia.
Qed.

(* ------------------------------------------------------------------ *)
(** ** The current window *)

(** From the [limit]-th failure on, [c] more cost [blockFor] each time: those
    under way count already, and another is let in only when the last failure is
    [blockFor] old. *)
Definition paced (now : Time) (fs : failures) (flight : nat) : Prop :=
  match fs with
  | [] => True
  | s :: _ =>
      let n := Z.of_nat (length fs) in
      let last_ := default 0 (last fs) in
      s <= last_ <= s + window /\ last_ <= now /\ Forall (fun f => s <= f <= s + window) fs /\
      (limit <= n -> exists q, 0 <= q /\ s + q * blockFor <= last_ /\
         n <= limit - 1 + Z.of_nat c * (1 + q) /\
         (n + Z.of_nat flight <= limit - 1 + Z.of_nat c * (1 + q) \/ last_ + blockFor <= now))
  end.

Lemma paced_window now s fs flight : paced now (s :: fs) flight -> window_of s (s :: fs).
Proof.
  intros (H1 & _ & H3 & H4). split_and!; [done|done|]. unfold per_window.
  pose proof (Z.div_pos window blockFor ltac:(lia) Hblock).
  destruct (Z.le_gt_cases limit (Z.of_nat (length (s :: fs)))) as [Hle|]; [|nia].
  destruct (H4 Hle) as (q & Hq & Hl & Hn & _).
  assert (q <= window / blockFor) by (apply Z.div_le_lower_bound; [done|lia]). nia.
Qed.

Lemma paced_later now now' fs flight : paced now fs flight -> now <= now' -> paced now' fs flight.
Proof.
  destruct fs as [|s fs]; [done|]. intros (H1 & H2 & H3 & H4) Hn. split_and!; try done; try lia.
  intros Hle. destruct (H4 Hle) as (q & ? & ? & ? & [|]); exists q; (split_and!; [done..|]); [by left|right; lia].
Qed.

Lemma paced_admitted now fs flight : paced now fs flight -> spec_blocked limit blockFor now fs = false ->
  paced now fs (S flight).
Proof.
  destruct fs as [|s fs]; [done|]. intros (H1 & H2 & H3 & H4) Hb. split_and!; try done; try lia.
  intros Hle. destruct (H4 Hle) as (q & ? & ? & ? & _). exists q. split_and!; [done..|]. right.
  unfold spec_blocked in Hb. rewrite (proj2 (Z.leb_le _ _) Hle) in Hb. cbn [andb] in Hb. lia.
Qed.

Lemma paced_first t flight : (S flight <= c)%nat -> paced t [t] flight.
Proof.
  intros Hf. cbn. split_and!; try lia; [apply Forall_singleton; lia|]. intros Hle. exists 0. split_and!; try lia.
Qed.

Lemma paced_failed now t fs flight : paced now fs (S flight) -> now <= t -> (S flight <= c)%nat ->
  spec_open window t fs = true -> paced t (fs ++ [t]) flight.
Proof.
  destruct fs as [|s fs]; [done|]. intros (H1 & H2 & H3 & H4) Ht Hf Ho. unfold spec_open in Ho.
  unfold paced. cbn [app]. rewrite app_comm_cons, last_snoc, length_app. change (default 0 (Some t)) with t.
  change (length [t]) with 1%nat. rewrite Nat2Z.inj_add. split_and!; [lia|lia|lia| |].
  { apply Forall_app. split; [done|]. apply Forall_singleton. lia. }
  intros Hle. destruct (Z.le_gt_cases limit (Z.of_nat (length (s :: fs)))) as [Hl|Hl].
  - destruct (H4 Hl) as (q & Hq & Hs & Hn & [Hk|Hb]).
    + exists q. split_and!; lia.
    + exists (q + 1). split_and!; [lia|nia|nia|left; nia].
  - exists 0. split_and!; lia.
Qed.

(* ------------------------------------------------------------------ *)
(** ** The invariant *)

Record guarded (key : string) (g : Peer) : Prop := mk_guarded {
  gd_limit : rl_limit g.(pe_limiter) = limit;
  gd_window : rl_window g.(pe_limiter) = window;
  gd_block : rl_blockFor g.(pe_limiter) = blockFor;
  gd_now : 0 < g.(pe_now);
  gd_flight : (g.(pe_flight) <= c)%nat;
  gd_windows : exists ws fs, g.(pe_failed) = concat (rev ws) ++ fs /\ tracks g.(pe_limiter) key fs /\
    apart (default g.(pe_now) (head fs)) ws /\ paced g.(pe_now) fs g.(pe_flight)
}.

Lemma guarded_params key g : guarded key g -> limiter_params g.(pe_limiter).
Proof. intros [H1 H2 H3 _ _ _]. unfold limiter_params. rewrite H1, H2, H3. lia. Qed.

(** A window that is over joins the others. *)
Lemma apart_close now t fs ws flight : paced now fs flight -> now <= t -> spec_open window t fs = false ->
  apart (default now (head fs)) ws ->
  exists ws', concat (rev ws') = concat (rev ws) ++ fs /\ apart t ws'.
Proof.
  destruct fs as [|s fs]; intros Hp Ht Ho Ha.
  - exists ws. rewrite app_nil_r. split; [done|]. by eapply apart_later.
  - exists ((s :: fs) :: ws). cbn [rev]. rewrite concat_app. cbn [concat]. rewrite app_nil_r. split; [done|].
    exists s. split_and!; [by eapply paced_window|unfold spec_open in Ho; lia|exact Ha].
Qed.

Lemma apart_now now now' fs ws : apart (default now (head fs)) ws -> now <= now' -> apart (default now' (head fs)) ws.
Proof. intros H Hn. eapply apart_later; [exact H|]. destruct fs; cbn; lia. Qed.

Lemma gstep_guarded key g g' : guarded key g -> Z.of_nat (length g'.(pe_failed)) < 2 ^ 62 -> gstep c key g g' -> guarded key g'.
Proof.
  intros Hg Hlen Hstep. pose proof (guarded_params _ _ Hg) as Hpar.
  destruct Hg as [Hl Hw Hb Hnow Hfl (ws & fs & Hfs & Htr & Ha & Hp)].
  assert (forall gs : list Time, Z.of_nat (length (g.(pe_failed) ++ gs)) < 2 ^ 62 -> Z.of_nat (length fs) < 2 ^ 62) as Hlen'.
  { intros gs. rewrite Hfs, !length_app. lia. }
  assert (forall t op, g.(pe_now) <= t -> Z.of_nat (length fs) < 2 ^ 62 ->
    let '(a, l') := limiter_step t op g.(pe_limiter) in
    let '(a', fs') := spec_step limit window blockFor t op key fs in
    answer key op a = a' /\ tracks l' key fs' /\ rl_limit l' = limit /\ rl_window l' = window /\ rl_blockFor l' = blockFor) as Href.
  { intros t op Ht Hn. pose proof (limiter_step_refines t op _ _ _ Hpar ltac:(lia) Hn Htr) as H.
    rewrite Hl, Hw, Hb in H. exact H. }
  destruct Hstep as [t e l Ht E|t l Ht Hc E|t n Ht Hn|t op Ht Hk]; cbn [pe_failed] in Hlen.
  - pose proof (Href t (CallAllowed key) Ht (Hlen' [] ltac:(by rewrite app_nil_r))) as H. cbn [limiter_step spec_step] in H.
    rewrite E, bool_decide_true in H by done. unfold answer in H. cbn [op_key] in H. rewrite bool_decide_true in H by done.
    destruct (spec_blocked limit blockFor t fs); destruct H as (Hans & Ht' & R1 & R2 & R3); [|done].
    split; cbn; try done; [lia|]. exists ws, fs. split_and!; try done; [by eapply apart_now|by eapply paced_later].
  - pose proof (Href t (CallAllowed key) Ht (Hlen' [] ltac:(by rewrite app_nil_r))) as H. cbn [limiter_step spec_step] in H.
    rewrite E, bool_decide_true in H by done. unfold answer in H. cbn [op_key] in H. rewrite bool_decide_true in H by done.
    destruct (spec_blocked limit blockFor t fs) eqn:Ebl; destruct H as (Hans & Ht' & R1 & R2 & R3); [done|].
    split; cbn; try done; [lia|]. destruct (spec_open window t fs) eqn:Eo.
    + exists ws, fs. split_and!; try done; [by eapply apart_now|]. apply paced_admitted; [by eapply paced_later|done].
    + destruct (apart_close _ _ _ _ _ Hp Ht Eo Ha) as (ws' & Hc' & Ha'). exists ws', []. rewrite app_nil_r. split_and!; try done; congruence.
  - pose proof (Href t (CallFail key) Ht (Hlen' [t] Hlen)) as H. cbn [limiter_step spec_step] in H.
    rewrite bool_decide_true in H by done. destruct H as (_ & Ht' & R1 & R2 & R3).
    split; cbn; try done; [lia|lia|]. destruct (spec_open window t fs) eqn:Eo.
    + exists ws, (fs ++ [t]). split_and!; [by rewrite Hfs, app_assoc|done| |].
      * destruct fs; [done|]. exact Ha.
      * rewrite Hn in Hp, Hfl. by eapply paced_failed.
    + destruct (apart_close _ _ _ _ _ Hp Ht Eo Ha) as (ws' & Hc' & Ha'). exists ws', [t]. rewrite Hn in Hfl.
      split_and!; [by rewrite Hc', Hfs|done|done|by apply paced_first].
  - pose proof (Href t op Ht (Hlen' [] ltac:(by rewrite app_nil_r))) as H.
    assert (spec_step limit window blockFor t op key fs = (None, fs)) as E.
    { destruct op; cbn in *; by rewrite bool_decide_false. }
    rewrite E in H. destruct (limiter_step t op _) as [a l]. destruct H as (_ & Ht' & R1 & R2 & R3).
    split; cbn; try done; [lia|]. exists ws, fs. split_and!; try done; [by eapply apart_now|by eapply paced_later].
Qed.
End Bound.

Lemma gstep_failed c key g g' : gstep c key g g' -> (length g.(pe_failed) <= length g'.(pe_failed))%nat.
Proof. intros []; cbn; rewrite ?length_app; cbn; lia. Qed.

Lemma gsteps_guarded limit window blockFor c key g g' : 1 <= limit -> 0 < window < 2 ^ 63 - 1 -> 0 < blockFor ->
  rtc (gstep c key) g g' -> Z.of_nat (length g'.(pe_failed)) < 2 ^ 62 ->
  guarded limit window blockFor c key g -> guarded limit window blockFor c key g'.
Proof.
  intros Hl Hw Hb Hrun Hlen. induction Hrun as [g|g g1 g' Hs Hrun IH]; [done|]. intros Hg. apply IH; [done|].
  apply (gstep_guarded limit window blockFor c Hl Hw Hb key g); [done| |done].
  assert (length g1.(pe_failed) <= length g'.(pe_failed))%nat; [|lia].
  clear -Hrun. induction Hrun as [|? ? ? Hs]; [done|]. apply gstep_failed in Hs. lia.
Qed.

(** C20: guessing is bounded: however the connections of one address overlap, as
    long as no more than [c] of them are under way at once and none of them
    succeeds, the handshakes that fail in any span of time are at most
    [limit - 1 + c * (1 + window / blockFor)] for each window that fits into the
    span, begun ones included, and one more.  What other addresses do makes no
    difference. *)
Theorem guessing_bounded (limit : Z) (window blockFor : Duration) (c : nat) (key : string) (now : Time) (g : Peer)
  (lo span : Z) (Hl : 1 <= limit) (Hw : 0 < window < 2 ^ 63 - 1) (Hb : 0 < blockFor) (Hnow : 0 < now)
  (Hrun : rtc (gstep c key) (new_peer limit window blockFor now) g)
  (Hlen : Z.of_nat (length g.(pe_failed)) < 2 ^ 62) (Hspan : 0 <= span) :
  Z.of_nat (length (within lo (lo + span) g.(pe_failed))) <=
  (1 + (span + window - 1) / window) * (limit - 1 + Z.of_nat c * (1 + window / blockFor)).
Proof.
  assert (guarded limit window blockFor c key (new_peer limit window blockFor now)) as H0.
  { split; cbn; try done; [lia|]. exists [], []. by split_and!. }
  destruct (gsteps_guarded limit window blockFor c key _ _ Hl Hw Hb Hrun Hlen H0)
    as [_ _ _ Hn _ (ws & fs & Hfs & _ & Ha & Hp)].
  assert (exists ws' t, g.(pe_failed) = concat (rev ws') /\ apart limit window blockFor c t ws') as (ws' & t & -> & Ha').
  { destruct fs as [|s fs]; [exists ws, g.(pe_now); by rewrite app_nil_r in Hfs|].
    exists ((s :: fs) :: ws), (s + window + 1). cbn [rev]. rewrite concat_app. cbn [concat]. rewrite app_nil_r. split; [done|].
    exists s. split_and!; [by eapply paced_window|lia|exact Ha]. }
  pose proof (within_span limit window blockFor c Hl Hw Hb lo (lo + span) ws' ltac:(lia) t Ha') as H.
  replace (lo + span - lo) with span in H by lia. unfold windows in H.
  rewrite Z.max_r in H by (apply Z.div_pos; lia). exact H.
Qed.

(** The server's limiter - five failures a minute, then half a minute's block -
    and an address with two connections at once: both are let in and fail. *)
Definition demo_peer : Peer := new_peer 5 Minute (30 * Second) 1.
Definition demo_guesses : Peer :=
  mkPeer (Fail_ 4 "p" (Fail_ 3 "p" demo_peer.(pe_limiter))) 0 4 [3; 4].

Lemma demo_guesses_run : rtc (gstep 2 "p") demo_peer demo_guesses.
Proof.
  eapply rtc_l; [by apply (g_admitted 2 "p" demo_peer 1 demo_peer.(pe_limiter)); [|cbn; lia|]|].
  eapply rtc_l; [apply (g_admitted 2 "p" (mkPeer demo_peer.(pe_limiter) 1 1 []) 2 demo_peer.(pe_limiter)); [done|cbn; lia|done]|].
  eapply rtc_l; [by apply (g_failed 2 "p" (mkPeer demo_peer.(pe_limiter) 2 2 []) 3 1)|].
  eapply rtc_l; [by apply (g_failed 2 "p" (mkPeer (Fail_ 3 "p" demo_peer.(pe_limiter)) 1 3 [3]) 4 0)|]. reflexivity.
Qed.

Lemma guessing_bounded_witness : Z.of_nat (length (within 1 (1 + Minute) demo_guesses.(pe_failed))) <= 2 * 10.
Proof.
  apply (guessing_bounded 5 Minute (30 * Second) 2 "p" 1 demo_guesses 1 Minute).
  - lia.
  - vm_compute. split; reflexivity.
  - vm_compute. reflexivity.
  - lia.
  - exact demo_guesses_run.
  - vm_compute. reflexivity.
  - vm_compute. discriminate.
Defined.

(* ------------------------------------------------------------------ *)
(** ** Overlapping connections *)

(** The bound grows with the number of connections that overlap, and the
    program sets no limit to that: however many connections of an address are
    opened before the first of them has failed, all of them are let in, and each
    may guess. *)
Theorem parallel_guesses (limit : Z) (window blockFor : Duration) (key : string) (now : Time) (n : nat) : 0 < now ->
  exists g, rtc (gstep n key) (new_peer limit window blockFor now) g /\ g.(pe_failed) = repeat now n.
Proof.
  intros Hnow. set (l0 := NewRateLimiter limit window blockFor).
  assert (Allowed now key l0 = (None, l0)) as Hfree.
  { unfold Allowed. replace (attempt_of l0 key) with zero_attempt by (unfold attempt_of; cbn; by rewrite lookup_empty).
    unfold Before. cbn [at_blockedTill at_windowStart zero_attempt]. rewrite (proj2 (Z.ltb_ge now 0)) by lia. done. }
  assert (forall k m, (k + m <= n)%nat -> rtc (gstep n key) (mkPeer l0 m now []) (mkPeer l0 (k + m) now [])) as Hin.
  { induction k as [|k IH]; intros m Hk; [done|]. eapply rtc_l.
    - apply (g_admitted n key (mkPeer l0 m now []) now l0); [done|cbn; lia|].
      exact Hfree.
    - replace (S k + m)%nat with (k + S m)%nat by lia. apply IH. lia. }
  assert (forall k l fs, exists g, rtc (gstep n key) (mkPeer l k now fs) g /\ g.(pe_failed) = fs ++ repeat now k) as Hout.
  { induction k as [|k IH]; intros l fs; [eexists; split; [reflexivity|by rewrite app_nil_r]|].
    destruct (IH (Fail_ now key l) (fs ++ [now])) as (g & Hg & Hf). exists g. split.
    - eapply rtc_l; [by apply (g_failed n key (mkPeer l (S k) now fs) now k)|exact Hg].
    - by rewrite Hf, <-app_assoc. }
  destruct (Hout n l0 []) as (g & Hg & Hf). exists g. split; [|exact Hf]. etrans; [|exact Hg].
  specialize (Hin n 0%nat ltac:(lia)). by rewrite Nat.add_0_r in Hin.
Qed.
