(* ===== verification/Session.v ===== *)
(** * Multiplexed sessions: [internal/session/session.go]

    A session owns a heap of streams; a [*Stream] is an index into it, so that
    pointer comparisons ([removeStream]) are comparisons of indices.  Each Go
    channel is modelled by its buffer and whether it is closed: [ack] (capacity
    1), [reads] (capacity [BufferSize]), [incoming] (capacity 64), and the
    [done] channels, which only get closed.  What another goroutine may
    interleave with is decided in [SessionSteps.v]; here every method is the
    function it computes when it runs by itself, and blocking is a value. *)
From S2P Require Import Prelude GoIO GoStrings GoTime Json Codec Protocol.

Record Config := mkConfig { cfg_IdleTimeout : Duration; cfg_BufferSize : Z }.

Abbreviation ptr := nat.

Record Stream := mkStream {
  st_id : Z;
  st_config : Config;
  st_done : bool;
  st_ack : list Ack;
  st_reads : list bytes;
  st_reads_closed : bool;
  st_readBuf : bytes;
  st_readErr : option error;
  st_writeErr : option error;
  st_remoteExit : string;
  st_request : OpenRequest;
  st_closed : bool;
  st_remoteEOF : bool;
  st_localEOF : bool;
  st_closeOnce : bool
}.

Record Session := mkSession {
  ss_config : Config;
  ss_writer : option Sink;
  ss_connClosed : bool;
  ss_handler : bool;
  ss_control : bool;
  ss_streams : gmap Z ptr;
  ss_heap : list Stream;
  ss_incoming : list ptr;
  ss_closed : bool;
  ss_err : option error;
  ss_done : bool;
  ss_close : bool;
  ss_nextID : Z
}.

(* ------------------------------------------------------------------ *)
(** ** Updates of one field (or of the fields of one critical section) *)

Definition with_streams (m : gmap Z ptr) (s : Session) : Session :=
  mkSession s.(ss_config) s.(ss_writer) s.(ss_connClosed) s.(ss_handler) s.(ss_control) m
    s.(ss_heap) s.(ss_incoming) s.(ss_closed) s.(ss_err) s.(ss_done) s.(ss_close) s.(ss_nextID).
Definition with_heap (h : list Stream) (s : Session) : Session :=
  mkSession s.(ss_config) s.(ss_writer) s.(ss_connClosed) s.(ss_handler) s.(ss_control)
    s.(ss_streams) h s.(ss_incoming) s.(ss_closed) s.(ss_err) s.(ss_done) s.(ss_close)
    s.(ss_nextID).
Definition with_writer (w : option Sink) (s : Session) : Session :=
  mkSession s.(ss_config) w s.(ss_connClosed) s.(ss_handler) s.(ss_control) s.(ss_streams)
    s.(ss_heap) s.(ss_incoming) s.(ss_closed) s.(ss_err) s.(ss_done) s.(ss_close) s.(ss_nextID).
Definition with_incoming (q : list ptr) (s : Session) : Session :=
  mkSession s.(ss_config) s.(ss_writer) s.(ss_connClosed) s.(ss_handler) s.(ss_control)
    s.(ss_streams) s.(ss_heap) q s.(ss_closed) s.(ss_err) s.(ss_done) s.(ss_close) s.(ss_nextID).
Definition with_nextID (x : Z) (s : Session) : Session :=
  mkSession s.(ss_config) s.(ss_writer) s.(ss_connClosed) s.(ss_handler) s.(ss_control)
    s.(ss_streams) s.(ss_heap) s.(ss_incoming) s.(ss_closed) s.(ss_err) s.(ss_done) s.(ss_close)
    x.
Definition with_control (x : bool) (s : Session) : Session :=
  mkSession s.(ss_config) s.(ss_writer) s.(ss_connClosed) s.(ss_handler) x s.(ss_streams)
    s.(ss_heap) s.(ss_incoming) s.(ss_closed) s.(ss_err) s.(ss_done) s.(ss_close) s.(ss_nextID).
Definition with_handler (x : bool) (s : Session) : Session :=
  mkSession s.(ss_config) s.(ss_writer) s.(ss_connClosed) x s.(ss_control) s.(ss_streams)
    s.(ss_heap) s.(ss_incoming) s.(ss_closed) s.(ss_err) s.(ss_done) s.(ss_close) s.(ss_nextID).
Definition with_connClosed (s : Session) : Session :=
  mkSession s.(ss_config) s.(ss_writer) true s.(ss_handler) s.(ss_control) s.(ss_streams)
    s.(ss_heap) s.(ss_incoming) s.(ss_closed) s.(ss_err) s.(ss_done) s.(ss_close) s.(ss_nextID).

Definition with_done (st : Stream) : Stream :=
  mkStream st.(st_id) st.(st_config) true st.(st_ack) st.(st_reads) st.(st_reads_closed)
    st.(st_readBuf) st.(st_readErr) st.(st_writeErr) st.(st_remoteExit) st.(st_request)
    st.(st_closed) st.(st_remoteEOF) st.(st_localEOF) st.(st_closeOnce).
Definition with_ack (x : list Ack) (st : Stream) : Stream :=
  mkStream st.(st_id) st.(st_config) st.(st_done) x st.(st_reads) st.(st_reads_closed)
    st.(st_readBuf) st.(st_readErr) st.(st_writeErr) st.(st_remoteExit) st.(st_request)
    st.(st_closed) st.(st_remoteEOF) st.(st_localEOF) st.(st_closeOnce).
Definition with_reads (x : list bytes) (st : Stream) : Stream :=
  mkStream st.(st_id) st.(st_config) st.(st_done) st.(st_ack) x st.(st_reads_closed)
    st.(st_readBuf) st.(st_readErr) st.(st_writeErr) st.(st_remoteExit) st.(st_request)
    st.(st_closed) st.(st_remoteEOF) st.(st_localEOF) st.(st_closeOnce).
Definition with_readBuf (x : bytes) (st : Stream) : Stream :=
  mkStream st.(st_id) st.(st_config) st.(st_done) st.(st_ack) st.(st_reads) st.(st_reads_closed)
    x st.(st_readErr) st.(st_writeErr) st.(st_remoteExit) st.(st_request) st.(st_closed)
    st.(st_remoteEOF) st.(st_localEOF) st.(st_closeOnce).
Definition with_remoteExit (x : string) (st : Stream) : Stream :=
  mkStream st.(st_id) st.(st_config) st.(st_done) st.(st_ack) st.(st_reads) st.(st_reads_closed)
    st.(st_readBuf) st.(st_readErr) st.(st_writeErr) x st.(st_request) st.(st_closed)
    st.(st_remoteEOF) st.(st_localEOF) st.(st_closeOnce).
Definition with_request (x : OpenRequest) (st : Stream) : Stream :=
  mkStream st.(st_id) st.(st_config) st.(st_done) st.(st_ack) st.(st_reads) st.(st_reads_closed)
    st.(st_readBuf) st.(st_readErr) st.(st_writeErr) st.(st_remoteExit) x st.(st_closed)
    st.(st_remoteEOF) st.(st_localEOF) st.(st_closeOnce).
Definition with_localEOF (st : Stream) : Stream :=
  mkStream st.(st_id) st.(st_config) st.(st_done) st.(st_ack) st.(st_reads) st.(st_reads_closed)
    st.(st_readBuf) st.(st_readErr) st.(st_writeErr) st.(st_remoteExit) st.(st_request)
    st.(st_closed) st.(st_remoteEOF) true st.(st_closeOnce).
(** [remoteEOF = true] and [close(reads)]. *)
Definition with_remoteEOF (st : Stream) : Stream :=
  mkStream st.(st_id) st.(st_config) st.(st_done) st.(st_ack) st.(st_reads) true st.(st_readBuf)
    st.(st_readErr) st.(st_writeErr) st.(st_remoteExit) st.(st_request) st.(st_closed) true
    st.(st_localEOF) st.(st_closeOnce).

(** The critical section of [forceClose]. *)
Definition force_fields (err : error) (st : Stream) : Stream :=
  mkStream st.(st_id) st.(st_config) st.(st_done) st.(st_ack) st.(st_reads)
    (if st.(st_remoteEOF) then st.(st_reads_closed) else true) st.(st_readBuf)
    (match st.(st_readErr) with None => Some err | e => e end)
    (match st.(st_writeErr) with None => Some err | e => e end) st.(st_remoteExit)
    st.(st_request) true true st.(st_localEOF) true.

Definition stream_at (p : ptr) (s : Session) : option Stream := s.(ss_heap) !! p.
Definition set_stream (p : ptr) (st : Stream) (s : Session) : Session :=
  with_heap (<[p := st]> s.(ss_heap)) s.

(* ------------------------------------------------------------------ *)
(** ** Construction *)

Definition New (config : Config) : Session :=
  let idle := if cfg_IdleTimeout config <=? 0 then 5 * Minute else cfg_IdleTimeout config in
  let buffer := if cfg_BufferSize config <=? 0 then 32 else cfg_BufferSize config in
  mkSession (mkConfig idle buffer) None false false false ∅ [] [] false None false false 0.

Definition zero_request : OpenRequest := json_zero.

Definition newStream (id : Z) (config : Config) : Stream :=
  mkStream id config false [] [] false [] None None "" zero_request false false false false.

(** Allocation: the fresh pointer and the session with the stream in its heap. *)
Definition alloc (st : Stream) (s : Session) : ptr * Session :=
  (length s.(ss_heap), with_heap (s.(ss_heap) ++ [st]) s).

(** [Start], up to the two goroutines it spawns; [conn] is the result of
    [dial], a fresh transport. *)
Definition Start (conn : result Sink) (handler : bool) (s : Session) : option error * Session :=
  match conn with
  | Err e => (Some e, s)
  | Ok w =>
      if s.(ss_closed) then (Some ErrClosed, s)
      else (None, with_handler handler (with_writer (Some w) s))
  end.

Definition SetControlHandler (handler : bool) (s : Session) : Session := with_control handler s.

(* ------------------------------------------------------------------ *)
(** ** Writing frames *)

Definition writeFrame (f : Frame) (s : Session) : option error * Session :=
  if s.(ss_done) then (Some ErrClosed, s)
  else if s.(ss_closed) then (Some ErrClosed, s)
  else
    match s.(ss_writer) with
    | None => (Some ErrClosed, s)
    | Some w => let '(e, w) := Writer_Write w f in (e, with_writer (Some w) s)
    end.

Definition writeFrameJSON {A} `{Json A} (t : FrameType) (id : Z) (value : A) (s : Session)
  : option error * Session :=
  if s.(ss_done) then (Some ErrClosed, s)
  else if s.(ss_closed) then (Some ErrClosed, s)
  else
    match s.(ss_writer) with
    | None => (Some ErrClosed, s)
    | Some w => let '(e, w) := WriteJSON w t id value in (e, with_writer (Some w) s)
    end.

Definition writeMessage (id : Z) (message : string) (s : Session) : option error * Session :=
  writeFrameJSON FrameError id (mkErrorMessage message) s.

(* ------------------------------------------------------------------ *)
(** ** Closing streams and the session *)

Definition lookup_stream (id : Z) (s : Session) : option ptr := s.(ss_streams) !! id.

(** The critical section of [removeStream]: only the stream itself is
    removed, not another one registered under the same ID. *)
Definition unregister (p : ptr) (s : Session) : Session :=
  match stream_at p s with
  | None => s
  | Some st =>
      if bool_decide (s.(ss_streams) !! st.(st_id) = Some p)
      then with_streams (delete st.(st_id) s.(ss_streams)) s else s
  end.

Definition forceClose (p : ptr) (err : error) (s : Session) : Session :=
  match stream_at p s with
  | None => s
  | Some st =>
      if st.(st_closeOnce) then s
      else
        let st := force_fields err st in
        let s := unregister p (set_stream p st s) in
        set_stream p (with_done st) s
  end.

Definition removeStream (p : ptr) (err : option error) (s : Session) : Session :=
  let s := unregister p s in
  match err with None => s | Some e => forceClose p e s end.

(** [finishClose], which no code calls: the stream ends without an error. *)
Definition finishClose (p : ptr) (s : Session) : Session :=
  match stream_at p s with
  | None => s
  | Some st =>
      if st.(st_closeOnce) then s
      else
        let st := mkStream st.(st_id) st.(st_config) st.(st_done) st.(st_ack) st.(st_reads) st.(st_reads_closed)
                    st.(st_readBuf) st.(st_readErr) st.(st_writeErr) st.(st_remoteExit) st.(st_request)
                    true st.(st_remoteEOF) st.(st_localEOF) true in
        let s := unregister p (set_stream p st s) in
        set_stream p (with_done st) s
  end.

(** The critical section of [shutdown], and the streams it collects. *)
Definition shutdown_begin (err : error) (s : Session) : list ptr * Session :=
  ((map_to_list s.(ss_streams)).*2,
   mkSession s.(ss_config) s.(ss_writer) s.(ss_connClosed) s.(ss_handler) s.(ss_control)
    s.(ss_streams) s.(ss_heap) s.(ss_incoming) true (Some err) true true s.(ss_nextID)).

Definition shutdown (err : error) (s : Session) : Session :=
  if s.(ss_close) then s
  else
    let '(ps, s) := shutdown_begin err s in
    fold_left (fun s p => forceClose p err s) ps s.

(** [Close], with the error of [conn.Close()]. *)
Definition Session_Close (connErr : option error) (s : Session) : option error * Session :=
  let s := shutdown ErrClosed s in
  match s.(ss_writer) with
  | None => (None, s)
  | Some _ =>
      let s := with_connClosed s in
      match connErr with
      | Some e => if errors_Is e ErrClosed then (None, s) else (Some e, s)
      | None => (None, s)
      end
  end.

(* ------------------------------------------------------------------ *)
(** ** Opening a stream *)

(** [Open] up to the end of its critical section: the new stream and the
    request with its ID. *)
Definition open_register (request : OpenRequest) (s : Session)
  : result (ptr * OpenRequest) * Session :=
  let '(mkOpenRequest id exit dest port proto sel) := request in
  let proto := if empty_string proto then ProtocolTCP else proto in
  let requestID := wrap_u 64 (s.(ss_nextID) + 1) in
  let s := with_nextID requestID s in
  let id := if id =? 0 then requestID else id in
  let request := mkOpenRequest id exit dest port proto sel in
  let '(p, s) := alloc (newStream id s.(ss_config)) s in
  match s.(ss_closed), s.(ss_writer) with
  | false, Some _ => (Ok (p, request), with_streams (<[id := p]> s.(ss_streams)) s)
  | _, _ => (Err ErrClosed, s)
  end.

(** The write of the open frame, with the writer taken in the critical
    section. *)
Definition open_send (p : ptr) (request : OpenRequest) (s : Session) : option error * Session :=
  match s.(ss_writer) with
  | None => (None, s)
  | Some w =>
      match WriteJSON w FrameOpen request.(or_RequestID) request with
      | (None, w) => (None, with_writer (Some w) s)
      | (Some e, w) =>
          (Some e, forceClose p e (removeStream p None (with_writer (Some w) s)))
      end
  end.

(** The alternatives of the [select] at the end of [Open]. *)
Inductive open_choice : Type := OnAck | OnStreamDone | OnContext (e : error) | OnSessionDone.

Definition Stream_Err (st : Stream) : option error :=
  match st.(st_readErr) with Some e => Some e | None => st.(st_writeErr) end.

Definition or_error (e : option error) (default : error) : error :=
  match e with Some e => e | None => default end.

(** One alternative of the [select]; [None] when it is not ready. *)
Definition open_wait (p : ptr) (c : open_choice) (s : Session) : option (result ptr * Session) :=
  match stream_at p s with
  | None => None
  | Some st =>
      match c with
      | OnAck =>
          match st.(st_ack) with
          | [] => None
          | ack :: rest =>
              let s := set_stream p (with_ack rest st) s in
              if ack.(ack_OK)
              then Some (Ok p, set_stream p (with_remoteExit ack.(ack_ExitID) (with_ack rest st)) s)
              else
                let s := removeStream p None s in
                let message :=
                  if empty_string ack.(ack_Error) then "exit rejected connection"%string
                  else ack.(ack_Error) in
                Some (Err (ENew message), forceClose p (ENew message) s)
          end
      | OnStreamDone =>
          if st.(st_done) then
            Some (Err (or_error (Stream_Err st) (ENew "stream closed before acknowledgement")),
                  removeStream p None s)
          else None
      | OnContext e => Some (Err e, forceClose p e (removeStream p None s))
      | OnSessionDone =>
          if s.(ss_done) then Some (Err (or_error s.(ss_err) ErrClosed), s) else None
      end
  end.

(* ------------------------------------------------------------------ *)
(** ** The read loop *)

(** [dispatch]: [true] when the stream found room in [incoming]; otherwise a
    goroutine waits for it. *)
Definition dispatch (p : ptr) (s : Session) : bool * Session :=
  if (length s.(ss_incoming) <? 64)%nat
  then (true, with_incoming (s.(ss_incoming) ++ [p]) s) else (false, s).

(** What an iteration of [readLoop] comes to. *)
Inductive loop_outcome : Type :=
  | Continue (s : Session)
  | Dispatch (p : ptr) (s : Session)      (* a goroutine waits to dispatch [p] *)
  | Deliver (p : ptr) (data : bytes) (s : Session)  (* inside [deliver]'s select *)
  | Control (f : Frame) (s : Session)     (* the control handler is called *)
  | Return (err : error) (s : Session).   (* [shutdown(err)] and the loop ends *)

Definition push_ack (a : Ack) (st : Stream) : Stream :=
  match st.(st_ack) with [] => with_ack [a] st | _ => st end.

Definition remoteClose (p : ptr) (s : Session) : Session :=
  match stream_at p s with
  | None => s
  | Some st => if st.(st_remoteEOF) then s else set_stream p (with_remoteEOF st) s
  end.

Definition readLoop_frame (f : Frame) (s : Session) : loop_outcome :=
  if bool_decide (f.(fr_Type) = FrameOpen) then
    match DecodeOpen f with
    | Err e => Continue (writeMessage f.(fr_ID) ("invalid open request: " +:+ Error e) s).2
    | Ok request =>
        let '(p, s) :=
          alloc (with_request request (newStream request.(or_RequestID) s.(ss_config))) s in
        if s.(ss_closed) then Continue (forceClose p ErrClosed s)
        else
          let s := with_streams (<[request.(or_RequestID) := p]> s.(ss_streams)) s in
          let '(sent, s) := dispatch p s in
          if sent then Continue s else Dispatch p s
    end
  else if bool_decide (f.(fr_Type) = FrameOpenAck) then
    match DecodeJSON f with
    | (_, Some e) => Return (EWrap "decode open acknowledgement: " e) s
    | (ack, None) =>
        match lookup_stream f.(fr_ID) s with
        | None => Continue s
        | Some p =>
            match stream_at p s with
            | None => Continue s
            | Some st => Continue (set_stream p (push_ack ack st) s)
            end
        end
    end
  else if bool_decide (f.(fr_Type) = FrameData) then
    match lookup_stream f.(fr_ID) s with
    | None => Continue (writeFrame (mkFrame FrameClose f.(fr_ID) []) s).2
    | Some p =>
        match f.(fr_Payload) with
        | [] => Continue s
        | data => Deliver p data s
        end
    end
  else if bool_decide (f.(fr_Type) = FrameClose) then
    match lookup_stream f.(fr_ID) s with
    | None => Continue s
    | Some p => Continue (remoteClose p s)
    end
  else if bool_decide (f.(fr_Type) = FrameError) then
    let '(message, _) := DecodeJSON (A := ErrorMessage) f in
    match lookup_stream f.(fr_ID) s with
    | None => Continue s
    | Some p => Continue (forceClose p (ENew message.(em_Message)) s)
    end
  else if s.(ss_control) then Control f s
  else Return (ENew ("unexpected control frame " +:+ Itoa (byte_to_Z f.(fr_Type)))) s.

(** An iteration of [readLoop] on what [ReadFrame] returned. *)
Definition readLoop_step (r : result Frame) (s : Session) : loop_outcome :=
  match r with
  | Err e =>
      Return (if errors_Is e EOF || errors_Is e ErrClosed then ErrClosed else e) s
  | Ok f => readLoop_frame f s
  end.

(** The [select] of [deliver].  A send on a closed channel panics, and is
    ready like any other send. *)
Inductive deliver_result : Type := Sent (s : Session) | Refused (s : Session) | Panicked.

Definition buffer_cap (st : Stream) : nat := Z.to_nat st.(st_config).(cfg_BufferSize).

Inductive deliver_select (p : ptr) (data : bytes) (s : Session) : deliver_result -> Prop :=
  | deliver_send st :
      stream_at p s = Some st -> st.(st_reads_closed) = false ->
      (length st.(st_reads) < buffer_cap st)%nat ->
      deliver_select p data s (Sent (set_stream p (with_reads (st.(st_reads) ++ [data]) st) s))
  | deliver_panic st :
      stream_at p s = Some st -> st.(st_reads_closed) = true ->
      deliver_select p data s Panicked
  | deliver_done st :
      stream_at p s = Some st -> st.(st_done) = true ->
      deliver_select p data s (Refused (forceClose p ErrClosed s)).

(* ------------------------------------------------------------------ *)
(** ** The methods of a stream *)

Definition Stream_Accept (p : ptr) (s : Session) : option error * Session :=
  match stream_at p s with
  | None => (Some ErrClosed, s)
  | Some st =>
      if st.(st_done) then (Some ErrClosed, s)
      else
        match writeFrameJSON FrameOpenAck st.(st_id) (mkAck true "" st.(st_remoteExit) "") s with
        | (Some e, s) => (Some e, forceClose p e s)
        | (None, s) => (None, s)
        end
  end.

Definition Stream_Reject (p : ptr) (message : string) (s : Session) : option error * Session :=
  match stream_at p s with
  | None => (Some ErrClosed, s)
  | Some st =>
      let '(e, s) := writeFrameJSON FrameOpenAck st.(st_id) (mkAck false message "" "") s in
      (e, forceClose p (ENew message) s)
  end.

Inductive read_result : Type :=
  | RData (data : bytes)
  | RError (e : error)
  | RBlocked.

(** [Read] into a buffer of [n] bytes.  The loop runs again only after an
    empty chunk, so the queue bounds it. *)
Fixpoint read_loop (fuel : nat) (n : nat) (st : Stream) : read_result * Stream :=
  match st.(st_readBuf) with
  | _ :: _ => (RData (take n st.(st_readBuf)), with_readBuf (drop n st.(st_readBuf)) st)
  | [] =>
      match st.(st_readErr) with
      | Some e => (RError e, st)
      | None =>
          match st.(st_reads) with
          | data :: rest =>
              match fuel with
              | O => (RBlocked, st)
              | S k => read_loop k n (with_readBuf data (with_reads rest st))
              end
          | [] =>
              if st.(st_reads_closed) then (RError EOF, st)
              else if st.(st_done) then (RError ErrClosed, st)
              else (RBlocked, st)
          end
      end
  end.

Definition Stream_Read (p : ptr) (n : nat) (s : Session) : read_result * Session :=
  match stream_at p s with
  | None => (RBlocked, s)
  | Some st =>
      let '(r, st) := read_loop (length st.(st_reads)) n st in (r, set_stream p st s)
  end.

Definition max_chunk : nat := Z.to_nat MaxDataSize.

(** One turn of the loop of [Write]. *)
Definition write_chunk (p : ptr) (id : Z) (data : bytes) (s : Session) : option error * Session :=
  match writeFrame (mkFrame FrameData id (take max_chunk data)) s with
  | (Some e, s) => (Some e, forceClose p e s)
  | (None, s) => (None, s)
  end.

(** The loop of [Write]: the bytes written and the error.  Every chunk has at
    least one byte, so the length of the data is enough fuel. *)
Fixpoint write_loop (fuel : nat) (p : ptr) (id : Z) (data : bytes) (written : nat) (s : Session)
  : nat * option error * Session :=
  match fuel, data with
  | S k, _ :: _ =>
      match write_chunk p id data s with
      | (Some e, s) => (written, Some e, s)
      | (None, s) =>
          write_loop k p id (drop max_chunk data) (written + length (take max_chunk data))%nat s
      end
  | _, _ => (written, None, s)
  end.

Definition Stream_Write (p : ptr) (data : bytes) (s : Session) : nat * option error * Session :=
  match data with
  | [] => (0%nat, None, s)
  | _ =>
      match stream_at p s with
      | None => (0%nat, Some ErrClosed, s)
      | Some st =>
          match st.(st_writeErr) with
          | Some e => (0%nat, Some e, s)
          | None =>
              if st.(st_closed) then (0%nat, Some ErrClosed, s)
              else write_loop (length data) p st.(st_id) data 0 s
          end
      end
  end.

Definition Stream_CloseWrite (p : ptr) (s : Session) : option error * Session :=
  match stream_at p s with
  | None => (None, s)
  | Some st =>
      if st.(st_closed) || st.(st_localEOF) then (None, s)
      else writeFrame (mkFrame FrameClose st.(st_id) []) (set_stream p (with_localEOF st) s)
  end.

Definition Stream_Close (p : ptr) (s : Session) : option error * Session :=
  Stream_CloseWrite p s.

(* ------------------------------------------------------------------ *)
(** ** Accepting streams *)

(** The alternatives of the [select] of [Accept] and of [dispatchLoop]. *)
Inductive accept_choice : Type := OnIncoming | OnDone | OnCancel (e : error).

Definition Session_Accept (c : accept_choice) (s : Session) : option (result ptr * Session) :=
  match c with
  | OnIncoming =>
      match s.(ss_incoming) with
      | [] => None
      | p :: q => Some (Ok p, with_incoming q s)
      end
  | OnDone => if s.(ss_done) then Some (Err ErrClosed, s) else None
  | OnCancel e => Some (Err e, s)
  end.

(** An iteration of [dispatchLoop]: the handler goroutine it starts, if any,
    and whether the loop goes on; [None] while neither alternative is ready. *)
Definition dispatchLoop_step (c : accept_choice) (s : Session)
  : option (option ptr * bool * Session) :=
  match c with
  | OnIncoming =>
      match s.(ss_incoming) with
      | [] => None
      | p :: q => Some (if s.(ss_handler) then Some p else None, true, with_incoming q s)
      end
  | _ => if s.(ss_done) then Some (None, false, s) else None
  end.

(** What a successful [writeFrameJSON] has written. *)
Lemma writeFrameJSON_None {A} `{Json A} t id (value : A) s s' :
  writeFrameJSON t id value s = (None, s') ->
  exists w, s.(ss_writer) = Some w /\
    s'.(ss_writer) = Some (sink_append w (frame_bytes (mkFrame t id (print (to_json value))))).
Proof.
  unfold writeFrameJSON. destruct (ss_done s); [done|]. destruct (ss_closed s); [done|].
  destruct (ss_writer s) as [w|]; [|done]. unfold WriteJSON, Marshal, Writer_Write.
  destruct (WriteFrame _ _) as [e w'] eqn:E. intros [= -> <-]. exists w. split; [done|].
  by apply WriteFrame_None in E as ->.
Qed.
