(* ===== verification/SessionSteps.v ===== *)
(** * The session as a state machine

    The goroutines of a session interleave: the read loop, the goroutines that
    wait to dispatch a stream, callers in the middle of [Open], a shutdown that
    closes streams one by one, and any caller of a stream's methods.  [World]
    is the session with the program counters of those goroutines, [step] one
    atomic action of one of them, [run] a sequence of steps.  The network is
    arbitrary: the read loop may be handed any frame or error.

    The first half proves that every step keeps the session's invariant and
    that streams only ever evolve; the second half states the properties. *)
From S2P Require Import Prelude GoIO GoStrings GoTime Json Codec Protocol Session.

(* ------------------------------------------------------------------ *)
(** ** The world and its steps *)

Inductive loop_pc : Type :=
  | NotStarted
  | Reading
  | Delivering (p : ptr) (data : bytes)
  | Handling (f : Frame)
  | Stopped.

Record World := mkWorld {
  w_s : Session;
  w_pc : loop_pc;
  w_dispatching : list ptr;                (* goroutines of [dispatch] *)
  w_closing : list ptr;                    (* streams [shutdown] has still to close *)
  w_sending : list (ptr * OpenRequest);    (* [Open] before its frame is written *)
  w_awaiting : list ptr;                   (* [Open] inside its [select] *)
  w_writing : list (ptr * bytes);          (* [Write] with the bytes not yet sent *)
  w_panicked : bool
}.

Definition init (config : Config) : World :=
  mkWorld (New config) NotStarted [] [] [] [] [] false.

Definition at_session (s : Session) (w : World) : World :=
  mkWorld s w.(w_pc) w.(w_dispatching) w.(w_closing) w.(w_sending) w.(w_awaiting) w.(w_writing) w.(w_panicked).
Definition at_pc (pc : loop_pc) (w : World) : World :=
  mkWorld w.(w_s) pc w.(w_dispatching) w.(w_closing) w.(w_sending) w.(w_awaiting) w.(w_writing) w.(w_panicked).
Definition at_dispatching (l : list ptr) (w : World) : World :=
  mkWorld w.(w_s) w.(w_pc) l w.(w_closing) w.(w_sending) w.(w_awaiting) w.(w_writing) w.(w_panicked).
Definition at_closing (l : list ptr) (w : World) : World :=
  mkWorld w.(w_s) w.(w_pc) w.(w_dispatching) l w.(w_sending) w.(w_awaiting) w.(w_writing) w.(w_panicked).
Definition at_sending (l : list (ptr * OpenRequest)) (w : World) : World :=
  mkWorld w.(w_s) w.(w_pc) w.(w_dispatching) w.(w_closing) l w.(w_awaiting) w.(w_writing) w.(w_panicked).
Definition at_awaiting (l : list ptr) (w : World) : World :=
  mkWorld w.(w_s) w.(w_pc) w.(w_dispatching) w.(w_closing) w.(w_sending) l w.(w_writing) w.(w_panicked).
Definition at_writing (l : list (ptr * bytes)) (w : World) : World :=
  mkWorld w.(w_s) w.(w_pc) w.(w_dispatching) w.(w_closing) w.(w_sending) w.(w_awaiting) l w.(w_panicked).
Definition at_panic (w : World) : World :=
  mkWorld w.(w_s) w.(w_pc) w.(w_dispatching) w.(w_closing) w.(w_sending) w.(w_awaiting) w.(w_writing) true.

(** Entering [close.Do]: the first caller collects the streams, later ones
    find the session closed. *)
Definition begin_shutdown (err : error) (w : World) : World :=
  if w.(w_s).(ss_close) then w
  else let '(ps, s) := shutdown_begin err w.(w_s) in at_closing ps (at_session s w).

(** What the read loop does with the outcome of an iteration. *)
Definition after_read (o : loop_outcome) (w : World) : World :=
  match o with
  | Continue s => at_session s w
  | Dispatch p s => at_dispatching (p :: w.(w_dispatching)) (at_session s w)
  | Deliver p data s => at_pc (Delivering p data) (at_session s w)
  | Control f s => at_pc (Handling f) (at_session s w)
  | Return err s => at_pc Stopped (begin_shutdown err (at_session s w))
  end.

Definition after_deliver (r : deliver_result) (w : World) : World :=
  match r with
  | Sent s | Refused s => at_pc Reading (at_session s w)
  | Panicked => at_panic w
  end.

Inductive event : Type :=
  | Internal
  | Received (r : result Frame)
  | Delivered (p : ptr) (data : bytes)
  | ReadBy (p : ptr) (r : read_result)
  | Wrote (p : ptr) (data : bytes).

Definition deliver_event (p : ptr) (data : bytes) (r : deliver_result) : event :=
  match r with Sent _ => Delivered p data | _ => Internal end.

(** [Write] past its checks, which change nothing when they fail. *)
Definition may_write (p : ptr) (s : Session) : bool :=
  match stream_at p s with
  | Some st => bool_decide (st.(st_writeErr) = None) && negb st.(st_closed)
  | None => false
  end.

(** The frames the server, the exits and the probe send with [WriteJSON]. *)
Definition control_type (t : FrameType) : bool :=
  bool_decide (t = FrameRegister) || bool_decide (t = FrameHeartbeat) || bool_decide (t = FrameCatalog).

Definition chunk_event (p : ptr) (data : bytes) (e : option error) : event :=
  match e with None => Wrote p (take max_chunk data) | Some _ => Internal end.

(** What a [Write] has still to do after a chunk. *)
Definition still_writing (p : ptr) (data : bytes) (e : option error) : list (ptr * bytes) :=
  match e, drop max_chunk data with
  | None, _ :: _ => [(p, drop max_chunk data)]
  | _, _ => []
  end.

Inductive step (w : World) : event -> World -> Prop :=
  | step_start conn handler s' :
      w.(w_pc) = NotStarted -> Start (Ok conn) handler w.(w_s) = (None, s') ->
      step w Internal (at_pc Reading (at_session s' w))
  | step_set_control h :
      step w Internal (at_session (SetControlHandler h w.(w_s)) w)
  | step_open request p request' s' :
      open_register request w.(w_s) = (Ok (p, request'), s') ->
      step w Internal (at_sending ((p, request') :: w.(w_sending)) (at_session s' w))
  | step_open_closed request e s' :
      open_register request w.(w_s) = (Err e, s') ->
      step w Internal (at_session s' w)
  | step_open_send l1 p request l2 e s' :
      w.(w_sending) = l1 ++ (p, request) :: l2 ->
      open_send p request w.(w_s) = (e, s') ->
      step w Internal (at_awaiting
        (match e with None => p :: w.(w_awaiting) | Some _ => w.(w_awaiting) end)
        (at_sending (l1 ++ l2) (at_session s' w)))
  | step_open_wait l1 p l2 c r s' :
      w.(w_awaiting) = l1 ++ p :: l2 ->
      open_wait p c w.(w_s) = Some (r, s') ->
      step w Internal (at_awaiting (l1 ++ l2) (at_session s' w))
  | step_read r :
      w.(w_pc) = Reading ->
      step w (Received r) (after_read (readLoop_step r w.(w_s)) w)
  | step_deliver p data r :
      w.(w_pc) = Delivering p data ->
      deliver_select p data w.(w_s) r ->
      step w (deliver_event p data r) (after_deliver r w)
  | step_handled f :
      w.(w_pc) = Handling f -> step w Internal (at_pc Reading w)
  | step_dispatched l1 p l2 s' :
      w.(w_dispatching) = l1 ++ p :: l2 -> dispatch p w.(w_s) = (true, s') ->
      step w Internal (at_dispatching (l1 ++ l2) (at_session s' w))
  | step_undispatched l1 p l2 :
      w.(w_dispatching) = l1 ++ p :: l2 -> w.(w_s).(ss_done) = true ->
      step w Internal
        (at_dispatching (l1 ++ l2) (at_session (forceClose p ErrClosed w.(w_s)) w))
  | step_accept c r s' :
      Session_Accept c w.(w_s) = Some (r, s') ->
      step w Internal (at_session s' w)
  | step_dispatch_loop c p go s' :
      dispatchLoop_step c w.(w_s) = Some (p, go, s') ->
      step w Internal (at_session s' w)
  | step_stream_accept p :
      step w Internal (at_session (Stream_Accept p w.(w_s)).2 w)
  | step_stream_reject p message :
      step w Internal (at_session (Stream_Reject p message w.(w_s)).2 w)
  | step_stream_read p n :
      step w (ReadBy p (Stream_Read p n w.(w_s)).1)
        (at_session (Stream_Read p n w.(w_s)).2 w)
  | step_write_begin p data :
      data <> [] -> may_write p w.(w_s) = true ->
      step w Internal (at_writing ((p, data) :: w.(w_writing)) w)
  | step_write_chunk l1 p data l2 st e s' :
      w.(w_writing) = l1 ++ (p, data) :: l2 -> stream_at p w.(w_s) = Some st ->
      write_chunk p st.(st_id) data w.(w_s) = (e, s') ->
      step w (chunk_event p data e) (at_writing (l1 ++ still_writing p data e ++ l2) (at_session s' w))
  | step_write_json A (J : Json A) t id (value : A) :
      control_type t = true ->
      step w Internal (at_session (writeFrameJSON t id value w.(w_s)).2 w)
  | step_stream_close p :
      step w Internal (at_session (Stream_Close p w.(w_s)).2 w)
  | step_close :
      step w Internal (begin_shutdown ErrClosed w)
  | step_close_stream p rest :
      w.(w_closing) = p :: rest ->
      step w Internal (at_closing rest
        (at_session (forceClose p (or_error w.(w_s).(ss_err) ErrClosed) w.(w_s)) w))
  | step_close_conn :
      w.(w_s).(ss_close) = true -> step w Internal (at_session (with_connClosed w.(w_s)) w).

(** A panic ends the process: nothing steps after it. *)
Inductive run (w0 : World) : list event -> World -> Prop :=
  | run_nil : run w0 [] w0
  | run_snoc evs w e w' :
      run w0 evs w -> w.(w_panicked) = false -> step w e w' -> run w0 (evs ++ [e]) w'.

(* ------------------------------------------------------------------ *)
(** ** The invariant *)

Record stream_ok (st : Stream) : Prop := mk_stream_ok {
  sok_closed : st.(st_closed) = st.(st_closeOnce);
  sok_done : st.(st_done) = st.(st_closeOnce);
  sok_reads_closed : st.(st_reads_closed) = st.(st_remoteEOF);
  sok_eof : st.(st_closeOnce) = true -> st.(st_remoteEOF) = true;
  sok_err : st.(st_readErr) = None <-> st.(st_closeOnce) = false;
  sok_werr : st.(st_writeErr) = st.(st_readErr);
  sok_ack : (length st.(st_ack) <= 1)%nat;
  sok_cap : (length st.(st_reads) <= buffer_cap st)%nat;
  sok_chunks : Forall (fun d => d <> []) st.(st_reads)
}.

(** [cl] are the streams a running shutdown has still to close. *)
Record session_ok (cl : list ptr) (s : Session) : Prop := mk_session_ok {
  ok_streams : forall id p, s.(ss_streams) !! id = Some p ->
    exists st, stream_at p s = Some st /\ st.(st_id) = id /\ st.(st_closeOnce) = false;
  ok_heap : Forall stream_ok s.(ss_heap);
  ok_close : s.(ss_close) = s.(ss_closed);
  ok_done : s.(ss_done) = s.(ss_closed);
  ok_err : s.(ss_err) = None <-> s.(ss_closed) = false;
  ok_closing : s.(ss_closed) = true ->
    forall id p, s.(ss_streams) !! id = Some p -> In p cl;
  ok_open : s.(ss_closed) = false -> cl = [];
  ok_incoming : (length s.(ss_incoming) <= 64)%nat;
  ok_buffer : 0 < s.(ss_config).(cfg_BufferSize)
}.

(* ------------------------------------------------------------------ *)
(** ** Operations keep the invariant *)

Create HintDb session.

Lemma stream_at_set p q st s :
  (p < length s.(ss_heap))%nat ->
  stream_at q (set_stream p st s) = if decide (p = q) then Some st else stream_at q s.
Proof.
  intros Hp. unfold stream_at, set_stream. cbn. case_decide; subst.
  - by apply list_lookup_insert_eq.
  - by apply list_lookup_insert_ne.
Qed.

Lemma stream_at_lt p st s : stream_at p s = Some st -> (p < length s.(ss_heap))%nat.
Proof. apply lookup_lt_Some. Qed.

Lemma ok_stream cl s p st : session_ok cl s -> stream_at p s = Some st -> stream_ok st.
Proof. intros H Hp. by eapply (Forall_lookup_1 _ _ _ _ (ok_heap _ _ H)). Qed.

(** Replacing a stream by one with the same ID that is as open as before. *)
Lemma ok_set_stream cl s p st st' :
  session_ok cl s -> stream_at p s = Some st -> stream_ok st' ->
  st'.(st_id) = st.(st_id) -> st'.(st_closeOnce) = st.(st_closeOnce) ->
  session_ok cl (set_stream p st' s).
Proof.
  intros H Hp Hst Hid Hc. pose proof (stream_at_lt _ _ _ Hp) as Hlt.
  destruct H as [H1 H2 H3 H4 H5 H6 H7 H8 H9]. split; try done.
  - intros id q Hq. destruct (H1 _ _ Hq) as (st0 & Hq0 & ? & ?).
    rewrite stream_at_set by done. case_decide; subst; [|by eauto].
    rewrite Hp in Hq0. injection Hq0 as <-. exists st'. by rewrite Hid, Hc.
  - by apply Forall_insert.
Qed.

Lemma force_fields_ok err st : stream_ok st -> st.(st_closeOnce) = false ->
  stream_ok (with_done (force_fields err st)).
Proof.
  intros [H1 H2 H3 H4 H5 H6 H7 H8 H9] Hc. split; cbn; try done.
  - by rewrite H3; destruct (st_remoteEOF st).
  - split; [|done]. by destruct (st_readErr st).
  - by rewrite H6.
Qed.

Lemma unregister_heap p s : (unregister p s).(ss_heap) = s.(ss_heap).
Proof. unfold unregister. repeat case_match; done. Qed.

Lemma ok_unregister cl p s : session_ok cl s -> session_ok cl (unregister p s).
Proof.
  intros H. unfold unregister. destruct (stream_at p s) as [st|] eqn:E; [|done].
  case_bool_decide; [|done]. destruct H as [H1 H2 H3 H4 H5 H6 H7 H8 H9].
  split; try done; cbn.
  - intros id q Hq. apply lookup_delete_Some in Hq as [_ Hq]. by apply H1.
  - intros Hc id q Hq. apply lookup_delete_Some in Hq as [_ Hq]. by eapply H6.
Qed.

Lemma forceClose_writer p e s : (forceClose p e s).(ss_writer) = s.(ss_writer).
Proof.
  unfold forceClose. destruct (stream_at p s); [|done]. destruct (st_closeOnce _); [done|]. cbn.
  unfold unregister. destruct (stream_at p _); [|done]. by case_bool_decide.
Qed.

Definition force_streams (p : ptr) (st : Stream) (m : gmap Z ptr) : gmap Z ptr :=
  if bool_decide (m !! st.(st_id) = Some p) then delete st.(st_id) m else m.

(** The two fields [forceClose] changes. *)
Lemma forceClose_eq p e s st :
  stream_at p s = Some st -> st.(st_closeOnce) = false ->
  forceClose p e s =
    with_streams (force_streams p st s.(ss_streams))
      (with_heap (<[p := with_done (force_fields e st)]> s.(ss_heap)) s).
Proof.
  intros Hp Hc. unfold forceClose. rewrite Hp, Hc.
  pose proof (stream_at_lt _ _ _ Hp) as Hlt.
  unfold unregister. rewrite stream_at_set, decide_True by done.
  unfold force_streams. cbn. destruct s; cbn.
  case_bool_decide; unfold set_stream, with_heap, with_streams; cbn;
    by rewrite list_insert_insert_eq.
Qed.

Lemma forceClose_cases p e s :
  (forceClose p e s = s /\
   forall st, stream_at p s = Some st -> st.(st_closeOnce) = true) \/
  exists st, stream_at p s = Some st /\ st.(st_closeOnce) = false /\
    forceClose p e s =
      with_streams (force_streams p st s.(ss_streams))
        (with_heap (<[p := with_done (force_fields e st)]> s.(ss_heap)) s).
Proof.
  destruct (stream_at p s) as [st|] eqn:E.
  - destruct (st_closeOnce st) eqn:Ec.
    + left. unfold forceClose. rewrite E, Ec. split; [done|]. by intros ? [= <-].
    + right. exists st. split_and!; [done..|]. by apply forceClose_eq.
  - left. unfold forceClose. by rewrite E.
Qed.

Lemma force_streams_Some p st m id q :
  force_streams p st m !! id = Some q ->
  m !! id = Some q /\ (id = st.(st_id) -> q <> p).
Proof.
  unfold force_streams. case_bool_decide as E.
  - intros H. apply lookup_delete_Some in H as [Hne Hq]. split; [done|]. congruence.
  - intros H. split; [done|]. intros -> ->. congruence.
Qed.

(** [forceClose] needs only that the other streams of the closing list are
    kept: the stream it closes is no longer registered. *)
Lemma ok_forceClose_list cl cl' p e s :
  session_ok cl s -> (forall q, In q cl -> q = p \/ In q cl') ->
  (s.(ss_closed) = false -> cl' = []) -> session_ok cl' (forceClose p e s).
Proof.
  intros H Hcl Hnil. destruct (forceClose_cases p e s) as [[-> Hp]|(st & Hp & Hc & ->)].
  - destruct H as [H1 H2 H3 H4 H5 H6 H7 H8 H9]. split; try done.
    intros Hcd id q Hq. destruct (Hcl _ (H6 Hcd _ _ Hq)) as [->|]; [|done].
    destruct (H1 _ _ Hq) as (st & Hst & _ & Hf). specialize (Hp _ Hst). congruence.
  - pose proof (stream_at_lt _ _ _ Hp) as Hlt. pose proof (ok_stream _ _ _ _ H Hp) as Hok.
    destruct H as [H1 H2 H3 H4 H5 H6 H7 H8 H9].
    assert (forall id q, force_streams p st (ss_streams s) !! id = Some q ->
      ss_streams s !! id = Some q /\ q <> p) as Hq'.
    { intros id q Hq. apply force_streams_Some in Hq as [Hq Hne]. split; [done|].
      intros ->. destruct (H1 _ _ Hq) as (st0 & Hs0 & Hid & _).
      rewrite Hp in Hs0. injection Hs0 as <-. by apply Hne. }
    split; try done; cbn.
    + intros id q Hq. destruct (Hq' _ _ Hq) as [Hq0 Hne].
      destruct (H1 _ _ Hq0) as (st0 & Hs0 & ? & ?).
      exists st0. split; [|done]. unfold stream_at. cbn.
      by rewrite list_lookup_insert_ne.
    + apply Forall_insert; [done|]. by apply force_fields_ok.
    + intros Hcd id q Hq. destruct (Hq' _ _ Hq) as [Hq0 Hne].
      by destruct (Hcl _ (H6 Hcd _ _ Hq0)).
Qed.

Lemma ok_forceClose cl p e s : session_ok cl s -> session_ok cl (forceClose p e s).
Proof.
  intros H. apply (ok_forceClose_list cl); [done| |by apply ok_open]. by right.
Qed.

Lemma ok_removeStream cl p e s : session_ok cl s -> session_ok cl (removeStream p e s).
Proof.
  intros H. unfold removeStream. destruct e; [apply ok_forceClose|]; by apply ok_unregister.
Qed.

(** Fields the invariant does not mention. *)
Lemma ok_with_writer cl w s : session_ok cl s -> session_ok cl (with_writer w s).
Proof. by intros [? ? ? ? ? ? ? ? ?]. Qed.
Lemma ok_with_nextID cl n s : session_ok cl s -> session_ok cl (with_nextID n s).
Proof. by intros [? ? ? ? ? ? ? ? ?]. Qed.
Lemma ok_with_control cl h s : session_ok cl s -> session_ok cl (with_control h s).
Proof. by intros [? ? ? ? ? ? ? ? ?]. Qed.
Lemma ok_with_handler cl h s : session_ok cl s -> session_ok cl (with_handler h s).
Proof. by intros [? ? ? ? ? ? ? ? ?]. Qed.
Lemma ok_with_connClosed cl s : session_ok cl s -> session_ok cl (with_connClosed s).
Proof. by intros [? ? ? ? ? ? ? ? ?]. Qed.
Lemma ok_with_incoming cl q s :
  session_ok cl s -> (length q <= 64)%nat -> session_ok cl (with_incoming q s).
Proof. by intros [? ? ? ? ? ? ? ? ?]. Qed.

#[export] Hint Resolve ok_forceClose ok_removeStream ok_unregister ok_with_writer ok_with_nextID
  ok_with_control ok_with_handler ok_with_connClosed : session.

Lemma ok_writeFrame cl f s : session_ok cl s -> session_ok cl (writeFrame f s).2.
Proof. intros H. unfold writeFrame. repeat case_match; cbn; auto with session. Qed.

Lemma ok_writeFrameJSON {A} `{Json A} cl t id (v : A) s :
  session_ok cl s -> session_ok cl (writeFrameJSON t id v s).2.
Proof. intros Hs. unfold writeFrameJSON. repeat case_match; cbn; auto with session. Qed.

#[export] Hint Resolve ok_writeFrame ok_writeFrameJSON : session.

Lemma newStream_ok id config : stream_ok (newStream id config).
Proof. split; cbn; try done; lia. Qed.

Lemma with_request_ok r st : stream_ok st -> stream_ok (with_request r st).
Proof. by intros [? ? ? ? ? ? ? ? ?]. Qed.

Lemma ok_alloc cl st s : session_ok cl s -> stream_ok st -> session_ok cl (alloc st s).2.
Proof.
  intros [H1 H2 H3 H4 H5 H6 H7 H8 H9] Hst. split; try done; cbn.
  - intros id p Hp. destruct (H1 _ _ Hp) as (st0 & Hs0 & ?). exists st0. split; [|done].
    unfold stream_at. cbn. by apply lookup_app_l_Some.
  - apply Forall_app. split; [done|]. by apply Forall_singleton.
Qed.

Lemma ok_register cl id p st s :
  session_ok cl s -> s.(ss_closed) = false -> stream_at p s = Some st ->
  st.(st_id) = id -> st.(st_closeOnce) = false ->
  session_ok cl (with_streams (<[id := p]> s.(ss_streams)) s).
Proof.
  intros [H1 H2 H3 H4 H5 H6 H7 H8 H9] Hc Hp Hid Ho. split; try done; cbn.
  - intros id' q Hq. apply lookup_insert_Some in Hq as [[-> ->]|[_ Hq]]; [by eauto|].
    by apply H1.
  - intros Hc'. congruence.
Qed.

Lemma stream_at_alloc st s : stream_at (length s.(ss_heap)) (alloc st s).2 = Some st.
Proof. unfold stream_at. cbn. by apply list_lookup_middle. Qed.

Lemma ok_open_register cl request s :
  session_ok cl s -> session_ok cl (open_register request s).2.
Proof.
  intros H. destruct request as [id exit dest port proto sel]. unfold open_register.
  set (id' := if id =? 0 then _ else _). set (s1 := with_nextID _ s).
  assert (session_ok cl (alloc (newStream id' s1.(ss_config)) s1).2) as Hs.
  { apply ok_alloc; [by apply ok_with_nextID | apply newStream_ok]. }
  cbn [alloc fst snd] in *. destruct (ss_closed _) eqn:Ec; [done|].
  destruct (ss_writer _); [|done]. cbn [snd].
  eapply ok_register; [done..|apply (stream_at_alloc _ s1)|done|done].
Qed.

Lemma ok_open_send cl p request s :
  session_ok cl s -> session_ok cl (open_send p request s).2.
Proof. intros H. unfold open_send. repeat case_match; cbn; auto with session. Qed.

Lemma with_ack_ok a st : stream_ok st -> (length a <= 1)%nat -> stream_ok (with_ack a st).
Proof. by intros [? ? ? ? ? ? ? ? ?]. Qed.

Lemma with_remoteExit_ok a st : stream_ok st -> stream_ok (with_remoteExit a st).
Proof. by intros [? ? ? ? ? ? ? ? ?]. Qed.

Lemma ok_open_wait cl p c s r s' :
  session_ok cl s -> open_wait p c s = Some (r, s') -> session_ok cl s'.
Proof.
  intros H. unfold open_wait. destruct (stream_at p s) as [st|] eqn:E; [|done].
  pose proof (ok_stream _ _ _ _ H E) as Hst. destruct c as [| |e|].
  - destruct (st_ack st) as [|a rest] eqn:Ea; [done|].
    assert (stream_ok (with_ack rest st)) as Hst'.
    { apply with_ack_ok; [done|]. pose proof (sok_ack _ Hst) as Hl. rewrite Ea in Hl. cbn in Hl. lia. }
    assert (session_ok cl (set_stream p (with_ack rest st) s)) as Hs'.
    { by eapply ok_set_stream. }
    destruct (ack_OK a); intros [= <- <-]; [|by eauto with session].
    apply (ok_set_stream _ _ _ (with_ack rest st)); [done| |by apply with_remoteExit_ok|done|done].
    rewrite stream_at_set by (by eapply stream_at_lt). by apply decide_True.
  - destruct (st_done st); [|done]. intros [= <- <-]. auto with session.
  - intros [= <- <-]. auto with session.
  - destruct (ss_done s); [|done]. by intros [= <- <-].
Qed.

Lemma ok_dispatch cl p s : session_ok cl s -> session_ok cl (dispatch p s).2.
Proof.
  intros H. unfold dispatch. destruct (Nat.ltb_spec (length (ss_incoming s)) 64); [|done].
  cbn. apply ok_with_incoming; [done|]. rewrite length_app. cbn. lia.
Qed.

Lemma ok_remoteClose cl p s : session_ok cl s -> session_ok cl (remoteClose p s).
Proof.
  intros H. unfold remoteClose. destruct (stream_at p s) as [st|] eqn:E; [|done].
  destruct (st_remoteEOF st) eqn:Er; [done|].
  pose proof (ok_stream _ _ _ _ H E) as [? ? ? ? ? ? ? ? ?].
  eapply ok_set_stream; [done..| |done|done]. by split.
Qed.

#[export] Hint Resolve ok_dispatch ok_remoteClose ok_open_register ok_open_send : session.

(** The session an iteration of the read loop leaves. *)
Definition outcome_session (o : loop_outcome) : Session :=
  match o with
  | Continue s | Dispatch _ s | Deliver _ _ s | Control _ s | Return _ s => s
  end.

(** The read loop's branch for an open frame. *)
Lemma ok_read_open cl request s :
  session_ok cl s ->
  let '(p, s) := alloc (with_request request (newStream request.(or_RequestID) s.(ss_config))) s in
  session_ok cl (forceClose p ErrClosed s) /\
  (s.(ss_closed) = false ->
   session_ok cl (with_streams (<[request.(or_RequestID) := p]> s.(ss_streams)) s)).
Proof.
  intros H. cbn [alloc].
  assert (session_ok cl (alloc (with_request request
    (newStream request.(or_RequestID) s.(ss_config))) s).2) as Hs.
  { apply ok_alloc; [done|]. apply with_request_ok, newStream_ok. }
  split; [by apply ok_forceClose|]. intros Hc.
  eapply ok_register; [done..|apply (stream_at_alloc _ s)|done|done].
Qed.

Lemma push_ack_ok a st : stream_ok st -> stream_ok (push_ack a st).
Proof.
  intros H. unfold push_ack. destruct (st_ack st) eqn:E; [|done]. apply with_ack_ok; [done|].
  cbn. lia.
Qed.

Lemma push_ack_same a st :
  st_id (push_ack a st) = st_id st /\ st_closeOnce (push_ack a st) = st_closeOnce st.
Proof. unfold push_ack. by destruct (st_ack st). Qed.

Lemma ok_readLoop_frame cl f s :
  session_ok cl s -> session_ok cl (outcome_session (readLoop_frame f s)).
Proof.
  intros H. unfold readLoop_frame. case_bool_decide.
  { destruct (DecodeOpen f) as [request|e]; [|by apply ok_writeFrameJSON].
    pose proof (ok_read_open cl request s H) as Ho. destruct (alloc _ s) as [p s1].
    destruct Ho as [Ho1 Ho2]. destruct (ss_closed s1); [done|]. specialize (Ho2 eq_refl).
    pose proof (ok_dispatch cl p _ Ho2). by destruct (dispatch _ _) as [[] ?]. }
  case_bool_decide.
  { destruct (DecodeJSON f) as [ack [e|]]; [done|].
    destruct (lookup_stream _ s) as [p|]; [|done].
    destruct (stream_at p s) as [st|] eqn:E; [|done]. cbn.
    eapply ok_set_stream; [done..| |apply push_ack_same|apply push_ack_same].
    apply push_ack_ok. by eapply ok_stream. }
  case_bool_decide.
  { destruct (lookup_stream _ s) as [p|]; [by destruct (fr_Payload f)|]. by apply ok_writeFrame. }
  case_bool_decide.
  { destruct (lookup_stream _ s) as [p|]; [by apply ok_remoteClose|done]. }
  case_bool_decide.
  { destruct (DecodeJSON f). destruct (lookup_stream _ s) as [p|]; [by apply ok_forceClose|done]. }
  by destruct (ss_control s).
Qed.

Lemma ok_readLoop_step cl r s :
  session_ok cl s -> session_ok cl (outcome_session (readLoop_step r s)).
Proof. intros H. destruct r; [by apply ok_readLoop_frame|done]. Qed.

Lemma ok_deliver cl p data s r :
  session_ok cl s -> data <> [] -> deliver_select p data s r ->
  match r with Sent s' | Refused s' => session_ok cl s' | Panicked => True end.
Proof.
  intros H Hd Hr. destruct Hr as [st Hp Hc Hl|st Hp Hc|st Hp Hdn]; [|done|by apply ok_forceClose].
  pose proof (ok_stream _ _ _ _ H Hp) as [? ? ? ? ? ? ? ? Hch].
  eapply ok_set_stream; [done..| |done|done]. split; try done; cbn.
  - rewrite length_app. cbn. unfold buffer_cap in *. cbn. lia.
  - apply Forall_app. split; [done|]. by apply Forall_singleton.
Qed.

Lemma ok_Stream_Accept cl p s : session_ok cl s -> session_ok cl (Stream_Accept p s).2.
Proof.
  intros H. unfold Stream_Accept. destruct (stream_at p s) as [st|]; [|done].
  destruct (st_done st); [done|].
  pose proof (ok_writeFrameJSON cl FrameOpenAck (st_id st) (mkAck true "" (st_remoteExit st) "") s H)
    as Hw.
  destruct (writeFrameJSON _ _ _ s) as [[e|] s1]; [by apply ok_forceClose|done].
Qed.

Lemma ok_Stream_Reject cl p m s : session_ok cl s -> session_ok cl (Stream_Reject p m s).2.
Proof.
  intros H. unfold Stream_Reject. destruct (stream_at p s) as [st|]; [|done].
  pose proof (ok_writeFrameJSON cl FrameOpenAck (st_id st) (mkAck false m "" "") s H) as Hw.
  destruct (writeFrameJSON _ _ _ s) as [e s1]. by apply ok_forceClose.
Qed.

Lemma with_readBuf_ok b st : stream_ok st -> stream_ok (with_readBuf b st).
Proof. by intros [? ? ? ? ? ? ? ? ?]. Qed.

Lemma with_reads_ok d rest st : stream_ok st -> st_reads st = d :: rest -> stream_ok (with_reads rest st).
Proof.
  intros [H1 H2 H3 H4 H5 H6 H7 H8 H9] E. rewrite E in *. apply Forall_cons in H9 as [_ H9].
  split; try done. unfold buffer_cap in *. cbn in *. lia.
Qed.

(** [Read] touches only the queue and the buffer. *)
Lemma read_loop_ok fuel : forall n st, stream_ok st ->
  stream_ok (read_loop fuel n st).2 /\ st_id (read_loop fuel n st).2 = st_id st /\
  st_closeOnce (read_loop fuel n st).2 = st_closeOnce st.
Proof.
  induction fuel as [|k IH]; intros n st Hst; cbn -[take drop];
    (destruct (st_readBuf st); [|cbn; split_and!; try done; by apply with_readBuf_ok]);
    (destruct (st_readErr st); [done|]);
    (destruct (st_reads st) as [|d rest] eqn:E;
      [by destruct (st_reads_closed st), (st_done st)|]); [done|].
  destruct (IH n (with_readBuf d (with_reads rest st))) as (H1 & H2 & H3); [|done].
  apply with_readBuf_ok. by eapply with_reads_ok.
Qed.

Lemma ok_Stream_Read cl p n s : session_ok cl s -> session_ok cl (Stream_Read p n s).2.
Proof.
  intros H. unfold Stream_Read. destruct (stream_at p s) as [st|] eqn:E; [|done].
  destruct (read_loop_ok (length (st_reads st)) n st) as (H1 & H2 & H3); [by eapply ok_stream|].
  destruct (read_loop _ n st) as [r st']. by eapply ok_set_stream.
Qed.

Lemma ok_write_chunk cl p id data s : session_ok cl s -> session_ok cl (write_chunk p id data s).2.
Proof.
  intros H. unfold write_chunk.
  pose proof (ok_writeFrame cl (mkFrame FrameData id (take max_chunk data)) s H) as Hw.
  destruct (writeFrame _ s) as [[e|] s1]; [by apply ok_forceClose|done].
Qed.

Lemma ok_write_loop cl fuel : forall p id data n s,
  session_ok cl s -> session_ok cl (write_loop fuel p id data n s).2.
Proof.
  induction fuel as [|k IH]; intros p id data n s H; [done|]. cbn [write_loop].
  destruct data as [|b data]; [done|]. pose proof (ok_write_chunk cl p id (b :: data) s H) as Hw.
  destruct (write_chunk _ _ _ s) as [[e|] s1]; [done|]. by apply IH.
Qed.

Lemma ok_Stream_Write cl p data s : session_ok cl s -> session_ok cl (Stream_Write p data s).2.
Proof.
  intros H. unfold Stream_Write. destruct data; [done|].
  destruct (stream_at p s) as [st|]; [|done].
  destruct (st_writeErr st), (st_closed st); try done. by apply ok_write_loop.
Qed.

Lemma ok_Stream_Close cl p s : session_ok cl s -> session_ok cl (Stream_Close p s).2.
Proof.
  intros H. unfold Stream_Close, Stream_CloseWrite. destruct (stream_at p s) as [st|] eqn:E; [|done].
  destruct (_ || _); [done|]. apply ok_writeFrame.
  pose proof (ok_stream _ _ _ _ H E) as [? ? ? ? ? ? ? ? ?].
  by apply (ok_set_stream _ _ _ st).
Qed.

Lemma ok_shutdown_begin err s :
  session_ok [] s -> s.(ss_close) = false ->
  session_ok (shutdown_begin err s).1 (shutdown_begin err s).2.
Proof.
  intros [H1 H2 H3 H4 H5 H6 H7 H8 H9] Hc. split; cbn; try done; try (by split).
  intros _ id p Hp. apply list_elem_of_In. apply (list_elem_of_fmap_2 snd _ (id, p)).
  by apply elem_of_map_to_list.
Qed.

Lemma New_ok config : session_ok [] (New config).
Proof.
  split; cbn; try done; [lia|]. destruct (Z.leb_spec (cfg_BufferSize config) 0); lia.
Qed.

(* ------------------------------------------------------------------ *)
(** ** Every step keeps the invariant *)

Record world_ok (w : World) : Prop := mk_world_ok {
  wok_session : session_ok w.(w_closing) w.(w_s);
  wok_pc : forall p data, w.(w_pc) = Delivering p data -> data <> []
}.

Lemma init_ok config : world_ok (init config).
Proof. split; [apply New_ok|done]. Qed.

Lemma at_session_ok s w :
  world_ok w -> session_ok w.(w_closing) s -> world_ok (at_session s w).
Proof. by intros [? ?]. Qed.

Lemma begin_shutdown_ok err w : world_ok w -> world_ok (begin_shutdown err w).
Proof.
  intros [H1 H2]. unfold begin_shutdown. destruct (ss_close (w_s w)) eqn:E; [done|].
  assert (w_closing w = []) as Hn.
  { apply (ok_open _ _ H1). by rewrite <-(ok_close _ _ H1). }
  rewrite Hn in H1. pose proof (ok_shutdown_begin err _ H1 E). by split.
Qed.

Lemma readLoop_frame_Deliver f s p data s' :
  readLoop_frame f s = Deliver p data s' -> data <> [] /\ data = f.(fr_Payload) /\ s' = s /\
    f.(fr_Type) = FrameData /\ lookup_stream f.(fr_ID) s = Some p.
Proof.
  unfold readLoop_frame. case_bool_decide.
  { destruct (DecodeOpen f); [|done]. destruct (alloc _ s) as [q s1].
    destruct (ss_closed s1); [done|]. by destruct (dispatch _ _) as [[] ?]. }
  case_bool_decide.
  { destruct (DecodeJSON f) as [ack [e|]]; [done|].
    destruct (lookup_stream _ s) as [q|]; [|done]. by destruct (stream_at q s). }
  case_bool_decide.
  { destruct (lookup_stream _ s) as [q|]; [|done]. destruct (fr_Payload f) eqn:E; [done|].
    by intros [= <- <- <-]. }
  case_bool_decide; [by destruct (lookup_stream _ s)|].
  case_bool_decide; [by destruct (DecodeJSON f), (lookup_stream _ s)|].
  by destruct (ss_control s).
Qed.

Lemma readLoop_step_Deliver r s p data s' :
  readLoop_step r s = Deliver p data s' -> data <> [].
Proof. destruct r; [|done]. intros H. by apply readLoop_frame_Deliver in H as []. Qed.

Lemma after_read_ok r w : w.(w_pc) = Reading ->
  world_ok w -> world_ok (after_read (readLoop_step r w.(w_s)) w).
Proof.
  intros Hpc H. pose proof (ok_readLoop_step _ r _ (wok_session _ H)) as Hs.
  destruct (readLoop_step r (w_s w)) as [s|p s|p data s|f s|err s] eqn:E; cbn in *.
  - by apply at_session_ok.
  - split; [done|]. cbn. by rewrite Hpc.
  - split; [done|]. intros ? ? [= <- <-]. by eapply readLoop_step_Deliver.
  - by split.
  - destruct (begin_shutdown_ok err (at_session s w)) as [? ?]; [by apply at_session_ok|].
    by split.
Qed.

Lemma step_ok w e w' : world_ok w -> step w e w' -> world_ok w'.
Proof.
  intros H Hstep. pose proof (wok_session _ H) as Hs. pose proof (wok_pc _ H) as Hpc.
  destruct Hstep as [conn handler s' E1 E|h|request p request' s' E|request e s' E
    |l1 p request l2 e s' _ E|l1 p l2 c r s' _ E|r E|p data r E Hr|f E|l1 p l2 s' _ E|l1 p l2 _ E
    |c r s' E|c p go s' E|p|p m|p n|p data _ E|l1 p data l2 st e s' Ew Ep E|A J t id v Ht|p| |p rest E|E].
  - unfold Start in E. destruct (ss_closed _); [done|]. injection E as <-.
    split; [by apply ok_with_handler, ok_with_writer|done].
  - by apply at_session_ok, ok_with_control.
  - pose proof (ok_open_register _ request _ Hs) as Ho. rewrite E in Ho. by split.
  - pose proof (ok_open_register _ request _ Hs) as Ho. rewrite E in Ho. by split.
  - pose proof (ok_open_send _ p request _ Hs) as Ho. rewrite E in Ho. by split.
  - split; [by eapply ok_open_wait|done].
  - by apply after_read_ok.
  - pose proof (ok_deliver _ _ _ _ _ Hs (Hpc _ _ E) Hr). by destruct r; split.
  - by split.
  - pose proof (ok_dispatch _ p _ Hs) as Ho. rewrite E in Ho. by split.
  - split; [by apply ok_forceClose|done].
  - destruct c; cbn in E; repeat case_match; simplify_eq; try done.
    apply at_session_ok; [done|]. apply ok_with_incoming; [done|].
    pose proof (ok_incoming _ _ Hs). rewrite H0 in *. cbn in *. lia.
  - destruct c; cbn in E; repeat case_match; simplify_eq; try done;
    apply at_session_ok; try done; apply ok_with_incoming; try done;
    pose proof (ok_incoming _ _ Hs); rewrite H0 in *; cbn in *; lia.
  - by apply at_session_ok, ok_Stream_Accept.
  - by apply at_session_ok, ok_Stream_Reject.
  - by apply at_session_ok, ok_Stream_Read.
  - done.
  - pose proof (ok_write_chunk _ p st.(st_id) data _ Hs) as Ho. rewrite E in Ho. by split.
  - by apply at_session_ok, ok_writeFrameJSON.
  - by apply at_session_ok, ok_Stream_Close.
  - by apply begin_shutdown_ok.
  - split; [|done]. cbn. apply (ok_forceClose_list (w_closing w)); [done| |].
    + rewrite E. intros q [<-|]; auto.
    + intros Hc. pose proof (ok_open _ _ Hs Hc) as Hn. by rewrite E in Hn.
  - by apply at_session_ok, ok_with_connClosed.
Qed.

Lemma run_ok config evs w : run (init config) evs w -> world_ok w.
Proof. induction 1; [apply init_ok|]. by eapply step_ok. Qed.

(* ------------------------------------------------------------------ *)
(** ** Streams only evolve *)

(** The bytes a stream holds for its reader. *)
Definition pipe (st : Stream) : bytes := st.(st_readBuf) ++ concat st.(st_reads).

Definition pipe_of (p : ptr) (s : Session) : bytes :=
  match stream_at p s with Some st => pipe st | None => [] end.

(** What never changes or never comes back during the life of a stream. *)
Record later (st st' : Stream) : Prop := mk_later {
  later_id : st'.(st_id) = st.(st_id);
  later_config : st'.(st_config) = st.(st_config);
  later_request : st'.(st_request) = st.(st_request);
  later_once : st.(st_closeOnce) = true -> st'.(st_closeOnce) = true;
  later_done : st.(st_done) = true -> st'.(st_done) = true;
  later_eof : st.(st_remoteEOF) = true -> st'.(st_remoteEOF) = true;
  later_local : st.(st_localEOF) = true -> st'.(st_localEOF) = true;
  later_err : forall e, st.(st_readErr) = Some e -> st'.(st_readErr) = Some e
}.

#[export] Instance later_preorder : PreOrder later.
Proof.
  split; [by intros st; split|].
  intros a b c [? ? ? ? ? ? ? ?] [? ? ? ? ? ? ? ?]. split; try congruence; auto.
Qed.

Definition ages (s s' : Session) : Prop :=
  forall p st, stream_at p s = Some st -> exists st', stream_at p s' = Some st' /\ later st st'.

(** The heap ages and no stream gains or loses a byte. *)
Definition evolves (s s' : Session) : Prop :=
  ages s s' /\ forall p, pipe_of p s' = pipe_of p s.

#[export] Instance ages_preorder : PreOrder ages.
Proof.
  split; [intros s p st Hp; exists st; by split|].
  intros a b c H1 H2 p st Hp. destruct (H1 p st Hp) as (st1 & Hp1 & L1).
  destruct (H2 p st1 Hp1) as (st2 & Hp2 & L2). exists st2. split; [done|]. by etrans.
Qed.

#[export] Instance evolves_preorder : PreOrder evolves.
Proof.
  split; [intros s; by split|]. intros a b c [A1 P1] [A2 P2]. split; [by etrans|].
  intros p. by rewrite P2, P1.
Qed.

Lemma ev_heap s s' : s'.(ss_heap) = s.(ss_heap) -> evolves s s'.
Proof.
  intros H. unfold evolves, ages, pipe_of, stream_at. rewrite H. split; [|done].
  intros p st Hp. exists st. by split.
Qed.

Lemma pipe_of_set q p st st' s : stream_at p s = Some st ->
  pipe_of q (set_stream p st' s) = if decide (p = q) then pipe st' else pipe_of q s.
Proof.
  intros Hp. unfold pipe_of. rewrite stream_at_set by (by eapply stream_at_lt).
  by case_decide.
Qed.

Lemma ages_set p st st' s :
  stream_at p s = Some st -> later st st' -> ages s (set_stream p st' s).
Proof.
  intros Hp L q st0 Hq. rewrite stream_at_set by (by eapply stream_at_lt).
  case_decide; subst; [|exists st0; by split]. rewrite Hp in Hq. injection Hq as <-. eauto.
Qed.

Lemma ev_set p st st' s :
  stream_at p s = Some st -> later st st' -> pipe st' = pipe st -> evolves s (set_stream p st' s).
Proof.
  intros Hp L Hpipe. split; [by eapply ages_set|]. intros q. rewrite (pipe_of_set _ _ st) by done.
  case_decide; [|done]. subst q. unfold pipe_of. by rewrite Hp.
Qed.

Lemma ev_alloc st s : pipe st = [] -> evolves s (alloc st s).2.
Proof.
  intros Hn. split.
  - intros p st0 Hp. exists st0. split; [|done]. unfold stream_at. cbn. by apply lookup_app_l_Some.
  - intros p. unfold pipe_of, stream_at. cbn.
    destruct (decide (p < length (ss_heap s))%nat).
    + by rewrite lookup_app_l.
    + rewrite (lookup_ge_None_2 (ss_heap s)) by lia. rewrite lookup_app_r by lia.
      by destruct (p - length (ss_heap s))%nat.
Qed.

Lemma ev_forceClose p e s : evolves s (forceClose p e s).
Proof.
  destruct (forceClose_cases p e s) as [[-> _]|(st & Hp & Hc & ->)]; [done|].
  trans (set_stream p (with_done (force_fields e st)) s); [|by apply ev_heap].
  apply (ev_set _ st); [done| |done]. split; cbn; try done. intros e'. by destruct (st_readErr st).
Qed.

Lemma ev_unregister p s : evolves s (unregister p s).
Proof. apply ev_heap, unregister_heap. Qed.

Lemma ev_removeStream p e s : evolves s (removeStream p e s).
Proof.
  unfold removeStream. destruct e; [|apply ev_unregister].
  etrans; [apply ev_unregister|apply ev_forceClose].
Qed.

Lemma ev_writeFrame f s : evolves s (writeFrame f s).2.
Proof. apply ev_heap. unfold writeFrame. by repeat case_match. Qed.

Lemma ev_writeFrameJSON {A} `{Json A} t id (v : A) s : evolves s (writeFrameJSON t id v s).2.
Proof. apply ev_heap. unfold writeFrameJSON. by repeat case_match. Qed.

Lemma ev_dispatch p s : evolves s (dispatch p s).2.
Proof. apply ev_heap. unfold dispatch. by case_match. Qed.

Lemma ev_open_register request s : evolves s (open_register request s).2.
Proof.
  destruct request as [id exit dest port proto sel]. unfold open_register.
  set (s1 := with_nextID _ s). trans s1; [by apply ev_heap|].
  match goal with |- context [alloc ?st ?s] => trans (alloc st s).2; [by apply ev_alloc|] end.
  cbn [alloc snd]. repeat case_match; cbn; by apply ev_heap.
Qed.

Lemma ev_open_send p request s : evolves s (open_send p request s).2.
Proof.
  unfold open_send. destruct (ss_writer s); [|done]. destruct (WriteJSON _ _ _ _) as [[e|] w]; cbn [snd].
  - etrans; [|apply ev_forceClose]. etrans; [|apply ev_removeStream]. by apply ev_heap.
  - by apply ev_heap.
Qed.

Lemma ev_open_wait p c s r s' : open_wait p c s = Some (r, s') -> evolves s s'.
Proof.
  unfold open_wait. destruct (stream_at p s) as [st|] eqn:E; [|done]. destruct c as [| |e|].
  - destruct (st_ack st) as [|a rest] eqn:Ea; [done|].
    assert (evolves s (set_stream p (with_ack rest st) s)) as Hev by (by apply (ev_set _ st)).
    destruct (ack_OK a); intros [= <- <-]; (etrans; [exact Hev|]).
    + apply (ev_set _ (with_ack rest st)); try done.
      rewrite stream_at_set by (by eapply stream_at_lt). by apply decide_True.
    + etrans; [apply (ev_removeStream p None)|apply ev_forceClose].
  - destruct (st_done st); [|done]. intros [= <- <-]. apply (ev_removeStream p None).
  - intros [= <- <-]. etrans; [apply (ev_removeStream p None)|apply ev_forceClose].
  - destruct (ss_done s); [|done]. by intros [= <- <-].
Qed.

Lemma ev_readLoop_step r s : evolves s (outcome_session (readLoop_step r s)).
Proof.
  destruct r as [f|e]; [|done]. cbn [readLoop_step]. unfold readLoop_frame. case_bool_decide.
  { destruct (DecodeOpen f) as [request|e]; [|by apply ev_writeFrameJSON].
    pose proof (ev_alloc (with_request request (newStream (or_RequestID request) (ss_config s))) s
      eq_refl) as Ha. destruct (alloc _ s) as [p s1]. etrans; [exact Ha|].
    destruct (ss_closed s1); [apply ev_forceClose|].
    pose proof (ev_dispatch p (with_streams (<[or_RequestID request:=p]> (ss_streams s1)) s1)) as Hd.
    destruct (dispatch _ _) as [b s2]. etrans; [|by destruct b; exact Hd]. by apply ev_heap. }
  case_bool_decide.
  { destruct (DecodeJSON f) as [ack [e|]]; [done|].
    destruct (lookup_stream _ s) as [p|]; [|done].
    destruct (stream_at p s) as [st|] eqn:E; [|done]. cbn.
    apply (ev_set _ st); [done|..]; unfold push_ack; by destruct (st_ack st). }
  case_bool_decide.
  { destruct (lookup_stream _ s) as [p|]; [by destruct (fr_Payload f)|]. apply ev_writeFrame. }
  case_bool_decide.
  { destruct (lookup_stream _ s) as [p|]; [|done]. cbn. unfold remoteClose.
    destruct (stream_at p s) as [st|] eqn:E; [|done]. destruct (st_remoteEOF st); [done|].
    by apply (ev_set _ st). }
  case_bool_decide.
  { destruct (DecodeJSON f). destruct (lookup_stream _ s) as [p|]; [apply ev_forceClose|done]. }
  by destruct (ss_control s).
Qed.

Lemma ev_write_chunk p id data s : evolves s (write_chunk p id data s).2.
Proof.
  unfold write_chunk. pose proof (ev_writeFrame (mkFrame FrameData id (take max_chunk data)) s) as Hw.
  destruct (writeFrame _ s) as [[e|] s1]; [|done]. etrans; [exact Hw|apply ev_forceClose].
Qed.

Lemma ev_write_loop fuel : forall p id data n s, evolves s (write_loop fuel p id data n s).2.
Proof.
  induction fuel as [|k IH]; intros p id data n s; [done|]. cbn [write_loop].
  destruct data as [|b data]; [done|]. pose proof (ev_write_chunk p id (b :: data) s) as Hw.
  destruct (write_chunk _ _ _ s) as [[e|] s1]; [done|]. etrans; [exact Hw|apply IH].
Qed.

Lemma ev_stream_methods p s :
  evolves s (Stream_Accept p s).2 /\ (forall m, evolves s (Stream_Reject p m s).2) /\
  (forall data, evolves s (Stream_Write p data s).2) /\ evolves s (Stream_Close p s).2.
Proof.
  unfold Stream_Accept, Stream_Reject, Stream_Write, Stream_Close, Stream_CloseWrite.
  destruct (stream_at p s) as [st|] eqn:E; [|by split_and!; try done; intros []].
  split_and!.
  - destruct (st_done st); [done|].
    pose proof (ev_writeFrameJSON FrameOpenAck (st_id st) (mkAck true "" (st_remoteExit st) "") s).
    destruct (writeFrameJSON _ _ _ s) as [[e|] s1]; [|done]. etrans; [done|apply ev_forceClose].
  - intros m.
    pose proof (ev_writeFrameJSON FrameOpenAck (st_id st) (mkAck false m "" "") s).
    destruct (writeFrameJSON _ _ _ s) as [e s1]. etrans; [done|apply ev_forceClose].
  - intros data. destruct data; [done|]. destruct (st_writeErr st), (st_closed st); try done.
    apply ev_write_loop.
  - destruct (_ || _); [done|]. etrans; [|apply ev_writeFrame]. by apply (ev_set _ st).
Qed.

(** The bytes an event puts into a stream, and the bytes it takes out. *)
Definition bytes_in (p : ptr) (e : event) : bytes :=
  match e with Delivered q data => if decide (q = p) then data else [] | _ => [] end.

Definition read_bytes (r : read_result) : bytes :=
  match r with RData data => data | _ => [] end.

Definition bytes_out (p : ptr) (e : event) : bytes :=
  match e with ReadBy q r => if decide (q = p) then read_bytes r else [] | _ => [] end.

(** [Read] takes what it returns off the front of the pipe. *)
Lemma read_loop_pipe fuel : forall n st,
  pipe st = read_bytes (read_loop fuel n st).1 ++ pipe (read_loop fuel n st).2 /\
  later st (read_loop fuel n st).2.
Proof.
  induction fuel as [|k IH]; intros n st; cbn -[take drop];
    (destruct (st_readBuf st) eqn:Eb;
      [|cbn -[take drop]; split; [unfold pipe; cbn -[take drop]; by rewrite Eb, app_assoc, take_drop
                                 |by split]]);
    (destruct (st_readErr st); [by split|]);
    (destruct (st_reads st) as [|d rest] eqn:E;
      [by destruct (st_reads_closed st), (st_done st)|]); [by split|].
  destruct (IH n (with_readBuf d (with_reads rest st))) as [H1 H2]. split.
  - rewrite <-H1. unfold pipe. cbn. by rewrite Eb, E.
  - etrans; [|exact H2]. by split.
Qed.

Lemma Stream_Read_pipe p n s :
  ages s (Stream_Read p n s).2 /\
  forall q, pipe_of q s =
    (if decide (p = q) then read_bytes (Stream_Read p n s).1 else []) ++ pipe_of q (Stream_Read p n s).2.
Proof.
  unfold Stream_Read. destruct (stream_at p s) as [st|] eqn:E.
  2:{ split; [done|]. intros q. cbn. by case_decide. }
  destruct (read_loop_pipe (length (st_reads st)) n st) as [Hp Hl].
  destruct (read_loop _ n st) as [r st']. cbn in *. split; [by eapply ages_set|].
  intros q. rewrite (pipe_of_set _ _ st) by done. case_decide; [|done]. subst q.
  unfold pipe_of. by rewrite E.
Qed.

Lemma deliver_pipe p data s r : deliver_select p data s r ->
  forall w, ages w.(w_s) s -> (forall q, pipe_of q s = pipe_of q w.(w_s)) ->
  ages w.(w_s) (after_deliver r w).(w_s) /\
  forall q, pipe_of q (after_deliver r w).(w_s) =
            pipe_of q w.(w_s) ++ bytes_in q (deliver_event p data r).
Proof.
  intros Hr w Ha Hs. destruct Hr as [st Hp Hc Hl|st Hp Hc|st Hp Hd]; cbn.
  - split; [etrans; [exact Ha|]; apply (ages_set _ st); [done|by split]|].
    intros q. rewrite (pipe_of_set _ _ st) by done. case_decide; [|by rewrite Hs, app_nil_r].
    subst q. rewrite <-Hs. unfold pipe_of. rewrite Hp. unfold pipe. cbn.
    by rewrite concat_app, app_assoc, concat_cons, app_nil_r.
  - split; [done|]. intros q. by rewrite app_nil_r.
  - destruct (ev_forceClose p ErrClosed s) as [Ha' Hp']. split; [by etrans|].
    intros q. by rewrite app_nil_r, Hp', Hs.
Qed.

Lemma begin_shutdown_heap err w : (begin_shutdown err w).(w_s).(ss_heap) = w.(w_s).(ss_heap).
Proof. unfold begin_shutdown. by destruct (ss_close (w_s w)). Qed.

Lemma ev_after_read o w : evolves w.(w_s) (outcome_session o) ->
  evolves w.(w_s) (after_read o w).(w_s).
Proof.
  destruct o; cbn; try done. intros H. etrans; [exact H|]. apply ev_heap.
  apply (begin_shutdown_heap err (at_session s w)).
Qed.

Lemma step_pipe w e w' : step w e w' ->
  ages w.(w_s) w'.(w_s) /\
  forall q, pipe_of q w.(w_s) ++ bytes_in q e = bytes_out q e ++ pipe_of q w'.(w_s).
Proof.
  intros Hstep.
  assert (evolves w.(w_s) w'.(w_s) -> (forall q, bytes_in q e = []) ->
    (forall q, bytes_out q e = []) -> ages w.(w_s) w'.(w_s) /\
    forall q, pipe_of q w.(w_s) ++ bytes_in q e = bytes_out q e ++ pipe_of q w'.(w_s)) as Hev.
  { intros [Ha Hp] Hi Ho. split; [done|]. intros q. by rewrite Hi, Ho, app_nil_r, Hp. }
  pose proof (fun p => ev_stream_methods p w.(w_s)) as Hm.
  destruct Hstep as [conn handler s' E1 E|h|request p request' s' E|request e s' E
    |l1 p request l2 e s' _ E|l1 p l2 c r s' _ E|r E|p data r E Hr|f E|l1 p l2 s' _ E|l1 p l2 _ E
    |c r s' E|c p go s' E|p|p m|p n|p data _ E|l1 p data l2 st e s' Ew Ep E|A J t id v Ht|p| |p rest E|E].
  8:{ destruct (deliver_pipe _ _ _ _ Hr w) as [Ha Hq]; [done..|]. split; [done|].
      intros q. rewrite Hq. by destruct r. }
  15:{ destruct (Stream_Read_pipe p n (w_s w)) as [Ha Hq]. split; [done|].
       intros q. cbn. rewrite app_nil_r. apply Hq. }
  all: apply Hev; [|try done; intros ?; by destruct e..];
    cbn [w_s at_session at_pc at_sending at_awaiting at_dispatching at_closing at_writing].
  - unfold Start in E. destruct (ss_closed _); [done|]. injection E as <-. by apply ev_heap.
  - by apply ev_heap.
  - pose proof (ev_open_register request (w_s w)) as Ho. by rewrite E in Ho.
  - pose proof (ev_open_register request (w_s w)) as Ho. by rewrite E in Ho.
  - pose proof (ev_open_send p request (w_s w)) as Ho. by rewrite E in Ho.
  - by eapply ev_open_wait.
  - apply ev_after_read, ev_readLoop_step.
  - done.
  - pose proof (ev_dispatch p (w_s w)) as Ho. by rewrite E in Ho.
  - apply ev_forceClose.
  - apply ev_heap. destruct c; cbn in E; repeat case_match; by simplify_eq.
  - apply ev_heap. destruct c; cbn in E; repeat case_match; by simplify_eq.
  - apply Hm.
  - apply Hm.
  - done.
  - pose proof (ev_write_chunk p st.(st_id) data (w_s w)) as Ho. by rewrite E in Ho.
  - apply ev_writeFrameJSON.
  - apply Hm.
  - apply ev_heap, begin_shutdown_heap.
  - apply ev_forceClose.
  - by apply ev_heap.
Qed.

Definition pipe_in (p : ptr) (evs : list event) : bytes := evs ≫= bytes_in p.
Definition pipe_out (p : ptr) (evs : list event) : bytes := evs ≫= bytes_out p.

Lemma run_pipe_from w0 evs w : run w0 evs w ->
  forall p, pipe_of p w0.(w_s) ++ pipe_in p evs = pipe_out p evs ++ pipe_of p w.(w_s).
Proof.
  induction 1 as [|evs w e w' Hrun IH Hp Hstep]; intros p; [by rewrite app_nil_r|].
  destruct (step_pipe _ _ _ Hstep) as [_ Hq]. specialize (IH p). specialize (Hq p).
  unfold pipe_in, pipe_out in *. rewrite !bind_app, app_assoc, IH. cbn.
  by rewrite !app_nil_r, <-!app_assoc, Hq.
Qed.

Lemma run_ages w0 evs w : run w0 evs w -> ages w0.(w_s) w.(w_s).
Proof.
  induction 1 as [|evs w e w' Hrun IH Hp Hstep]; [done|].
  destruct (step_pipe _ _ _ Hstep) as [Ha _]. by etrans.
Qed.
