(* ===== verification/SessionProps.v ===== *)
(** * Properties of the multiplexed session

    What [internal/session/session.go] promises, over the state machine of
    [SessionSteps.v]: the invariant of every reachable state, streams as byte
    pipes, the outcome of [Read], [Write] and [Open] on every branch, shutdown,
    and the two ways a stream can be harmed from outside: an ID used twice and
    data after a close frame. *)
From S2P Require Import Prelude GoIO GoStrings GoTime Codec Protocol Session SessionSteps.

(* ------------------------------------------------------------------ *)
(** ** Shutdown *)

Definition close_all (err : error) (ps : list ptr) (s : Session) : Session :=
  fold_left (fun s p => forceClose p err s) ps s.

Lemma forceClose_session p e s :
  let s' := forceClose p e s in
  s'.(ss_closed) = s.(ss_closed) /\ s'.(ss_err) = s.(ss_err) /\ s'.(ss_done) = s.(ss_done) /\
  s'.(ss_close) = s.(ss_close) /\ s'.(ss_writer) = s.(ss_writer).
Proof. by destruct (forceClose_cases p e s) as [[-> _]|(st & _ & _ & ->)]. Qed.

Lemma close_all_session e ps : forall s,
  let s' := close_all e ps s in
  s'.(ss_closed) = s.(ss_closed) /\ s'.(ss_err) = s.(ss_err) /\ s'.(ss_done) = s.(ss_done) /\
  s'.(ss_close) = s.(ss_close) /\ s'.(ss_writer) = s.(ss_writer).
Proof.
  induction ps as [|p ps IH]; intros s; [done|]. unfold close_all in *. cbn.
  destruct (IH (forceClose p e s)) as (? & ? & ? & ? & ?).
  destruct (forceClose_session p e s) as (? & ? & ? & ? & ?). cbn in *. split_and!; congruence.
Qed.

Lemma close_all_ok e ps : forall s, session_ok ps s -> session_ok [] (close_all e ps s).
Proof.
  induction ps as [|p ps IH]; intros s H; [done|]. cbn. apply IH.
  apply (ok_forceClose_list (p :: ps)); [done| |].
  - intros q [<-|]; auto.
  - intros Hc. by pose proof (ok_open _ _ H Hc).
Qed.

Lemma forceClose_other p q e s : p <> q -> stream_at q (forceClose p e s) = stream_at q s.
Proof.
  intros Hne. destruct (forceClose_cases p e s) as [[-> _]|(st & _ & _ & ->)]; [done|].
  unfold stream_at. cbn. by apply list_lookup_insert_ne.
Qed.

Lemma forceClose_self p e s st :
  stream_at p s = Some st ->
  stream_at p (forceClose p e s) =
    Some (if st.(st_closeOnce) then st else with_done (force_fields e st)).
Proof.
  intros Hp. destruct (st_closeOnce st) eqn:E.
  - unfold forceClose. by rewrite Hp, E.
  - rewrite (forceClose_eq _ _ _ _ Hp E). unfold stream_at. cbn.
    apply list_lookup_insert_eq. by eapply stream_at_lt.
Qed.

(** [close_all] closes each stream of the list once, with the given error. *)
Lemma close_all_at e ps : forall s q st, stream_at q s = Some st ->
  stream_at q (close_all e ps s) =
    Some (if bool_decide (q ∈ ps) && negb st.(st_closeOnce)
          then with_done (force_fields e st) else st).
Proof.
  induction ps as [|p ps IH]; intros s q st Hq; [done|].
  cbn [close_all fold_left]. fold (close_all e ps (forceClose p e s)).
  destruct (decide (p = q)) as [->|Hne].
  - rewrite (IH _ _ _ (forceClose_self q e s st Hq)).
    rewrite (bool_decide_true (q ∈ q :: ps)) by apply list_elem_of_here.
    destruct (st_closeOnce st) eqn:E; cbn; rewrite ?E; by rewrite ?andb_false_r.
  - rewrite (IH _ q st) by (by rewrite forceClose_other).
    erewrite (bool_decide_ext (q ∈ p :: ps) (q ∈ ps)); [done|]. rewrite elem_of_cons. split; [by intros [->|]|by right].
Qed.

Lemma session_ok_closed_empty s :
  session_ok [] s -> s.(ss_closed) = true -> s.(ss_streams) = ∅.
Proof.
  intros H Hc. apply map_eq. intros id. rewrite lookup_empty.
  destruct (ss_streams s !! id) as [p|] eqn:E; [|done]. by destruct (ok_closing _ _ H Hc _ _ E).
Qed.

(** A session with a registered stream, in the middle of a transfer. *)
Definition demo_config : Config := mkConfig 0 2.
Definition demo_sink : Sink := mkSink [] None EOF.
Definition demo_session : Session :=
  (open_register (mkOpenRequest 0 "" "h" 80 "" false)
     (with_writer (Some demo_sink) (New demo_config))).2.

Lemma demo_session_ok : session_ok [] demo_session.
Proof. apply ok_open_register, ok_with_writer, New_ok. Qed.

(** C18: shutting a session down closes every registered stream: the session is
    closed with the given error and has no streams left, each registered
    stream is done and both its directions fail with that error, a stream that
    was not registered is untouched, and a second shutdown changes nothing (the
    first error wins). *)
Theorem shutdown_closes_streams (s : Session) (err : error)
  (Hok : session_ok [] s) (Hopen : s.(ss_close) = false) :
  let s' := shutdown err s in
  s'.(ss_closed) = true /\ s'.(ss_done) = true /\ s'.(ss_err) = Some err /\
  s'.(ss_streams) = ∅ /\
  (forall id p, s.(ss_streams) !! id = Some p -> exists st',
     stream_at p s' = Some st' /\ st'.(st_done) = true /\ st'.(st_closed) = true /\
     st'.(st_readErr) = Some err /\ st'.(st_writeErr) = Some err) /\
  (forall p st, stream_at p s = Some st ->
     (forall id, s.(ss_streams) !! id <> Some p) -> stream_at p s' = Some st) /\
  forall err', shutdown err' s' = s'.
Proof.
  pose proof (ok_shutdown_begin err s Hok Hopen) as Hb. unfold shutdown at 1. rewrite Hopen.
  destruct (shutdown_begin err s) as [ps s1] eqn:Eb. injection Eb as Eps Es1.
  fold (close_all err ps s1). cbn in Hb. set (s' := close_all err ps s1).
  destruct (close_all_session err ps s1) as (Hc & He & Hd & Hcl & _).
  pose proof (close_all_ok err ps s1 Hb) as Hok'. fold s' in Hc, He, Hd, Hcl, Hok'.
  assert (forall q, stream_at q s1 = stream_at q s) as Hat by (by subst s1).
  assert (s'.(ss_closed) = true) as Hc' by (by rewrite Hc; subst s1). cbn.
  split_and!; [done|by rewrite Hd; subst s1|by rewrite He; subst s1
    |by apply session_ok_closed_empty| | |].
  - intros id p Hp. destruct (ok_streams _ _ Hok _ _ Hp) as (st & Hst & _ & Hco).
    pose proof (ok_stream _ _ _ _ Hok Hst) as Hsok.
    eexists. split; [apply (close_all_at err ps s1 p st); by rewrite Hat|].
    rewrite bool_decide_true, Hco; cbn.
    + pose proof (proj2 (sok_err _ Hsok) Hco) as Hr. by rewrite (sok_werr _ Hsok), Hr.
    + subst ps. apply (list_elem_of_fmap_2 snd _ (id, p)). by apply elem_of_map_to_list.
  - intros p st Hp Hn. unfold s'. rewrite (close_all_at err ps s1 p st) by (by rewrite Hat).
    rewrite bool_decide_false; [done|]. subst ps. intros Hin.
    apply list_elem_of_fmap in Hin as ([id q] & -> & Hin). apply elem_of_map_to_list in Hin.
    by apply (Hn id).
  - intros err'. unfold shutdown. by rewrite Hcl; subst s1.
Qed.

Lemma shutdown_closes_streams_witness :
  (shutdown ErrClosed demo_session).(ss_closed) = true.
Proof. by apply (shutdown_closes_streams demo_session ErrClosed demo_session_ok). Defined.

(* ------------------------------------------------------------------ *)
(** ** Reachable states *)

(** C1: in every state a session can reach, whatever the peer sends and
    however its goroutines interleave: a registered stream is open and is
    registered under its own ID; a stream's [closed], [done] and error fields
    agree, and its queue is closed exactly when [remoteEOF] is set; no channel
    exceeds its capacity; the session's [closed], [done] and [err] agree; and once the
    session is closed, only streams that the shutdown is about to close are
    still registered. *)
Theorem session_invariant (config : Config) (evs : list event) (w : World)
  (Hrun : run (init config) evs w) : world_ok w.
Proof. by eapply run_ok. Qed.

Definition demo_start : World :=
  at_pc Reading (at_session (with_handler true (with_writer (Some demo_sink) (New demo_config)))
    (init demo_config)).

Lemma demo_run_start : run (init demo_config) [Internal] demo_start.
Proof.
  apply (run_snoc _ [] (init demo_config) Internal demo_start); [constructor|done|].
  by apply (step_start (init demo_config) demo_sink true).
Defined.

Lemma session_invariant_witness : world_ok demo_start.
Proof. apply (session_invariant demo_config [Internal] demo_start demo_run_start). Defined.

(** A stream is a byte pipe: along every execution, the bytes the read
    loop delivered to it are, in order, the bytes its reader has taken followed
    by the bytes it still holds; nothing is lost, duplicated or reordered, and
    no other stream's bytes get in. *)
Theorem stream_is_pipe (config : Config) (evs : list event) (w : World) (p : ptr) (st : Stream)
  (Hrun : run (init config) evs w) (Hp : stream_at p w.(w_s) = Some st) :
  pipe_in p evs = pipe_out p evs ++ st.(st_readBuf) ++ concat st.(st_reads).
Proof.
  pose proof (run_pipe_from _ _ _ Hrun p) as H. unfold pipe_of in H. by rewrite Hp in H.
Qed.

Definition demo_opened : World :=
  let '(p, r, s) := match open_register (mkOpenRequest 0 "" "h" 80 "" false) demo_start.(w_s) with
    | (Ok (p, r), s) => (p, r, s) | (Err _, s) => (0%nat, zero_request, s) end in
  at_sending [(p, r)] (at_session s demo_start).

Definition demo_data : result Frame := Ok (mkFrame FrameData 1 [x61; x62]).
Definition demo_delivering : World :=
  after_read (readLoop_step demo_data demo_opened.(w_s)) demo_opened.
Definition demo_delivered : World :=
  match stream_at 0 demo_delivering.(w_s) with
  | Some st => after_deliver
      (Sent (set_stream 0 (with_reads (st_reads st ++ [[x61; x62]]) st) demo_delivering.(w_s)))
      demo_delivering
  | None => demo_delivering
  end.
Definition demo_stream : Stream :=
  default (newStream 0 demo_config) (stream_at 0 demo_delivered.(w_s)).
Definition demo_events : list event :=
  [Internal; Internal; Received demo_data; Delivered 0 [x61; x62]].

Lemma demo_run_opened : run (init demo_config) [Internal; Internal] demo_opened.
Proof.
  apply (run_snoc _ [Internal] demo_start Internal demo_opened); [apply demo_run_start|done|].
  by apply (step_open demo_start (mkOpenRequest 0 "" "h" 80 "" false) 0
    (mkOpenRequest 1 "" "h" 80 "tcp" false)).
Defined.

Lemma demo_run_data w0 evs : run w0 evs demo_opened ->
  run w0 ((evs ++ [Received demo_data]) ++ [Delivered 0 [x61; x62]]) demo_delivered.
Proof.
  intros H. apply (run_snoc _ _ demo_delivering (Delivered 0 [x61; x62])); [|done|].
  - apply (run_snoc _ _ demo_opened); [exact H|done|]. by apply step_read.
  - refine (step_deliver demo_delivering 0 [x61; x62] (Sent _) _ _); [done|].
    by eapply deliver_send; [reflexivity|reflexivity|vm_compute; lia].
Defined.

Lemma stream_is_pipe_witness :
  pipe_in 0 demo_events =
  pipe_out 0 demo_events ++ st_readBuf demo_stream ++ concat (st_reads demo_stream).
Proof.
  apply (stream_is_pipe demo_config demo_events demo_delivered 0 demo_stream); [|reflexivity].
  apply (demo_run_data _ [Internal; Internal] demo_run_opened).
Defined.

(** Nothing about a stream is ever taken back: along every execution a
    stream keeps its ID, its configuration and its request, once closed it
    stays closed, a close received or sent stays so, and the first error a
    stream fails with is the one it keeps. *)
Theorem stream_irreversible (w0 : World) (evs : list event) (w : World) (p : ptr) (st : Stream)
  (Hrun : run w0 evs w) (Hp : stream_at p w0.(w_s) = Some st) :
  exists st', stream_at p w.(w_s) = Some st' /\
    st'.(st_id) = st.(st_id) /\ st'.(st_config) = st.(st_config) /\
    st'.(st_request) = st.(st_request) /\
    (st.(st_done) = true -> st'.(st_done) = true) /\
    (st.(st_remoteEOF) = true -> st'.(st_remoteEOF) = true) /\
    (st.(st_localEOF) = true -> st'.(st_localEOF) = true) /\
    forall e, st.(st_readErr) = Some e -> st'.(st_readErr) = Some e.
Proof.
  destruct (run_ages _ _ _ Hrun p st Hp) as (st' & Hp' & [? ? ? ? ? ? ? ?]).
  exists st'. by split_and!.
Qed.

Lemma stream_irreversible_witness : exists st', stream_at 0 demo_delivered.(w_s) = Some st' /\
    st'.(st_id) = 1.
Proof.
  destruct (stream_irreversible demo_opened _ demo_delivered 0
    (newStream 1 demo_opened.(w_s).(ss_config)) (demo_run_data _ [] (run_nil _)) eq_refl) as (st' & H & Hid & _). exists st'. split; [exact H|exact Hid].
Defined.

(* ------------------------------------------------------------------ *)
(** ** Reading *)

Lemma read_loop_buffered fuel n st b buf :
  st.(st_readBuf) = b :: buf ->
  read_loop fuel n st =
  (RData (take n st.(st_readBuf)), with_readBuf (drop n st.(st_readBuf)) st).
Proof. intros E. destruct fuel; cbn -[take drop]; by rewrite E. Qed.

(** The outcome of [Read] with a buffer of [n] bytes on every branch:
    buffered bytes come first; then a closed stream reports its error; then
    the next chunk of the queue is taken and as much of it returned as fits; an
    empty queue is io.EOF when the peer has closed and blocks otherwise. *)
Theorem Stream_Read_spec (cl : list ptr) (s : Session) (p : ptr) (st : Stream) (n : nat)
  (Hok : session_ok cl s) (Hp : stream_at p s = Some st) :
  (Stream_Read p n s).1 =
  match st.(st_readBuf), st.(st_readErr), st.(st_reads) with
  | _ :: _, _, _ => RData (take n st.(st_readBuf))
  | [], Some e, _ => RError e
  | [], None, data :: _ => RData (take n data)
  | [], None, [] => if st.(st_remoteEOF) then RError EOF else RBlocked
  end /\
  (st.(st_readErr) = None <-> st.(st_done) = false) /\
  (forall data, In data st.(st_reads) -> data <> []).
Proof.
  pose proof (ok_stream _ _ _ _ Hok Hp) as [H1 H2 H3 H4 H5 H6 H7 H8 H9].
  split_and!; [|by rewrite H2|by rewrite Forall_forall in H9; setoid_rewrite list_elem_of_In in H9].
  unfold Stream_Read. rewrite Hp. destruct (st_readBuf st) as [|b buf] eqn:Eb.
  2:{ by rewrite (read_loop_buffered _ _ _ b buf), Eb. }
  destruct (st_reads st) as [|d rest] eqn:Er; cbn [length read_loop]; rewrite Eb.
  - destruct (st_readErr st) eqn:Ee; [done|]. rewrite Er, H3.
    destruct (st_remoteEOF st) eqn:Ef; [done|]. rewrite H2.
    destruct (st_closeOnce st); [|done]. by specialize (H4 eq_refl).
  - destruct (st_readErr st) eqn:Ee; [done|]. rewrite Er.
    apply Forall_cons in H9 as [Hd _]. destruct d as [|b d]; [done|].
    by rewrite (read_loop_buffered _ _ _ b d).
Qed.

Lemma Stream_Read_spec_witness :
  (Stream_Read 0 1 demo_delivered.(w_s)).1 = RData [x61].
Proof.
  apply (Stream_Read_spec [] demo_delivered.(w_s) 0 demo_stream 1); [|reflexivity].
  apply (wok_session demo_delivered). eapply run_ok.
  apply (demo_run_data _ [Internal; Internal] demo_run_opened).
Defined.

(* ------------------------------------------------------------------ *)
(** ** Writing *)

(** The chunks [Write] cuts its argument into. *)
Fixpoint chunks (fuel : nat) (data : bytes) : list bytes :=
  match fuel, data with
  | S k, _ :: _ => take max_chunk data :: chunks k (drop max_chunk data)
  | _, _ => []
  end.

Definition data_frames (id : Z) (data : bytes) : list Frame :=
  map (mkFrame FrameData id) (chunks (length data) data).

Lemma max_chunk_pos : (0 < max_chunk)%nat.
Proof. unfold max_chunk. change MaxDataSize with 65536. lia. Qed.

Lemma max_chunk_Z : Z.of_nat max_chunk = MaxDataSize.
Proof. apply Z2Nat.id. done. Qed.

Lemma max_chunk_le : Z.of_nat max_chunk <= MaxFrameSize.
Proof. unfold max_chunk. rewrite Z2Nat.id; done. Qed.

#[local] Opaque max_chunk.

Lemma chunks_spec fuel : forall data, (length data <= fuel)%nat ->
  concat (chunks fuel data) = data /\
  Forall (fun c => 0 < length c <= max_chunk)%nat (chunks fuel data).
Proof.
  pose proof max_chunk_pos as Hm.
  induction fuel as [|k IH]; intros [|b data] Hl; try done; [cbn in Hl; lia|].
  cbn [chunks]. destruct (IH (drop max_chunk (b :: data))) as [H1 H2].
  { rewrite length_drop. cbn [length] in *. lia. }
  rewrite concat_cons, H1, take_drop. split; [done|]. apply Forall_cons. split; [|done].
  rewrite length_take. cbn [length]. lia.
Qed.

Lemma data_frames_ok id data : 0 <= id < 2 ^ 64 -> Forall frame_ok (data_frames id data).
Proof.
  intros Hid. unfold data_frames. destruct (chunks_spec (length data) data) as [_ H]; [done|].
  induction H as [|c l Hc _ IH]; [done|]. cbn. apply Forall_cons. split; [|done].
  split; [done|]. cbn [fr_Payload]. pose proof max_chunk_le. lia.
Qed.

Lemma writeFrame_room s k f :
  s.(ss_done) = false -> s.(ss_closed) = false -> s.(ss_writer) = Some k ->
  frame_ok f -> has_room k (length (frame_bytes f)) ->
  writeFrame f s = (None, with_writer (Some (sink_append k (frame_bytes f))) s).
Proof.
  intros H1 H2 H3 [_ H4] H5. unfold writeFrame. rewrite H1, H2, H3. unfold Writer_Write.
  by rewrite WriteFrame_room.
Qed.

Lemma write_loop_room fuel : forall p id data n s k,
  (length data <= fuel)%nat -> 0 <= id < 2 ^ 64 ->
  s.(ss_done) = false -> s.(ss_closed) = false -> s.(ss_writer) = Some k ->
  let out := concat (map frame_bytes (map (mkFrame FrameData id) (chunks fuel data))) in
  has_room k (length out) ->
  write_loop fuel p id data n s =
    ((n + length data)%nat, None, with_writer (Some (sink_append k out)) s).
Proof.
  pose proof max_chunk_pos as Hm.
  induction fuel as [|j IH]; intros p id [|b data] n s k Hl Hid Hd Hc Hw out Hr; subst out.
  1,3: cbn; rewrite sink_append_nil, Nat.add_0_r; by destruct s; cbn in *; subst.
  { cbn in Hl. lia. }
  cbn [chunks write_loop map concat] in *. unfold write_chunk. rewrite length_app in Hr.
  apply has_room_app in Hr as [Hr1 Hr2]. set (c := take max_chunk (b :: data)) in *.
  assert (length c <= max_chunk)%nat by (unfold c; rewrite length_take; lia).
  assert (frame_ok (mkFrame FrameData id c)).
  { split; [done|]. cbn [fr_Payload]. pose proof max_chunk_le. lia. }
  rewrite (writeFrame_room s k) by done.
  rewrite IH with (k := sink_append k (frame_bytes (mkFrame FrameData id c))); try done.
  - rewrite sink_append_app. f_equal. f_equal. rewrite <-Nat.add_assoc, <-length_app.
    unfold c. by rewrite take_drop.
  - rewrite length_drop. cbn [length] in *. lia.
Qed.

Lemma write_loop_result fuel : forall p id data n s m e s',
  (length data <= fuel)%nat -> write_loop fuel p id data n s = (m, e, s') ->
  (n <= m <= n + length data)%nat /\
  match e with
  | None => m = (n + length data)%nat
  | Some e => forall st, stream_at p s = Some st ->
      exists st', stream_at p s' = Some st' /\ st_closeOnce st' = true
  end.
Proof.
  pose proof max_chunk_pos as Hm.
  induction fuel as [|j IH]; intros p id [|b data] n s m e s' Hl E; cbn [write_loop] in E.
  1,3: injection E as <- <- <-; cbn; lia.
  { cbn in Hl. lia. }
  unfold write_chunk in E.
  pose proof (ev_writeFrame (mkFrame FrameData id (take max_chunk (b :: data))) s) as [Hev _].
  destruct (writeFrame _ s) as [[err|] s1].
  - injection E as <- <- <-. split; [lia|]. intros st Hst.
    destruct (Hev p st Hst) as (st1 & H1 & _). rewrite (forceClose_self _ _ _ _ H1).
    eexists. split; [done|]. by destruct (st_closeOnce st1) eqn:?.
  - apply IH in E as [E1 E2]; [|rewrite length_drop; cbn [length] in *; lia].
    rewrite length_take, length_drop in *. split; [lia|]. destruct e as [e|]; [|lia].
    intros st Hst. destruct (Hev p st Hst) as (st1 & H1 & L1). by apply (E2 st1).
Qed.

(** [Write] reports how far it got: at most the length of its argument,
    exactly that without an error; with one, the stream is closed and every
    later [Write] fails without sending anything. *)
Theorem Stream_Write_result (cl : list ptr) (s : Session) (p : ptr) (st : Stream) (data : bytes)
  (n : nat) (e : option error) (s' : Session)
  (Hok : session_ok cl s) (Hp : stream_at p s = Some st)
  (Hw : Stream_Write p data s = (n, e, s')) :
  (n <= length data)%nat /\
  (e = None -> n = length data) /\
  (e <> None -> exists st' err, stream_at p s' = Some st' /\ st'.(st_done) = true /\
     st'.(st_writeErr) = Some err /\
     forall more, more <> [] -> Stream_Write p more s' = (0%nat, Some err, s')).
Proof.
  pose proof (ok_Stream_Write cl p data s Hok) as Hok'. rewrite Hw in Hok'. cbn in Hok'.
  assert ((n <= length data)%nat /\ (e = None -> n = length data) /\
    (e <> None -> exists st', stream_at p s' = Some st' /\ st_closeOnce st' = true)) as (H1 & H2 & H3).
  { pose proof (ok_stream _ _ _ _ Hok Hp) as Hst. unfold Stream_Write in Hw.
    destruct data as [|b data]; [by injection Hw as <- <- <-|]. rewrite Hp in Hw.
    destruct (st_writeErr st) eqn:Ee.
    { injection Hw as <- <- <-. split_and!; [lia|done|]. intros _. exists st. split; [done|].
      destruct (st_closeOnce st) eqn:E; [done|]. apply (sok_err _ Hst) in E.
      by rewrite <-(sok_werr _ Hst), Ee in E. }
    destruct (st_closed st) eqn:Ec.
    { injection Hw as <- <- <-. split_and!; [lia|done|]. intros _. exists st. split; [done|].
      by rewrite <-(sok_closed _ Hst). }
    apply write_loop_result in Hw as [Hn Hr]; [|done]. split_and!; [lia| |].
    - by intros ->.
    - destruct e; [|done]. intros _. by apply (Hr st). }
  split_and!; [done..|]. intros He. destruct (H3 He) as (st' & Hst' & Hco).
  pose proof (ok_stream _ _ _ _ Hok' Hst') as Hs'.
  destruct (st_readErr st') as [err|] eqn:Er.
  2:{ apply (sok_err _ Hs') in Er. congruence. }
  exists st', err. split_and!; [done|by rewrite (sok_done _ Hs')|by rewrite (sok_werr _ Hs')|].
  intros more Hm. unfold Stream_Write. destruct more; [done|].
  by rewrite Hst', (sok_werr _ Hs'), Er.
Qed.

Definition demo_full : Session := with_writer (Some (mkSink [] (Some 5%nat) EOF)) demo_session.

Lemma Stream_Write_result_witness :
  exists st' err, stream_at 0 (Stream_Write 0 [x61] demo_full).2 = Some st' /\
    st'.(st_done) = true /\ st'.(st_writeErr) = Some err /\
    forall more, more <> [] ->
      Stream_Write 0 more (Stream_Write 0 [x61] demo_full).2 =
      (0%nat, Some err, (Stream_Write 0 [x61] demo_full).2).
Proof.
  destruct (Stream_Write_result [] demo_full 0 (newStream 1 demo_full.(ss_config)) [x61]
    0 (Some EOF) (Stream_Write 0 [x61] demo_full).2
    (ok_with_writer _ _ _ demo_session_ok)) as (_ & _ & H).
  - reflexivity.
  - vm_compute. reflexivity.
  - apply H. discriminate.
Defined.

(* ------------------------------------------------------------------ *)
(** ** From writer to reader *)

(** The events of a read loop that receives data frames and delivers them. *)
Definition data_events (p : ptr) (fs : list Frame) : list event :=
  fs ≫= fun f => [Received (Ok f); Delivered p f.(fr_Payload)].

Lemma run_trans w0 evs w : run w0 evs w -> forall evs' w', run w evs' w' -> run w0 (evs ++ evs') w'.
Proof.
  intros H evs' w' H'. induction H' as [|evs' w1 e w2 H1 IH Hp Hs]; [by rewrite app_nil_r|].
  rewrite app_assoc. by eapply run_snoc.
Qed.

(** A peer stream that takes data. *)
Record receptive (w : World) (id : Z) (p : ptr) (room : nat) : Prop := {
  rcv_pc : w.(w_pc) = Reading;
  rcv_live : w.(w_panicked) = false;
  rcv_id : w.(w_s).(ss_streams) !! id = Some p;
  rcv_room : exists st, stream_at p w.(w_s) = Some st /\ st.(st_reads_closed) = false /\
    (length st.(st_reads) + room <= buffer_cap st)%nat
}.

Lemma receive_data w id p room f :
  receptive w id p (S room) -> f.(fr_Type) = FrameData -> f.(fr_ID) = id -> f.(fr_Payload) <> [] ->
  exists w', run w [Received (Ok f); Delivered p f.(fr_Payload)] w' /\ receptive w' id p room.
Proof.
  intros [Hpc Hl Hid (st & Hst & Hc & Hr)] Ht <- Hne.
  assert (readLoop_step (Ok f) w.(w_s) = Deliver p f.(fr_Payload) w.(w_s)) as Hstep.
  { cbn. unfold readLoop_frame, lookup_stream. rewrite Ht, Hid. cbn.
    by destruct (fr_Payload f) eqn:?. }
  set (st' := with_reads (st_reads st ++ [fr_Payload f]) st).
  exists (at_pc Reading (at_session (set_stream p st' w.(w_s)) (at_pc (Delivering p f.(fr_Payload)) w))).
  split.
  - apply (run_snoc _ [Received (Ok f)] (at_pc (Delivering p f.(fr_Payload)) (at_session w.(w_s) w)));
      [apply (run_snoc _ [] w); [constructor|done|]|done|].
    + pose proof (step_read w (Ok f) Hpc) as Hs. by rewrite Hstep in Hs.
    + refine (step_deliver (at_pc (Delivering p f.(fr_Payload)) (at_session w.(w_s) w)) p
        (fr_Payload f) (Sent _) eq_refl _).
      apply (deliver_send p (fr_Payload f) (w_s w) st); [done|done|lia].
  - split; [done|done|done|]. exists st'. split_and!; [|done|].
    + cbn. rewrite stream_at_set by (by eapply stream_at_lt). by apply decide_True.
    + unfold st', buffer_cap in *. cbn. rewrite length_app. cbn. lia.
Qed.

Lemma receive_frames id p fs : forall w,
  Forall (fun f => f.(fr_Type) = FrameData /\ f.(fr_ID) = id /\ f.(fr_Payload) <> []) fs ->
  receptive w id p (length fs) -> exists w', run w (data_events p fs) w'.
Proof.
  induction fs as [|f fs IH]; intros w Hfs Hw; [exists w; constructor|].
  apply Forall_cons in Hfs as [(Ht & Hi & Hp) Hfs].
  destruct (receive_data _ _ _ _ _ Hw Ht Hi Hp) as (w1 & Hr1 & Hw1).
  destruct (IH w1 Hfs Hw1) as (w2 & Hr2). exists w2.
  apply (run_trans _ _ _ Hr1 (data_events p fs) w2 Hr2).
Qed.

Lemma pipe_in_data p fs :
  pipe_in p (data_events p fs) = concat (map fr_Payload fs) /\ pipe_out p (data_events p fs) = [].
Proof.
  induction fs as [|f fs [IH1 IH2]]; [done|]. unfold data_events, pipe_in, pipe_out in *. cbn in *.
  rewrite IH1, IH2, decide_True by done. by rewrite ?app_nil_r.
Qed.

Lemma data_frames_data id data :
  Forall (fun f => f.(fr_Type) = FrameData /\ f.(fr_ID) = id /\ f.(fr_Payload) <> [])
    (data_frames id data) /\ concat (map fr_Payload (data_frames id data)) = data.
Proof.
  unfold data_frames. destruct (chunks_spec (length data) data) as [Hc Hf]; [done|]. split.
  - clear Hc. induction Hf as [|c l Hc _ IH]; [done|]. cbn. apply Forall_cons. split; [|done].
    split_and!; try done. cbn. intros ->. cbn in Hc. lia.
  - rewrite map_map. cbn. by rewrite map_id.
Qed.

(** C7: what is written on one side arrives on the other: when the connection
    has room, [Write] sends its whole argument as data frames of 1 to 65536
    bytes; [ReadFrame] on the bytes sent gives those frames back; and the peer's
    read loop, when the stream with that ID has room in its queue, can deliver
    all of them, after which that stream holds exactly the written bytes after
    what it held before. *)
Theorem written_bytes_arrive (s : Session) (p : ptr) (st : Stream) (data : bytes) (k : Sink)
  (w : World) (q : ptr) (e : error)
  (Hst : stream_at p s = Some st) (Hlive : st.(st_writeErr) = None /\ st.(st_closed) = false)
  (Hid : 0 <= st.(st_id) < 2 ^ 64)
  (Hsess : s.(ss_done) = false /\ s.(ss_closed) = false) (Hk : s.(ss_writer) = Some k)
  (Hroom : has_room k (length (concat (map frame_bytes (data_frames st.(st_id) data)))))
  (Hpeer : receptive w st.(st_id) q (length (data_frames st.(st_id) data))) :
  exists stream s' frames w',
    Stream_Write p data s = (length data, None, s') /\
    s'.(ss_writer) = Some (sink_append k stream) /\
    read_frames (S (length frames)) (mkReader stream e) = (frames, Some e) /\
    Forall (fun f => 0 < Z.of_nat (length f.(fr_Payload)) <= MaxDataSize) frames /\
    run w (data_events q frames) w' /\
    pipe_of q w'.(w_s) = pipe_of q w.(w_s) ++ data.
Proof.
  set (fs := data_frames st.(st_id) data) in *. set (stream := concat (map frame_bytes fs)) in *.
  destruct (data_frames_data st.(st_id) data) as [Hfs Hdata]. fold fs in Hfs, Hdata.
  destruct (receive_frames _ _ _ _ Hfs Hpeer) as (w' & Hrun).
  exists stream, (with_writer (Some (sink_append k stream)) s), fs, w'. split_and!; [|done| | |done|].
  - destruct Hlive as [Hl1 Hl2], Hsess as [Hs1 Hs2]. unfold Stream_Write. destruct data as [|b data].
    { unfold stream, fs. cbn. rewrite sink_append_nil. destruct s. cbn in *. by subst. }
    rewrite Hst, Hl1, Hl2. by rewrite (write_loop_room (length (b :: data)) p _ _ 0 s k).
  - apply read_frames_frames. by apply data_frames_ok.
  - unfold fs, data_frames. destruct (chunks_spec (length data) data) as [_ Hc]; [done|].
    apply Forall_map. eapply Forall_impl; [exact Hc|]. cbn. intros c Hl.
    pose proof max_chunk_Z. lia.
  - pose proof (run_pipe_from _ _ _ Hrun q) as Hp. destruct (pipe_in_data q fs) as [Hi Ho].
    rewrite Hi, Ho, Hdata in Hp. by rewrite Hp.
Qed.

Lemma written_bytes_arrive_witness :
  exists stream s' frames w',
    Stream_Write 0 [x68; x69] demo_session = (2%nat, None, s') /\
    s'.(ss_writer) = Some (sink_append demo_sink stream) /\
    read_frames (S (length frames)) (mkReader stream EOF) = (frames, Some EOF) /\
    Forall (fun f => 0 < Z.of_nat (length f.(fr_Payload)) <= MaxDataSize) frames /\
    run demo_delivered (data_events 0 frames) w' /\
    pipe_of 0 w'.(w_s) = [x61; x62; x68; x69].
Proof.
  apply (written_bytes_arrive demo_session 0 (newStream 1 demo_session.(ss_config)) [x68; x69]
    demo_sink demo_delivered 0 EOF); try (split; reflexivity); try reflexivity.
  - cbn. lia.
  - split; [reflexivity..|]. exists demo_stream. split_and!; [reflexivity|reflexivity|].
    vm_compute. lia.
Defined.

(* ------------------------------------------------------------------ *)
(** ** Opening *)

(** How [Open] can end once its frame is sent.  A positive
    acknowledgement returns the stream, tagged with the exit the peer named,
    still open and registered; in every other case an error is returned and the
    stream is closed and no longer registered (when the session is done, its
    shutdown closes it).  A refusal carries the peer's message. *)
Theorem open_wait_outcome (cl : list ptr) (s : Session) (p : ptr) (st : Stream) (c : open_choice)
  (r : result ptr) (s' : Session)
  (Hok : session_ok cl s) (Hp : stream_at p s = Some st) (Hw : open_wait p c s = Some (r, s')) :
  exists st', stream_at p s' = Some st' /\
  match c with
  | OnAck => exists ack rest, st.(st_ack) = ack :: rest /\
      if ack.(ack_OK)
      then r = Ok p /\ st'.(st_remoteExit) = ack.(ack_ExitID) /\
           st'.(st_done) = st.(st_done) /\ s'.(ss_streams) = s.(ss_streams)
      else r = Err (ENew (if empty_string ack.(ack_Error) then "exit rejected connection"%string
                          else ack.(ack_Error))) /\
           st'.(st_done) = true /\ forall id, s'.(ss_streams) !! id <> Some p
  | OnStreamDone => st.(st_done) = true /\
      (exists e, st.(st_readErr) = Some e /\ r = Err e) /\
      forall id, s'.(ss_streams) !! id <> Some p
  | OnContext e => r = Err e /\ st'.(st_done) = true /\ forall id, s'.(ss_streams) !! id <> Some p
  | OnSessionDone => s.(ss_done) = true /\ r = Err (or_error s.(ss_err) ErrClosed) /\ s' = s /\
      forall id, s'.(ss_streams) !! id = Some p -> In p cl
  end.
Proof.
  pose proof (ok_open_wait _ _ _ _ _ _ Hok Hw) as Hok'.
  destruct (ev_open_wait _ _ _ _ _ Hw) as [Hages _].
  destruct (Hages _ _ Hp) as (st' & Hst' & _). exists st'. split; [done|].
  pose proof (ok_stream _ _ _ _ Hok Hp) as Hst. pose proof (ok_stream _ _ _ _ Hok' Hst') as Hs'.
  assert (st_closeOnce st' = true -> st_done st' = true /\ forall id, ss_streams s' !! id <> Some p)
    as Hclosed.
  { intros Hc. rewrite (sok_done _ Hs'). split; [done|]. intros id Hid.
    destruct (ok_streams _ _ Hok' _ _ Hid) as (st0 & H0 & _ & ?). congruence. }
  assert (forall e s0 st0, s' = forceClose p e s0 -> stream_at p s0 = Some st0 ->
    st_closeOnce st' = true) as Hforce.
  { intros e s0 st0 -> H0. rewrite (forceClose_self _ _ _ _ H0) in Hst'. injection Hst' as <-.
    by destruct (st_closeOnce st0) eqn:?. }
  unfold open_wait in Hw. rewrite Hp in Hw. destruct c as [| |e|].
  - destruct (st_ack st) as [|ack rest] eqn:Ea; [done|]. exists ack, rest. split; [done|].
    pose proof (stream_at_lt _ _ _ Hp) as Hlt.
    destruct (ack_OK ack); injection Hw as <- Hw.
    + rewrite <-Hw in Hst'. unfold stream_at in Hst'. cbn in Hst'.
      rewrite list_lookup_insert_eq in Hst' by (by rewrite length_insert). injection Hst' as <-.
      by rewrite <-Hw.
    + split; [done|]. apply Hclosed.
      eapply (Hforce _ _ (with_ack rest st)); [by symmetry|].
      unfold removeStream, stream_at. rewrite unregister_heap. cbn. by apply list_lookup_insert_eq.
  - destruct (st_done st) eqn:Ed; [|done]. injection Hw as <- <-. split; [done|].
    pose proof (sok_done _ Hst) as Hco. rewrite Ed in Hco.
    assert (st' = st) as ->.
    { unfold removeStream, stream_at in Hst'. rewrite unregister_heap in Hst'.
      unfold stream_at in Hp. congruence. }
    split; [|by apply Hclosed]. unfold Stream_Err.
    destruct (st_readErr st) eqn:Er; [by eauto|]. apply (sok_err _ Hst) in Er. congruence.
  - injection Hw as <- Hw. split; [done|]. apply Hclosed. eapply (Hforce e _ st); [by symmetry|].
    unfold removeStream, stream_at. by rewrite unregister_heap.
  - destruct (ss_done s) eqn:Ed; [|done]. injection Hw as <- <-. split_and!; try done.
    intros id. apply (ok_closing _ _ Hok). by rewrite <-(ok_done _ _ Hok).
Qed.

Definition demo_refused : Session :=
  set_stream 0 (push_ack (mkAck false "no route" "" "") (newStream 1 demo_session.(ss_config)))
    demo_session.

Lemma open_wait_outcome_witness :
  session_ok [] demo_refused /\
  exists r s', open_wait 0 OnAck demo_refused = Some (r, s') /\ r = Err (ENew "no route") /\
    forall id, s'.(ss_streams) !! id <> Some 0%nat.
Proof.
  assert (session_ok [] demo_refused) as H.
  { apply (ok_set_stream _ _ _ (newStream 1 demo_session.(ss_config)) _ demo_session_ok);
      [reflexivity| |reflexivity|reflexivity]. apply push_ack_ok, newStream_ok. }
  split; [exact H|]. eexists _, _. split; [reflexivity|].
  destruct (open_wait_outcome [] demo_refused 0
    (push_ack (mkAck false "no route" "" "") (newStream 1 demo_session.(ss_config))) OnAck _ _ H
    eq_refl eq_refl) as (st' & _ & ack & rest & Ha & Hr).
  injection Ha as <- <-. destruct Hr as (Hr & _ & Hn). split; [exact Hr|exact Hn].
Defined.

(* ------------------------------------------------------------------ *)
(** ** How a stream leaves the session *)

Definition closed_at (p : ptr) (s : Session) : Prop :=
  exists st, stream_at p s = Some st /\ st.(st_closeOnce) = true.

(** No stream is dropped from the map while it is open. *)
Definition kept (s s' : Session) : Prop :=
  forall id p, s.(ss_streams) !! id = Some p ->
    s'.(ss_streams) !! id = Some p \/ closed_at p s'.

Lemma kept_same s s' : s'.(ss_streams) = s.(ss_streams) -> kept s s'.
Proof. intros H id p. rewrite H. auto. Qed.

Lemma kept_trans s1 s2 s3 : kept s1 s2 -> kept s2 s3 -> evolves s2 s3 -> kept s1 s3.
Proof.
  intros H1 H2 [Ha _] id p Hp. destruct (H1 _ _ Hp) as [H|(st & Hst & Hc)]; [by apply H2|].
  right. destruct (Ha _ _ Hst) as (st' & Hst' & L). exists st'. split; [done|].
  by apply (later_once _ _ L).
Qed.

Lemma forceClose_closed_at p e s st : stream_at p s = Some st -> closed_at p (forceClose p e s).
Proof.
  intros H. eexists. split; [by apply forceClose_self|]. by destruct (st_closeOnce st) eqn:?.
Qed.

Lemma kept_forceClose p e s : kept s (forceClose p e s).
Proof.
  destruct (forceClose_cases p e s) as [[-> _]|(st & Hst & _ & Heq)]; [by apply kept_same|].
  intros id q Hq. destruct (decide (q = p)) as [->|Hne].
  - right. by eapply forceClose_closed_at.
  - left. rewrite Heq. cbn. unfold force_streams. case_bool_decide as Ed; [|done].
    rewrite lookup_delete_ne; [done|]. intros <-. congruence.
Qed.

(** [removeStream] followed by a close, and [removeStream] of a closed stream. *)
Lemma kept_unregister_closed p s s' st : stream_at p s = Some st ->
  (s' = unregister p s /\ st.(st_closeOnce) = true \/
   exists e, s' = forceClose p e (unregister p s)) -> kept s s'.
Proof.
  intros Hst Hcase id q Hq.
  assert (stream_at p (unregister p s) = Some st) as Hst1.
  { unfold stream_at. by rewrite unregister_heap. }
  assert (closed_at p s') as Hc.
  { destruct Hcase as [[-> Hc]|[e ->]]; [by exists st|by eapply forceClose_closed_at]. }
  destruct (decide (q = p)) as [->|Hne]; [by right|].
  assert ((unregister p s).(ss_streams) !! id = Some q) as H1.
  { unfold unregister. rewrite Hst. case_bool_decide as Ed; [|done]. cbn.
    rewrite lookup_delete_ne; [done|]. intros <-. congruence. }
  destruct Hcase as [[-> _]|[e ->]]; [by left|]. by apply kept_forceClose.
Qed.

Lemma kept_writeFrame f s : kept s (writeFrame f s).2.
Proof. apply kept_same. unfold writeFrame. by repeat case_match. Qed.

Lemma kept_writeFrameJSON {A} `{Json A} t id (v : A) s : kept s (writeFrameJSON t id v s).2.
Proof. apply kept_same. unfold writeFrameJSON. by repeat case_match. Qed.

Lemma kept_write_chunk p id data s : kept s (write_chunk p id data s).2.
Proof.
  unfold write_chunk. pose proof (kept_writeFrame (mkFrame FrameData id (take max_chunk data)) s) as Hw.
  destruct (writeFrame _ s) as [[e|] s1]; [|done].
  eapply kept_trans; [exact Hw|apply kept_forceClose|apply ev_forceClose].
Qed.

Lemma kept_write_loop fuel : forall p id data n s, kept s (write_loop fuel p id data n s).2.
Proof.
  induction fuel as [|k IH]; intros p id data n s; [by apply kept_same|]. cbn [write_loop].
  destruct data as [|b data]; [by apply kept_same|]. pose proof (kept_write_chunk p id (b :: data) s) as Hw.
  destruct (write_chunk _ _ _ s) as [[e|] s1]; [done|].
  eapply kept_trans; [exact Hw|apply IH|apply ev_write_loop].
Qed.

Lemma kept_open_send p request s : kept s (open_send p request s).2.
Proof.
  unfold open_send. destruct (ss_writer s); [|by apply kept_same].
  destruct (WriteJSON _ _ _ _) as [[e|] k]; [|by apply kept_same]. cbn [snd].
  destruct (stream_at p s) as [st|] eqn:Hst.
  - intros id q Hq. apply (kept_unregister_closed p (with_writer (Some k) s) _ st Hst); [|done].
    right. by exists e.
  - apply kept_same. unfold removeStream, unregister, forceClose, stream_at in *. cbn.
    rewrite Hst. cbn. by rewrite Hst.
Qed.

Lemma kept_open_wait cl p c s r s' :
  session_ok cl s -> open_wait p c s = Some (r, s') -> kept s s'.
Proof.
  intros Hok. unfold open_wait. destruct (stream_at p s) as [st|] eqn:E; [|done].
  destruct c as [| |e|].
  - destruct (st_ack st) as [|a rest]; [done|].
    destruct (ack_OK a); intros [= <- <-]; [by apply kept_same|].
    intros id q Hq.
    apply (kept_unregister_closed p (set_stream p (with_ack rest st) s) _ (with_ack rest st)); [| |done].
    + rewrite stream_at_set by (by eapply stream_at_lt). by apply decide_True.
    + right. by eexists.
  - destruct (st_done st) eqn:Ed; [|done]. intros [= <- <-].
    apply (kept_unregister_closed p s _ st E). left. split; [done|].
    by rewrite <-(sok_done _ (ok_stream _ _ _ _ Hok E)).
  - intros [= <- <-]. apply (kept_unregister_closed p s _ st E). right. by eexists.
  - destruct (ss_done s); [|done]. intros [= <- <-]. by apply kept_same.
Qed.

Lemma kept_stream_methods p s :
  kept s (Stream_Accept p s).2 /\ (forall m, kept s (Stream_Reject p m s).2) /\
  (forall data, kept s (Stream_Write p data s).2) /\ kept s (Stream_Close p s).2.
Proof.
  unfold Stream_Accept, Stream_Reject, Stream_Write, Stream_Close, Stream_CloseWrite.
  destruct (stream_at p s) as [st|] eqn:E.
  2:{ split_and!; intros; try by apply kept_same. destruct data; by apply kept_same. }
  split_and!.
  - destruct (st_done st); [by apply kept_same|].
    pose proof (kept_writeFrameJSON FrameOpenAck (st_id st) (mkAck true "" (st_remoteExit st) "") s).
    destruct (writeFrameJSON _ _ _ s) as [[e|] s1]; [|done].
    eapply kept_trans; [done|apply kept_forceClose|apply ev_forceClose].
  - intros m. pose proof (kept_writeFrameJSON FrameOpenAck (st_id st) (mkAck false m "" "") s).
    destruct (writeFrameJSON _ _ _ s) as [e s1].
    eapply kept_trans; [done|apply kept_forceClose|apply ev_forceClose].
  - intros data. destruct data; [by apply kept_same|].
    destruct (st_writeErr st), (st_closed st); try (by apply kept_same). apply kept_write_loop.
  - destruct (_ || _); [by apply kept_same|]. intros id q Hq. by apply kept_writeFrame.
Qed.

(** Kept, or replaced under the same ID by a stream that did not exist. *)
Definition kept_or_replaced (s s' : Session) : Prop :=
  forall id p, s.(ss_streams) !! id = Some p ->
    s'.(ss_streams) !! id = Some p \/ closed_at p s' \/
    exists q, s'.(ss_streams) !! id = Some q /\ (length s.(ss_heap) <= q)%nat.

Lemma kept_weaken s s' : kept s s' -> kept_or_replaced s s'.
Proof. intros H id p Hp. destruct (H id p Hp); auto. Qed.

Lemma registered_or_replaced s s' id p :
  s'.(ss_streams) = <[id := p]> s.(ss_streams) -> (length s.(ss_heap) <= p)%nat ->
  kept_or_replaced s s'.
Proof.
  intros Hs Hp id' q Hq. rewrite Hs. destruct (decide (id' = id)) as [->|Hne].
  - right. right. exists p. split; [apply lookup_insert_eq|done].
  - left. by rewrite lookup_insert_ne.
Qed.

Lemma kept_open_register request s : kept_or_replaced s (open_register request s).2.
Proof.
  destruct request as [id exit dest port proto sel]. unfold open_register. cbn [alloc].
  destruct (ss_closed _); [by apply kept_weaken, kept_same|].
  destruct (ss_writer _); [|by apply kept_weaken, kept_same].
  by eapply registered_or_replaced.
Qed.

Lemma kept_readLoop_step r s : kept_or_replaced s (outcome_session (readLoop_step r s)).
Proof.
  destruct r as [f|e]; [|by apply kept_weaken, kept_same]. cbn [readLoop_step].
  unfold readLoop_frame. case_bool_decide.
  { destruct (DecodeOpen f) as [request|e]; [|by apply kept_weaken, kept_writeFrameJSON].
    cbn [alloc]. destruct (ss_closed _).
    { apply kept_weaken. eapply kept_trans; [|apply kept_forceClose|apply ev_forceClose].
      by apply kept_same. }
    unfold dispatch. destruct (_ <? 64)%nat; by eapply registered_or_replaced. }
  case_bool_decide.
  { destruct (DecodeJSON f) as [ack [e|]]; [by apply kept_weaken, kept_same|].
    destruct (lookup_stream _ s) as [p|]; [|by apply kept_weaken, kept_same].
    destruct (stream_at p s); by apply kept_weaken, kept_same. }
  case_bool_decide.
  { destruct (lookup_stream _ s) as [p|]; [|by apply kept_weaken, kept_writeFrame].
    destruct (fr_Payload f); by apply kept_weaken, kept_same. }
  case_bool_decide.
  { destruct (lookup_stream _ s) as [p|]; [|by apply kept_weaken, kept_same].
    apply kept_weaken, kept_same. unfold remoteClose. cbn. by repeat case_match. }
  case_bool_decide.
  { destruct (DecodeJSON f). destruct (lookup_stream _ s) as [p|]; apply kept_weaken;
      [apply kept_forceClose|by apply kept_same]. }
  destruct (ss_control s); by apply kept_weaken, kept_same.
Qed.

(** C23: while a stream is registered it leaves the session's map in one of two
    ways only: it is closed, or another stream, new in this very step, is
    registered under the same ID (by [Open] with an ID already in use, or by an
    open frame that repeats one). *)
Theorem registered_until_closed (config : Config) (evs : list event) (w : World) (e : event)
  (w' : World) (id : Z) (p : ptr)
  (Hrun : run (init config) evs w) (Hstep : step w e w')
  (Hp : w.(w_s).(ss_streams) !! id = Some p) :
  w'.(w_s).(ss_streams) !! id = Some p \/
  (exists st, stream_at p w'.(w_s) = Some st /\ st.(st_closeOnce) = true) \/
  exists q, w'.(w_s).(ss_streams) !! id = Some q /\ (length w.(w_s).(ss_heap) <= q)%nat.
Proof.
  pose proof (wok_session _ (run_ok _ _ _ Hrun)) as Hok. clear Hrun evs.
  enough (kept_or_replaced w.(w_s) w'.(w_s)) as Hk by (by apply Hk). clear Hp id p.
  pose proof (fun p => kept_stream_methods p w.(w_s)) as Hm.
  destruct Hstep as [conn handler s' E1 E|h|request p request' s' E|request e s' E
    |l1 p request l2 e s' _ E|l1 p l2 c r s' _ E|r E|p data r E Hr|f E|l1 p l2 s' _ E|l1 p l2 _ E
    |c r s' E|c p go s' E|p|p m|p n|p data _ E|l1 p data l2 st e s' Ew Ep E|A J t id v Ht|p| |p rest E|E];
    cbn [w_s at_session at_pc at_sending at_awaiting at_dispatching at_closing at_writing].
  - unfold Start in E. destruct (ss_closed _); [done|]. injection E as <-.
    by apply kept_weaken, kept_same.
  - by apply kept_weaken, kept_same.
  - pose proof (kept_open_register request (w_s w)) as Ho. by rewrite E in Ho.
  - pose proof (kept_open_register request (w_s w)) as Ho. by rewrite E in Ho.
  - pose proof (kept_open_send p request (w_s w)) as Ho. rewrite E in Ho. by apply kept_weaken.
  - apply kept_weaken. by eapply kept_open_wait.
  - pose proof (kept_readLoop_step r (w_s w)) as Ho.
    destruct (readLoop_step r (w_s w)); try exact Ho. cbn. unfold begin_shutdown. cbn.
    by destruct (ss_close _).
  - apply kept_weaken. destruct Hr; [by apply kept_same|by apply kept_same|].
    apply kept_forceClose.
  - by apply kept_weaken, kept_same.
  - apply kept_weaken, kept_same. unfold dispatch in E. by destruct (_ <? 64)%nat; simplify_eq.
  - apply kept_weaken, kept_forceClose.
  - apply kept_weaken, kept_same. destruct c; cbn in E; repeat case_match; by simplify_eq.
  - apply kept_weaken, kept_same. destruct c; cbn in E; repeat case_match; by simplify_eq.
  - apply kept_weaken, Hm.
  - apply kept_weaken, Hm.
  - apply kept_weaken, kept_same. unfold Stream_Read. destruct (stream_at p _); [|done].
    by destruct (read_loop _ _ _).
  - by apply kept_weaken, kept_same.
  - pose proof (kept_write_chunk p st.(st_id) data (w_s w)) as Ho. rewrite E in Ho. by apply kept_weaken.
  - apply kept_weaken, kept_writeFrameJSON.
  - apply kept_weaken, Hm.
  - apply kept_weaken, kept_same. unfold begin_shutdown. by destruct (ss_close _).
  - apply kept_weaken, kept_forceClose.
  - by apply kept_weaken, kept_same.
Qed.

Lemma registered_until_closed_witness :
  (begin_shutdown ErrClosed demo_opened).(w_s).(ss_streams) !! 1 = Some 0%nat \/
  (exists st, stream_at 0 (begin_shutdown ErrClosed demo_opened).(w_s) = Some st /\
     st.(st_closeOnce) = true) \/
  exists q, (begin_shutdown ErrClosed demo_opened).(w_s).(ss_streams) !! 1 = Some q /\
     (length demo_opened.(w_s).(ss_heap) <= q)%nat.
Proof.
  apply (registered_until_closed demo_config [Internal; Internal] demo_opened Internal).
  - apply demo_run_opened.
  - apply step_close.
  - reflexivity.
Defined.

(* ------------------------------------------------------------------ *)
(** ** Data after a close frame *)

(** A peer that sends data on a stream it has closed stops the process:
    from every reachable state in which the read loop waits for a frame and a
    registered stream has received its close frame, a non-empty data frame with
    its ID leads to a send on a closed channel, and that panic is the only way
    on for the read loop as long as the stream is not closed locally. *)
Theorem data_after_close_panics (config : Config) (evs : list event) (w : World)
  (id : Z) (p : ptr) (st : Stream) (data : bytes)
  (Hrun : run (init config) evs w) (Hpc : w.(w_pc) = Reading) (Hlive : w.(w_panicked) = false)
  (Hp : w.(w_s).(ss_streams) !! id = Some p) (Hst : stream_at p w.(w_s) = Some st)
  (Heof : st.(st_remoteEOF) = true) (Hdata : data <> []) :
  exists w1, step w (Received (Ok (mkFrame FrameData id data))) w1 /\
    w1.(w_pc) = Delivering p data /\
    (exists w2, step w1 Internal w2 /\ w2.(w_panicked) = true) /\
    forall r, deliver_select p data w1.(w_s) r -> r = Panicked.
Proof.
  pose proof (wok_session _ (run_ok _ _ _ Hrun)) as Hok.
  destruct (ok_streams _ _ Hok _ _ Hp) as (st0 & Hst0 & _ & Hco).
  rewrite Hst in Hst0. injection Hst0 as <-. pose proof (ok_stream _ _ _ _ Hok Hst) as Hsok.
  assert (st_reads_closed st = true) as Hrc by (by rewrite (sok_reads_closed _ Hsok)).
  exists (at_pc (Delivering p data) (at_session w.(w_s) w)). split_and!; [|done| |].
  - pose proof (step_read w (Ok (mkFrame FrameData id data)) Hpc) as Hs. cbn in Hs.
    unfold readLoop_frame, lookup_stream in Hs. cbn in Hs. rewrite Hp in Hs.
    by destruct data.
  - exists (at_panic (at_pc (Delivering p data) (at_session w.(w_s) w))). split; [|done].
    refine (step_deliver (at_pc (Delivering p data) (at_session w.(w_s) w)) p data Panicked eq_refl _).
    by eapply deliver_panic.
  - intros r Hr. destruct Hr as [st1 H1 H2 H3|st1 H1 H2|st1 H1 H2]; cbn in H1;
      rewrite Hst in H1; injection H1 as <-; [congruence|done|].
    rewrite (sok_done _ Hsok) in H2. congruence.
Qed.

Definition demo_eof : World :=
  after_read (readLoop_step (Ok (mkFrame FrameClose 1 [])) demo_opened.(w_s)) demo_opened.

Lemma data_after_close_panics_witness :
  exists w1, step demo_eof (Received (Ok (mkFrame FrameData 1 [x61]))) w1 /\
    w1.(w_pc) = Delivering 0 [x61] /\
    (exists w2, step w1 Internal w2 /\ w2.(w_panicked) = true) /\
    forall r, deliver_select 0 [x61] w1.(w_s) r -> r = Panicked.
Proof.
  eapply (data_after_close_panics demo_config
    ([Internal; Internal] ++ [Received (Ok (mkFrame FrameClose 1 []))]) demo_eof 1 0);
    [|reflexivity|reflexivity|reflexivity|reflexivity|reflexivity|discriminate].
  apply (run_snoc _ _ demo_opened); [apply demo_run_opened|reflexivity|].
  apply (step_read demo_opened). reflexivity.
Defined.
