(* ===== verification/SessionWire.v ===== *)
(** * What two sessions at the ends of one connection exchange

    The first half follows the writing side: along every execution the bytes a
    session has put on its connection are whole frames, after which at most the
    beginning of one more follows when the connection broke, and the data
    frames among them carry exactly the chunks its [Write]s have sent.  The
    second half follows the reading side: what is delivered to a stream is, in
    order, what the data frames with its ID carried.  Together: what is read at
    one end was written at the other, with nothing lost, added or mixed up on
    the way. *)
From S2P Require Import Prelude GoIO GoStrings GoTime Json Codec Protocol Session SessionSteps SessionProps.

(* ------------------------------------------------------------------ *)
(** ** Frames on a sink *)

(** A frame as it is read back: Go's IDs have 64 bits. *)
Definition wire (f : Frame) : Frame := mkFrame f.(fr_Type) (wrap_u 64 f.(fr_ID)) f.(fr_Payload).

(** The proper beginnings of frames. *)
Definition partial (tail : bytes) : Prop :=
  exists f rest, frame_ok f /\ rest <> [] /\ frame_bytes f = tail ++ rest.

(** [k'] is [k] after the frames [fs], and after a part of a frame when it
    broke; a sink without room takes nothing. *)
Definition emits (k k' : Sink) (fs : list Frame) : Prop :=
  Forall frame_ok fs /\
  exists tail, k'.(sk_out) = k.(sk_out) ++ concat (map frame_bytes fs) ++ tail /\ partial tail /\
    (tail <> [] -> k'.(sk_room) = Some 0%nat) /\
    (k.(sk_room) = Some 0%nat -> fs = [] /\ tail = [] /\ k'.(sk_room) = Some 0%nat).

Lemma frame_bytes_wire f : frame_bytes (wire f) = frame_bytes f.
Proof.
  unfold frame_bytes, frame_header. cbn [wire fr_Type fr_ID fr_Payload]. do 2 f_equal. f_equal.
  apply be_decode_inj; [by rewrite !length_be_encode|]. rewrite !be_decode_encode.
  change (256 ^ Z.of_nat 8) with (2 ^ 64). unfold wrap_u. by rewrite Zmod_mod.
Qed.

Lemma wire_ok f : Z.of_nat (length f.(fr_Payload)) <= MaxFrameSize -> frame_ok (wire f).
Proof. intros H. split; [apply Z.mod_pos_bound; lia|done]. Qed.

Lemma frame_bytes_nonempty f : frame_bytes f <> [].
Proof. by unfold frame_bytes, frame_header. Qed.

Lemma partial_nil : partial [].
Proof.
  exists (mkFrame FrameClose 0 []), (frame_bytes (mkFrame FrameClose 0 [])).
  split_and!; [split; vm_compute; intuition congruence|apply frame_bytes_nonempty|done].
Qed.

Lemma emits_refl k : emits k k [].
Proof.
  split; [apply Forall_nil_2|]. exists []. rewrite app_nil_r. split_and!; try done. apply partial_nil.
Qed.

Lemma emits_trans k1 k2 k3 fs gs : emits k1 k2 fs -> emits k2 k3 gs -> emits k1 k3 (fs ++ gs).
Proof.
  intros [Hf (t1 & O1 & P1 & B1 & S1)] [Hg (t2 & O2 & P2 & B2 & S2)]. split; [by apply Forall_app|].
  destruct t1 as [|b t1].
  - exists t2. rewrite O2, O1, map_app, concat_app, !app_nil_r, <-!app_assoc. split_and!; try done.
    intros H. destruct (S1 H) as (-> & _ & H2). by destruct (S2 H2) as (-> & -> & ?).
  - destruct (S2 (B1 ltac:(done))) as (-> & -> & H3). exists (b :: t1).
    rewrite O2, O1. cbn [map concat]. rewrite !app_nil_r. split_and!; try done.
    intros H. by destruct (S1 H) as (_ & ? & _).
Qed.

Lemma frame_header_prefix f n : (n < headerSize)%nat -> Z.of_nat (length f.(fr_Payload)) <= MaxFrameSize ->
  partial (take n (frame_header f)).
Proof.
  intros Hn Hl. exists (wire f), (drop n (frame_header f) ++ f.(fr_Payload)). split_and!.
  - by apply wire_ok.
  - intros H. apply (f_equal length) in H. rewrite length_app, length_drop, length_frame_header in H. cbn [length] in H. lia.
  - rewrite frame_bytes_wire. unfold frame_bytes. by rewrite app_assoc, take_drop.
Qed.

(** One frame: sent whole, or not at all, or cut short by the connection. *)
Lemma WriteFrame_emits w f e w' : WriteFrame w f = (e, w') ->
  emits w w' (match e with None => [wire f] | Some _ => [] end).
Proof.
  unfold WriteFrame. destruct (Z.ltb_spec MaxFrameSize (Z.of_nat (length f.(fr_Payload)))) as [|Hl].
  { intros [= <- <-]. apply emits_refl. }
  unfold Sink_Write. destruct w as [out [k|] err]; cbn [sk_out sk_room sk_err].
  2:{ assert (forall w', w' = mkSink (out ++ frame_bytes f) None err ->
        emits (mkSink out None err) w' [wire f]) as Hall.
      { intros ? ->. split; [by apply Forall_singleton, wire_ok|]. exists []. cbn [map concat sk_out sk_room].
        rewrite frame_bytes_wire, !app_nil_r. split_and!; try done. apply partial_nil. }
      destruct (fr_Payload f) as [|b p] eqn:Ep; intros [= <- <-]; apply Hall; unfold frame_bytes; rewrite Ep.
      - by rewrite app_nil_r.
      - by rewrite app_assoc. }
  rewrite length_frame_header. destruct (Nat.leb_spec headerSize k) as [Hk|Hk].
  2:{ intros [= <- <-]. split; [apply Forall_nil_2|]. exists (take k (frame_header f)). cbn.
      split_and!; try done; [by apply frame_header_prefix|]. intros [= ->]. by split_and!. }
  assert (emits (mkSink out (Some k) err)
    (mkSink (out ++ frame_bytes f) (Some (k - length (frame_bytes f))%nat) err) [wire f]) as Hwhole.
  { split; [by apply Forall_singleton, wire_ok|]. exists []. cbn [map concat sk_out sk_room].
    rewrite frame_bytes_wire, !app_nil_r. split_and!; try done; [apply partial_nil|].
    intros [= ->]. unfold headerSize in Hk. lia. }
  unfold frame_bytes in Hwhole at 1 2. rewrite length_app, length_frame_header, Nat.sub_add_distr in Hwhole.
  destruct (fr_Payload f) as [|b p] eqn:Ep.
  { intros [= <- <-]. by rewrite app_nil_r, Nat.sub_0_r in Hwhole. }
  cbn [sk_room sk_out sk_err]. destruct (Nat.leb_spec (length (b :: p)) (k - headerSize)) as [Hp|Hp].
  - intros [= <- <-]. by rewrite <-app_assoc.
  - intros [= <- <-]. split; [apply Forall_nil_2|].
    exists (frame_header f ++ take (k - headerSize) (b :: p)). cbn [map concat sk_out sk_room].
    rewrite <-app_assoc. split_and!; try done.
    + exists (wire f), (drop (k - headerSize) (b :: p)). split_and!.
      * apply wire_ok. by rewrite Ep.
      * intros H. apply (f_equal length) in H. rewrite length_drop in H. cbn [length] in *. lia.
      * rewrite frame_bytes_wire. unfold frame_bytes. by rewrite Ep, <-app_assoc, take_drop.
    + intros [= ->]. unfold headerSize in Hk. lia.
Qed.

(* ------------------------------------------------------------------ *)
(** ** What a session writes *)

(** The session's connection after it sent the frames [fs]. *)
Definition sends (s s' : Session) (fs : list Frame) : Prop :=
  match s.(ss_writer), s'.(ss_writer) with
  | Some k, Some k' => emits k k' fs
  | None, None => fs = []
  | _, _ => False
  end.

(** Frames that neither carry a stream's data nor end a stream. *)
Definition aside (f : Frame) : Prop := f.(fr_Type) <> FrameData /\ f.(fr_Type) <> FrameClose.
Definition quiet (s s' : Session) : Prop := exists fs, sends s s' fs /\ Forall aside fs.

(** A close frame with the ID [id] is sent, as far as the connection takes it. *)
Definition sends_close (id : Z) (s s' : Session) : Prop :=
  exists fs, sends s s' fs /\ Forall (eq (mkFrame FrameClose (wrap_u 64 id) [])) fs.

Lemma sends_nil s s' : s'.(ss_writer) = s.(ss_writer) -> sends s s' [].
Proof. intros H. unfold sends. rewrite H. destruct (ss_writer s); [apply emits_refl|done]. Qed.

Lemma sends_trans s1 s2 s3 fs gs : sends s1 s2 fs -> sends s2 s3 gs -> sends s1 s3 (fs ++ gs).
Proof.
  unfold sends. destruct (ss_writer s1), (ss_writer s2), (ss_writer s3); try done; [apply emits_trans|].
  by intros -> ->.
Qed.

Lemma quiet_same s s' : s'.(ss_writer) = s.(ss_writer) -> quiet s s'.
Proof. exists []. split; [by apply sends_nil|apply Forall_nil_2]. Qed.

#[export] Instance quiet_preorder : PreOrder quiet.
Proof.
  split; [intros s; by apply quiet_same|]. intros a b c (fs & Hf & Qf) (gs & Hg & Qg).
  exists (fs ++ gs). split; [by eapply sends_trans|by apply Forall_app].
Qed.

Lemma writeFrame_sends f s e s' : writeFrame f s = (e, s') ->
  sends s s' (match e with None => [wire f] | Some _ => [] end).
Proof.
  unfold writeFrame. destruct (ss_done s); [intros [= <- <-]; by apply sends_nil|].
  destruct (ss_closed s); [intros [= <- <-]; by apply sends_nil|].
  destruct (ss_writer s) as [k|] eqn:Ek; [|intros [= <- <-]; by apply sends_nil].
  unfold Writer_Write. destruct (WriteFrame k f) as [e1 k'] eqn:E. intros [= <- <-].
  unfold sends. rewrite Ek. cbn. by apply WriteFrame_emits in E.
Qed.

Lemma quiet_writeFrame f s : aside f -> quiet s (writeFrame f s).2.
Proof.
  intros Hf. destruct (writeFrame f s) as [e s'] eqn:E. apply writeFrame_sends in E. eexists. split; [exact E|].
  destruct e; [apply Forall_nil_2|by apply Forall_singleton].
Qed.

Lemma sends_close_writeFrame id s : sends_close id s (writeFrame (mkFrame FrameClose id []) s).2.
Proof.
  destruct (writeFrame _ s) as [e s'] eqn:E. apply writeFrame_sends in E. eexists. split; [exact E|].
  destruct e; [apply Forall_nil_2|by apply Forall_singleton].
Qed.

Lemma quiet_writeFrameJSON {A} `{Json A} t id (v : A) s : t <> FrameData -> t <> FrameClose ->
  quiet s (writeFrameJSON t id v s).2.
Proof. intros. by apply (quiet_writeFrame (mkFrame t id (print (to_json v)))). Qed.

Lemma quiet_forceClose p e s : quiet s (forceClose p e s).
Proof. apply quiet_same, forceClose_writer. Qed.

Lemma unregister_writer p s : (unregister p s).(ss_writer) = s.(ss_writer).
Proof. unfold unregister. repeat case_match; done. Qed.

Lemma quiet_removeStream p e s : quiet s (removeStream p e s).
Proof.
  unfold removeStream. etrans; [apply quiet_same, (unregister_writer p)|].
  destruct e; [apply quiet_forceClose|done].
Qed.

Lemma quiet_open_register r s : quiet s (open_register r s).2.
Proof.
  apply quiet_same. destruct r as [id exit dest port proto sel]. unfold open_register. cbn.
  destruct (ss_closed s), (ss_writer s) eqn:E; cbn; by rewrite ?E.
Qed.

Lemma quiet_open_send p r s : quiet s (open_send p r s).2.
Proof.
  unfold open_send. destruct (ss_writer s) as [k|] eqn:Ek; [|done]. unfold WriteJSON, Marshal, Writer_Write.
  destruct (WriteFrame k _) as [e k'] eqn:E. apply WriteFrame_emits in E.
  assert (quiet s (with_writer (Some k') s)) as Hq.
  { eexists. split; [unfold sends; rewrite Ek; cbn; exact E|].
    destruct e; [apply Forall_nil_2|by apply Forall_singleton]. }
  destruct e; [|exact Hq]. etrans; [exact Hq|]. etrans; [apply (quiet_removeStream p None)|apply quiet_forceClose].
Qed.

Lemma quiet_open_wait p c s r s' : open_wait p c s = Some (r, s') -> quiet s s'.
Proof.
  unfold open_wait. destruct (stream_at p s) as [st|]; [|done]. destruct c as [| |e|].
  - destruct (st_ack st) as [|a rest]; [done|]. destruct (ack_OK a); intros [= <- <-]; [by apply quiet_same|].
    etrans; [by apply (quiet_same s (set_stream p (with_ack rest st) s))|].
    etrans; [apply (quiet_removeStream p None)|apply quiet_forceClose].
  - destruct (st_done st); [|done]. intros [= <- <-]. apply (quiet_removeStream p None).
  - intros [= <- <-]. etrans; [apply (quiet_removeStream p None)|apply quiet_forceClose].
  - destruct (ss_done s); [|done]. by intros [= <- <-].
Qed.

(** The read loop answers the data of a stream it does not have with a close. *)
Lemma quiet_readLoop_step r s :
  quiet s (outcome_session (readLoop_step r s)) \/
  exists f, r = Ok f /\ f.(fr_Type) = FrameData /\ lookup_stream f.(fr_ID) s = None /\
    readLoop_step r s = Continue (writeFrame (mkFrame FrameClose f.(fr_ID) []) s).2.
Proof.
  destruct r as [f|e]; [|by left].
  destruct (decide (f.(fr_Type) = FrameData /\ lookup_stream f.(fr_ID) s = None)) as [[Ht Hl]|Hd].
  { right. exists f. split_and!; try done. cbn. unfold readLoop_frame. by rewrite Ht, Hl. }
  left. cbn [readLoop_step]. unfold readLoop_frame. case_bool_decide.
  { destruct (DecodeOpen f) as [request|e]; [|by apply quiet_writeFrameJSON]. cbn [alloc].
    destruct (ss_closed _) eqn:Ec; cbn [outcome_session].
    - etrans; [|apply quiet_forceClose]. by apply quiet_same.
    - unfold dispatch. destruct (_ <? 64)%nat; by apply quiet_same. }
  case_bool_decide.
  { destruct (DecodeJSON f) as [a [e|]]; [done|]. destruct (lookup_stream _ s) as [p|]; [|done].
    destruct (stream_at p s); [by apply quiet_same|done]. }
  case_bool_decide.
  { destruct (lookup_stream _ s) as [p|]; [by destruct (fr_Payload f)|]. by destruct Hd. }
  case_bool_decide.
  { destruct (lookup_stream _ s) as [p|]; [|done]. cbn. unfold remoteClose.
    destruct (stream_at p s); [|done]. destruct (st_remoteEOF _); [done|by apply quiet_same]. }
  case_bool_decide.
  { destruct (DecodeJSON f). destruct (lookup_stream _ s); [apply quiet_forceClose|done]. }
  by destruct (ss_control s).
Qed.

Lemma quiet_stream_methods p s :
  quiet s (Stream_Accept p s).2 /\ (forall m, quiet s (Stream_Reject p m s).2) /\
  (quiet s (Stream_Close p s).2 \/
   exists st, stream_at p s = Some st /\ sends_close st.(st_id) s (Stream_Close p s).2).
Proof.
  unfold Stream_Accept, Stream_Reject, Stream_Close, Stream_CloseWrite.
  destruct (stream_at p s) as [st|]; [|by split_and!; try left]. split_and!.
  - destruct (st_done st); [done|].
    pose proof (quiet_writeFrameJSON FrameOpenAck st.(st_id) (mkAck true "" st.(st_remoteExit) "") s ltac:(done) ltac:(done)).
    destruct (writeFrameJSON _ _ _ s) as [[e|] s1]; [|done]. etrans; [done|apply quiet_forceClose].
  - intros m. pose proof (quiet_writeFrameJSON FrameOpenAck st.(st_id) (mkAck false m "" "") s ltac:(done) ltac:(done)).
    destruct (writeFrameJSON _ _ _ s) as [e s1]. etrans; [done|apply quiet_forceClose].
  - destruct (_ || _); [by left|]. right. exists st. split; [done|].
    apply (sends_close_writeFrame _ (set_stream p (with_localEOF st) s)).
Qed.

Lemma quiet_begin_shutdown err w : quiet w.(w_s) (begin_shutdown err w).(w_s).
Proof. unfold begin_shutdown. destruct (ss_close _); [done|]. by apply quiet_same. Qed.

(** The steps that may send a close frame with the ID [id]: [Close] of a stream
    that has it, and the read loop when data came for no stream. *)
Definition closing (id : Z) (w : World) (e : event) (w' : World) : Prop :=
  (exists p st, stream_at p w.(w_s) = Some st /\ st.(st_id) = id /\ e = Internal /\
     w' = at_session (Stream_Close p w.(w_s)).2 w) \/
  (exists f, e = Received (Ok f) /\ f.(fr_Type) = FrameData /\ f.(fr_ID) = id /\ lookup_stream id w.(w_s) = None).

(** A step sends the chunk of a [Write], or a close, or neither. *)
Lemma step_sends w e w' : w.(w_pc) <> NotStarted -> step w e w' ->
  w'.(w_pc) <> NotStarted /\
  match e with
  | Wrote p data => exists st, stream_at p w.(w_s) = Some st /\
      sends w.(w_s) w'.(w_s) [wire (mkFrame FrameData st.(st_id) data)]
  | _ => quiet w.(w_s) w'.(w_s) \/ exists id, closing id w e w' /\ sends_close id w.(w_s) w'.(w_s)
  end.
Proof.
  intros Hpc Hstep. pose proof (fun p => quiet_stream_methods p w.(w_s)) as Hm.
  destruct Hstep as [conn handler s' E1 E|h|request p request' s' E|request e s' E
    |l1 p request l2 e s' _ E|l1 p l2 c r s' _ E|r E|p data r E Hr|f E|l1 p l2 s' _ E|l1 p l2 _ E
    |c r s' E|c p go s' E|p|p m|p n|p data _ E|l1 p data l2 st e s' Ew Ep E|A J t id v Ht|p| |p rest E|E];
    try (by rewrite E1 in Hpc); (split; [try done|]);
    cbn [w_s at_session at_pc at_sending at_awaiting at_dispatching at_closing at_writing].
  - left. by apply quiet_same.
  - left. pose proof (quiet_open_register request (w_s w)) as Ho. by rewrite E in Ho.
  - left. pose proof (quiet_open_register request (w_s w)) as Ho. by rewrite E in Ho.
  - left. pose proof (quiet_open_send p request (w_s w)) as Ho. by rewrite E in Ho.
  - left. by eapply quiet_open_wait.
  - destruct (readLoop_step r (w_s w)); done.
  - destruct (quiet_readLoop_step r (w_s w)) as [Ho|(f & -> & Ht & Hl & Ho)].
    + left. destruct (readLoop_step r (w_s w)); try exact Ho.
      cbn in Ho |- *. etrans; [exact Ho|]. apply (quiet_begin_shutdown err (at_session s w)).
    + right. exists f.(fr_ID). rewrite Ho. split; [right; by exists f|]. apply sends_close_writeFrame.
  - destruct r; cbn; congruence.
  - destruct Hr; left; cbn; [by apply quiet_same|done|apply quiet_forceClose].
  - by left.
  - left. apply quiet_same. unfold dispatch in E. by destruct (_ <? 64)%nat; simplify_eq.
  - left. apply quiet_forceClose.
  - left. apply quiet_same. destruct c; cbn in E; repeat case_match; by simplify_eq.
  - left. apply quiet_same. destruct c; cbn in E; repeat case_match; by simplify_eq.
  - left. apply Hm.
  - left. apply Hm.
  - left. apply quiet_same. unfold Stream_Read. destruct (stream_at p _); [|done]. by destruct (read_loop _ _ _).
  - by left.
  - unfold write_chunk in E. destruct (writeFrame _ _) as [[e1|] s1] eqn:E1; injection E as <- <-; apply writeFrame_sends in E1; cbn.
    + left. etrans; [|apply quiet_forceClose]. exists []. split; [exact E1|apply Forall_nil_2].
    + by exists st.
  - left. apply quiet_writeFrameJSON; intros ->; done.
  - destruct (Hm p) as (_ & _ & [Hq|(st & Hst & Hc)]); [by left|]. right. exists st.(st_id).
    split; [|exact Hc]. left. by exists p, st.
  - unfold begin_shutdown. by destruct (ss_close _).
  - left. apply quiet_begin_shutdown.
  - left. apply quiet_forceClose.
  - left. by apply quiet_same.
Qed.

(* ------------------------------------------------------------------ *)
(** ** The data of one ID *)

(** What the data frames with the ID [n] carry. *)
Definition data_of (n : Z) (fs : list Frame) : bytes :=
  fs ≫= fun f => if decide (f.(fr_Type) = FrameData /\ f.(fr_ID) = n) then f.(fr_Payload) else [].

(** The ID a stream has on the wire. *)
Definition wire_id (p : ptr) (s : Session) : option Z :=
  (fun st => wrap_u 64 st.(st_id)) <$> stream_at p s.

(** The chunks sent by the [Write]s of the streams that have the ID [n] in
    [s]. *)
Definition bytes_written (s : Session) (n : Z) (e : event) : bytes :=
  match e with Wrote p data => if decide (wire_id p s = Some n) then data else [] | _ => [] end.
Definition written (s : Session) (n : Z) (evs : list event) : bytes := evs ≫= bytes_written s n.

Lemma data_of_app n fs gs : data_of n (fs ++ gs) = data_of n fs ++ data_of n gs.
Proof. apply bind_app. Qed.

Lemma data_of_quiet n fs : Forall (fun f => f.(fr_Type) <> FrameData) fs -> data_of n fs = [].
Proof.
  induction 1 as [|f fs Hf _ IH]; [done|]. unfold data_of in *. cbn. rewrite IH.
  by rewrite decide_False by intuition congruence.
Qed.

Lemma data_of_prefix n fs gs : fs `prefix_of` gs -> data_of n fs `prefix_of` data_of n gs.
Proof. intros [hs ->]. rewrite data_of_app. by apply prefix_app_r. Qed.

Lemma no_data_step s s' (P : Z -> Prop) (Q : Prop) :
  quiet s s' \/ (exists id, P id /\ sends_close id s s') ->
  (forall gs, sends s s' gs -> (forall n, data_of n gs = []) ->
    Forall (fun g => g.(fr_Type) <> FrameClose) gs \/
      (exists id, P id /\ Forall (eq (mkFrame FrameClose (wrap_u 64 id) [])) gs) -> Q) -> Q.
Proof.
  intros [(fs & Hs & Hf)|(id & Hp & fs & Hs & Hf)] HQ; apply (HQ fs Hs).
  - intros n. apply data_of_quiet. eapply Forall_impl; [exact Hf|]. by intros f [? _].
  - left. eapply Forall_impl; [exact Hf|]. by intros f [_ ?].
  - intros n. apply data_of_quiet. eapply Forall_impl; [exact Hf|]. by intros f <-.
  - right. by exists id.
Qed.

(** At every close frame of [fs] the execution was at a step that sends one, and
    the data before it is what had been written by then. *)
Definition closes_where (w0 : World) (evs : list event) (w : World) (sf : Session) (fs : list Frame) : Prop :=
  forall fs1 f fs2, fs = fs1 ++ f :: fs2 -> f.(fr_Type) = FrameClose ->
  exists evs1 w1 e w2 evs2, run w0 evs1 w1 /\ step w1 e w2 /\ run w2 evs2 w /\ evs = evs1 ++ e :: evs2 /\
    (exists id, wrap_u 64 id = f.(fr_ID) /\ closing id w1 e w2) /\ forall n, data_of n fs1 = written sf n evs1.

Lemma run_cons w0 e w1 : w0.(w_panicked) = false -> step w0 e w1 -> forall evs w, run w1 evs w -> run w0 (e :: evs) w.
Proof.
  intros Hp Hs evs w Hrun. induction Hrun as [|evs w e' w' Hrun IH Hp' Hs'].
  - apply (run_snoc w0 [] w0); [constructor|done|done].
  - by apply (run_snoc w0 (e :: evs) w).
Qed.

(** The frames of one more step. *)
Lemma closes_snoc w0 evs w e w' sf fs gs : run w0 evs w -> w.(w_panicked) = false -> step w e w' ->
  closes_where w0 evs w sf fs -> (forall n, data_of n fs = written sf n evs) ->
  Forall (fun g => g.(fr_Type) <> FrameClose) gs \/
  (exists id, closing id w e w' /\ Forall (eq (mkFrame FrameClose (wrap_u 64 id) [])) gs) ->
  closes_where w0 (evs ++ [e]) w' sf (fs ++ gs).
Proof.
  intros Hrun Hp Hstep Hc Hd Hg fs1 f fs2 E Hf. apply app_eq_inv in E as [(k & E1 & E2)|(k & E1 & E2)].
  - destruct k as [|g k]; cbn in E2; simplify_eq.
    + destruct Hg as [Hq|(id & Hcl & Hq)]; inversion Hq; subst; [done|]. rewrite app_nil_r in Hd.
      exists evs, w, e, w', []. split_and!; try done; [constructor|by exists id].
    + destruct (Hc fs1 g k eq_refl Hf) as (e1 & w1 & x & w2 & e2 & R1 & S1 & R2 & -> & Hid & Hw).
      exists e1, w1, x, w2, (e2 ++ [e]). split_and!; try done; [by apply (run_snoc w2 e2 w e w')|by rewrite <-app_assoc].
  - subst. destruct Hg as [Hq|(id & Hcl & Hq)]; apply Forall_app in Hq as [Hq1 Hq2]; inversion Hq2; subst; [done|].
    exists evs, w, e, w', []. split_and!; try done; [constructor|by exists id|]. intros n.
    rewrite data_of_app, Hd, (data_of_quiet n k), app_nil_r; [done|].
    eapply Forall_impl; [exact Hq1|]. by intros ? <-.
Qed.

(** Along every execution the connection holds whole frames, and their data is
    what was written. *)
Lemma run_sends w0 evs w k0 sf : run w0 evs w -> w0.(w_pc) <> NotStarted -> w0.(w_s).(ss_writer) = Some k0 ->
  ages w.(w_s) sf ->
  w.(w_pc) <> NotStarted /\ exists fs, sends w0.(w_s) w.(w_s) fs /\
    (forall n, data_of n fs = written sf n evs) /\ closes_where w0 evs w sf fs.
Proof.
  intros Hrun Hpc Hk. revert sf. induction Hrun as [|evs w e w' Hrun IH Hp Hstep]; intros sf Hsf.
  { split; [done|]. exists []. split_and!; [by apply sends_nil|done|]. by intros []. }
  destruct (step_pipe _ _ _ Hstep) as [Hages _].
  destruct (IH sf ltac:(by etrans)) as (Hpc' & fs & Hfs & Hd & Hc).
  destruct (step_sends _ _ _ Hpc' Hstep) as [Hpc'' He]. split; [done|].
  assert (forall gs, sends w.(w_s) w'.(w_s) gs -> (forall n, data_of n gs = bytes_written sf n e) ->
    Forall (fun g => g.(fr_Type) <> FrameClose) gs \/
      (exists id, closing id w e w' /\ Forall (eq (mkFrame FrameClose (wrap_u 64 id) [])) gs) ->
    exists fs, sends w0.(w_s) w'.(w_s) fs /\ (forall n, data_of n fs = written sf n (evs ++ [e])) /\
      closes_where w0 (evs ++ [e]) w' sf fs) as Hadd.
  { intros gs Hg Hn Hcl. exists (fs ++ gs). split_and!; [by eapply sends_trans| |by apply (closes_snoc w0 evs w)].
    intros n. unfold written. rewrite data_of_app, bind_app, Hd, Hn. cbn. by rewrite app_nil_r. }
  destruct e as [|r|p data|p r|p data]; try by apply (no_data_step _ _ _ _ He Hadd).
  destruct He as (st & Hst & Hg). apply (Hadd _ Hg); [|left; by apply Forall_singleton].
  intros n. unfold data_of. cbn. rewrite app_nil_r.
  destruct (Hages p st Hst) as (st1 & H1 & L1). destruct (Hsf p st1 H1) as (st2 & H2 & L2).
  unfold wire_id. rewrite H2. cbn. rewrite (later_id _ _ L2), (later_id _ _ L1).
  destruct (decide (wrap_u 64 (st_id st) = n)) as [<-|Hne].
  - by rewrite !decide_True by done.
  - rewrite !decide_False; [done|intros [= ?]|intros [_ ?]]; done.
Qed.

(* ------------------------------------------------------------------ *)
(** ** What a session reads *)

Definition received (e : event) : list Frame := match e with Received (Ok f) => [f] | _ => [] end.
Definition frames (evs : list event) : list Frame := evs ≫= received.

(** No operation registers a stream that was not, except a new one. *)
Definition only_new (s s' : Session) : Prop :=
  (length s.(ss_heap) <= length s'.(ss_heap))%nat /\
  forall id p, s'.(ss_streams) !! id = Some p ->
    s.(ss_streams) !! id = Some p \/ (length s.(ss_heap) <= p)%nat.

#[export] Instance only_new_preorder : PreOrder only_new.
Proof.
  split; [split; [done|by left]|]. intros a b c [L1 H1] [L2 H2]. split; [lia|]. intros id p Hp.
  destruct (H2 _ _ Hp) as [Hb|Hl]; [by apply H1|right; lia].
Qed.

Lemma new_same s s' : s'.(ss_streams) = s.(ss_streams) -> length s'.(ss_heap) = length s.(ss_heap) -> only_new s s'.
Proof. intros H1 H2. split; [lia|]. rewrite H1. by left. Qed.

Lemma new_set_stream p st s : only_new s (set_stream p st s).
Proof. apply new_same; [done|]. cbn. apply length_insert. Qed.

Lemma new_unregister p s : only_new s (unregister p s).
Proof.
  split; [by rewrite unregister_heap|]. unfold unregister. destruct (stream_at p s); [|by left].
  case_bool_decide; [|by left]. cbn. intros id q Hq. apply lookup_delete_Some in Hq as [_ Hq]. by left.
Qed.

Lemma new_forceClose p e s : only_new s (forceClose p e s).
Proof.
  unfold forceClose. destruct (stream_at p s) as [st|]; [|done]. destruct (st_closeOnce st); [done|].
  etrans; [apply (new_set_stream p)|]. etrans; [apply (new_unregister p)|apply new_set_stream].
Qed.

Lemma new_removeStream p e s : only_new s (removeStream p e s).
Proof. unfold removeStream. etrans; [apply (new_unregister p)|]. destruct e; [apply new_forceClose|done]. Qed.

Lemma new_writeFrame f s : only_new s (writeFrame f s).2.
Proof. unfold writeFrame. by repeat case_match; apply new_same. Qed.

Lemma new_writeFrameJSON {A} `{Json A} t id (v : A) s : only_new s (writeFrameJSON t id v s).2.
Proof. unfold writeFrameJSON. by repeat case_match; apply new_same. Qed.

(** A stream is allocated and registered. *)
Lemma new_registered s s' id st : s'.(ss_heap) = s.(ss_heap) ++ [st] ->
  s'.(ss_streams) = <[id := length s.(ss_heap)]> s.(ss_streams) -> only_new s s'.
Proof.
  intros Hh Hm. split; [rewrite Hh, length_app; lia|]. rewrite Hm. intros id' p Hp.
  destruct (decide (id = id')) as [->|].
  - rewrite lookup_insert_eq in Hp. injection Hp as <-. by right.
  - rewrite lookup_insert_ne in Hp by done. by left.
Qed.

Lemma new_open_register r s : only_new s (open_register r s).2.
Proof.
  destruct r as [id exit dest port proto sel]. unfold open_register. cbn.
  destruct (ss_closed s), (ss_writer s); cbn;
    first [by eapply new_registered|split; cbn; [rewrite length_app; lia|by left]].
Qed.

Lemma new_open_send p r s : only_new s (open_send p r s).2.
Proof.
  unfold open_send. destruct (ss_writer s) as [k|]; [|done]. destruct (WriteJSON _ _ _ _) as [[e|] k']; cbn [snd].
  - etrans; [by apply (new_same s (with_writer (Some k') s))|].
    etrans; [apply (new_removeStream p None)|apply new_forceClose].
  - by apply new_same.
Qed.

Lemma new_open_wait p c s r s' : open_wait p c s = Some (r, s') -> only_new s s'.
Proof.
  unfold open_wait. destruct (stream_at p s) as [st|]; [|done]. destruct c as [| |e|].
  - destruct (st_ack st) as [|a rest]; [done|]. destruct (ack_OK a); intros [= <- <-];
      (etrans; [apply (new_set_stream p)|]); [apply new_set_stream|].
    etrans; [apply (new_removeStream p None)|apply new_forceClose].
  - destruct (st_done st); [|done]. intros [= <- <-]. apply (new_removeStream p None).
  - intros [= <- <-]. etrans; [apply (new_removeStream p None)|apply new_forceClose].
  - destruct (ss_done s); [|done]. by intros [= <- <-].
Qed.

Lemma new_readLoop_step r s : only_new s (outcome_session (readLoop_step r s)).
Proof.
  destruct r as [f|e]; [|done]. cbn [readLoop_step]. unfold readLoop_frame. case_bool_decide.
  { destruct (DecodeOpen f) as [request|e]; [|by apply new_writeFrameJSON]. cbn [alloc].
    destruct (ss_closed _) eqn:Ec; cbn [outcome_session].
    - etrans; [|apply new_forceClose]. split; cbn; [rewrite length_app; lia|by left].
    - unfold dispatch. destruct (_ <? 64)%nat; by eapply new_registered. }
  case_bool_decide.
  { destruct (DecodeJSON f) as [a [e|]]; [done|]. destruct (lookup_stream _ s) as [p|]; [|done].
    destruct (stream_at p s); [apply new_set_stream|done]. }
  case_bool_decide.
  { destruct (lookup_stream _ s) as [p|]; [by destruct (fr_Payload f)|]. apply new_writeFrame. }
  case_bool_decide.
  { destruct (lookup_stream _ s) as [p|]; [|done]. cbn. unfold remoteClose.
    destruct (stream_at p s); [|done]. destruct (st_remoteEOF _); [done|apply new_set_stream]. }
  case_bool_decide.
  { destruct (DecodeJSON f). destruct (lookup_stream _ s); [apply new_forceClose|done]. }
  by destruct (ss_control s).
Qed.

Lemma new_stream_methods p s :
  only_new s (Stream_Accept p s).2 /\ (forall m, only_new s (Stream_Reject p m s).2) /\
  only_new s (Stream_Close p s).2 /\ (forall n, only_new s (Stream_Read p n s).2).
Proof.
  unfold Stream_Accept, Stream_Reject, Stream_Close, Stream_CloseWrite, Stream_Read.
  destruct (stream_at p s) as [st|]; [|done]. split_and!.
  - destruct (st_done st); [done|].
    pose proof (new_writeFrameJSON FrameOpenAck st.(st_id) (mkAck true "" st.(st_remoteExit) "") s).
    destruct (writeFrameJSON _ _ _ s) as [[e|] s1]; [|done]. etrans; [done|apply new_forceClose].
  - intros m. pose proof (new_writeFrameJSON FrameOpenAck st.(st_id) (mkAck false m "" "") s).
    destruct (writeFrameJSON _ _ _ s) as [e s1]. etrans; [done|apply new_forceClose].
  - destruct (_ || _); [done|]. etrans; [apply (new_set_stream p)|apply new_writeFrame].
  - intros n. destruct (read_loop _ n st) as [r st']. apply new_set_stream.
Qed.

Lemma new_begin_shutdown err w : only_new w.(w_s) (begin_shutdown err w).(w_s).
Proof. unfold begin_shutdown. destruct (ss_close _); [done|]. by apply new_same. Qed.

Lemma step_new w e w' : step w e w' -> only_new w.(w_s) w'.(w_s).
Proof.
  intros Hstep. pose proof (fun p => new_stream_methods p w.(w_s)) as Hm.
  destruct Hstep as [conn handler s' E1 E|h|request p request' s' E|request e s' E
    |l1 p request l2 e s' _ E|l1 p l2 c r s' _ E|r E|p data r E Hr|f E|l1 p l2 s' _ E|l1 p l2 _ E
    |c r s' E|c p go s' E|p|p m|p n|p data _ E|l1 p data l2 st e s' Ew Ep E|A J t id v Ht|p| |p rest E|E];
    cbn [w_s at_session at_pc at_sending at_awaiting at_dispatching at_closing at_writing].
  - unfold Start in E. destruct (ss_closed _); [done|]. injection E as <-. by apply new_same.
  - by apply new_same.
  - pose proof (new_open_register request (w_s w)) as Ho. by rewrite E in Ho.
  - pose proof (new_open_register request (w_s w)) as Ho. by rewrite E in Ho.
  - pose proof (new_open_send p request (w_s w)) as Ho. by rewrite E in Ho.
  - by eapply new_open_wait.
  - pose proof (new_readLoop_step r (w_s w)) as Ho. destruct (readLoop_step r (w_s w)); try exact Ho.
    cbn in Ho |- *. etrans; [exact Ho|]. apply (new_begin_shutdown err (at_session s w)).
  - destruct Hr; cbn; [apply new_set_stream|done|apply new_forceClose].
  - done.
  - unfold dispatch in E. destruct (_ <? 64)%nat; simplify_eq. by apply new_same.
  - apply new_forceClose.
  - destruct c; cbn in E; repeat case_match; simplify_eq; by apply new_same.
  - destruct c; cbn in E; repeat case_match; simplify_eq; by apply new_same.
  - apply Hm.
  - apply Hm.
  - apply Hm.
  - done.
  - unfold write_chunk in E. pose proof (new_writeFrame (mkFrame FrameData st.(st_id) (take max_chunk data)) (w_s w)) as Ho.
    destruct (writeFrame _ _) as [[e1|] s1]; injection E as <- <-; [|done]. etrans; [exact Ho|apply new_forceClose].
  - apply new_writeFrameJSON.
  - apply Hm.
  - apply new_begin_shutdown.
  - apply new_forceClose.
  - by apply new_same.
Qed.

(** The chunk the read loop is about to deliver to [p]. *)
Definition pending (p : ptr) (w : World) : bytes :=
  match w.(w_pc) with Delivering q data => if decide (q = p) then data else [] | _ => [] end.

(** What [p], a stream with the ID [n], has been given so far. *)
Record delivered_to (n : Z) (p : ptr) (evs : list event) (w : World) : Prop := mk_delivered_to {
  dt_ok : world_ok w;
  dt_old : exists st, stream_at p w.(w_s) = Some st /\ st.(st_id) = n;
  dt_prefix : pipe_in p evs ++ pending p w `prefix_of` data_of n (frames evs);
  dt_exact : w.(w_s).(ss_streams) !! n = Some p -> pipe_in p evs ++ pending p w = data_of n (frames evs)
}.

Lemma frames_app evs evs' : frames (evs ++ evs') = frames evs ++ frames evs'.
Proof. apply bind_app. Qed.

Lemma pipe_in_snoc p evs e : pipe_in p (evs ++ [e]) = pipe_in p evs ++ bytes_in p e.
Proof. unfold pipe_in. rewrite bind_app. cbn. by rewrite app_nil_r. Qed.

Lemma data_of_snoc n evs e : data_of n (frames (evs ++ [e])) = data_of n (frames evs) ++ data_of n (received e).
Proof. unfold frames at 1. rewrite bind_app, data_of_app. cbn. by rewrite app_nil_r. Qed.

(** A data frame for a registered stream is empty or about to be delivered. *)
Lemma readLoop_data f s p : lookup_stream f.(fr_ID) s = Some p -> f.(fr_Type) = FrameData ->
  readLoop_step (Ok f) s = match f.(fr_Payload) with [] => Continue s | data => Deliver p data s end.
Proof. intros Hl Ht. cbn. unfold readLoop_frame. rewrite Ht, Hl. done. Qed.

Lemma pending_after_read p w o : w.(w_pc) = Reading ->
  pending p (after_read o w) = match o with Deliver q data _ => if decide (q = p) then data else [] | _ => [] end.
Proof. intros Hpc. unfold pending. by destruct o; cbn; rewrite ?Hpc. Qed.

Lemma delivered_read n p evs w r : delivered_to n p evs w -> w.(w_pc) = Reading ->
  let w' := after_read (readLoop_step r w.(w_s)) w in
  (w'.(w_s).(ss_streams) !! n = Some p -> w.(w_s).(ss_streams) !! n = Some p) ->
  let gained := match readLoop_step r w.(w_s) with Deliver q data _ => if decide (q = p) then data else [] | _ => [] end in
  pipe_in p evs ++ gained `prefix_of` data_of n (frames (evs ++ [Received r])) /\
  (w'.(w_s).(ss_streams) !! n = Some p ->
   pipe_in p evs ++ gained = data_of n (frames (evs ++ [Received r]))).
Proof.
  intros [Hok (st & Hst & Hid) Hpre Hex] Hpc w' Hback gained. rewrite data_of_snoc.
  assert (pending p w = []) as Hp0 by (unfold pending; by rewrite Hpc). rewrite Hp0, app_nil_r in Hpre, Hex.
  destruct r as [f|e]; cbn [received]; unfold gained.
  2:{ cbn. rewrite !app_nil_r. split; [done|]. auto. }
  destruct (decide (w.(w_s).(ss_streams) !! n = Some p)) as [Hreg|Hreg].
  - assert (gained = data_of n [f]) as Hg.
    { unfold gained, data_of. cbn. rewrite app_nil_r. case_decide as Hf.
      - destruct Hf as [Ht Hn]. pose proof (readLoop_data f w.(w_s) p) as Hr. unfold lookup_stream in Hr.
        rewrite Hn in Hr. specialize (Hr Hreg Ht). cbn in Hr. rewrite Hr.
        destruct (fr_Payload f); [done|]. by rewrite decide_True.
      - destruct (readLoop_frame f w.(w_s)) as [| |q data s'| |] eqn:E; try done.
        apply readLoop_frame_Deliver in E as (_ & _ & _ & Ht & Hl). case_decide; [|done]. subst q.
        destruct (ok_streams _ _ (wok_session _ Hok) _ _ Hl) as (st' & H1 & H2 & _).
        exfalso. apply Hf. split; [done|]. congruence. }
    fold gained. rewrite Hg, Hex by done. done.
  - assert (match readLoop_frame f w.(w_s) with Deliver q data _ => if decide (q = p) then data else [] | _ => [] end = []) as Hg.
    { destruct (readLoop_frame f w.(w_s)) as [| |q data s'| |] eqn:E; try done.
      apply readLoop_frame_Deliver in E as (_ & _ & _ & Ht & Hl). case_decide; [|done]. subst q.
      destruct (ok_streams _ _ (wok_session _ Hok) _ _ Hl) as (st' & H1 & H2 & _).
      assert (fr_ID f = n) as Hn by congruence. unfold lookup_stream in Hl. by rewrite Hn in Hl. }
    cbn [readLoop_step]. rewrite Hg, app_nil_r. split; [by apply prefix_app_r|]. intros H. by apply Hback in H.
Qed.

Lemma delivered_step n p evs w e w' : delivered_to n p evs w -> step w e w' -> delivered_to n p (evs ++ [e]) w'.
Proof.
  intros Hd Hstep. pose proof Hd as [Hok (st & Hst & Hid) Hpre Hex].
  destruct (step_pipe _ _ _ Hstep) as [Hages _]. destruct (step_new _ _ _ Hstep) as [_ Hnew].
  assert (w'.(w_s).(ss_streams) !! n = Some p -> w.(w_s).(ss_streams) !! n = Some p) as Hback.
  { intros H. destruct (Hnew _ _ H) as [|Hl]; [done|]. apply stream_at_lt in Hst. lia. }
  destruct (Hages p st Hst) as (st' & Hst' & L).
  assert (exists st, stream_at p w'.(w_s) = Some st /\ st.(st_id) = n) as Hold.
  { exists st'. split; [done|]. by rewrite (later_id _ _ L). }
  pose proof (step_ok _ _ _ Hok Hstep) as Hok'.
  assert (received e = [] -> bytes_in p e ++ pending p w' = pending p w -> delivered_to n p (evs ++ [e]) w') as Hsame.
  { intros Hr Hb. split; try done; rewrite pipe_in_snoc, <-app_assoc, Hb, data_of_snoc, Hr; cbn; rewrite app_nil_r; auto. }
  destruct Hstep as [conn handler s' E1 E|h|request q request' s' E|request e s' E
    |l1 q request l2 e s' _ E|l1 q l2 c r s' _ E|r E|q data r E Hr|f E|l1 q l2 s' _ E|l1 q l2 _ E
    |c r s' E|c q go s' E|q|q m|q k|q data _ E|l1 q data l2 sq e s' Ew Ep E|A J t id v Ht|q| |q rest E|E];
    try (apply Hsame; [done|reflexivity]).
  - apply Hsame; [done|]. unfold pending. cbn. by rewrite E1.
  - destruct (delivered_read n p evs w r Hd E Hback) as [H1 H2].
    split; try done; rewrite pipe_in_snoc, (pending_after_read p w) by done; cbn [bytes_in]; rewrite app_nil_r; auto.
  - destruct r as [s1|s1|].
    + apply Hsame; [done|]. unfold pending. cbn. by rewrite E, app_nil_r.
    + inversion Hr as [| |sq Hq Hdone]; subst.
      assert (pending p (after_deliver (Refused (forceClose q ErrClosed (w_s w))) w) = []) as Hn by done.
      split; try done; rewrite pipe_in_snoc, Hn, data_of_snoc; cbn; rewrite !app_nil_r.
      * etrans; [|exact Hpre]. by apply prefix_app_r.
      * intros H. rewrite <-(Hex (Hback H)). unfold pending. rewrite E. case_decide; [|by rewrite app_nil_r].
        subst q. exfalso. destruct (ok_streams _ _ (wok_session _ Hok) _ _ (Hback H)) as (st1 & S1 & _ & S2).
        pose proof (ok_stream _ _ _ _ (wok_session _ Hok) S1) as Hsok. rewrite Hq in S1. injection S1 as ->.
        rewrite (sok_done _ Hsok) in Hdone. congruence.
    + by apply Hsame.
  - apply Hsame; [done|]. unfold pending. cbn. by rewrite E.
  - apply Hsame; [by destruct e|]. by destruct e.
  - apply Hsame; [done|]. cbn. unfold begin_shutdown. by destruct (ss_close _).
Qed.

Lemma run_delivered n p w0 evs w : run w0 evs w -> delivered_to n p [] w0 -> delivered_to n p evs w.
Proof. intros Hrun H0. induction Hrun as [|evs w e w' Hrun IH Hp Hstep]; [done|]. by eapply delivered_step. Qed.

(* ------------------------------------------------------------------ *)
(** ** From one session to the other *)

Lemma frame_bytes_prefix f g x y : frame_ok f -> frame_ok g ->
  frame_bytes f ++ x = frame_bytes g ++ y -> f = g /\ x = y.
Proof.
  intros Hf Hg E. pose proof (ReadFrame_frame_bytes f x EOF Hf) as H1.
  rewrite E, (ReadFrame_frame_bytes g y EOF Hg) in H1. by injection H1 as <- <-.
Qed.

(** Reading what arrived of a sequence of frames gives its first frames; all of
    them when everything arrived. *)
Lemma read_frames_sent m : forall fs tail arrived e gs r,
  Forall frame_ok fs -> partial tail -> arrived `prefix_of` concat (map frame_bytes fs) ++ tail ->
  read_frames m (mkReader arrived e) = (gs, r) ->
  gs `prefix_of` fs /\ (arrived = concat (map frame_bytes fs) ++ tail -> r <> None -> gs = fs).
Proof.
  induction m as [|m IH]; intros fs tail arrived e gs r Hfs Ht [more Hmore] Hr; cbn [read_frames] in Hr.
  { injection Hr as <- <-. split; [apply prefix_nil|done]. }
  destruct (ReadFrame (mkReader arrived e)) as [[f|e1] r1] eqn:E.
  - apply ReadFrame_Ok_bytes in E as (Hf & Hb & _). cbn [rd_buf] in Hb. subst arrived.
    destruct (read_frames m r1) as [hs r2] eqn:Er. injection Hr as <- <-.
    rewrite <-app_assoc in Hmore. destruct Hfs as [|g fs Hg Hfs].
    + destruct Ht as (h & rest & Hh & Hne & E). cbn [map concat app] in Hmore. rewrite Hmore in E.
      destruct (frame_bytes_prefix h f [] (rd_buf r1 ++ more ++ rest)) as [_ Hn]; [done|done|by rewrite app_nil_r, E, <-!app_assoc|].
      symmetry in Hn. apply app_nil in Hn as [_ Hn]. by apply app_nil in Hn as [_ ->].
    + cbn [map concat] in Hmore. rewrite <-app_assoc in Hmore.
      destruct (frame_bytes_prefix g f _ _ Hg Hf Hmore) as [-> Hrest]. destruct r1 as [buf er]. cbn [rd_buf] in *.
      destruct (IH fs tail buf er hs r2 Hfs Ht) as [H1 H2]; [by exists more|done|].
      split; [by apply prefix_cons|]. cbn [map concat]. rewrite <-app_assoc.
      intros Heq Hne. apply app_inv_head in Heq. by rewrite (H2 Heq Hne).
  - injection Hr as <- <-. split; [apply prefix_nil|]. intros -> _. destruct Hfs as [|g fs Hg Hfs]; [done|].
    cbn [map concat] in E. by rewrite <-app_assoc, ReadFrame_frame_bytes in E.
Qed.

(** Two sessions at the ends of one connection: one ran from [a0] to [a] and
    sent the bytes [sent], of which [arrived] have arrived; the other ran from
    its start to [b0], where it has registered the stream [p] under the ID [n]
    and nothing has come for it yet, and on to [b], and its read loop has
    received the frames in [arrived], and then the error [r] if there is one. *)
Record hop (n : Z) (a0 : World) (evsA : list event) (a b0 : World) (evs : list event) (b : World) (p : ptr)
  (sent arrived : bytes) (r : option error) : Prop := mk_hop {
  hop_writes : run a0 evsA a;
  hop_started : a0.(w_pc) <> NotStarted;
  hop_sent : exists k0 k, a0.(w_s).(ss_writer) = Some k0 /\ a.(w_s).(ss_writer) = Some k /\
    k.(sk_out) = k0.(sk_out) ++ sent;
  hop_arrived : arrived `prefix_of` sent;
  hop_reads : run b0 evs b;
  hop_registered : b0.(w_s).(ss_streams) !! n = Some p;
  hop_reader : exists config evs0 m e, run (init config) evs0 b0 /\
    (pipe_of p b0.(w_s) = [] /\ pending p b0 = [] /\ data_of n (frames evs0) = []) /\
    read_frames m (mkReader arrived e) = (frames (evs0 ++ evs), r)
}.

(** What was sent, and what of it the read loop of the other side received. *)
Lemma hop_wire n a0 evsA a b0 evs b p sent arrived r : hop n a0 evsA a b0 evs b p sent arrived r ->
  exists evs0 fs, (forall m, data_of m fs = written a.(w_s) m evsA) /\ closes_where a0 evsA a a.(w_s) fs /\
    frames (evs0 ++ evs) `prefix_of` fs /\ (arrived = sent -> r <> None -> frames (evs0 ++ evs) = fs) /\
    data_of n (frames evs0) = [] /\ delivered_to n p [] b0 /\ pipe_of p b0.(w_s) = [].
Proof.
  intros [HA Hstarted (k0 & k & Hk0 & Hk & Hsent) Harrived HB Hreg
    (config & evs0 & m & e & HB0 & (Hp0 & Hpend & Hd0) & Hread)].
  destruct (run_sends _ _ _ _ a.(w_s) HA Hstarted Hk0 ltac:(done)) as (_ & fs & Hfs & Hdata & Hcl).
  unfold sends in Hfs. rewrite Hk0, Hk in Hfs. destruct Hfs as (Hok & tail & Ho & Ht & _).
  rewrite Hsent in Ho. apply app_inv_head in Ho. subst sent.
  destruct (read_frames_sent _ _ _ _ _ _ _ Hok Ht Harrived Hread) as [Hgs Hall].
  pose proof (run_ok _ _ _ HB0) as Hok0. destruct (ok_streams _ _ (wok_session _ Hok0) _ _ Hreg) as (st & Hst & Hid & _).
  exists evs0, fs. split_and!; try done. split; [done|by exists st|by rewrite Hpend|by rewrite Hpend].
Qed.

(** What the frames that arrived carry for the stream is a beginning of what was
    written, or all of it; and the reading side has passed it on. *)
Lemma hop_frames n a0 evsA a b0 evs b p sent arrived r : hop n a0 evsA a b0 evs b p sent arrived r ->
  exists fs, data_of n (frames evs) = data_of n fs /\ data_of n fs `prefix_of` written a.(w_s) n evsA /\
    (arrived = sent -> r <> None -> data_of n fs = written a.(w_s) n evsA) /\
    pipe_out p evs ++ pipe_of p b.(w_s) `prefix_of` data_of n (frames evs) /\
    (b.(w_s).(ss_streams) !! n = Some p -> b.(w_pc) = Reading ->
     pipe_out p evs ++ pipe_of p b.(w_s) = data_of n (frames evs)).
Proof.
  intros H. destruct (hop_wire _ _ _ _ _ _ _ _ _ _ _ H) as (evs0 & fs & Hdata & _ & Hpre & Hall & Hd0 & H0 & Hp0).
  destruct H as [_ _ _ _ HB _ _]. pose proof (run_delivered _ _ _ _ _ HB H0) as [_ _ Hpre' Hex].
  pose proof (run_pipe_from _ _ _ HB p) as Hpipe. rewrite Hp0 in Hpipe. cbn in Hpipe.
  assert (data_of n (frames (evs0 ++ evs)) = data_of n (frames evs)) as Hsplit.
  { by rewrite frames_app, data_of_app, Hd0. }
  exists (frames (evs0 ++ evs)). rewrite <-!Hdata, Hsplit, <-Hpipe. split_and!; [done| | | |].
  - rewrite <-Hsplit. by apply data_of_prefix.
  - intros Harr Hr. by rewrite <-Hsplit, (Hall Harr Hr).
  - etrans; [|exact Hpre']. by apply prefix_app_r.
  - intros Hb Hpc. rewrite <-(Hex Hb). unfold pending. by rewrite Hpc, app_nil_r.
Qed.

Lemma hop_prefix n a0 evsA a b0 evs b p sent arrived r : hop n a0 evsA a b0 evs b p sent arrived r ->
  pipe_out p evs ++ pipe_of p b.(w_s) `prefix_of` written a.(w_s) n evsA.
Proof. intros H. destruct (hop_frames _ _ _ _ _ _ _ _ _ _ _ H) as (fs & E & Hf & _ & Hp & _). etrans; [exact Hp|by rewrite E]. Qed.

Lemma hop_all n a0 evsA a b0 evs b p sent arrived r : hop n a0 evsA a b0 evs b p sent arrived r ->
  arrived = sent -> r <> None -> b.(w_s).(ss_streams) !! n = Some p -> b.(w_pc) = Reading ->
  pipe_out p evs ++ pipe_of p b.(w_s) = written a.(w_s) n evsA.
Proof.
  intros H Ha Hr Hb Hpc. destruct (hop_frames _ _ _ _ _ _ _ _ _ _ _ H) as (fs & E & _ & Hall & _ & Hp).
  by rewrite (Hp Hb Hpc), E, Hall.
Qed.

(** C2: what is read at one end was written at the other: two sessions run at
    the ends of one connection, each in any interleaving of its goroutines and
    callers; part of the bytes one of them sent has arrived at the other, whose
    read loop has received the frames in them.  Then what has been read from a
    stream with the ID [n] is a beginning of what was written to the streams
    with that ID: nothing is lost in between, added, reordered or taken from
    another stream.  When everything arrived and the stream is still registered,
    what was read and what it still holds are together all that was written. *)
Theorem read_was_written (n : Z) (a0 a b0 b : World) (evsA evs : list event) (p : ptr) (sent arrived : bytes)
  (r : option error) (H : hop n a0 evsA a b0 evs b p sent arrived r) :
  pipe_out p evs `prefix_of` written a.(w_s) n evsA /\
  (arrived = sent -> r <> None -> b.(w_s).(ss_streams) !! n = Some p -> b.(w_pc) = Reading ->
   pipe_out p evs ++ pipe_of p b.(w_s) = written a.(w_s) n evsA).
Proof.
  split; [|by eapply hop_all]. etrans; [|by eapply hop_prefix]. by apply prefix_app_r.
Qed.

(** A run: two bytes are written at one end, and read at the other. *)
Definition demo_writing : World := at_writing [(0%nat, [x61; x62])] demo_opened.
Definition demo_wrote : World :=
  at_writing [] (at_session (write_chunk 0 1 [x61; x62] demo_opened.(w_s)).2 demo_writing).
Definition demo_read : World := at_session (Stream_Read 0 8 demo_delivered.(w_s)).2 demo_delivered.
Definition demo_sent : bytes := frame_bytes (mkFrame FrameData 1 [x61; x62]).

#[local] Opaque max_chunk.

Lemma step_wrote w p data st s' : w.(w_writing) = [(p, data)] -> stream_at p w.(w_s) = Some st ->
  write_chunk p st.(st_id) data w.(w_s) = (None, s') -> drop max_chunk data = [] -> take max_chunk data = data ->
  step w (Wrote p data) (at_writing [] (at_session s' w)).
Proof.
  intros Ew Hst Hc Hd Ht. pose proof (step_write_chunk w [] p data [] st None s' Ew Hst Hc) as H.
  unfold chunk_event, still_writing in H. by rewrite Hd, Ht in H.
Qed.

Lemma demo_run_wrote : run demo_opened [Internal; Wrote 0 [x61; x62]] demo_wrote.
Proof.
  apply (run_snoc _ [Internal] demo_writing (Wrote 0 [x61; x62]) demo_wrote); [|reflexivity|].
  - apply (run_snoc _ [] demo_opened Internal demo_writing); [apply run_nil|reflexivity|].
    apply (step_write_begin demo_opened 0 [x61; x62]); [discriminate|reflexivity].
  - apply (step_wrote demo_writing 0 [x61; x62] (newStream 1 (ss_config demo_opened.(w_s)))
      (write_chunk 0 1 [x61; x62] demo_opened.(w_s)).2);
      vm_compute; reflexivity.
Qed.

Lemma demo_run_read :
  run demo_opened [Received demo_data; Delivered 0 [x61; x62]; ReadBy 0 (RData [x61; x62])] demo_read.
Proof.
  apply (run_snoc _ [Received demo_data; Delivered 0 [x61; x62]] demo_delivered); [|reflexivity|].
  - apply (demo_run_data demo_opened []). apply run_nil.
  - apply (step_stream_read demo_delivered 0 8).
Defined.

Lemma demo_hop : hop 1 demo_opened [Internal; Wrote 0 [x61; x62]] demo_wrote demo_opened
  [Received demo_data; Delivered 0 [x61; x62]; ReadBy 0 (RData [x61; x62])] demo_read 0 demo_sent demo_sent (Some EOF).
Proof.
  split.
  - apply demo_run_wrote.
  - discriminate.
  - exists demo_sink, (mkSink demo_sent None EOF). split_and!; [reflexivity|vm_compute; reflexivity|reflexivity].
  - reflexivity.
  - apply demo_run_read.
  - reflexivity.
  - exists demo_config, [Internal; Internal], 2%nat, EOF. split; [apply demo_run_opened|].
    split; [split; [reflexivity|split; reflexivity]|vm_compute; reflexivity].
Qed.

Lemma read_was_written_witness :
  [x61; x62] `prefix_of` written demo_wrote.(w_s) 1 [Internal; Wrote 0 [x61; x62]] /\
  [x61; x62] ++ pipe_of 0 demo_read.(w_s) = written demo_wrote.(w_s) 1 [Internal; Wrote 0 [x61; x62]].
Proof.
  destruct (read_was_written _ _ _ _ _ _ _ _ _ _ _ demo_hop) as [H1 H2].
  split; [exact H1|]. apply H2; [reflexivity|discriminate|reflexivity|reflexivity].
Defined.

(* ------------------------------------------------------------------ *)
(** ** [Write] as steps *)

Lemma chunk_run w l p st data e s' : w.(w_panicked) = false -> stream_at p w.(w_s) = Some st ->
  write_chunk p st.(st_id) data w.(w_s) = (e, s') ->
  run (at_writing ((p, data) :: l) w) [chunk_event p data e]
    (at_writing (still_writing p data e ++ l) (at_session s' w)).
Proof.
  intros Hlive Hst Hc. apply (run_snoc _ [] (at_writing ((p, data) :: l) w)); [apply run_nil|done|].
  exact (step_write_chunk (at_writing ((p, data) :: l) w) [] p data l st e s' eq_refl Hst Hc).
Qed.

Lemma write_loop_steps fuel : forall w l p st data n m e s', (length data <= fuel)%nat -> data <> [] ->
  w.(w_panicked) = false -> stream_at p w.(w_s) = Some st ->
  write_loop fuel p st.(st_id) data n w.(w_s) = (m, e, s') ->
  exists evs, run (at_writing ((p, data) :: l) w) evs (at_writing l (at_session s' w)).
Proof.
  induction fuel as [|k IH]; intros w l p st [|b data] n m e s' Hl Hne Hlive Hst Hw; try done;
    [cbn in Hl; lia|]. cbn [write_loop] in Hw. set (d := b :: data) in *.
  destruct (write_chunk p st.(st_id) d w.(w_s)) as [e1 s1] eqn:Ec.
  pose proof (chunk_run w l p st d e1 s1 Hlive Hst Ec) as Hrun1. unfold still_writing in Hrun1.
  destruct e1 as [e1|]; [injection Hw as <- <- <-; by eexists|].
  destruct (drop max_chunk d) as [|b1 rest] eqn:Ed.
  - assert (s' = s1) as -> by (destruct k; cbn in Hw; by injection Hw). by eexists.
  - destruct (ev_write_chunk p st.(st_id) d w.(w_s)) as [Hages _]. rewrite Ec in Hages.
    destruct (Hages p st Hst) as (st1 & Hst1 & L1). rewrite <-(later_id _ _ L1) in Hw.
    destruct (IH (at_session s1 w) l p st1 (b1 :: rest) _ _ _ _ ltac:(
      pose proof max_chunk_pos; apply (f_equal length) in Ed; rewrite length_drop in Ed; cbn [length] in *; lia)
      ltac:(done) Hlive Hst1 Hw) as [evs Hrun].
    eexists. by eapply run_trans.
Qed.

(** A [Write] that nothing interrupts does what [Stream_Write] says. *)
Lemma Stream_Write_steps w p data : w.(w_panicked) = false ->
  exists evs, run w evs (at_session (Stream_Write p data w.(w_s)).2 w).
Proof.
  intros Hlive. assert (at_session w.(w_s) w = w) as Hsame by by destruct w.
  assert (exists evs, run w evs (at_session w.(w_s) w)) as Hnone by (rewrite Hsame; exists []; apply run_nil).
  unfold Stream_Write. destruct data as [|b data]; [done|].
  destruct (stream_at p w.(w_s)) as [st|] eqn:Hst; [|done].
  destruct (st_writeErr st) eqn:He; [done|]. destruct (st_closed st) eqn:Hc; [done|].
  destruct (write_loop _ _ _ _ _ _) as [[m e] s'] eqn:Ew.
  destruct (write_loop_steps _ w w.(w_writing) p st (b :: data) _ _ _ _ ltac:(done) ltac:(done) Hlive Hst Ew) as [evs Hrun].
  exists ([Internal] ++ evs). eapply run_trans.
  - eapply (run_snoc _ []); [apply run_nil|done|]. apply (step_write_begin w p (b :: data)); [done|].
    unfold may_write. by rewrite Hst, He, Hc.
  - destruct w. exact Hrun.
Qed.
