(* ===== verification/SessionEof.v ===== *)
(** * What the end of a stream means

    [Read] reports [io.EOF] when the peer's close frame has come and everything
    before it has been read.  The first half shows where the end of a stream
    comes from: only a close frame received for it, as long as the stream was not
    closed by force.  The second half follows that close frame back to the other
    session: to [Close] of a stream with the ID, or to its read loop, which
    answers data for a stream it does not have with a close frame. *)
From S2P Require Import Prelude GoIO GoStrings GoTime Json Codec Protocol Session SessionSteps SessionProps SessionWire.

(* ------------------------------------------------------------------ *)
(** ** Where the end of a stream comes from *)

(** No stream ends, except by force. *)
Definition endless (s s' : Session) : Prop :=
  forall p st, stream_at p s = Some st -> exists st', stream_at p s' = Some st' /\
    (st'.(st_closeOnce) = false -> st.(st_closeOnce) = false /\ st'.(st_remoteEOF) = st.(st_remoteEOF)).

#[export] Instance endless_preorder : PreOrder endless.
Proof.
  split; [intros s p st Hp; exists st; by split|]. intros a b c H1 H2 p st Hp.
  destruct (H1 p st Hp) as (st1 & Hp1 & K1). destruct (H2 p st1 Hp1) as (st2 & Hp2 & K2).
  exists st2. split; [done|]. intros H. destruct (K2 H) as [Hc ->]. by apply K1.
Qed.

Lemma end_heap s s' : s'.(ss_heap) = s.(ss_heap) -> endless s s'.
Proof. intros H p st Hp. exists st. unfold stream_at in *. by rewrite H. Qed.

Lemma end_set p st st' s : stream_at p s = Some st ->
  (st'.(st_closeOnce) = false -> st.(st_closeOnce) = false /\ st'.(st_remoteEOF) = st.(st_remoteEOF)) ->
  endless s (set_stream p st' s).
Proof.
  intros Hp K q st0 Hq. rewrite stream_at_set by (by eapply stream_at_lt).
  case_decide; subst; [|by exists st0]. rewrite Hp in Hq. injection Hq as <-. by exists st'.
Qed.

Lemma end_alloc st s : endless s (alloc st s).2.
Proof. intros p st0 Hp. exists st0. split; [|done]. unfold stream_at. cbn. by apply lookup_app_l_Some. Qed.

Lemma end_forceClose p e s : endless s (forceClose p e s).
Proof.
  destruct (forceClose_cases p e s) as [[-> _]|(st & Hp & Hc & ->)]; [done|].
  trans (set_stream p (with_done (force_fields e st)) s); [by apply (end_set _ st)|by apply end_heap].
Qed.

Lemma end_removeStream p e s : endless s (removeStream p e s).
Proof.
  unfold removeStream. trans (unregister p s); [apply end_heap, unregister_heap|].
  destruct e; [apply end_forceClose|done].
Qed.

Lemma end_writeFrame f s : endless s (writeFrame f s).2.
Proof. apply end_heap. unfold writeFrame. by repeat case_match. Qed.

Lemma end_writeFrameJSON {A} `{Json A} t id (v : A) s : endless s (writeFrameJSON t id v s).2.
Proof. apply end_heap. unfold writeFrameJSON. by repeat case_match. Qed.

Lemma end_open_register r s : endless s (open_register r s).2.
Proof.
  destruct r as [id exit dest port proto sel]. unfold open_register.
  set (s1 := with_nextID _ s). trans s1; [by apply end_heap|].
  match goal with |- context [alloc ?st ?s] => trans (alloc st s).2; [apply end_alloc|] end.
  cbn [alloc snd]. repeat case_match; cbn; by apply end_heap.
Qed.

Lemma end_open_send p r s : endless s (open_send p r s).2.
Proof.
  unfold open_send. destruct (ss_writer s); [|done]. destruct (WriteJSON _ _ _ _) as [[e|] w]; cbn [snd];
    (trans (with_writer (Some w) s); [by apply end_heap|]); [|done].
  etrans; [apply (end_removeStream p None)|apply end_forceClose].
Qed.

Lemma end_open_wait p c s r s' : open_wait p c s = Some (r, s') -> endless s s'.
Proof.
  unfold open_wait. destruct (stream_at p s) as [st|] eqn:E; [|done]. destruct c as [| |e|].
  - destruct (st_ack st) as [|a rest] eqn:Ea; [done|].
    assert (endless s (set_stream p (with_ack rest st) s)) as Hev by (by apply (end_set _ st)).
    destruct (ack_OK a); intros [= <- <-]; (etrans; [exact Hev|]).
    + apply (end_set _ (with_ack rest st)); [|done].
      rewrite stream_at_set by (by eapply stream_at_lt). by apply decide_True.
    + etrans; [apply (end_removeStream p None)|apply end_forceClose].
  - destruct (st_done st); [|done]. intros [= <- <-]. apply (end_removeStream p None).
  - intros [= <- <-]. etrans; [apply (end_removeStream p None)|apply end_forceClose].
  - destruct (ss_done s); [|done]. by intros [= <- <-].
Qed.

Lemma read_loop_flags fuel : forall n st,
  (read_loop fuel n st).2.(st_closeOnce) = st.(st_closeOnce) /\
  (read_loop fuel n st).2.(st_remoteEOF) = st.(st_remoteEOF).
Proof.
  induction fuel as [|k IH]; intros n st; cbn [read_loop]; repeat case_match; try done.
  match goal with |- context [read_loop k n ?x] => exact (IH n x) end.
Qed.

Lemma end_stream_methods p s :
  endless s (Stream_Accept p s).2 /\ (forall m, endless s (Stream_Reject p m s).2) /\
  endless s (Stream_Close p s).2 /\ (forall n, endless s (Stream_Read p n s).2).
Proof.
  unfold Stream_Accept, Stream_Reject, Stream_Close, Stream_CloseWrite, Stream_Read.
  destruct (stream_at p s) as [st|] eqn:E; [|done]. split_and!.
  - destruct (st_done st); [done|].
    pose proof (end_writeFrameJSON FrameOpenAck st.(st_id) (mkAck true "" st.(st_remoteExit) "") s).
    destruct (writeFrameJSON _ _ _ s) as [[e|] s1]; [|done]. etrans; [done|apply end_forceClose].
  - intros m. pose proof (end_writeFrameJSON FrameOpenAck st.(st_id) (mkAck false m "" "") s).
    destruct (writeFrameJSON _ _ _ s) as [e s1]. etrans; [done|apply end_forceClose].
  - destruct (_ || _); [done|]. etrans; [|apply end_writeFrame]. by apply (end_set _ st).
  - intros n. destruct (read_loop_flags (length (st_reads st)) n st) as [H1 H2].
    destruct (read_loop _ n st) as [r st']. apply (end_set _ st); [done|]. cbn in *. by rewrite H1, H2.
Qed.

Lemma end_begin_shutdown err w : endless w.(w_s) (begin_shutdown err w).(w_s).
Proof. apply end_heap, begin_shutdown_heap. Qed.

(** In an iteration of the read loop a stream ends only by its close frame. *)
Lemma end_readLoop_step r s :
  endless s (outcome_session (readLoop_step r s)) \/
  exists f p, r = Ok f /\ f.(fr_Type) = FrameClose /\ lookup_stream f.(fr_ID) s = Some p /\
    readLoop_step r s = Continue (remoteClose p s).
Proof.
  destruct r as [f|e]; [|by left]. cbn [readLoop_step]. unfold readLoop_frame. case_bool_decide.
  { left. destruct (DecodeOpen f) as [request|e]; [|by apply end_writeFrameJSON].
    pose proof (end_alloc (with_request request (newStream (or_RequestID request) (ss_config s))) s) as Ha.
    destruct (alloc _ s) as [p s1]. etrans; [exact Ha|]. destruct (ss_closed s1); [apply end_forceClose|].
    unfold dispatch. destruct (_ <? 64)%nat; by apply end_heap. }
  case_bool_decide.
  { left. destruct (DecodeJSON f) as [a [e|]]; [done|]. destruct (lookup_stream _ s) as [p|]; [|done].
    destruct (stream_at p s) as [st|] eqn:E; [|done]. apply (end_set _ st); [done|]. unfold push_ack. by destruct (st_ack st). }
  case_bool_decide.
  { left. destruct (lookup_stream _ s) as [p|]; [by destruct (fr_Payload f)|]. apply end_writeFrame. }
  case_bool_decide.
  { destruct (lookup_stream _ s) as [p|] eqn:El; [|by left]. right. by exists f, p. }
  left. case_bool_decide.
  { destruct (DecodeJSON f). destruct (lookup_stream _ s); [apply end_forceClose|done]. }
  by destruct (ss_control s).
Qed.

Lemma step_end w e w' : step w e w' ->
  endless w.(w_s) w'.(w_s) \/
  exists f p, e = Received (Ok f) /\ f.(fr_Type) = FrameClose /\ lookup_stream f.(fr_ID) w.(w_s) = Some p /\
    w.(w_pc) = Reading /\ w' = at_session (remoteClose p w.(w_s)) w.
Proof.
  intros Hstep. pose proof (fun p => end_stream_methods p w.(w_s)) as Hm.
  destruct Hstep as [conn handler s' E1 E|h|request p request' s' E|request e s' E
    |l1 p request l2 e s' _ E|l1 p l2 c r s' _ E|r E|p data r E Hr|f E|l1 p l2 s' _ E|l1 p l2 _ E
    |c r s' E|c p go s' E|p|p m|p n|p data _ E|l1 p data l2 st e s' Ew Ep E|A J t id v Ht|p| |p rest E|E].
  7:{ destruct (end_readLoop_step r (w_s w)) as [Ho|(f & p & -> & Ht & Hl & Ho)].
      - left. destruct (readLoop_step r (w_s w)); try exact Ho.
        cbn in Ho |- *. etrans; [exact Ho|]. apply (end_begin_shutdown err (at_session s w)).
      - right. exists f, p. by rewrite Ho. }
  all: left; cbn [w_s at_session at_pc at_sending at_awaiting at_dispatching at_closing at_writing].
  - unfold Start in E. destruct (ss_closed _); [done|]. injection E as <-. by apply end_heap.
  - by apply end_heap.
  - pose proof (end_open_register request (w_s w)) as Ho. by rewrite E in Ho.
  - pose proof (end_open_register request (w_s w)) as Ho. by rewrite E in Ho.
  - pose proof (end_open_send p request (w_s w)) as Ho. by rewrite E in Ho.
  - by eapply end_open_wait.
  - destruct Hr as [st H| |]; cbn; [by apply (end_set _ st)|done|apply end_forceClose].
  - done.
  - apply end_heap. unfold dispatch in E. by destruct (_ <? 64)%nat; simplify_eq.
  - apply end_forceClose.
  - apply end_heap. destruct c; cbn in E; repeat case_match; by simplify_eq.
  - apply end_heap. destruct c; cbn in E; repeat case_match; by simplify_eq.
  - apply Hm.
  - apply Hm.
  - apply Hm.
  - done.
  - unfold write_chunk in E. pose proof (end_writeFrame (mkFrame FrameData st.(st_id) (take max_chunk data)) (w_s w)) as Ho.
    destruct (writeFrame _ _) as [[e1|] s1]; injection E as <- <-; [|done]. etrans; [exact Ho|apply end_forceClose].
  - apply end_writeFrameJSON.
  - apply Hm.
  - apply end_begin_shutdown.
  - apply end_forceClose.
  - by apply end_heap.
Qed.

(** The close frame that ended [p], a stream with the ID [n], if it has ended:
    everything the data frames before it carried has been delivered. *)
Definition ended_by (n : Z) (p : ptr) (evs : list event) : Prop :=
  exists evs1 f evs2, evs = evs1 ++ Received (Ok f) :: evs2 /\ f.(fr_Type) = FrameClose /\ f.(fr_ID) = n /\
    pipe_in p evs = data_of n (frames evs1).

Definition end_known (n : Z) (p : ptr) (evs : list event) (w : World) : Prop :=
  forall st, stream_at p w.(w_s) = Some st -> st.(st_closeOnce) = false -> st.(st_remoteEOF) = true -> ended_by n p evs.

(** Nothing is delivered to a stream after its end. *)
Lemma ended_still n p evs w e w' st : world_ok w -> stream_at p w.(w_s) = Some st -> st.(st_remoteEOF) = true ->
  step w e w' -> ended_by n p evs -> ended_by n p (evs ++ [e]).
Proof.
  intros Hok Hst Heof Hstep (evs1 & f & evs2 & -> & Ht & Hn & Hp).
  exists evs1, f, (evs2 ++ [e]). split_and!; [by rewrite <-app_assoc|done..|].
  rewrite pipe_in_snoc, Hp. destruct e as [| |q data| |]; try apply app_nil_r. cbn. case_decide; [|apply app_nil_r].
  subst q. exfalso. inversion Hstep as [| | | | | | |q d r E Hr He| | | | | | | | | |? ? ? ? ? e ? ? ? ? He| | | | |]; subst.
  - destruct r; try done. cbn in He. injection He as <- <-. inversion Hr as [st1 H1 H2| |]; subst.
    rewrite Hst in H1. injection H1 as <-.
    pose proof (sok_reads_closed _ (ok_stream _ _ _ _ (wok_session _ Hok) Hst)). congruence.
  - by destruct e.
Qed.

Lemma run_end_known n p w0 evs w : run w0 evs w -> delivered_to n p [] w0 ->
  (forall st, stream_at p w0.(w_s) = Some st -> st.(st_remoteEOF) = false) -> end_known n p evs w.
Proof.
  intros Hrun H0 Hopen. induction Hrun as [|evs w e w' Hrun IH Hlive Hstep]; intros st Hst Hc Heof.
  { rewrite (Hopen _ Hst) in Heof. done. }
  pose proof (run_delivered _ _ _ _ _ Hrun H0) as [Hok (st0 & Hst0 & Hid) _ Hex].
  assert (st0.(st_closeOnce) = false -> st0.(st_remoteEOF) = true -> ended_by n p (evs ++ [e])) as Hold.
  { intros Hc0 He0. eapply ended_still; [done..|]. by apply (IH st0). }
  destruct (step_end _ _ _ Hstep) as [Hend|(f & q & -> & Ht & Hl & Hpc & ->)].
  { destruct (Hend p st0 Hst0) as (st' & Hst' & K). rewrite Hst in Hst'. injection Hst' as <-.
    destruct (K Hc) as [Hc0 Heq]. apply Hold; congruence. }
  cbn in Hst. unfold remoteClose in Hst.
  destruct (ok_streams _ _ (wok_session _ Hok) _ _ Hl) as (st1 & H1 & Hid1 & Hc1). rewrite H1 in Hst.
  destruct (decide (q = p)) as [->|Hne].
  - rewrite Hst0 in H1. injection H1 as <-. destruct (st_remoteEOF st0) eqn:He0; [by apply Hold|].
    assert (pipe_in p evs ++ pending p w = data_of n (frames evs)) as Hall.
    { apply Hex. rewrite <-Hid, Hid1. exact Hl. }
    unfold pending in Hall. rewrite Hpc, app_nil_r in Hall. exists evs, f, []. split_and!; [done|done|congruence|].
    by rewrite pipe_in_snoc, Hall, app_nil_r.
  - assert (st = st0) as ->.
    { destruct (st_remoteEOF st1); [congruence|]. rewrite stream_at_set in Hst by (by eapply stream_at_lt).
      rewrite decide_False in Hst by done. congruence. }
    by apply Hold.
Qed.

(* ------------------------------------------------------------------ *)
(** ** What a reader may conclude from it *)

Lemma Read_eof p k s st : stream_at p s = Some st -> stream_ok st -> st.(st_readErr) = None ->
  (Stream_Read p k s).1 = RError EOF -> pipe_of p s = [] /\ st.(st_remoteEOF) = true /\ st.(st_closeOnce) = false.
Proof.
  intros Hst Hok Herr Hr. unfold Stream_Read in Hr. unfold pipe_of, pipe. rewrite Hst in *.
  pose proof (proj1 (sok_err _ Hok) Herr) as Hc. pose proof (sok_chunks _ Hok) as Hch.
  rewrite <-(sok_reads_closed _ Hok).
  destruct (st_readBuf st) eqn:Eb; [|destruct (st_reads st); cbn in Hr; rewrite Eb in Hr; done].
  destruct (st_reads st) as [|d rest] eqn:Er; cbn in Hr; rewrite Eb, Herr, Er in Hr.
  - destruct (st_reads_closed st); [done|]. by destruct (st_done st).
  - apply Forall_cons in Hch as [Hd _]. destruct d as [|b d]; [done|].
    destruct (length rest); cbn in Hr; done.
Qed.

(** C3: the end of a stream is the end of what the peer sent before it closed:
    when [Read] reports [io.EOF] on a stream that was not closed by force, the
    other session had taken a step that sends a close frame with the stream's ID -
    [Close] of a stream that has the ID, or its read loop's answer to data for a
    stream it does not have - and everything that had been written to the streams
    with that ID by then has been read, and nothing else.  So a transfer that
    the peer closed after its last [Write] was received in full. *)
Theorem end_of_stream (n : Z) (a0 a b0 b : World) (evsA evs : list event) (p : ptr) (sent arrived : bytes)
  (r : option error) (st : Stream) (k : nat)
  (H : hop n a0 evsA a b0 evs b p sent arrived r)
  (Hopen : exists st0, stream_at p b0.(w_s) = Some st0 /\ st0.(st_remoteEOF) = false)
  (Hst : stream_at p b.(w_s) = Some st) (Hforce : st.(st_readErr) = None)
  (Heof : (Stream_Read p k b.(w_s)).1 = RError EOF) :
  exists evs1 w1 e w2 evs2 id, run a0 evs1 w1 /\ step w1 e w2 /\ run w2 evs2 a /\ evsA = evs1 ++ e :: evs2 /\
    wrap_u 64 id = n /\ closing id w1 e w2 /\ pipe_out p evs = written a.(w_s) n evs1.
Proof.
  destruct (hop_wire _ _ _ _ _ _ _ _ _ _ _ H) as (evs0 & fs & Hdata & Hcl & [rest Hpre] & _ & Hd0 & H0 & Hp0).
  destruct H as [_ _ _ _ HB _ _]. destruct Hopen as (st0 & Hst0 & Hopen).
  pose proof (run_delivered _ _ _ _ _ HB H0) as [Hok _ _ _].
  destruct (Read_eof _ _ _ _ Hst (ok_stream _ _ _ _ (wok_session _ Hok) Hst) Hforce Heof) as (Hempty & He & Hc).
  destruct (run_end_known n p _ _ _ HB H0 ltac:(intros st1 H1; congruence) st Hst Hc He)
    as (evs1 & f & evs2 & E & Ht & Hn & Hpipe).
  pose proof (run_pipe_from _ _ _ HB p) as Hq. rewrite Hp0, Hempty, app_nil_r in Hq. cbn in Hq.
  assert (fs = (frames evs0 ++ frames evs1) ++ f :: frames evs2 ++ rest) as Hfs.
  { rewrite Hpre, E, !frames_app. cbn. by rewrite <-!app_assoc. }
  destruct (Hcl _ _ _ Hfs Ht) as (e1 & w1 & e & w2 & e2 & R1 & S1 & R2 & EA & (id & Hid & Hc1) & Hw).
  exists e1, w1, e, w2, e2, id. split_and!; try done; [congruence|].
  by rewrite <-Hw, data_of_app, Hd0, <-Hq, Hpipe.
Qed.

#[local] Opaque max_chunk.

(** A run: two bytes are written at one end, which then closes; at the other they
    are read, and the end is seen. *)
Definition demo_closed : World := at_session (Stream_Close 0 demo_wrote.(w_s)).2 demo_wrote.
Definition demo_close_frame : Frame := mkFrame FrameClose 1 [].
Definition demo_ended : World := after_read (readLoop_step (Ok demo_close_frame) demo_read.(w_s)) demo_read.
Definition demo_sent_closed : bytes := demo_sent ++ frame_bytes demo_close_frame.

Lemma demo_hop_closed : hop 1 demo_opened [Internal; Wrote 0 [x61; x62]; Internal] demo_closed demo_opened
  [Received demo_data; Delivered 0 [x61; x62]; ReadBy 0 (RData [x61; x62]); Received (Ok demo_close_frame)]
  demo_ended 0 demo_sent_closed demo_sent_closed (Some EOF).
Proof.
  split.
  - apply (run_snoc _ [Internal; Wrote 0 [x61; x62]] demo_wrote); [apply demo_run_wrote|reflexivity|].
    apply step_stream_close.
  - discriminate.
  - exists demo_sink, (mkSink demo_sent_closed None EOF). split_and!; [reflexivity|vm_compute; reflexivity|reflexivity].
  - reflexivity.
  - apply (run_snoc _ [Received demo_data; Delivered 0 [x61; x62]; ReadBy 0 (RData [x61; x62])] demo_read);
      [apply demo_run_read|reflexivity|]. by apply (step_read demo_read).
  - reflexivity.
  - exists demo_config, [Internal; Internal], 3%nat, EOF. split; [apply demo_run_opened|].
    split; [split; [reflexivity|split; reflexivity]|vm_compute; reflexivity].
Qed.

Lemma end_of_stream_witness : exists evs1 w1 e w2 evs2 id, run demo_opened evs1 w1 /\ step w1 e w2 /\
  run w2 evs2 demo_closed /\ [Internal; Wrote 0 [x61; x62]; Internal] = evs1 ++ e :: evs2 /\
  wrap_u 64 id = 1 /\ closing id w1 e w2 /\ [x61; x62] = written demo_closed.(w_s) 1 evs1.
Proof.
  eapply (end_of_stream 1 _ _ _ _ _ _ 0 _ _ _ _ 8 demo_hop_closed).
  - eexists. split; reflexivity.
  - vm_compute; reflexivity.
  - reflexivity.
  - vm_compute; reflexivity.
Defined.
