(* ===== verification/SessionDelivery.v ===== *)
(** * A read loop that waits for a reader

    The read loop of a session hands a stream's data over a channel of bounded
    capacity and waits while it is full.  This file shows what that wait means
    for the session: no frame is received for any stream, a reader of the stream
    ends it after a bounded number of [Read]s, and closing the session during
    the wait panics, because [forceClose] closes the channel the loop is sending
    on. *)
From S2P Require Import Prelude GoIO GoStrings GoTime Json Codec Protocol Session SessionSteps SessionProps.

(** The read loop waits to deliver [data] to the open stream [p]. *)
Record waiting (w : World) (n : Z) (p : ptr) (st : Stream) (data : bytes) : Prop := mk_waiting {
  wt_ok : world_ok w;
  wt_live : w.(w_panicked) = false;
  wt_pc : w.(w_pc) = Delivering p data;
  wt_registered : w.(w_s).(ss_streams) !! n = Some p;
  wt_stream : stream_at p w.(w_s) = Some st;
  wt_open : st.(st_remoteEOF) = false
}.

Lemma waiting_closeOnce w n p st data : waiting w n p st data -> st.(st_closeOnce) = false.
Proof.
  intros H. destruct (ok_streams _ _ (wok_session _ (wt_ok _ _ _ _ _ H)) _ _ (wt_registered _ _ _ _ _ H)) as (st' & Hst & _ & Hc).
  pose proof (wt_stream _ _ _ _ _ H). congruence.
Qed.

Lemma waiting_stream_ok w n p st data : waiting w n p st data -> stream_ok st.
Proof. intros H. eapply ok_stream; [apply (wok_session _ (wt_ok _ _ _ _ _ H))|apply (wt_stream _ _ _ _ _ H)]. Qed.

(** The only way on is the send. *)
Lemma waiting_send w n p st data r : waiting w n p st data -> deliver_select p data w.(w_s) r ->
  exists s, r = Sent s.
Proof.
  intros H Hr. pose proof (waiting_closeOnce _ _ _ _ _ H) as Hc. pose proof (waiting_stream_ok _ _ _ _ _ H) as Hok.
  pose proof (wt_stream _ _ _ _ _ H) as Hst. pose proof (wt_open _ _ _ _ _ H) as Ho.
  destruct Hr as [st' H1 H2 H3|st' H1 H2|st' H1 H2]; [by eexists| |]; rewrite Hst in H1; injection H1 as <-.
  - rewrite (sok_reads_closed _ Hok) in H2. congruence.
  - rewrite (sok_done _ Hok) in H2. congruence.
Qed.

Lemma waiting_steps w n p st data e w' : waiting w n p st data -> step w e w' ->
  e = Delivered p data \/
  (w'.(w_pc) = Delivering p data /\ w'.(w_panicked) = false /\ forall r, e <> Received r).
Proof.
  intros H Hstep. pose proof (wt_pc _ _ _ _ _ H) as Hpc. pose proof (wt_live _ _ _ _ _ H) as Hlive.
  destruct Hstep; try congruence; try (right; split_and!; done).
  - rewrite Hpc in H0. injection H0 as <- <-. left. by destruct (waiting_send _ _ _ _ _ _ H H1) as [s ->].
  - right. split_and!; [done|done|by destruct e].
  - right. unfold begin_shutdown. destruct (ss_close _); by split_and!.
Qed.

(* ------------------------------------------------------------------ *)
(** ** Reading ends the wait *)

(** A [Read] takes from the buffer, or the next chunk off the queue. *)
Lemma Read_buffered p k s st b buf : stream_at p s = Some st -> st.(st_readBuf) = b :: buf ->
  Stream_Read p k s = (RData (take k (b :: buf)), set_stream p (with_readBuf (drop k (b :: buf)) st) s).
Proof. intros Hst Hb. unfold Stream_Read. rewrite Hst, (read_loop_buffered _ _ _ _ _ Hb), Hb. done. Qed.

Lemma Read_queued p k s st d rest : stream_at p s = Some st -> st.(st_readBuf) = [] -> st.(st_readErr) = None ->
  st.(st_reads) = d :: rest -> d <> [] ->
  Stream_Read p k s = (RData (take k d), set_stream p (with_readBuf (drop k d) (with_reads rest st)) s).
Proof.
  intros Hst Hb He Hr Hd. unfold Stream_Read. rewrite Hst, Hr. cbn [length read_loop]. rewrite Hb, He, Hr.
  destruct d as [|x d]; [done|]. by rewrite (read_loop_buffered _ _ _ x d).
Qed.

Definition data_read (p : ptr) (e : event) : Prop := exists d, e = ReadBy p (RData d).

Lemma reads_free_a_slot p k d rest : (0 < k)%nat -> d <> [] -> forall m w st,
  w.(w_panicked) = false -> stream_at p w.(w_s) = Some st -> st.(st_readErr) = None ->
  st.(st_reads) = d :: rest -> (length st.(st_readBuf) <= m)%nat ->
  exists evs s' st', run w evs (at_session s' w) /\ (length evs <= S m)%nat /\ Forall (data_read p) evs /\
    stream_at p s' = Some st' /\ st'.(st_reads) = rest /\ st'.(st_reads_closed) = st.(st_reads_closed) /\
    st'.(st_config) = st.(st_config).
Proof.
  intros Hk Hd m. induction m as [|m IH]; intros w st Hlive Hst He Hr Hlen;
    (destruct (st_readBuf st) as [|b buf] eqn:Hb;
      [exists [ReadBy p (Stream_Read p k w.(w_s)).1], (Stream_Read p k w.(w_s)).2; eexists; split_and!;
       [apply (run_snoc w [] w); [constructor|done|apply step_stream_read]
       |cbn; lia
       |apply Forall_singleton; rewrite (Read_queued _ _ _ _ d rest Hst) by done; by eexists
       |rewrite (Read_queued _ _ _ _ d rest Hst) by done; cbn [snd];
        rewrite stream_at_set by (by eapply stream_at_lt); by rewrite decide_True
       |done..]|]).
  { cbn in Hlen. lia. }
  pose proof (Read_buffered p k _ _ _ _ Hst Hb) as HR. set (s1 := set_stream p _ _) in HR.
  destruct (IH (at_session s1 w) (with_readBuf (drop k (b :: buf)) st)) as (evs & s' & st' & Hrun & Hl & Hf & Hst' & R1 & R2 & R3).
  - done.
  - cbn. unfold s1. rewrite stream_at_set by (by eapply stream_at_lt). by rewrite decide_True.
  - done.
  - done.
  - cbn [with_readBuf st_readBuf]. rewrite length_drop. cbn [length] in *. lia.
  - exists (ReadBy p (RData (take k (b :: buf))) :: evs), s', st'. split_and!; try done; [|cbn; lia|].
    + change (at_session s' w) with (at_session s' (at_session s1 w)).
      apply (run_trans w [ReadBy p (RData (take k (b :: buf)))] (at_session s1 w)); [|done].
      apply (run_snoc w [] w); [constructor|done|]. pose proof (step_stream_read w p k) as Hs. by rewrite HR in Hs.
    + apply Forall_cons. split; [by eexists|done].
Qed.

(* ------------------------------------------------------------------ *)
(** ** Closing during the wait *)

Lemma closing_run p : forall l1 w l2, w.(w_panicked) = false -> w.(w_closing) = l1 ++ p :: l2 ->
  exists evs, Forall (eq Internal) evs /\
    run w evs (at_closing l2 (at_session (close_all (or_error w.(w_s).(ss_err) ErrClosed) (l1 ++ [p]) w.(w_s)) w)).
Proof.
  induction l1 as [|q l1 IH]; intros w l2 Hlive Hcl.
  - exists [Internal]. split; [by apply Forall_singleton|].
    apply (run_snoc w [] w); [constructor|done|]. by apply (step_close_stream w p l2).
  - set (w1 := at_closing (l1 ++ p :: l2) (at_session (forceClose q (or_error w.(w_s).(ss_err) ErrClosed) w.(w_s)) w)).
    destruct (IH w1 l2 Hlive eq_refl) as (evs & Hf & Hrun).
    destruct (forceClose_session q (or_error w.(w_s).(ss_err) ErrClosed) w.(w_s)) as (_ & He & _).
    unfold w1 in Hrun at 2 3 4. cbn in Hrun. rewrite He in Hrun.
    exists ([Internal] ++ evs). split; [by apply Forall_app; split; [apply Forall_singleton|]|].
    apply (run_trans w [Internal] w1); [|exact Hrun].
    apply (run_snoc w [] w); [constructor|done|]. by apply (step_close_stream w q (l1 ++ p :: l2)).
Qed.

Lemma begin_shutdown_same err w :
  let w' := begin_shutdown err w in
  w'.(w_pc) = w.(w_pc) /\ w'.(w_panicked) = w.(w_panicked) /\ w'.(w_s).(ss_streams) = w.(w_s).(ss_streams) /\
  (world_ok w -> w'.(w_s).(ss_closed) = true).
Proof.
  unfold begin_shutdown. destruct (ss_close w.(w_s)) eqn:E; split_and!; try done.
  intros H. by rewrite <-(ok_close _ _ (wok_session _ H)).
Qed.

(** C6: a delivery that waits for its reader: the read loop of a reachable
    session is about to hand data to an open stream.  Until it has, no frame of
    any stream is received, whatever else the session's goroutines and callers
    do.  It can at once when the stream's queue has room; otherwise as soon as
    the stream has been read a few times, at most once more than the bytes it has
    buffered.  But when the session is closed instead, closing the stream leads
    to a send on a closed channel: the process panics. *)
Theorem waiting_delivery (config : Config) (evs : list event) (w : World) (n : Z) (p : ptr) (st : Stream)
  (data : bytes) (k : nat)
  (Hrun : run (init config) evs w) (Hlive : w.(w_panicked) = false) (Hpc : w.(w_pc) = Delivering p data)
  (Hreg : w.(w_s).(ss_streams) !! n = Some p) (Hst : stream_at p w.(w_s) = Some st)
  (Hopen : st.(st_remoteEOF) = false) (Hk : (0 < k)%nat) :
  (forall e w', step w e w' -> e = Delivered p data \/
     (w'.(w_pc) = Delivering p data /\ w'.(w_panicked) = false /\ forall r, e <> Received r)) /\
  ((length st.(st_reads) < buffer_cap st)%nat -> exists w', step w (Delivered p data) w' /\ w'.(w_pc) = Reading) /\
  (st.(st_reads) <> [] -> exists reads w1 w2, run w reads w1 /\ Forall (data_read p) reads /\
     (length reads <= S (length st.(st_readBuf)))%nat /\ step w1 (Delivered p data) w2 /\ w2.(w_pc) = Reading) /\
  exists closing w', run (begin_shutdown ErrClosed w) closing w' /\ Forall (eq Internal) closing /\ w'.(w_panicked) = true.
Proof.
  assert (waiting w n p st data) as H by (split; try done; by eapply run_ok).
  pose proof (waiting_closeOnce _ _ _ _ _ H) as Hc. pose proof (waiting_stream_ok _ _ _ _ _ H) as Hok.
  pose proof (sok_reads_closed _ Hok) as Hrc. rewrite Hopen in Hrc.
  assert (forall w1 st1, w1.(w_pc) = Delivering p data -> stream_at p w1.(w_s) = Some st1 -> st1.(st_reads_closed) = false ->
    (length st1.(st_reads) < buffer_cap st1)%nat -> exists w', step w1 (Delivered p data) w' /\ w'.(w_pc) = Reading) as Hsend.
  { intros w1 st1 Hpc1 Hst1 Hr1 Hl1. eexists.
    split; [exact (step_deliver w1 p data (Sent _) Hpc1 (deliver_send p data _ st1 Hst1 Hr1 Hl1))|done]. }
  split_and!.
  - intros e w'. by apply (waiting_steps _ n _ st).
  - intros Hl. by apply (Hsend w st).
  - intros Hne. destruct (st_reads st) as [|d rest] eqn:Er; [done|].
    pose proof (sok_chunks _ Hok) as Hch. rewrite Er in Hch. apply Forall_cons in Hch as [Hd _].
    destruct (reads_free_a_slot p k d rest Hk Hd _ w st Hlive Hst (proj2 (sok_err _ Hok) Hc) Er ltac:(done))
      as (reads & s' & st' & Hr & Hl & Hf & Hst' & R1 & R2 & R3).
    destruct (Hsend (at_session s' w) st') as (w2 & Hs & Hp2); [done|done|congruence| |by exists reads, (at_session s' w), w2].
    pose proof (sok_cap _ Hok) as Hcap. unfold buffer_cap in *. rewrite R1, R3. rewrite Er in Hcap. cbn in Hcap. lia.
  - set (w0 := begin_shutdown ErrClosed w). destruct (begin_shutdown_same ErrClosed w) as (B1 & B2 & B3 & B4). fold w0 in B1, B2, B3, B4.
    pose proof (begin_shutdown_ok ErrClosed w (wt_ok _ _ _ _ _ H)) as Hok0. fold w0 in Hok0.
    pose proof (ok_closing _ _ (wok_session _ Hok0) (B4 (wt_ok _ _ _ _ _ H)) n p ltac:(by rewrite B3)) as Hin.
    apply in_split in Hin as (l1 & l2 & Hcl). destruct (closing_run p l1 w0 l2 ltac:(congruence) Hcl) as (es & Hf & Hr).
    set (w1 := at_closing l2 _) in Hr. exists (es ++ [Internal]). eexists.
    split_and!; [eapply (run_snoc _ es w1); [exact Hr|by transitivity w.(w_panicked)|]
                |apply Forall_app; split; [done|by apply Forall_singleton]|].
    + refine (step_deliver w1 p data Panicked _ _); [by transitivity w.(w_pc)|].
      assert (stream_at p w0.(w_s) = Some st) as Hst0.
      { unfold stream_at in *. unfold w0. by rewrite begin_shutdown_heap. }
      eapply deliver_panic.
      * cbn. rewrite (close_all_at _ _ _ _ _ Hst0), Hc, bool_decide_true; [reflexivity|]. apply elem_of_app. right. by left.
      * cbn. by rewrite Hopen.
    + done.
Qed.

(** A run: a queue of two chunks is full, and a third has arrived. *)
Definition demo_sent_on (w : World) : World :=
  match w.(w_pc), stream_at 0 w.(w_s) with
  | Delivering _ d, Some st =>
      after_deliver (Sent (set_stream 0 (with_reads (st.(st_reads) ++ [d]) st) w.(w_s))) w
  | _, _ => w
  end.
Definition demo_arrived (w : World) : World := after_read (readLoop_step demo_data w.(w_s)) w.
Definition demo_full_queue : World := demo_arrived (demo_sent_on (demo_arrived (demo_sent_on (demo_arrived demo_opened)))).
Definition demo_waiting : Stream := default (newStream 0 demo_config) (stream_at 0 demo_full_queue.(w_s)).

Lemma demo_sent_on_step w st d : w.(w_pc) = Delivering 0 d -> stream_at 0 w.(w_s) = Some st ->
  st.(st_reads_closed) = false -> (length st.(st_reads) < buffer_cap st)%nat -> step w (Delivered 0 d) (demo_sent_on w).
Proof.
  intros Hpc Hst Hc Hl. pose proof (step_deliver w 0 d (Sent _) Hpc (deliver_send 0 d _ st Hst Hc Hl)) as H.
  unfold demo_sent_on. by rewrite Hpc, Hst.
Qed.

Lemma demo_arrived_run w0 evs w : run w0 evs w -> w.(w_pc) = Reading -> w.(w_panicked) = false ->
  run w0 (evs ++ [Received demo_data]) (demo_arrived w).
Proof. intros H Hpc Hl. apply (run_snoc _ _ w); [done|done|]. by apply step_read. Qed.

Lemma demo_sent_on_run w0 evs w st d : run w0 evs w -> w.(w_pc) = Delivering 0 d -> w.(w_panicked) = false ->
  stream_at 0 w.(w_s) = Some st -> st.(st_reads_closed) = false -> (length st.(st_reads) < buffer_cap st)%nat ->
  run w0 (evs ++ [Delivered 0 d]) (demo_sent_on w).
Proof. intros H Hpc Hl Hst Hc Hlen. apply (run_snoc _ _ w); [done|done|]. by eapply demo_sent_on_step. Qed.

Lemma demo_full_run : exists evs, run (init demo_config) evs demo_full_queue.
Proof.
  eexists. apply demo_arrived_run; [|reflexivity|reflexivity].
  eapply demo_sent_on_run; [|reflexivity..|vm_compute; lia]. apply demo_arrived_run; [|reflexivity|reflexivity].
  eapply demo_sent_on_run; [|reflexivity..|vm_compute; lia]. apply demo_arrived_run; [|reflexivity|reflexivity].
  apply demo_run_opened.
Qed.

Lemma waiting_delivery_witness :
  length demo_waiting.(st_reads) = 2%nat /\ buffer_cap demo_waiting = 2%nat /\
  (exists reads w1 w2, run demo_full_queue reads w1 /\ Forall (data_read 0) reads /\ (length reads <= 1)%nat /\
     step w1 (Delivered 0 [x61; x62]) w2 /\ w2.(w_pc) = Reading) /\
  exists closing w', run (begin_shutdown ErrClosed demo_full_queue) closing w' /\ w'.(w_panicked) = true.
Proof.
  split; [reflexivity|split; [reflexivity|]]. destruct demo_full_run as [evs Hrun].
  destruct (waiting_delivery demo_config evs demo_full_queue 1 0 demo_waiting [x61; x62] 8 Hrun) as (_ & _ & Hr & cl & w' & H1 & _ & H2);
    try (vm_compute; reflexivity); [lia|]. split; [|by exists cl, w'].
  apply Hr. vm_compute. discriminate.
Defined.
