(* ===== verification/SessionEnd.v ===== *)
(** * How a closed session winds down

    [Wait] of a session returns when its goroutines have returned: the read loop
    and the goroutines that wait to hand a stream to [incoming] (the dispatch loop
    returns with [done]).  This file follows them, and the rest of a [shutdown],
    from the moment the session is closed. *)
From S2P Require Import Prelude GoIO GoStrings GoTime Json Codec Protocol Session SessionSteps SessionProps.

(* ------------------------------------------------------------------ *)
(** ** Closing is final *)

(** The flags of the session are untouched. *)
Definition same_end (s s' : Session) : Prop :=
  s'.(ss_closed) = s.(ss_closed) /\ s'.(ss_done) = s.(ss_done) /\ s'.(ss_close) = s.(ss_close).

#[export] Instance same_end_preorder : PreOrder same_end.
Proof.
  split; [done|]. intros a b c (H1 & H2 & H3) (K1 & K2 & K3). unfold same_end. split_and!; congruence.
Qed.

Lemma se_forceClose p e s : same_end s (forceClose p e s).
Proof. destruct (forceClose_session p e s) as (? & _ & ? & ? & _). by split_and!. Qed.

Lemma se_unregister p s : same_end s (unregister p s).
Proof. unfold unregister. by repeat case_match. Qed.

Lemma se_removeStream p e s : same_end s (removeStream p e s).
Proof. unfold removeStream. etrans; [apply (se_unregister p)|]. destruct e; [apply se_forceClose|done]. Qed.

Lemma se_writeFrame f s : same_end s (writeFrame f s).2.
Proof. unfold writeFrame. by repeat case_match. Qed.

Lemma se_writeFrameJSON {A} `{Json A} t id (v : A) s : same_end s (writeFrameJSON t id v s).2.
Proof. unfold writeFrameJSON. by repeat case_match. Qed.

Lemma se_remoteClose p s : same_end s (remoteClose p s).
Proof. unfold remoteClose. by repeat case_match. Qed.

(** An iteration of the read loop, with what the caller does about [Return]
    left out. *)
Lemma se_readLoop_step r s : same_end s (outcome_session (readLoop_step r s)).
Proof.
  destruct r as [f|e]; [|done]. cbn [readLoop_step]. unfold readLoop_frame. case_bool_decide.
  { destruct (DecodeOpen f) as [request|e]; [|by apply se_writeFrameJSON].
    destruct (alloc _ s) as [p s1] eqn:Ea.
    assert (same_end s s1) as Hs by (unfold alloc in Ea; by injection Ea as <- <-).
    etrans; [exact Hs|]. destruct (ss_closed s1); [apply se_forceClose|]. unfold dispatch; by destruct (_ <? 64)%nat. }
  case_bool_decide; [by repeat case_match|]. case_bool_decide.
  { destruct (lookup_stream _ s) as [p|]; [by destruct (fr_Payload f)|]. apply se_writeFrame. }
  case_bool_decide; [destruct (lookup_stream _ s); [apply se_remoteClose|done]|]. case_bool_decide.
  { destruct (DecodeJSON f). destruct (lookup_stream _ s) as [p|]; [apply se_forceClose|done]. }
  by destruct (ss_control s).
Qed.


Lemma se_open_register request s : same_end s (open_register request s).2.
Proof.
  destruct request as [id exit dest port proto sel]. unfold open_register, alloc. cbn.
  destruct (ss_closed s) eqn:E; [done|]. by destruct (ss_writer s).
Qed.

Lemma se_open_send p request s : same_end s (open_send p request s).2.
Proof.
  unfold open_send. destruct (ss_writer s); [|done]. destruct (WriteJSON _ _ _ _) as [[e|] w]; [|done].
  cbn [snd]. etrans; [|apply se_forceClose]. etrans; [|apply se_removeStream]. done.
Qed.

Lemma se_open_wait p c s r s' : open_wait p c s = Some (r, s') -> same_end s s'.
Proof.
  unfold open_wait. destruct (stream_at p s) as [st|] eqn:E; [|done]. destruct c as [| |e|].
  - destruct (st_ack st) as [|a rest]; [done|]. destruct (ack_OK a); intros [= <- <-]; [done|].
    etrans; [|apply se_forceClose]. apply (se_removeStream p None (set_stream p (with_ack rest st) s)).
  - destruct (st_done st); [|done]. intros [= <- <-]. apply (se_removeStream p None).
  - intros [= <- <-]. etrans; [apply (se_removeStream p None)|apply se_forceClose].
  - destruct (ss_done s); [|done]. by intros [= <- <-].
Qed.

Lemma se_stream_methods p s :
  same_end s (Stream_Accept p s).2 /\ (forall m, same_end s (Stream_Reject p m s).2) /\
  (forall n, same_end s (Stream_Read p n s).2) /\ same_end s (Stream_Close p s).2.
Proof.
  unfold Stream_Accept, Stream_Reject, Stream_Read, Stream_Close, Stream_CloseWrite.
  destruct (stream_at p s) as [st|]; [|by split_and!]. split_and!.
  - destruct (st_done st); [done|].
    pose proof (se_writeFrameJSON FrameOpenAck (st_id st) (mkAck true "" (st_remoteExit st) "") s) as H.
    destruct (writeFrameJSON _ _ _ s) as [[e|] s1]; [|done]. etrans; [exact H|apply se_forceClose].
  - intros m. pose proof (se_writeFrameJSON FrameOpenAck (st_id st) (mkAck false m "" "") s) as H.
    destruct (writeFrameJSON _ _ _ s) as [e s1]. etrans; [exact H|apply se_forceClose].
  - intros n. by destruct (read_loop _ n st).
  - destruct (_ || _); [done|]. etrans; [|apply se_writeFrame]. done.
Qed.

Lemma se_write_chunk p id data s : same_end s (write_chunk p id data s).2.
Proof.
  unfold write_chunk. pose proof (se_writeFrame (mkFrame FrameData id (take max_chunk data)) s) as H.
  destruct (writeFrame _ s) as [[e|] s1]; [|done]. etrans; [exact H|apply se_forceClose].
Qed.

(** What can happen to a session: its flags agree, and [done] stays. *)
Definition session_moves (s s' : Session) : Prop :=
  s'.(ss_close) = s'.(ss_done) /\ (s.(ss_done) = true -> s'.(ss_done) = true).

Lemma shutdown_done err w : w.(w_s).(ss_done) = true -> (begin_shutdown err w).(w_s).(ss_done) = true.
Proof. intros H. unfold begin_shutdown. by destruct (ss_close _). Qed.

Lemma same_end_done s s' : same_end s s' -> s.(ss_done) = true -> s'.(ss_done) = true.
Proof. by intros (_ & -> & _). Qed.

Lemma step_moves w e w' : world_ok w -> step w e w' -> session_moves w.(w_s) w'.(w_s).
Proof.
  intros Hok Hstep. pose proof (wok_session _ (step_ok _ _ _ Hok Hstep)) as Hs. split.
  { by rewrite (ok_close _ _ Hs), (ok_done _ _ Hs). }
  intros Hd. clear Hs.
  destruct Hstep as [conn handler s' E1 E|h|request p request' s' E|request e s' E
    |l1 p request l2 e s' _ E|l1 p l2 c r s' _ E|r E|p data r E Hr|f E|l1 p l2 s' _ E|l1 p l2 _ E
    |c r s' E|c p go s' E|p|p m|p n|p data _ E|l1 p data l2 st e s' Ew Ep E|A J t id v Ht|p| |p rest E|E];
    try done; cbn.
  - unfold Start in E. repeat case_match; simplify_eq; done.
  - revert Hd. apply same_end_done. pose proof (se_open_register request w.(w_s)) as H. by rewrite E in H.
  - revert Hd. apply same_end_done. pose proof (se_open_register request w.(w_s)) as H. by rewrite E in H.
  - revert Hd. apply same_end_done. pose proof (se_open_send p request w.(w_s)) as H. by rewrite E in H.
  - revert Hd. apply same_end_done. by eapply se_open_wait.
  - pose proof (se_readLoop_step r w.(w_s)) as (_ & Hr & _).
    destruct (readLoop_step r w.(w_s)); cbn in *; try congruence. apply shutdown_done. cbn. congruence.
  - destruct Hr; cbn; [done|done|]. revert Hd. apply same_end_done, se_forceClose.
  - unfold dispatch in E. destruct (_ <? 64)%nat; simplify_eq. done.
  - revert Hd. apply same_end_done, se_forceClose.
  - unfold Session_Accept in E. repeat case_match; simplify_eq; done.
  - unfold dispatchLoop_step in E. repeat case_match; simplify_eq; done.
  - revert Hd. apply same_end_done, se_stream_methods.
  - revert Hd. apply same_end_done, se_stream_methods.
  - revert Hd. apply same_end_done, se_stream_methods.
  - revert Hd. apply same_end_done. pose proof (se_write_chunk p st.(st_id) data w.(w_s)) as H. by rewrite E in H.
  - revert Hd. apply same_end_done, se_writeFrameJSON.
  - revert Hd. apply same_end_done, se_stream_methods.
  - by apply shutdown_done.
  - revert Hd. apply same_end_done, se_forceClose.
Qed.

(* ------------------------------------------------------------------ *)
(** ** Winding down *)








(* ------------------------------------------------------------------ *)
(** ** It ends *)















