(* ===== verification/StreamRelay.v ===== *)
(** * Relays between streams: what [io.Copy] of [internal/session/relay.go] and
    [internal/proxy/dialer.go] does when an end is a stream of a session

    [Relay.v] treats the two ends of a relay as connections of their own.  Here
    an end is what the copy sees of it, an interface that two things implement:
    a stream, whose session goes on with everything else it does between two
    calls of the copy, and a connection of the system.  One copy is a relation
    on both ends, interleaved with their own steps.  Chained over the client,
    the server and the exit, the copies and the sessions between them carry a
    local program's bytes to the destination of its request. *)
From S2P Require Import Prelude GoIO GoStrings GoTime Json Codec Protocol Session SessionSteps SessionProps SessionWire.

(* ------------------------------------------------------------------ *)
(** ** The ends of a copy *)

(** [si_read] and [si_wrote] are what a step returned to the copy's [Read] and
    sent for its [Write]; [si_writing] what the [Write]s under way have still to
    send; [si_may] whether a [Write] gets as far as sending, and [si_begin] its
    start. *)
Record side (W E : Type) := mkSide {
  si_step : W -> E -> W -> Prop;
  si_read : E -> bytes;
  si_wrote : E -> bytes;
  si_writing : W -> list bytes;
  si_may : W -> bool;
  si_begin : bytes -> W -> W;
  si_begun : E
}.
Arguments si_step {W E}.
Arguments si_read {W E}.
Arguments si_wrote {W E}.
Arguments si_writing {W E}.
Arguments si_may {W E}.
Arguments si_begin {W E}.
Arguments si_begun {W E}.

(** What the copy relies on: a [Write] that begins is one more under way, and
    has sent nothing; and any other step leaves the [Write]s alone, or sends some
    of one of them and ends it, or sends a part of it and leaves the rest. *)
Class SideLaws {W E} (si : side W E) : Prop := {
  begin_step d w : d <> [] -> si.(si_may) w = true -> si.(si_step) w si.(si_begun) (si.(si_begin) d w);
  begin_writing d w : si.(si_writing) (si.(si_begin) d w) = d :: si.(si_writing) w;
  begun_quiet : si.(si_read) si.(si_begun) = [] /\ si.(si_wrote) si.(si_begun) = [];
  step_writes w e w' : si.(si_step) w e w' -> (length (si.(si_writing) w') <= length (si.(si_writing) w))%nat ->
    (si.(si_wrote) e = [] /\ si.(si_writing) w' = si.(si_writing) w) \/
    exists l1 d l2, si.(si_writing) w = l1 ++ d :: l2 /\ si.(si_wrote) e `prefix_of` d /\
      (si.(si_writing) w' = l1 ++ l2 \/
       exists rest, d = si.(si_wrote) e ++ rest /\ si.(si_writing) w' = l1 ++ rest :: l2)
}.

(** A sequence of steps. *)
Inductive trace {W E} (si : side W E) (w0 : W) : list E -> W -> Prop :=
  | trace_nil : trace si w0 [] w0
  | trace_snoc evs w e w' : trace si w0 evs w -> si.(si_step) w e w' -> trace si w0 (evs ++ [e]) w'.

Definition read_in {W E} (si : side W E) (evs : list E) : bytes := evs ≫= si.(si_read).
Definition wrote_in {W E} (si : side W E) (evs : list E) : bytes := evs ≫= si.(si_wrote).

(* ------------------------------------------------------------------ *)
(** ** One copy *)

(** Where the loop of [io.Copy] is: before its [Read], with the bytes it read,
    inside its [Write], and done. *)
Inductive cphase : Type := Idle | Holding (d : bytes) | InWrite | Stopped.

(** The phase after a step of the destination: the [Write] has returned when
    nothing of it is left, without an error when all of it was sent. *)
Definition after_dst (before : list bytes) (sent : bytes) (after : list bytes) (ph : cphase) : cphase :=
  match ph, before, after with
  | InWrite, [d], [] => if decide (sent = d) then Idle else Stopped
  | _, _, _ => ph
  end.

Section Copy.
Context {W E W' E' : Type} (src : side W E) (dst : side W' E').

(** [io.Copy(dst, src)] from the worlds [s0] and [d0]: the events of both so far,
    their worlds now and the phase.  Nobody else writes to the destination or
    reads from the source. *)
Inductive copying (s0 : W) (d0 : W') : list E -> list E' -> W -> W' -> cphase -> Prop :=
  | cp_start : copying s0 d0 [] [] s0 d0 Idle
  | cp_src es ed s d ph e s' :
      copying s0 d0 es ed s d ph -> src.(si_step) s e s' -> src.(si_read) e = [] ->
      copying s0 d0 (es ++ [e]) ed s' d ph
  | cp_read es ed s d e s' :
      copying s0 d0 es ed s d Idle -> src.(si_step) s e s' -> src.(si_read) e <> [] ->
      copying s0 d0 (es ++ [e]) ed s' d (Holding (src.(si_read) e))
  | cp_dst es ed s d ph e d' :
      copying s0 d0 es ed s d ph -> dst.(si_step) d e d' ->
      (length (dst.(si_writing) d') <= length (dst.(si_writing) d))%nat ->
      copying s0 d0 es (ed ++ [e]) s d'
        (after_dst (dst.(si_writing) d) (dst.(si_wrote) e) (dst.(si_writing) d') ph)
  | cp_begin es ed s d x :
      copying s0 d0 es ed s d (Holding x) -> dst.(si_may) d = true ->
      copying s0 d0 es (ed ++ [dst.(si_begun)]) s (dst.(si_begin) x d) InWrite
  | cp_refused es ed s d x :
      copying s0 d0 es ed s d (Holding x) -> dst.(si_may) d = false -> copying s0 d0 es ed s d Stopped
  | cp_end es ed s d :
      copying s0 d0 es ed s d Idle -> copying s0 d0 es ed s d Stopped.

Context `{!SideLaws dst}.

(** What was read and is not sent yet, with the [Write]s under way. *)
Definition outstanding (writing : list bytes) (ph : cphase) (rest : bytes) : Prop :=
  match ph with
  | Idle => writing = [] /\ rest = []
  | Holding d => writing = [] /\ rest = d /\ d <> []
  | InWrite => writing = [rest]
  | Stopped => writing = []
  end.

Lemma outstanding_step d e d' ph rest : outstanding (dst.(si_writing) d) ph rest ->
  dst.(si_step) d e d' -> (length (dst.(si_writing) d') <= length (dst.(si_writing) d))%nat ->
  exists rest', rest = dst.(si_wrote) e ++ rest' /\
    outstanding (dst.(si_writing) d') (after_dst (dst.(si_writing) d) (dst.(si_wrote) e) (dst.(si_writing) d') ph) rest'.
Proof.
  intros H Hs Hl. destruct (step_writes d e d' Hs Hl) as [[Hw Hsame]|(l1 & x & l2 & Hx & Hp & Hafter)].
  { exists rest. rewrite Hw, Hsame. split; [done|]. unfold after_dst, outstanding in *.
    destruct ph; try done. by rewrite H. }
  assert (ph = InWrite /\ l1 = [] /\ l2 = [] /\ x = rest) as (-> & -> & -> & ->).
  { destruct ph; cbn in H; [destruct H as [H _]|destruct H as [H _]| |]; rewrite H in Hx;
      destruct l1 as [|? [|]]; try done. by injection Hx as -> <-. }
  cbn in Hx. destruct Hafter as [Hn|(rest' & Hr & Hn)]; cbn in Hn; rewrite Hx, Hn.
  - destruct Hp as [tail Ht]. exists tail. split; [done|]. cbn. case_decide as Hd; cbn; [|done].
    split; [done|]. rewrite Hd in Ht. rewrite <-(app_nil_r rest) in Ht at 1. by apply app_inv_head in Ht.
  - exists rest'. by split.
Qed.

(** The copy sends what it read, in order, and holds on to the rest. *)
Lemma copying_inv s0 d0 es ed s d ph : copying s0 d0 es ed s d ph -> dst.(si_writing) d0 = [] ->
  exists rest, read_in src es = wrote_in dst ed ++ rest /\ outstanding (dst.(si_writing) d) ph rest.
Proof.
  intros H H0. unfold read_in, wrote_in.
  induction H as [|es ed s d ph e s' H IH Hs Hr|es ed s d e s' H IH Hs Hr|es ed s d ph e d' H IH Hs Hl
    |es ed s d x H IH Hm|es ed s d x H IH Hm|es ed s d H IH]; try destruct IH as (rest & Hio & Ho).
  - by exists [].
  - exists rest. rewrite bind_app, Hio. cbn. by rewrite Hr, !app_nil_r.
  - destruct Ho as [Hw ->]. exists (si_read src e). rewrite bind_app, Hio. cbn. by rewrite !app_nil_r.
  - destruct (outstanding_step _ _ _ _ _ Ho Hs Hl) as (rest' & -> & Ho'). exists rest'. split; [|done].
    rewrite bind_app, Hio. cbn. by rewrite app_nil_r, <-app_assoc.
  - destruct Ho as (Hw & -> & _). exists x. rewrite bind_app, Hio. cbn.
    destruct begun_quiet as [_ ->]. rewrite !app_nil_r. split; [done|]. by rewrite begin_writing, Hw.
  - destruct Ho as (Hw & -> & _). by exists x.
  - destruct Ho as [Hw ->]. by exists [].
Qed.

Lemma copying_prefix s0 d0 es ed s d ph : copying s0 d0 es ed s d ph -> dst.(si_writing) d0 = [] ->
  wrote_in dst ed `prefix_of` read_in src es /\ (ph = Idle -> wrote_in dst ed = read_in src es).
Proof.
  intros H H0. destruct (copying_inv _ _ _ _ _ _ _ H H0) as (rest & -> & Ho).
  split; [by apply prefix_app_r|]. intros ->. destruct Ho as [_ ->]. by rewrite app_nil_r.
Qed.

(** Both ends go on as they do by themselves. *)
Lemma copying_traces s0 d0 es ed s d ph : copying s0 d0 es ed s d ph -> dst.(si_writing) d0 = [] ->
  trace src s0 es s /\ trace dst d0 ed d.
Proof.
  intros H H0. induction H as [|? ? ? ? ? ? ? ? [IHs IHd]|? ? ? ? ? ? ? [IHs IHd]|? ? ? ? ? ? ? ? [IHs IHd]
    |es ed s d x H [IHs IHd] Hm|? ? ? ? ? ? IH|? ? ? ? ? IH]; try done.
  - split; constructor.
  - split; [by eapply trace_snoc|done].
  - split; [by eapply trace_snoc|done].
  - split; [done|by eapply trace_snoc].
  - split; [done|]. eapply trace_snoc; [done|]. destruct (copying_inv _ _ _ _ _ _ _ H H0) as (rest & _ & _ & -> & Hx).
    by apply begin_step.
Qed.
End Copy.

(* ------------------------------------------------------------------ *)
(** ** A stream as an end *)

#[local] Opaque max_chunk.

Definition bytes_wrote (p : ptr) (e : event) : bytes :=
  match e with Wrote q data => if decide (q = p) then data else [] | _ => [] end.

Definition writing_on (p : ptr) (l : list (ptr * bytes)) : list bytes :=
  (filter (fun x => x.1 = p) l).*2.

#[local] Arguments writing_on : simpl never.

(** [Read] and [Write] of the stream [p]; [Read] returns what there is, and
    [Write] goes chunk by chunk while the session does other things. *)
Definition stream_side (p : ptr) : side World event := mkSide World event
  (fun w e w' => w.(w_panicked) = false /\ step w e w')
  (bytes_out p) (bytes_wrote p) (fun w => writing_on p w.(w_writing))
  (fun w => negb w.(w_panicked) && may_write p w.(w_s))
  (fun d w => at_writing ((p, d) :: w.(w_writing)) w) Internal.

Lemma writing_on_app p l l' : writing_on p (l ++ l') = writing_on p l ++ writing_on p l'.
Proof. unfold writing_on. by rewrite filter_app, fmap_app. Qed.

Lemma writing_on_cons p q d l : writing_on p ((q, d) :: l) = if decide (q = p) then d :: writing_on p l else writing_on p l.
Proof. unfold writing_on. rewrite filter_cons. cbn [fst]. destruct (decide (q = p)); reflexivity. Qed.

Lemma begin_shutdown_writing err w : (begin_shutdown err w).(w_writing) = w.(w_writing).
Proof. unfold begin_shutdown. destruct (ss_close _); [done|]. by destruct (shutdown_begin _ _). Qed.

(** What a step does to the [Write]s under way, on all streams. *)
Lemma step_writing w e w' : step w e w' ->
  ((forall p, bytes_wrote p e = []) /\ w'.(w_writing) = w.(w_writing)) \/
  (exists p d, e = Internal /\ w'.(w_writing) = (p, d) :: w.(w_writing)) \/
  exists l1 p d l2 o, w.(w_writing) = l1 ++ (p, d) :: l2 /\ e = chunk_event p d o /\
    w'.(w_writing) = l1 ++ still_writing p d o ++ l2.
Proof.
  intros H. destruct H as [? ? ? ? E|?|? ? ? ? E|? ? ? E|? ? ? ? ? ? E E'|? ? ? ? ? ? E E'|r E|p d r E E'|? E|? ? ? ? E E'
    |? ? ? E E'|? ? ? E|? ? ? ? E|p|p m|p n|p data Hne Hm|l1 p data l2 st e s' Ew Est E|? ? ? ? ? ?|p| |p rest E|E];
    try (left; split; [by intros ?|reflexivity]).
  - left. split; [by intros ?|]. unfold after_read. destruct (readLoop_step _ _); cbn; try done.
    by rewrite begin_shutdown_writing.
  - left. split; [by destruct r|]. by destruct r.
  - right. left. by exists p, data.
  - right. right. by exists l1, p, data, l2, e.
  - left. split; [by intros ?|]. apply begin_shutdown_writing.
Qed.

#[export] Instance stream_side_laws p : SideLaws (stream_side p).
Proof.
  split; cbn.
  - intros d w Hd [Hp Hm]%andb_true_iff. split; [by apply negb_true_iff|]. by apply step_write_begin.
  - intros d w. by rewrite writing_on_cons, decide_True.
  - done.
  - intros w e w' [_ Hs] Hl.
    destruct (step_writing _ _ _ Hs) as [[He Hw]|[(q & d & -> & Hw)|(l1 & q & d & l2 & o & Hw & -> & Hw')]].
    + left. by rewrite Hw.
    + left. rewrite Hw, writing_on_cons in *. by destruct (decide (q = p)); [cbn in Hl; lia|].
    + rewrite Hw, Hw', !writing_on_app, writing_on_cons. destruct (decide (q = p)) as [->|Hne].
      2:{ left. destruct o; cbn; [done|]. rewrite decide_False by done. split; [done|]. f_equal.
          destruct (drop max_chunk d); [done|]. by rewrite writing_on_cons, decide_False. }
      right. exists (writing_on p l1), d, (writing_on p l2). split; [done|].
      destruct o as [err|]; cbn; [by split; [apply prefix_nil|left]|]. rewrite decide_True by done.
      split; [exists (drop max_chunk d); by rewrite take_drop|].
      destruct (drop max_chunk d) as [|b rest] eqn:Ed; [by left|]. right. exists (b :: rest).
      rewrite writing_on_cons, decide_True by done. cbn [writing_on]. split; [|done]. by rewrite <-Ed, take_drop.
Qed.

Lemma trace_run p w0 evs w : trace (stream_side p) w0 evs w -> run w0 evs w.
Proof. induction 1 as [|evs w e w' _ IH [Hp Hs]]; [constructor|by eapply run_snoc]. Qed.

(* ------------------------------------------------------------------ *)
(** ** A connection of the system as an end *)

(** What has arrived and was not read yet, what was written to it, and the
    [Write]s under way. *)
Record conn := mkConn { cn_in : bytes; cn_out : Sink; cn_writing : list bytes }.

Inductive conn_event : Type := Arrived (d : bytes) | Took (d : bytes) | Put (d : bytes) | Began.

Inductive conn_step (c : conn) : conn_event -> conn -> Prop :=
  | conn_arrives d : conn_step c (Arrived d) (mkConn (c.(cn_in) ++ d) c.(cn_out) c.(cn_writing))
  | conn_read n : (1 <= n <= length c.(cn_in))%nat ->
      conn_step c (Took (take n c.(cn_in))) (mkConn (drop n c.(cn_in)) c.(cn_out) c.(cn_writing))
  | conn_begin d : conn_step c Began (mkConn c.(cn_in) c.(cn_out) (d :: c.(cn_writing)))
  | conn_write l1 d l2 e w :
      c.(cn_writing) = l1 ++ d :: l2 -> Sink_Write d c.(cn_out) = (e, w) ->
      conn_step c (Put (drop (length c.(cn_out).(sk_out)) w.(sk_out))) (mkConn c.(cn_in) w (l1 ++ l2)).

Definition conn_read_bytes (e : conn_event) : bytes := match e with Took d => d | _ => [] end.
Definition conn_wrote_bytes (e : conn_event) : bytes := match e with Put d => d | _ => [] end.
Definition conn_arrived_bytes (e : conn_event) : bytes := match e with Arrived d => d | _ => [] end.

Definition conn_side : side conn conn_event := mkSide conn conn_event conn_step conn_read_bytes conn_wrote_bytes
  cn_writing (fun _ => true) (fun d c => mkConn c.(cn_in) c.(cn_out) (d :: c.(cn_writing))) Began.

(** A [Write] puts a beginning of its bytes on the connection. *)
Lemma Sink_Write_put d k e k' : Sink_Write d k = (e, k') ->
  exists q, q `prefix_of` d /\ k'.(sk_out) = k.(sk_out) ++ q.
Proof.
  unfold Sink_Write. destruct (sk_room k) as [n|]; [destruct (_ <=? n)%nat|]; intros [= _ <-]; cbn.
  - by exists d.
  - exists (take n d). split; [by exists (drop n d); rewrite take_drop|done].
  - by exists d.
Qed.

#[export] Instance conn_side_laws : SideLaws conn_side.
Proof.
  split; cbn.
  - intros d w _ _. constructor.
  - done.
  - done.
  - intros c e c' Hs Hl. destruct Hs as [d|n Hn|d|l1 d l2 e k Hw E]; cbn in *; [by left|by left|lia|].
    right. exists l1, d, l2. split; [done|]. apply Sink_Write_put in E as (q & Hq & ->).
    rewrite drop_app_length. split; [done|by left].
Qed.

(** The connection's own books: what arrived was read or is still there, and
    what was written is on it. *)
Lemma conn_books c0 evs c : trace conn_side c0 evs c ->
  c0.(cn_in) ++ (evs ≫= conn_arrived_bytes) = read_in conn_side evs ++ c.(cn_in) /\
  c.(cn_out).(sk_out) = c0.(cn_out).(sk_out) ++ wrote_in conn_side evs.
Proof.
  unfold read_in, wrote_in. change (si_read conn_side) with conn_read_bytes. change (si_wrote conn_side) with conn_wrote_bytes.
  induction 1 as [|evs c e c' _ [Hi Ho] Hs]; [by rewrite !app_nil_r|].
  rewrite !bind_app. cbn. rewrite !app_nil_r, !app_assoc, Hi, <-Ho.
  destruct Hs as [d|n Hn|d|l1 d l2 e k Hw E]; cbn.
  - by rewrite !app_nil_r, app_assoc.
  - by rewrite !app_nil_r, <-app_assoc, take_drop.
  - by rewrite !app_nil_r.
  - rewrite !app_nil_r. split; [done|]. apply Sink_Write_put in E as (q & _ & ->). by rewrite drop_app_length.
Qed.

(* ------------------------------------------------------------------ *)
(** ** From end to end *)

(** The stream [q] is the only one of its session that writes under [n]. *)
Definition sole_writer (n : Z) (q : ptr) (evs : list event) (w : World) : Prop :=
  forall q' d, Wrote q' d ∈ evs -> wire_id q' w.(w_s) = Some n -> q' = q.

Lemma sole_written n q evs w : wire_id q w.(w_s) = Some n -> sole_writer n q evs w ->
  written w.(w_s) n evs = wrote_in (stream_side q) evs.
Proof.
  intros Hq Hsole. unfold written, wrote_in. cbn. induction evs as [|e evs IH]; [done|].
  rewrite !bind_cons. f_equal.
  - destruct e as [|r|p d|p r|p d]; try done. cbn. destruct (decide (p = q)) as [->|Hne]; [by rewrite decide_True|].
    rewrite decide_False; [done|]. intros Hp. apply Hne, (Hsole p d); [by left|done].
  - apply IH. intros q' d Hd. apply (Hsole q' d). by right.
Qed.

(** A session that numbers its streams itself, as a client's does: no request
    it is given has an ID, and its peer opens nothing on it. *)
Definition own_step (s s' : Session) : Prop :=
  (length s'.(ss_heap) = length s.(ss_heap) /\ s'.(ss_nextID) = s.(ss_nextID)) \/
  exists request, request.(or_RequestID) = 0 /\ s' = (open_register request s).2.
Inductive own_run (w0 : World) : list event -> World -> Prop :=
  | own_nil : own_run w0 [] w0
  | own_snoc evs w e w' :
      own_run w0 evs w -> w.(w_panicked) = false -> step w e w' -> own_step w.(w_s) w'.(w_s) ->
      own_run w0 (evs ++ [e]) w'.

Definition self_numbered (s : Session) : Prop :=
  s.(ss_nextID) = Z.of_nat (length s.(ss_heap)) /\
  forall p st, stream_at p s = Some st -> st.(st_id) = Z.of_nat (S p).

Lemma open_heap request s : or_RequestID request = 0 ->
  exists st, (open_register request s).2.(ss_heap) = s.(ss_heap) ++ [st] /\
    st.(st_id) = (open_register request s).2.(ss_nextID) /\
    (open_register request s).2.(ss_nextID) = wrap_u 64 (s.(ss_nextID) + 1).
Proof.
  destruct request as [id exit dest port proto sel]. cbn. intros ->. unfold open_register, alloc. cbn.
  eexists. destruct (ss_closed s); [|destruct (ss_writer s)]; cbn; (split_and!; reflexivity).
Qed.

Lemma own_numbered config evs w : own_run (init config) evs w ->
  Z.of_nat (length w.(w_s).(ss_heap)) < 2 ^ 64 -> self_numbered w.(w_s).
Proof.
  induction 1 as [|evs w e w' Hrun IH Hp Hstep Hown]; intros Hlt; [by split; [|intros p st Hl; destruct p]|].
  destruct (step_pipe _ _ _ Hstep) as [Hages _].
  assert (forall p st', (p < length w.(w_s).(ss_heap))%nat -> self_numbered w.(w_s) -> stream_at p w'.(w_s) = Some st' ->
    st_id st' = Z.of_nat (S p)) as Hold.
  { intros p st' Hl [_ Hn] Hst'. apply lookup_lt_is_Some_2 in Hl as [st Hst].
    destruct (Hages p st Hst) as (st1 & Hst1 & Hlater). rewrite Hst' in Hst1. injection Hst1 as <-.
    rewrite (later_id _ _ Hlater). by apply Hn. }
  destruct Hown as [[Hlen Hnext]|(request & Hr & Es)].
  - rewrite Hlen in Hlt. specialize (IH Hlt). split; [by rewrite Hnext, Hlen; apply IH|].
    intros p st Hst. apply Hold; [|done|done]. rewrite <-Hlen. by eapply stream_at_lt.
  - destruct (open_heap request w.(w_s) Hr) as (st & Hheap & Hid & Hnext). rewrite <-Es in Hheap, Hid, Hnext.
    rewrite Hheap, length_app in Hlt. cbn in Hlt. assert (self_numbered w.(w_s)) as Hn by (apply IH; lia).
    rewrite (proj1 Hn), wrap_u_small in Hnext by lia.
    split; [rewrite Hheap, Hnext, length_app; cbn; lia|].
    intros p st' Hst'. pose proof (stream_at_lt _ _ _ Hst') as Hl. rewrite Hheap, length_app in Hl. cbn in Hl.
    destruct (decide (p = length w.(w_s).(ss_heap))) as [->|Hne]; [|apply Hold; [lia|done|done]].
    unfold stream_at in Hst'. rewrite Hheap, lookup_app_r, Nat.sub_diag in Hst' by lia. injection Hst' as <-.
    rewrite Hid, Hnext. lia.
Qed.

(** No two of its streams write under one ID. *)
Lemma own_sole_writer config evs w n q evs' : own_run (init config) evs w ->
  Z.of_nat (length w.(w_s).(ss_heap)) < 2 ^ 64 ->
  wire_id q w.(w_s) = Some n -> sole_writer n q evs' w.
Proof.
  intros Hrun Hlt Hq q' d _ Hq'. destruct (own_numbered _ _ _ Hrun Hlt) as [_ Hn].
  assert (forall p, wire_id p w.(w_s) = Some n -> n = Z.of_nat (S p)) as Hid.
  { intros p Hp. unfold wire_id in Hp. destruct (stream_at p w.(w_s)) as [st|] eqn:Hst; [|done].
    injection Hp as <-. pose proof (stream_at_lt _ _ _ Hst). rewrite (Hn _ _ Hst), wrap_u_small; lia. }
  specialize (Hid q' Hq') as E1. specialize (Hid q Hq) as E2. lia.
Qed.

(** One leg of a tunnel: what a copy takes from its source it writes to the
    stream [k], and the session at the other end reads the stream [p] that has
    the same ID. *)
Record leg {W E} (src : side W E) (s0 : W) (es : list E) (s : W) (k : ptr) (a0 : World) (evsA : list event) (a : World)
  (n : Z) (b0 : World) (evs : list event) (b : World) (p : ptr) (sent arrived : bytes) (r : option error)
  (ph : cphase) : Prop := mk_leg {
  lg_copy : copying src (stream_side k) s0 a0 es evsA s a ph;
  lg_fresh : a0.(w_writing) = [];
  lg_id : wire_id k a.(w_s) = Some n;
  lg_hop : hop n a0 evsA a b0 evs b p sent arrived r
}.

(** Nothing is under way on the leg: the copy waits for more, everything sent
    has arrived, and the stream at the end, still registered, has been read to
    its end. *)
Definition leg_quiet (n : Z) (b : World) (p : ptr) (sent arrived : bytes) (r : option error) (ph : cphase) : Prop :=
  ph = Idle /\ arrived = sent /\ r <> None /\ b.(w_s).(ss_streams) !! n = Some p /\ b.(w_pc) = Reading /\
  pipe_of p b.(w_s) = [].

(** What the stream at the far end of a leg gives was written to the session
    under the leg's ID, and by the copy alone if no other stream writes under it. *)
Lemma leg_carries {W E} (src : side W E) s0 es s k a0 evsA a n b0 evs b p sent arrived r ph :
  leg src s0 es s k a0 evsA a n b0 evs b p sent arrived r ph ->
  read_in (stream_side p) evs `prefix_of` written a.(w_s) n evsA /\
  (sole_writer n k evsA a ->
   read_in (stream_side p) evs `prefix_of` read_in src es /\
   (leg_quiet n b p sent arrived r ph -> read_in (stream_side p) evs = read_in src es)).
Proof.
  intros [Hc Hf Hid Hhop]. change (read_in (stream_side p) evs) with (pipe_out p evs).
  assert (pipe_out p evs `prefix_of` written a.(w_s) n evsA) as Hown.
  { etrans; [|by eapply hop_prefix]. by apply prefix_app_r. }
  split; [done|]. intros Hsole.
  assert ((stream_side k).(si_writing) a0 = []) as H0 by (cbn; unfold writing_on; by rewrite Hf).
  destruct (copying_prefix _ _ _ _ _ _ _ _ _ Hc H0) as [Hpre Hidle].
  rewrite <-(sole_written _ _ _ _ Hid Hsole) in Hpre, Hidle. split; [by etrans|].
  intros (-> & Ha & Hr & Hreg & Hpc & Hpipe). rewrite <-(Hidle eq_refl).
  rewrite <-(hop_all _ _ _ _ _ _ _ _ _ _ _ Hhop Ha Hr Hreg Hpc). by rewrite Hpipe, app_nil_r.
Qed.

(** C5: a tunnel carries the bytes of the program that opened it: at one end a
    connection [l] is copied to a stream of a session that numbers its streams
    itself, as a client's does; at the other end of that session the stream with
    that ID is copied to a stream of another session, and at its other end the
    stream with that ID is copied to the connection [t].  Each session, copy and
    connection goes its own way in any interleaving with whatever else they do.
    Then what has been written to [t] is a beginning of what was written to the
    second session under the tunnel's ID, and what the second session's copy was
    given is a beginning of what arrived on [l], in order and with nothing added.
    If no other stream writes to the second session under the tunnel's ID, then
    what has been written to [t] is a beginning of what arrived on [l], and all
    of it when nothing is under way any more.  The last condition is a genuine
    one: the server sends the requests of several clients to one exit with the
    IDs the clients chose, and two of them may share one ([clients_collide] of
    [Forwarding]); their bytes are then mixed. *)
Theorem tunnel_carries (l0 l : conn) (evsL : list conn_event) (k p q x : ptr)
  (c0 c s0 s y0 y e0 e : World) (evsC evsS evsY evsE : list event) (t0 t : conn) (evsT : list conn_event)
  (n n' : Z) (sent arrived sent' arrived' : bytes) (r r' : option error) (ph ph' ph'' : cphase)
  (config : Config) (evs : list event) (Hown : own_run (init config) evs c)
  (Hmany : Z.of_nat (length c.(w_s).(ss_heap)) < 2 ^ 64)
  (Hfirst : leg conn_side l0 evsL l k c0 evsC c n s0 evsS s p sent arrived r ph)
  (Hsecond : leg (stream_side p) s0 evsS s q y0 evsY y n' e0 evsE e x sent' arrived' r' ph')
  (Hlast : copying (stream_side x) conn_side e0 t0 evsE evsT e t ph'')
  (Ht0 : t0.(cn_writing) = []) (Hl0 : l0.(cn_in) = []) :
  exists delivered, t.(cn_out).(sk_out) = t0.(cn_out).(sk_out) ++ delivered /\
    delivered `prefix_of` written y.(w_s) n' evsY /\
    pipe_out p evsS `prefix_of` evsL ≫= conn_arrived_bytes /\
    (sole_writer n' q evsY y ->
     delivered `prefix_of` evsL ≫= conn_arrived_bytes /\
     (leg_quiet n s p sent arrived r ph -> leg_quiet n' e x sent' arrived' r' ph' -> ph'' = Idle -> l.(cn_in) = [] ->
      delivered = evsL ≫= conn_arrived_bytes)).
Proof.
  destruct (leg_carries _ _ _ _ _ _ _ _ _ _ _ _ _ _ _ _ _ Hfirst) as [_ Hcar1].
  destruct (Hcar1 (own_sole_writer _ _ _ _ _ _ Hown Hmany (lg_id _ _ _ _ _ _ _ _ _ _ _ _ _ _ _ _ _ Hfirst)))
    as [Hpre1 Hall1].
  destruct (leg_carries _ _ _ _ _ _ _ _ _ _ _ _ _ _ _ _ _ Hsecond) as [Hunder Hcar2].
  destruct (copying_prefix _ _ _ _ _ _ _ _ _ Hlast Ht0) as [Hpre3 Hall3].
  destruct (copying_traces _ _ _ _ _ _ _ _ _ Hlast Ht0) as [_ Htrace].
  destruct (copying_traces _ _ _ _ _ _ _ _ _ (lg_copy _ _ _ _ _ _ _ _ _ _ _ _ _ _ _ _ _ Hfirst)) as [Hl _].
  { cbn. unfold writing_on. by rewrite (lg_fresh _ _ _ _ _ _ _ _ _ _ _ _ _ _ _ _ _ Hfirst). }
  destruct (conn_books _ _ _ Hl) as [Hin _]. destruct (conn_books _ _ _ Htrace) as [_ Hout]. rewrite Hl0 in Hin. cbn [app] in Hin.
  assert (read_in (stream_side p) evsS `prefix_of` evsL ≫= conn_arrived_bytes) as Harr.
  { etrans; [exact Hpre1|]. rewrite Hin. by apply prefix_app_r. }
  exists (wrote_in conn_side evsT). split_and!; [done|by etrans|exact Harr|].
  intros Hsole. destruct (Hcar2 Hsole) as [Hpre2 Hall2]. split.
  - etrans; [exact Hpre3|]. by etrans.
  - intros Hq1 Hq2 Hi Hempty. by rewrite (Hall3 Hi), (Hall2 Hq2), (Hall1 Hq1), Hin, Hempty, app_nil_r.
Qed.

(* ------------------------------------------------------------------ *)
(** ** A run: two bytes all the way *)

Definition demo_conn (inb out : bytes) : conn := mkConn inb (mkSink out None EOF) [].

(** The copy into the stream [0]. *)
Lemma demo_into {W E} (src : side W E) s0 es s : copying src (stream_side 0) s0 demo_opened es [] s demo_opened (Holding [x61; x62]) ->
  copying src (stream_side 0) s0 demo_opened es [Internal; Wrote 0 [x61; x62]] s demo_wrote Idle.
Proof.
  intros H.
  assert (copying src (stream_side 0) s0 demo_opened es [Internal] s demo_writing InWrite) as Hw.
  { apply (cp_begin src (stream_side 0) s0 demo_opened es [] s demo_opened [x61; x62]); [exact H|reflexivity]. }
  assert (si_step (stream_side 0) demo_writing (Wrote 0 [x61; x62]) demo_wrote) as Hs.
  { split; [reflexivity|].
    apply (step_wrote demo_writing 0 [x61; x62] (newStream 1 (ss_config demo_opened.(w_s)))
      (write_chunk 0 1 [x61; x62] demo_opened.(w_s)).2); vm_compute; reflexivity. }
  assert (Hl : (length ((stream_side 0).(si_writing) demo_wrote) <= length ((stream_side 0).(si_writing) demo_writing))%nat)
    by (apply Nat.leb_le; vm_compute; reflexivity).
  exact (cp_dst src (stream_side 0) s0 demo_opened es [Internal] s demo_writing InWrite _ demo_wrote Hw Hs Hl).
Qed.

Lemma demo_first_leg : leg conn_side (demo_conn [] []) [Arrived [x61; x62]; Took [x61; x62]] (demo_conn [] []) 0
  demo_opened [Internal; Wrote 0 [x61; x62]] demo_wrote 1 demo_opened
  [Received demo_data; Delivered 0 [x61; x62]; ReadBy 0 (RData [x61; x62])] demo_read 0 demo_sent demo_sent (Some EOF) Idle.
Proof.
  split; [|reflexivity| |apply demo_hop].
  - apply demo_into.
    refine (cp_read conn_side _ _ _ [Arrived [x61; x62]] [] (demo_conn [x61; x62] []) demo_opened (Took [x61; x62])
      (demo_conn [] []) _ _ _); [|exact (conn_read (demo_conn [x61; x62] []) 2 ltac:(cbn; lia))|discriminate].
    refine (cp_src conn_side _ _ _ [] [] (demo_conn [] []) demo_opened Idle (Arrived [x61; x62]) _ _ _ _);
      [constructor|exact (conn_arrives (demo_conn [] []) [x61; x62])|reflexivity].
  - vm_compute. reflexivity.
Qed.

(** What the stream [0] of the other session gives to its copy. *)
Lemma demo_out_of {W E} (dst : side W E) d0 :
  copying (stream_side 0) dst demo_opened d0
    [Received demo_data; Delivered 0 [x61; x62]; ReadBy 0 (RData [x61; x62])] [] demo_read d0 (Holding [x61; x62]).
Proof.
  apply (cp_read (stream_side 0) dst demo_opened d0 [Received demo_data; Delivered 0 [x61; x62]] [] demo_delivered d0
    (ReadBy 0 (RData [x61; x62]))); [|split; [reflexivity|apply (step_stream_read demo_delivered 0 8)]|discriminate].
  apply (cp_src (stream_side 0) dst demo_opened d0 [Received demo_data] [] demo_delivering d0 Idle); [|split; [reflexivity|]|reflexivity].
  - apply (cp_src (stream_side 0) dst demo_opened d0 [] [] demo_opened d0 Idle); [constructor|split; [reflexivity|]|reflexivity].
    by apply step_read.
  - refine (step_deliver demo_delivering 0 [x61; x62] (Sent _) _ _); [done|].
    by eapply deliver_send; [reflexivity|reflexivity|vm_compute; lia].
Qed.

Lemma demo_second_leg : leg (stream_side 0) demo_opened
  [Received demo_data; Delivered 0 [x61; x62]; ReadBy 0 (RData [x61; x62])] demo_read 0
  demo_opened [Internal; Wrote 0 [x61; x62]] demo_wrote 1 demo_opened
  [Received demo_data; Delivered 0 [x61; x62]; ReadBy 0 (RData [x61; x62])] demo_read 0 demo_sent demo_sent (Some EOF) Idle.
Proof.
  split; [|reflexivity| |apply demo_hop].
  - apply demo_into, demo_out_of.
  - apply (lg_id _ _ _ _ _ _ _ _ _ _ _ _ _ _ _ _ _ demo_first_leg).
Qed.

Lemma demo_last_copy : copying (stream_side 0) conn_side demo_opened (demo_conn [] [])
  [Received demo_data; Delivered 0 [x61; x62]; ReadBy 0 (RData [x61; x62])] [Began; Put [x61; x62]] demo_read
  (demo_conn [] [x61; x62]) Idle.
Proof.
  pose proof (cp_begin (stream_side 0) conn_side _ _ _ _ _ _ _ (demo_out_of conn_side (demo_conn [] [])) eq_refl) as H.
  refine (cp_dst (stream_side 0) conn_side _ _ _ [Began] _ _ InWrite (Put [x61; x62]) (demo_conn [] [x61; x62]) H _ _); [|cbn; lia].
  exact (conn_write (mkConn [] (mkSink [] None EOF) [[x61; x62]]) [] [x61; x62] [] None _ eq_refl eq_refl).
Qed.

(** The client's session numbers its one stream itself. *)
Lemma demo_own_run : own_run (init demo_config) ([Internal; Internal] ++ [Internal; Wrote 0 [x61; x62]]) demo_wrote.
Proof.
  apply (own_snoc _ [Internal; Internal; Internal] demo_writing).
  - apply (own_snoc _ [Internal; Internal] demo_opened).
    + apply (own_snoc _ [Internal] demo_start).
      * apply (own_snoc _ [] (init demo_config)); [constructor|reflexivity| |left; by split].
        by eapply step_start.
      * reflexivity.
      * by apply (step_open demo_start (mkOpenRequest 0 "" "h" 80 "" false) 0 (mkOpenRequest 1 "" "h" 80 "tcp" false)).
      * right. exists (mkOpenRequest 0 "" "h" 80 "" false). split; [reflexivity|]. vm_compute. reflexivity.
    + reflexivity.
    + by apply step_write_begin.
    + left. by split.
  - reflexivity.
  - apply (step_wrote demo_writing 0 [x61; x62] (newStream 1 (ss_config demo_opened.(w_s)))
      (write_chunk 0 1 [x61; x62] demo_opened.(w_s)).2); vm_compute; reflexivity.
  - left. split; vm_compute; reflexivity.
Qed.

Lemma tunnel_carries_witness : exists delivered, [x61; x62] = [] ++ delivered /\
  delivered = [Arrived [x61; x62]; Took [x61; x62]] ≫= conn_arrived_bytes.
Proof.
  destruct (tunnel_carries _ _ _ _ _ _ _ _ _ _ _ _ _ _ _ _ _ _ _ _ _ _ _ _ _ _ _ _ _ _ _ _ _
    demo_config _ demo_own_run ltac:(vm_compute; reflexivity)
    demo_first_leg demo_second_leg demo_last_copy eq_refl eq_refl) as (delivered & H1 & _ & _ & H2).
  exists delivered. split; [exact H1|]. destruct H2 as [_ H2].
  { intros q' d Hin _. apply elem_of_cons in Hin as [Hin|Hin]; [discriminate Hin|].
    apply list_elem_of_singleton in Hin. injection Hin as -> _. reflexivity. }
  apply H2; [| |reflexivity|reflexivity];
    (split; [reflexivity|]; split; [reflexivity|]; split; [discriminate|]; split; [reflexivity|]; split; reflexivity).
Defined.
