(* ===== verification/Base64.v ===== *)
(** * [encoding/base64]: the standard alphabet, with and without padding

    [StdEncoding] carries the [[]byte] fields of JSON messages;
    [RawStdEncoding] (no padding) carries
    the salt and the hash of the verifier file.  As in Go, carriage returns and
    line feeds are skipped and the unused low bits of a final group are not
    checked. *)
From S2P Require Import Prelude Json.

Definition b64_char (n : Z) : byte :=
  if n <? 26 then byte_of_Z (65 + n)
  else if n <? 52 then byte_of_Z (71 + n)
  else if n <? 62 then byte_of_Z (n - 4)
  else if n =? 62 then x2b else x2f.

Definition b64_value (b : byte) : option Z :=
  let n := byte_to_Z b in
  if in_range 65 90 b then Some (n - 65)
  else if in_range 97 122 b then Some (n - 71)
  else if in_range 48 57 b then Some (n + 4)
  else if b =b x2b then Some 62
  else if b =b x2f then Some 63
  else None.

(** The 6-bit groups of a 24-bit word. *)
Definition sextet (v : Z) (i : Z) : byte := b64_char (Z.land (Z.shiftr v (18 - 6 * i)) 63).

Definition pad_bytes (pad : bool) (n : nat) : bytes := if pad then repeat x3d n else [].

Fixpoint b64_encode (pad : bool) (s : bytes) : bytes :=
  match s with
  | [] => []
  | [x] =>
      let v := Z.shiftl (byte_to_Z x) 16 in [sextet v 0; sextet v 1] ++ pad_bytes pad 2
  | [x; y] =>
      let v := Z.lor (Z.shiftl (byte_to_Z x) 16) (Z.shiftl (byte_to_Z y) 8) in
      [sextet v 0; sextet v 1; sextet v 2] ++ pad_bytes pad 1
  | x :: y :: z :: s =>
      let v := Z.lor (Z.lor (Z.shiftl (byte_to_Z x) 16) (Z.shiftl (byte_to_Z y) 8)) (byte_to_Z z) in
      sextet v 0 :: sextet v 1 :: sextet v 2 :: sextet v 3 :: b64_encode pad s
  end.

Definition word24 (a b c d : Z) : Z :=
  Z.lor (Z.lor (Z.shiftl a 18) (Z.shiftl b 12)) (Z.lor (Z.shiftl c 6) d).

(** The first [n] bytes of a 24-bit word. *)
Definition word_bytes (n : nat) (v : Z) : bytes :=
  take n [byte_of_Z (Z.shiftr v 16); byte_of_Z (Z.shiftr v 8); byte_of_Z v].

Fixpoint b64_groups (pad : bool) (s : bytes) : option bytes :=
  match s with
  | [] => Some []
  | [_] => None
  | [a; b] =>
      if pad then None
      else match b64_value a, b64_value b with
           | Some a, Some b => Some (word_bytes 1 (word24 a b 0 0))
           | _, _ => None
           end
  | [a; b; c] =>
      if pad then None
      else match b64_value a, b64_value b, b64_value c with
           | Some a, Some b, Some c => Some (word_bytes 2 (word24 a b c 0))
           | _, _, _ => None
           end
  | a :: b :: c :: d :: s =>
      match b64_value a, b64_value b with
      | Some va, Some vb =>
          if pad && (d =b x3d) then
            match s with
            | _ :: _ => None
            | [] =>
                if c =b x3d then Some (word_bytes 1 (word24 va vb 0 0))
                else match b64_value c with
                     | Some vc => Some (word_bytes 2 (word24 va vb vc 0))
                     | None => None
                     end
            end
          else
            match b64_value c, b64_value d with
            | Some vc, Some vd =>
                match b64_groups pad s with
                | Some r => Some (word_bytes 3 (word24 va vb vc vd) ++ r)
                | None => None
                end
            | _, _ => None
            end
      | _, _ => None
      end
  end.

Definition not_newline (b : byte) : bool := negb ((b =b x0a) || (b =b x0d)).

Definition b64_decode (pad : bool) (s : bytes) : option bytes :=
  b64_groups pad (List.filter not_newline s).

(* ------------------------------------------------------------------ *)
(** ** Round trip *)

Lemma b64_char_ok n : 0 <= n < 64 ->
  b64_value (b64_char n) = Some n /\ (b64_char n =b x3d) = false /\
  not_newline (b64_char n) = true /\ in_range 0x20 0x7e (b64_char n) = true.
Proof.
  intros H. assert (forallb (fun k => let n := Z.of_nat k in
    (match b64_value (b64_char n) with Some m => m =? n | None => false end) &&
    negb (b64_char n =b x3d) && not_newline (b64_char n) && in_range 0x20 0x7e (b64_char n))
    (seq 0 64) = true) as Hall by (vm_compute; reflexivity).
  rewrite forallb_forall in Hall. specialize (Hall (Z.to_nat n)).
  rewrite Z2Nat.id in Hall by lia.
  apply andb_true_iff in Hall as [[[H1 H2]%andb_true_iff H3]%andb_true_iff H4].
  2:{ apply in_seq. lia. }
  destruct (b64_value (b64_char n)) as [m|]; [|done]. apply Z.eqb_eq in H1 as ->.
  by apply negb_true_iff in H2.
Qed.

Lemma land_63 v : Z.land v 63 = v mod 64.
Proof. change 63 with (Z.ones 6). by rewrite Z.land_ones. Qed.

Lemma sextet_ok v i : b64_value (sextet v i) = Some (Z.shiftr v (18 - 6 * i) mod 64) /\
  (sextet v i =b x3d) = false /\ not_newline (sextet v i) = true /\
  in_range 0x20 0x7e (sextet v i) = true.
Proof. unfold sextet. rewrite land_63. apply b64_char_ok. by apply Z.mod_pos_bound. Qed.

Lemma word24_eq a b c d : 0 <= a < 64 -> 0 <= b < 64 -> 0 <= c < 64 -> 0 <= d < 64 ->
  word24 a b c d = a * 262144 + b * 4096 + c * 64 + d.
Proof.
  intros Ha Hb Hc Hd. unfold word24.
  rewrite (Z.shiftl_mul_pow2 a), (Z.shiftl_mul_pow2 b) by lia.
  change (a * 2 ^ 18) with (a * (2 ^ 6 * 2 ^ 12)). rewrite Z.mul_assoc.
  rewrite <-!Z.shiftl_mul_pow2 by lia. rewrite <-Z.shiftl_lor.
  rewrite (lor_shiftl a b 6), (lor_shiftl c d 6) by lia.
  rewrite lor_shiftl by lia. lia.
Qed.

Lemma group_value x y z : 0 <= x < 256 -> 0 <= y < 256 -> 0 <= z < 256 ->
  Z.lor (Z.lor (Z.shiftl x 16) (Z.shiftl y 8)) z = x * 65536 + y * 256 + z.
Proof.
  intros Hx Hy Hz. rewrite !Z.shiftl_mul_pow2 by lia.
  change (x * 2 ^ 16) with (x * (2 ^ 8 * 2 ^ 8)). rewrite Z.mul_assoc.
  rewrite <-!Z.shiftl_mul_pow2 by lia. rewrite <-Z.shiftl_lor.
  rewrite (lor_shiftl x y 8) by lia. rewrite lor_shiftl by lia. lia.
Qed.

(** A 24-bit word is put together again from its sextets, as far as they go. *)
Lemma sextets_word v (n : nat) : 0 <= v < 2 ^ 24 -> (n <= 3)%nat ->
  (n = 1%nat -> v mod 65536 = 0) -> (n = 2%nat -> v mod 256 = 0) -> n <> 0%nat ->
  word24 (Z.shiftr v 18 mod 64) (Z.shiftr v 12 mod 64)
    (if (n =? 1)%nat then 0 else Z.shiftr v 6 mod 64)
    (if (n =? 3)%nat then Z.shiftr v 0 mod 64 else 0) = v.
Proof.
  intros Hv Hn H1 H2 H0. rewrite !Z.shiftr_div_pow2 by lia.
  rewrite word24_eq; try (apply Z.mod_pos_bound; lia).
  - destruct n as [|[|[|[|n]]]]; cbn; try lia; try specialize (H1 eq_refl); try specialize (H2 eq_refl);
      change (2 ^ 18) with 262144; change (2 ^ 12) with 4096; change (2 ^ 6) with 64;
      change (2 ^ 24) with 16777216 in Hv; rewrite ?Z.div_1_r; Z.to_euclidean_division_equations; lia.
  - destruct (n =? 1)%nat; [lia|]. apply Z.mod_pos_bound. lia.
  - destruct (n =? 3)%nat; [|lia]. apply Z.mod_pos_bound. lia.
Qed.

Lemma word_bytes_group x y z :
  let v := byte_to_Z x * 65536 + byte_to_Z y * 256 + byte_to_Z z in
  [byte_of_Z (Z.shiftr v 16); byte_of_Z (Z.shiftr v 8); byte_of_Z v] = [x; y; z].
Proof.
  intros v. pose proof (byte_to_Z_range x). pose proof (byte_to_Z_range y).
  pose proof (byte_to_Z_range z). rewrite !Z.shiftr_div_pow2 by lia.
  assert (forall a b, a mod 256 = byte_to_Z b -> byte_of_Z a = b) as Hb.
  { intros a b E. apply byte_to_Z_inj. by rewrite byte_to_of_Z. }
  f_equal; [|f_equal; [|f_equal]]; apply Hb; unfold v;
    change (2 ^ 16) with 65536; change (2 ^ 8) with 256; Z.to_euclidean_division_equations; lia.
Qed.

Lemma b64_groups_encode pad s : b64_groups pad (b64_encode pad s) = Some s.
Proof.
  remember (length s) as n eqn:Hn. revert s Hn.
  induction n as [n IH] using lt_wf_ind. intros s ->.
  destruct s as [|x [|y [|z s]]]; [done|..].
  - pose proof (byte_to_Z_range x). pose proof (group_value (byte_to_Z x) 0 0) as Hg.
    cbn [b64_encode]. set (v := Z.shiftl _ 16).
    assert (v = byte_to_Z x * 65536 + 0 * 256 + 0) as Ev.
    { rewrite <-Hg by lia. unfold v. by rewrite Z.shiftl_0_l, !Z.lor_0_r. }
    pose proof (sextets_word v 1) as Hw. cbn [Nat.eqb] in Hw. pose proof (word_bytes_group x x00 x00) as Hb.
    change (byte_to_Z x00) with 0 in Hb. cbn zeta in Hb. rewrite <-Ev in Hb.
    destruct (sextet_ok v 0) as (S0 & _), (sextet_ok v 1) as (S1 & _).
    assert (word_bytes 1 (word24 (Z.shiftr v 18 mod 64) (Z.shiftr v 12 mod 64) 0 0) = [x]) as E.
    { rewrite Hw by (lia || (intros; rewrite Ev; Z.to_euclidean_division_equations; lia)).
      unfold word_bytes. by rewrite Hb. }
    destruct pad; cbn -[sextet b64_value word_bytes word24]; rewrite S0, S1; by rewrite <-E.
  - pose proof (byte_to_Z_range x). pose proof (byte_to_Z_range y).
    pose proof (group_value (byte_to_Z x) (byte_to_Z y) 0) as Hg.
    cbn [b64_encode]. set (v := Z.lor _ _).
    assert (v = byte_to_Z x * 65536 + byte_to_Z y * 256 + 0) as Ev.
    { rewrite <-Hg by lia. unfold v. by rewrite !Z.lor_0_r. }
    pose proof (sextets_word v 2) as Hw. cbn [Nat.eqb] in Hw. pose proof (word_bytes_group x y x00) as Hb.
    change (byte_to_Z x00) with 0 in Hb. cbn zeta in Hb. rewrite <-Ev in Hb.
    destruct (sextet_ok v 0) as (S0 & _), (sextet_ok v 1) as (S1 & _), (sextet_ok v 2) as (S2 & N2 & _).
    assert (word_bytes 2 (word24 (Z.shiftr v 18 mod 64) (Z.shiftr v 12 mod 64)
      (Z.shiftr v 6 mod 64) 0) = [x; y]) as E.
    { rewrite Hw by (lia || (intros; rewrite Ev; Z.to_euclidean_division_equations; lia)).
      unfold word_bytes. by rewrite Hb. }
    destruct pad; cbn -[sextet b64_value word_bytes word24]; rewrite S0, S1, ?N2, S2; by rewrite <-E.
  - pose proof (byte_to_Z_range x). pose proof (byte_to_Z_range y). pose proof (byte_to_Z_range z).
    pose proof (group_value (byte_to_Z x) (byte_to_Z y) (byte_to_Z z)) as Hg.
    cbn [b64_encode]. set (v := Z.lor _ (byte_to_Z z)).
    assert (v = byte_to_Z x * 65536 + byte_to_Z y * 256 + byte_to_Z z) as Ev by (by rewrite <-Hg by lia).
    pose proof (sextets_word v 3) as Hw. cbn [Nat.eqb] in Hw. pose proof (word_bytes_group x y z) as Hb.
    cbn zeta in Hb. rewrite <-Ev in Hb.
    destruct (sextet_ok v 0) as (S0 & _), (sextet_ok v 1) as (S1 & _), (sextet_ok v 2) as (S2 & _),
      (sextet_ok v 3) as (S3 & N3 & _).
    assert (word_bytes 3 (word24 (Z.shiftr v 18 mod 64) (Z.shiftr v 12 mod 64)
      (Z.shiftr v 6 mod 64) (Z.shiftr v 0 mod 64)) = [x; y; z]) as E.
    { rewrite Hw by (lia || (intros; rewrite Ev; Z.to_euclidean_division_equations; lia)).
      unfold word_bytes. by rewrite Hb. }
    cbn [b64_groups]. rewrite S0, S1, N3, andb_false_r, S2, S3.
    rewrite (IH (length s)) by (cbn; lia || done).
    change (18 - 6 * 0) with 18. change (18 - 6 * 1) with 12. change (18 - 6 * 2) with 6.
    change (18 - 6 * 3) with 0. by rewrite E.
Qed.

Lemma b64_encode_chars pad s :
  Forall (fun b => not_newline b = true /\ in_range 0x20 0x7e b = true) (b64_encode pad s).
Proof.
  assert (forall v i, not_newline (sextet v i) = true /\ in_range 0x20 0x7e (sextet v i) = true) as Hs.
  { intros v i. by destruct (sextet_ok v i) as (_ & _ & ? & ?). }
  remember (length s) as n eqn:Hn. revert s Hn.
  induction n as [n IH] using lt_wf_ind. intros s ->.
  destruct s as [|x [|y [|z s]]]; cbn [b64_encode]; [apply Forall_nil_2|..].
  - destruct pad; cbn [pad_bytes repeat app]; repeat (apply Forall_cons; split; [first [apply Hs | done]|]); apply Forall_nil_2.
  - destruct pad; cbn [pad_bytes repeat app]; repeat (apply Forall_cons; split; [first [apply Hs | done]|]); apply Forall_nil_2.
  - do 4 (apply Forall_cons; split; [apply Hs|]). apply (IH (length s)); cbn; lia || done.
Qed.

Lemma filter_all {A} (f : A -> bool) l : Forall (fun x => f x = true) l -> List.filter f l = l.
Proof. induction 1 as [|x l Hx _ IH]; [done|]. cbn. by rewrite Hx, IH. Qed.

Lemma b64_decode_encode pad s : b64_decode pad (b64_encode pad s) = Some s.
Proof.
  unfold b64_decode. rewrite filter_all; [apply b64_groups_encode|].
  eapply Forall_impl; [apply b64_encode_chars|]. by intros b [? _].
Qed.

(** Printable ASCII is valid UTF-8. *)
Lemma ascii_utf8 s : Forall (fun b => in_range 0x20 0x7e b = true) s -> utf8_valid s = true.
Proof.
  unfold utf8_valid. induction 1 as [|b s Hb _ IH]; [done|].
  assert (runes (b :: s) = RValid [b] :: runes s) as E.
  { destruct b; try discriminate Hb; reflexivity. }
  by rewrite E.
Qed.

Lemma b64_encode_utf8 pad s : utf8_valid (b64_encode pad s) = true.
Proof.
  apply ascii_utf8. eapply Forall_impl; [apply b64_encode_chars|]. by intros b [_ ?].
Qed.
