(* ===== verification/Crypto.v ===== *)
(** * What the program uses of [crypto/...]

    SHA-256 ([crypto/sha256]), HMAC ([crypto/hmac]), the constant-time
    comparison ([crypto/subtle]) and hexadecimal text ([encoding/hex]), all
    executable; words are [Z] modulo [2 ^ 32]. *)
From S2P Require Import Prelude.

Abbreviation w32 := (wrap_u 32).

Definition rotr (n x : Z) : Z := Z.lor (Z.shiftr x n) (w32 (Z.shiftl x (32 - n))).

(** The first 32 bits of the fractional parts of the cube roots of the first
    64 primes. *)
Definition primes : list Z :=
  [2; 3; 5; 7; 11; 13; 17; 19; 23; 29; 31; 37; 41; 43; 47; 53; 59; 61; 67; 71; 73; 79; 83; 89; 97;
   101; 103; 107; 109; 113; 127; 131; 137; 139; 149; 151; 157; 163; 167; 173; 179; 181; 191; 193;
   197; 199; 211; 223; 227; 229; 233; 239; 241; 251; 257; 263; 269; 271; 277; 281; 283; 293; 307; 311].

(** The integer cube root, bit by bit from bit [n - 1] down. *)
Fixpoint cbrt (n : nat) (x root : Z) : Z :=
  match n with
  | O => root
  | S k =>
      let r := root + 2 ^ Z.of_nat k in
      cbrt k x (if r * r * r <=? x then r else root)
  end.

Definition sha256_K : list Z :=
  Eval vm_compute in map (fun p => cbrt 36 (p * 2 ^ 96) 0 mod 2 ^ 32) primes.

(** The initial hash value: the same of the square roots of the first eight. *)
Definition sha256_init : list Z :=
  Eval vm_compute in map (fun p => Z.sqrt (p * 2 ^ 64) mod 2 ^ 32) (take 8 primes).

(** The message schedule, latest word first: each new word is made of the ones
    2, 7, 15 and 16 places back. *)
Fixpoint schedule (n : nat) (w : list Z) : list Z :=
  match n with
  | O => w
  | S k =>
      let x2 := nth 1 w 0 in let x7 := nth 6 w 0 in
      let x15 := nth 14 w 0 in let x16 := nth 15 w 0 in
      let s0 := Z.lxor (Z.lxor (rotr 7 x15) (rotr 18 x15)) (Z.shiftr x15 3) in
      let s1 := Z.lxor (Z.lxor (rotr 17 x2) (rotr 19 x2)) (Z.shiftr x2 10) in
      schedule k (w32 (x16 + s0 + x7 + s1) :: w)
  end.

Definition sha_round (st : list Z) (kw : Z * Z) : list Z :=
  match st with
  | [a; b; c; d; e; f; g; h] =>
      let S1 := Z.lxor (Z.lxor (rotr 6 e) (rotr 11 e)) (rotr 25 e) in
      let ch := Z.lxor (Z.land e f) (Z.land (Z.lxor e (2 ^ 32 - 1)) g) in
      let t1 := h + S1 + ch + kw.1 + kw.2 in
      let S0 := Z.lxor (Z.lxor (rotr 2 a) (rotr 13 a)) (rotr 22 a) in
      let maj := Z.lxor (Z.lxor (Z.land a b) (Z.land a c)) (Z.land b c) in
      [w32 (t1 + S0 + maj); a; b; c; w32 (d + t1); e; f; g]
  | _ => st
  end.

Fixpoint words (n : nat) (b : bytes) : list Z :=
  match n with
  | O => []
  | S k => be_decode (take 4 b) :: words k (drop 4 b)
  end.

Definition sha_block (st : list Z) (block : bytes) : list Z :=
  let w := rev (schedule 48 (rev (words 16 block))) in
  zip_with (fun x y => w32 (x + y)) st (fold_left sha_round (zip sha256_K w) st).

Definition sha_pad (m : bytes) : bytes :=
  let len := Z.of_nat (length m) in
  m ++ x80 :: repeat x00 (Z.to_nat ((55 - len) mod 64)) ++ be_encode 8 (8 * len).

Fixpoint sha_blocks (n : nat) (st : list Z) (b : bytes) : list Z :=
  match n with
  | O => st
  | S k => sha_blocks k (sha_block st (take 64 b)) (drop 64 b)
  end.

Definition sha256 (m : bytes) : bytes :=
  let p := sha_pad m in
  concat (map (be_encode 4) (sha_blocks (length p / 64) sha256_init p)).

(** The digest of [abc] (FIPS 180-4). *)
Example sha256_abc : map byte_to_Z (sha256 (bytes_of "abc")) =
  [0xba; 0x78; 0x16; 0xbf; 0x8f; 0x01; 0xcf; 0xea; 0x41; 0x41; 0x40; 0xde; 0x5d; 0xae; 0x22; 0x23;
   0xb0; 0x03; 0x61; 0xa3; 0x96; 0x17; 0x7a; 0x9c; 0xb4; 0x10; 0xff; 0x61; 0xf2; 0x00; 0x15; 0xad].
Proof. vm_compute. reflexivity. Qed.

Definition xor_byte (k : Z) (b : byte) : byte := byte_of_Z (Z.lxor (byte_to_Z b) k).

(** [hmac.New(sha256.New, key)], the message written to it, [Sum(nil)]. *)
Definition hmac_sha256 (key m : bytes) : bytes :=
  let k := if (64 <? length key)%nat then sha256 key else key in
  let k := k ++ repeat x00 (64 - length k) in
  sha256 (map (xor_byte 0x5c) k ++ sha256 (map (xor_byte 0x36) k ++ m)).

(** Test case 2 of RFC 4231. *)
Example hmac_rfc4231_2 :
  map byte_to_Z (hmac_sha256 (bytes_of "Jefe") (bytes_of "what do ya want for nothing?")) =
  [0x5b; 0xdc; 0xc1; 0x46; 0xbf; 0x60; 0x75; 0x4e; 0x6a; 0x04; 0x24; 0x26; 0x08; 0x95; 0x75; 0xc7;
   0x5a; 0x00; 0x3f; 0x08; 0x9d; 0x27; 0x39; 0x83; 0x9d; 0xec; 0x58; 0xb9; 0x64; 0xec; 0x38; 0x43].
Proof. vm_compute. reflexivity. Qed.

(** [subtle.ConstantTimeCompare]: 1 when equal, without an early exit. *)
Definition ConstantTimeCompare (x y : bytes) : Z :=
  if negb (length x =? length y)%nat then 0
  else
    let v := fold_left (fun v ab => Z.lor v (Z.lxor (byte_to_Z ab.1) (byte_to_Z ab.2))) (zip x y) 0 in
    if v =? 0 then 1 else 0.

Lemma fold_lor_zero (l : list (byte * byte)) : forall v, 0 <= v ->
  fold_left (fun v ab => Z.lor v (Z.lxor (byte_to_Z ab.1) (byte_to_Z ab.2))) l v = 0 <->
  v = 0 /\ Forall (fun ab => ab.1 = ab.2) l.
Proof.
  induction l as [|[a b] l IH]; intros v Hv; cbn.
  - split; [by intros ->|by intros []].
  - pose proof (byte_to_Z_range a). pose proof (byte_to_Z_range b).
    assert (0 <= Z.lxor (byte_to_Z a) (byte_to_Z b)) by (apply Z.lxor_nonneg; lia).
    rewrite IH by (apply Z.lor_nonneg; lia). rewrite Z.lor_eq_0_iff, Z.lxor_eq_0_iff, Forall_cons. cbn.
    split.
    + intros [[-> E] F]. by apply byte_to_Z_inj in E.
    + intros [-> [-> F]]. done.
Qed.

Lemma ConstantTimeCompare_spec x y : ConstantTimeCompare x y = 1 <-> x = y.
Proof.
  unfold ConstantTimeCompare. destruct (Nat.eqb_spec (length x) (length y)) as [E|E]; cbn.
  2:{ split; [done|]. by intros ->. }
  assert (x = y <-> Forall (fun ab => ab.1 = ab.2) (zip x y)) as Hzip.
  { revert y E. induction x as [|a x IH]; intros [|b y] E; try done. cbn in E. cbn [zip zip_with].
    rewrite Forall_cons, <-IH by lia. cbn. split; [by intros [= -> ->]|by intros [-> ->]]. }
  pose proof (fold_lor_zero (zip x y) 0 (Z.le_refl 0)) as Hf.
  destruct (Z.eqb_spec (fold_left (fun v ab => Z.lor v (Z.lxor (byte_to_Z ab.1) (byte_to_Z ab.2)))
    (zip x y) 0) 0) as [E0|E0].
  - split; [|done]. intros _. apply Hzip. by apply Hf.
  - split; [done|]. intros Exy. exfalso. apply E0, Hf. split; [done|]. by apply Hzip.
Qed.

Lemma length_sha256 m : length (sha256 m) = 32%nat.
Proof.
  unfold sha256. set (n := (length (sha_pad m) / 64)%nat). generalize (sha_pad m). clearbody n.
  assert (forall st p, length st = 8%nat -> length (sha_blocks n st p) = 8%nat) as H.
  { induction n as [|n IH]; intros st p Hst; [done|]. cbn [sha_blocks]. apply IH.
    unfold sha_block. rewrite length_zip_with.
    assert (forall l s, length s = 8%nat -> length (fold_left sha_round l s) = 8%nat) as Hr.
    { clear. induction l as [|kw l IH]; intros s Hs; [done|]. cbn. apply IH.
      do 9 (destruct s as [|? s]; try done). }
    rewrite Hr by done. lia. }
  intros p. specialize (H sha256_init p eq_refl).
  remember (sha_blocks n sha256_init p) as st eqn:Est. clear -H.
  do 9 (destruct st as [|? st]; try (cbn in H; lia)). cbn [map concat].
  rewrite !length_app, !length_be_encode. done.
Qed.

Lemma length_hmac k m : length (hmac_sha256 k m) = 32%nat.
Proof. apply length_sha256. Qed.
