(* ===== verification/GoText.v ===== *)
(** * What the program uses of [strings] and [path/filepath]

    Functions on byte strings.  Case mapping of ASCII letters is written out;
    for other characters it is a parameter, [upper_rune] or [lower_rune]: the
    Unicode tables of the [unicode] package are data, not code of this
    program. *)
From S2P Require Import Prelude Json.

Fixpoint HasPrefix (s p : bytes) : bool :=
  match p, s with
  | [], _ => true
  | a :: p, b :: s => (a =b b) && HasPrefix s p
  | _ :: _, [] => false
  end.

Definition TrimPrefix (s p : bytes) : bytes := if HasPrefix s p then drop (length p) s else s.

Definition in_cutset (cutset : bytes) (b : byte) : bool := existsb (Byte.eqb b) cutset.

Fixpoint drop_while (f : byte -> bool) (s : bytes) : bytes :=
  match s with [] => [] | b :: r => if f b then drop_while f r else s end.

(** [strings.TrimRight] and [strings.Trim] for a cutset of ASCII characters. *)
Definition TrimRight (s cutset : bytes) : bytes := rev (drop_while (in_cutset cutset) (rev s)).
Definition Trim (s cutset : bytes) : bytes := TrimRight (drop_while (in_cutset cutset) s) cutset.

(** [unicode.IsSpace] on a rune given by its UTF-8 bytes. *)
Definition is_space_rune (r : rune) : bool :=
  match r with
  | RValid [b] => in_range 9 13 b || (b =b x20)
  | RValid [b1; b2] => (b1 =b xc2) && ((b2 =b x85) || (b2 =b xa0))
  | RValid [b1; b2; b3] =>
      ((b1 =b xe1) && (b2 =b x9a) && (b3 =b x80)) ||
      ((b1 =b xe2) && (b2 =b x80) &&
       (in_range 0x80 0x8a b3 || (b3 =b xa8) || (b3 =b xa9) || (b3 =b xaf))) ||
      ((b1 =b xe2) && (b2 =b x81) && (b3 =b x9f)) ||
      ((b1 =b xe3) && (b2 =b x80) && (b3 =b x80))
  | _ => false
  end.

(** [RBad] loses the byte it stands for, so the runes are cut with their text. *)
Fixpoint rune_texts (fuel : nat) (s : bytes) : list (rune * bytes) :=
  match fuel, s with
  | S k, b :: rest =>
      match runes s with
      | RValid t :: _ => (RValid t, t) :: rune_texts k (drop (length t) s)
      | _ => (RBad, [b]) :: rune_texts k rest
      end
  | _, _ => []
  end.

Definition split_runes (s : bytes) : list (rune * bytes) := rune_texts (length s) s.

Fixpoint drop_spaces (l : list (rune * bytes)) : list (rune * bytes) :=
  match l with
  | [] => []
  | (r, t) :: l' => if is_space_rune r then drop_spaces l' else l
  end.

Definition TrimSpace (s : bytes) : bytes :=
  concat (map snd (rev (drop_spaces (rev (drop_spaces (split_runes s)))))).

Definition upper_ascii (b : byte) : byte :=
  if in_range 97 122 b then byte_of_Z (byte_to_Z b - 32) else b.
Definition lower_ascii (b : byte) : byte :=
  if in_range 65 90 b then byte_of_Z (byte_to_Z b + 32) else b.

(** [strings.Map] with a case mapping; an invalid byte becomes U+FFFD. *)
Definition map_rune (ascii : byte -> byte) (other : bytes -> bytes) (r : rune) : bytes :=
  match r with
  | RValid [b] => [ascii b]
  | RValid t => other t
  | RBad => [xef; xbf; xbd]
  end.

Definition ToUpper (upper_rune : bytes -> bytes) (s : bytes) : bytes :=
  concat (map (map_rune upper_ascii upper_rune) (runes s)).
Definition ToLower (lower_rune : bytes -> bytes) (s : bytes) : bytes :=
  concat (map (map_rune lower_ascii lower_rune) (runes s)).

(** [strings.ReplaceAll] of a single character by a string. *)
Definition ReplaceAll (s : bytes) (old : byte) (new : bytes) : bytes :=
  concat (map (fun b => if b =b old then new else [b]) s).

Definition Contains (s : bytes) (b : byte) : bool := existsb (Byte.eqb b) s.
Definition Count (s : bytes) (b : byte) : nat := length (List.filter (Byte.eqb b) s).

Fixpoint Join (parts : list bytes) (sep : bytes) : bytes :=
  match parts with
  | [] => []
  | [p] => p
  | p :: ps => p ++ sep ++ Join ps sep
  end.

(* ------------------------------------------------------------------ *)
(** ** ASCII text *)

Definition is_ascii (b : byte) : bool := byte_to_Z b <? 0x80.
Definition ascii_text (s : bytes) : Prop := Forall (fun b => is_ascii b = true) s.

Lemma runes_ascii s : ascii_text s -> runes s = map (fun b => RValid [b]) s.
Proof.
  induction 1 as [|b s Hb _ IH]; [done|]. cbn [runes map]. unfold is_ascii in Hb. by rewrite Hb, IH.
Qed.

Lemma rune_texts_ascii s : ascii_text s -> forall k, (length s <= k)%nat ->
  rune_texts k s = map (fun b => (RValid [b], [b])) s.
Proof.
  induction 1 as [|b s Hb Hs IH]; intros [|k] Hk; try done; [cbn in Hk; lia|].
  cbn [rune_texts map]. rewrite runes_ascii by (by apply Forall_cons). cbn [map length drop].
  f_equal. apply IH. cbn in Hk. lia.
Qed.

Definition ascii_space (b : byte) : bool := in_range 9 13 b || (b =b x20).

Lemma drop_spaces_ascii s :
  drop_spaces (map (fun b => (RValid [b], [b])) s) =
  map (fun b => (RValid [b], [b])) (drop_while ascii_space s).
Proof.
  induction s as [|b s IH]; [done|]. cbn [map drop_spaces drop_while is_space_rune].
  unfold ascii_space at 1. by destruct (_ || _).
Qed.

Lemma concat_singletons {A} (s : list A) : concat (map (fun b => [b]) s) = s.
Proof. induction s as [|b s IH]; [done|]. cbn. by rewrite IH. Qed.

Lemma TrimSpace_ascii s : ascii_text s ->
  TrimSpace s = rev (drop_while ascii_space (rev (drop_while ascii_space s))).
Proof.
  intros Hs. unfold TrimSpace, split_runes. rewrite rune_texts_ascii by done.
  rewrite drop_spaces_ascii, <-map_rev, drop_spaces_ascii, <-map_rev, map_map.
  apply concat_singletons.
Qed.

Lemma drop_while_none f (s : bytes) : Forall (fun b => f b = false) s -> drop_while f s = s.
Proof. intros [|b r Hb _]; [done|]. cbn. by rewrite Hb. Qed.

(** Text without spaces is left alone. *)
Lemma TrimSpace_id s : ascii_text s -> Forall (fun b => ascii_space b = false) s -> TrimSpace s = s.
Proof.
  intros Ha Hs. rewrite TrimSpace_ascii by done. rewrite (drop_while_none _ s) by done.
  rewrite drop_while_none; [apply rev_involutive|]. by apply Forall_rev.
Qed.

Lemma ToUpper_ascii u s : ascii_text s -> ToUpper u s = map upper_ascii s.
Proof.
  intros Hs. unfold ToUpper. rewrite runes_ascii, map_map by done. cbn.
  rewrite <-(map_map upper_ascii (fun b => [b])). apply concat_singletons.
Qed.

Lemma HasPrefix_app p s : HasPrefix (p ++ s) p = true.
Proof.
  induction p as [|b p IH]; [by destruct s|]. cbn. rewrite IH, andb_true_r.
  by destruct (byte_eqb_spec b b).
Qed.

Lemma HasPrefix_spec s p : HasPrefix s p = true <-> exists r, s = p ++ r.
Proof.
  split; [|intros [r ->]; apply HasPrefix_app].
  revert s. induction p as [|a p IH]; intros s; [by exists s|].
  destruct s as [|b s]; cbn; [done|]. intros [E H]%andb_true_iff.
  destruct (byte_eqb_spec a b) as [->|]; [|done]. destruct (IH s H) as [r ->]. by exists r.
Qed.

Lemma TrimPrefix_app p s : TrimPrefix (p ++ s) p = s.
Proof. unfold TrimPrefix. by rewrite HasPrefix_app, drop_app_length. Qed.
