(* ===== verification/GoFS.v ===== *)
(** * The part of the file system the program uses

    Files with their contents and mode bits, and the system calls of [os] the
    program makes.  Each call may fail: the fault is an argument, and a failing
    [os.WriteFile] may leave any prefix of the data behind. *)
From S2P Require Import Prelude.

Record File := mkFile { fl_data : bytes; fl_mode : Z }.
Record FS := mkFS { fs_files : gmap string File; fs_umask : Z }.

Definition with_files (m : gmap string File) (fs : FS) : FS := mkFS m fs.(fs_umask).

Inductive write_fault : Type :=
  | OpenFails (e : error)
  | WriteFails (e : error) (n : nat).

(** [os.WriteFile(path, data, mode)]: an existing file keeps its mode. *)
Definition WriteFile (fault : option write_fault) (path : string) (data : bytes) (mode : Z) (fs : FS)
  : option error * FS :=
  let mode :=
    match fs.(fs_files) !! path with
    | Some f => f.(fl_mode)
    | None => Z.ldiff mode fs.(fs_umask)
    end in
  match fault with
  | Some (OpenFails e) => (Some e, fs)
  | Some (WriteFails e n) =>
      (Some e, with_files (<[path := mkFile (take n data) mode]> fs.(fs_files)) fs)
  | None => (None, with_files (<[path := mkFile data mode]> fs.(fs_files)) fs)
  end.

Definition Chmod (fault : option error) (path : string) (mode : Z) (fs : FS) : option error * FS :=
  match fault, fs.(fs_files) !! path with
  | Some e, _ => (Some e, fs)
  | None, None => (Some ErrNotExist, fs)
  | None, Some f => (None, with_files (<[path := mkFile f.(fl_data) mode]> fs.(fs_files)) fs)
  end.

Definition Rename (fault : option error) (old new : string) (fs : FS) : option error * FS :=
  match fault, fs.(fs_files) !! old with
  | Some e, _ => (Some e, fs)
  | None, None => (Some ErrNotExist, fs)
  | None, Some f => (None, with_files (<[new := f]> (delete old fs.(fs_files))) fs)
  end.

Definition os_Remove (path : string) (fs : FS) : FS := with_files (delete path fs.(fs_files)) fs.

Definition ReadFile (fault : option error) (path : string) (fs : FS) : result bytes :=
  match fault, fs.(fs_files) !! path with
  | Some e, _ => Err e
  | None, None => Err ErrNotExist
  | None, Some f => Ok f.(fl_data)
  end.

(** The faults of one "write a temporary file, then rename it" sequence. *)
Record save_faults := mkFaults {
  ft_mkdir : option error;
  ft_write : option write_fault;
  ft_chmod : option error;
  ft_rename : option error
}.

Definition no_faults : save_faults := mkFaults None None None None.

Definition temp_name (path : string) : string := path +:+ ".tmp".

Lemma temp_name_ne path : temp_name path <> path.
Proof.
  intros H. apply (f_equal String.length) in H. unfold temp_name in H.
  assert (String.length (path +:+ ".tmp") = (String.length path + 4)%nat) as E.
  { clear H. induction path as [|a path IH]; [done|].
    change (S (String.length (path +:+ ".tmp")) = S (String.length path + 4)). by rewrite IH. }
  lia.
Qed.

(** What every such sequence promises: the file is replaced as a whole or not
    at all, and no other file is touched but the temporary one. *)
Definition replaced_or_kept (path : string) (data : bytes) (fs : FS) (r : option error * FS) : Prop :=
  match r.1 with
  | None => exists f, r.2.(fs_files) !! path = Some f /\ f.(fl_data) = data
  | Some _ => r.2.(fs_files) !! path = fs.(fs_files) !! path
  end /\
  forall q, q <> path -> q <> temp_name path -> r.2.(fs_files) !! q = fs.(fs_files) !! q.

(** Make the directory, write the temporary file, rename it: the tail of the
    program's save functions (mode 0600). *)
Definition save_rename (ft : save_faults) (path : string) (data : bytes) (fs : FS)
  : option error * FS :=
  match ft.(ft_mkdir) with
  | Some e => (Some e, fs)
  | None =>
      match WriteFile ft.(ft_write) (temp_name path) data 0x180 fs with
      | (Some e, fs) => (Some e, fs)
      | (None, fs) =>
          match Rename ft.(ft_rename) (temp_name path) path fs with
          | (Some e, fs) => (Some e, os_Remove (temp_name path) fs)
          | (None, fs) => (None, fs)
          end
      end
  end.

Lemma WriteFile_other fault path data mode fs q :
  q <> path -> (WriteFile fault path data mode fs).2.(fs_files) !! q = fs.(fs_files) !! q.
Proof. intros H. destruct fault as [[e|e n]|]; cbn; [done|by rewrite lookup_insert_ne..]. Qed.

Lemma WriteFile_ok fault path data mode fs fs' :
  WriteFile fault path data mode fs = (None, fs') ->
  exists m, fs'.(fs_files) = <[path := mkFile data m]> fs.(fs_files) /\ fs'.(fs_umask) = fs.(fs_umask).
Proof. destruct fault as [[e|e n]|]; cbn; intros [= <-]. by eexists. Qed.

Lemma save_rename_atomic ft path data fs :
  replaced_or_kept path data fs (save_rename ft path data fs).
Proof.
  pose proof (temp_name_ne path) as Hne. unfold save_rename, replaced_or_kept.
  destruct (ft_mkdir ft); [done|].
  pose proof (WriteFile_other (ft_write ft) (temp_name path) data 0x180 fs) as Ho.
  destruct (WriteFile _ _ _ _ fs) as [[e|] fs1] eqn:Ew; cbn in *; [by auto|].
  apply WriteFile_ok in Ew as (m & Hm & _). unfold Rename. destruct (ft_rename ft) as [e|]; cbn.
  - split; [rewrite lookup_delete_ne by done; by apply Ho|]. intros q Hq Hq'.
    rewrite lookup_delete_ne by done. by apply Ho.
  - rewrite Hm, lookup_insert_eq. cbn. split.
    + eexists. by rewrite lookup_insert_eq.
    + intros q Hq Hq'. rewrite lookup_insert_ne, lookup_delete_ne by done.
      by rewrite lookup_insert_ne by done.
Qed.
