(* ===== verification/Auth.v ===== *)
(** * Authentication: [internal/auth/auth.go] and [internal/auth/handshake.go]

    The password verifier, its file, passphrase sources, and the
    challenge-response handshake.  [argon2.IDKey] (golang.org/x/crypto) is the
    parameter [IDKey]; SHA-256, HMAC, base64 and JSON are those of the standard
    library, modelled in [Crypto.v], [Base64.v] and [Json.v].  The random bytes
    a function draws, the faults of the file system, the environment and the
    terminal are arguments. *)
From S2P Require Import Prelude GoIO GoStrings Json Codec Protocol Base64 Crypto GoText GoFS.

Definition defaultMemory : Z := 64 * 1024.
Definition defaultIterations : Z := 3.
Definition defaultParallelism : Z := 2.
Definition keyLength : Z := 32.
Definition saltLength : nat := 16.

Record Parameters := mkParameters { pa_Memory : Z; pa_Iterations : Z; pa_Parallelism : Z }.

Record VerifierFile := mkVerifierFile {
  vf_Version : Z;
  vf_Salt : string;
  vf_Hash : string;
  vf_Params : Parameters
}.

Record Verifier := mkVerifier { ve_Salt : bytes; ve_Hash : bytes; ve_Params : Parameters }.

Definition DefaultParameters : Parameters :=
  mkParameters defaultMemory defaultIterations defaultParallelism.

#[export] Instance Parameters_Json : Json Parameters := {|
  to_json p := JObj (
    member "memory_kib" false (enc_int p.(pa_Memory)) ++
    member "iterations" false (enc_int p.(pa_Iterations)) ++
    member "parallelism" false (enc_int p.(pa_Parallelism)));
  json_zero := mkParameters 0 0 0;
  json_dec := dec_struct [
    mkfield "memory_kib" (dec_uint 32) pa_Memory (fun v '(mkParameters _ b c) => mkParameters v b c);
    mkfield "iterations" (dec_uint 32) pa_Iterations
      (fun v '(mkParameters a _ c) => mkParameters a v c);
    mkfield "parallelism" (dec_uint 8) pa_Parallelism
      (fun v '(mkParameters a b _) => mkParameters a b v)]
|}.

#[export] Instance VerifierFile_Json : Json VerifierFile := {|
  to_json f := JObj (
    member "version" false (enc_int f.(vf_Version)) ++
    member "salt" false (enc_string f.(vf_Salt)) ++
    member "hash" false (enc_string f.(vf_Hash)) ++
    member "params" false (to_json f.(vf_Params)));
  json_zero := mkVerifierFile 0 "" "" json_zero;
  json_dec := dec_struct [
    mkfield "version" dec_i64 vf_Version
      (fun v '(mkVerifierFile _ b c d) => mkVerifierFile v b c d);
    mkfield "salt" dec_string vf_Salt (fun v '(mkVerifierFile a _ c d) => mkVerifierFile a v c d);
    mkfield "hash" dec_string vf_Hash (fun v '(mkVerifierFile a b _ d) => mkVerifierFile a b v d);
    mkfield "params" json_dec vf_Params (fun v '(mkVerifierFile a b c _) => mkVerifierFile a b c v)]
|}.

(** A [[]byte] field: base64 text; a JSON array of numbers is accepted too. *)
Definition json_base64_error : error := EForeign 3 "illegal base64 data".
Definition enc_bytes (b : bytes) : json := JStr (b64_encode true b).
Definition dec_bytes : decoder bytes := fun j cur =>
  match j with
  | JStr s =>
      match b64_decode true s with
      | Some b => (b, None)
      | None => (cur, Some json_base64_error)
      end
  | JArr l =>
      let '(v, e) := dec_elems (dec_uint 8) 0 l (map byte_to_Z cur) in (map byte_of_Z v, e)
  | JNull => ([], None)
  | _ => (cur, Some json_type_error)
  end.

Record AuthResponse := mkAuthResponse {
  as_Version : Z;
  as_Role : string;
  as_Response : bytes;
  as_SessionID : string
}.

#[export] Instance AuthResponse_Json : Json AuthResponse := {|
  to_json r := JObj (
    member "version" false (enc_int r.(as_Version)) ++
    member "role" false (enc_string r.(as_Role)) ++
    member "response" false (enc_bytes r.(as_Response)) ++
    member "session_id" (empty_string r.(as_SessionID)) (enc_string r.(as_SessionID)));
  json_zero := mkAuthResponse 0 "" [] "";
  json_dec := dec_struct [
    mkfield "version" dec_i64 as_Version
      (fun v '(mkAuthResponse _ b c d) => mkAuthResponse v b c d);
    mkfield "role" dec_string as_Role (fun v '(mkAuthResponse a _ c d) => mkAuthResponse a v c d);
    mkfield "response" dec_bytes as_Response
      (fun v '(mkAuthResponse a b _ d) => mkAuthResponse a b v d);
    mkfield "session_id" dec_string as_SessionID
      (fun v '(mkAuthResponse a b c _) => mkAuthResponse a b c v)]
|}.

Record challengePayload := mkChallenge {
  ch_Version : Z;
  ch_Nonce : bytes;
  ch_Salt : bytes;
  ch_Iterations : Z;
  ch_Memory : Z;
  ch_Parallelism : Z
}.

#[export] Instance challengePayload_Json : Json challengePayload := {|
  to_json c := JObj (
    member "version" false (enc_int c.(ch_Version)) ++
    member "nonce" false (enc_bytes c.(ch_Nonce)) ++
    member "salt" false (enc_bytes c.(ch_Salt)) ++
    member "iterations" false (enc_int c.(ch_Iterations)) ++
    member "memory_kib" false (enc_int c.(ch_Memory)) ++
    member "parallelism" false (enc_int c.(ch_Parallelism)));
  json_zero := mkChallenge 0 [] [] 0 0 0;
  json_dec := dec_struct [
    mkfield "version" dec_i64 ch_Version
      (fun v '(mkChallenge _ b c d e f) => mkChallenge v b c d e f);
    mkfield "nonce" dec_bytes ch_Nonce (fun v '(mkChallenge a _ c d e f) => mkChallenge a v c d e f);
    mkfield "salt" dec_bytes ch_Salt (fun v '(mkChallenge a b _ d e f) => mkChallenge a b v d e f);
    mkfield "iterations" (dec_uint 32) ch_Iterations
      (fun v '(mkChallenge a b c _ e f) => mkChallenge a b c v e f);
    mkfield "memory_kib" (dec_uint 32) ch_Memory
      (fun v '(mkChallenge a b c d _ f) => mkChallenge a b c d v f);
    mkfield "parallelism" (dec_uint 8) ch_Parallelism
      (fun v '(mkChallenge a b c d e _) => mkChallenge a b c d e v)]
|}.

(* ------------------------------------------------------------------ *)
(** ** Verifiers *)

Definition ChallengeResponse (v : Verifier) (nonce : bytes) : bytes :=
  hmac_sha256 v.(ve_Hash) (bytes_of "lnproxy-auth-v1" ++ nonce).

Definition VerifyChallenge (v : Verifier) (nonce response : bytes) : bool :=
  ConstantTimeCompare (ChallengeResponse v nonce) response =? 1.

Definition writePrivateFile (ft : save_faults) (path : string) (data : bytes) (fs : FS)
  : option error * FS :=
  match ft.(ft_mkdir) with
  | Some e => (Some e, fs)
  | None =>
      let temp := temp_name path in
      match WriteFile ft.(ft_write) temp data 0x180 fs with
      | (Some e, fs) => (Some e, fs)
      | (None, fs) =>
          match Chmod ft.(ft_chmod) temp 0x180 fs with
          | (Some e, fs) => (Some e, os_Remove temp fs)
          | (None, fs) =>
              match Rename ft.(ft_rename) temp path fs with
              | (Some e, fs) => (Some e, os_Remove temp fs)
              | (None, fs) => (None, fs)
              end
          end
      end
  end.

Definition Verifier_Save (v : Verifier) (ft : save_faults) (path : string) (fs : FS)
  : option error * FS :=
  let encoded := mkVerifierFile 1 (string_of (b64_encode false v.(ve_Salt)))
    (string_of (b64_encode false v.(ve_Hash))) v.(ve_Params) in
  writePrivateFile ft path (print_indent (to_json encoded) ++ [x0a]) fs.

Definition LoadVerifier (fault : option error) (path : string) (fs : FS) : result Verifier :=
  let? data := ReadFile fault path fs in
  match Unmarshal data with
  | (_, Some e) => Err (EWrap "parse verifier: " e)
  | (encoded, None) =>
      if negb (encoded.(vf_Version) =? 1)
      then Err (ENew ("unsupported verifier version " +:+ Itoa encoded.(vf_Version)))
      else
        match b64_decode false (bytes_of encoded.(vf_Salt)) with
        | None => Err (EWrap "decode salt: " json_base64_error)
        | Some salt =>
            match b64_decode false (bytes_of encoded.(vf_Hash)) with
            | None => Err (EWrap "decode hash: " json_base64_error)
            | Some hash =>
                if (length salt <? 8)%nat || negb (Z.of_nat (length hash) =? keyLength)
                then Err (ENew "invalid verifier file")
                else Ok (mkVerifier salt hash encoded.(vf_Params))
            end
        end
  end.

Section KeyDerivation.
(** [argon2.IDKey(password, salt, time, memory, threads, keyLen)]. *)
Variable IDKey : bytes -> bytes -> Z -> Z -> Z -> Z -> bytes.

Definition Derive (passphrase salt : bytes) (params : Parameters) : bytes :=
  let params := if params.(pa_Memory) =? 0 then DefaultParameters else params in
  IDKey passphrase salt params.(pa_Iterations) params.(pa_Memory) params.(pa_Parallelism) keyLength.

(** [rand] is the result of reading the salt from [crypto/rand]. *)
Definition NewVerifier (rand : result bytes) (passphrase : bytes) : result Verifier :=
  let? salt := rand in
  let params := DefaultParameters in
  Ok (mkVerifier salt (Derive passphrase salt params) params).

Definition Verify (v : Verifier) (passphrase : bytes) : bool :=
  ConstantTimeCompare (Derive passphrase v.(ve_Salt) v.(ve_Params)) v.(ve_Hash) =? 1.

End KeyDerivation.

(* ------------------------------------------------------------------ *)
(** ** Passphrases *)

(** Standard input: whether it is a terminal, and what the successive calls of
    [term.ReadPassword] return. *)
Record Terminal := mkTerminal { tm_isTerminal : bool; tm_first : result bytes; tm_second : result bytes }.

Definition PromptPassphrase (t : Terminal) (confirm : bool) : result bytes :=
  if negb t.(tm_isTerminal)
  then Err (ENew "standard input is not a terminal; use env: or file: passphrase source")
  else
    let? first := t.(tm_first) in
    match first with
    | [] => Err (ENew "passphrase cannot be empty")
    | _ =>
        if negb confirm then Ok first
        else
          let? second := t.(tm_second) in
          if negb (bool_decide (first = second)) then Err (ENew "passphrases do not match")
          else Ok first
    end.

Definition ResolvePassphrase (t : Terminal) (env : gmap string bytes) (readFault : option error)
  (fs : FS) (source : bytes) : result bytes :=
  if bool_decide (source = bytes_of "prompt") then PromptPassphrase t false
  else if HasPrefix source (bytes_of "env:") then
    let name := TrimPrefix source (bytes_of "env:") in
    match name with
    | [] => Err (ENew "invalid environment passphrase source")
    | _ =>
        match env !! string_of name with
        | None | Some [] => Err (ENew ("environment variable " +:+ string_of name +:+ " is not set"))
        | Some value => Ok value
        end
    end
  else if HasPrefix source (bytes_of "file:") then
    let path := TrimPrefix source (bytes_of "file:") in
    match path with
    | [] => Err (ENew "invalid file passphrase source")
    | _ =>
        let? data := ReadFile readFault (string_of path) fs in
        match TrimRight data [x0d; x0a] with
        | [] => Err (ENew "passphrase file is empty")
        | value => Ok value
        end
    end
  else Err (ENew ("unsupported passphrase source " +:+ Quote (string_of source))).

(* ------------------------------------------------------------------ *)
(** ** The handshake *)

Definition RoleClient : string := "client".
Definition RoleExit : string := "exit".

(** [rand] is the result of reading the nonce from [crypto/rand]. *)
Definition makeChallenge (rand : result bytes) (verifier : Verifier) : result bytes :=
  let? nonce := rand in
  Marshal (mkChallenge Version nonce verifier.(ve_Salt)
    verifier.(ve_Params).(pa_Iterations) verifier.(ve_Params).(pa_Memory)
    verifier.(ve_Params).(pa_Parallelism)).

Definition decodeChallenge (payload : bytes) : result challengePayload :=
  match Unmarshal payload with
  | (_, Some e) => Err e
  | (c, None) =>
      if negb (c.(ch_Version) =? Version) || (length c.(ch_Nonce) <? 16)%nat ||
         (length c.(ch_Salt) <? 8)%nat ||
         (c.(ch_Iterations) <? 1) || (10 <? c.(ch_Iterations)) ||
         (c.(ch_Memory) <? 8 * 1024) || (1024 * 1024 <? c.(ch_Memory)) ||
         (c.(ch_Parallelism) <? 1) || (16 <? c.(ch_Parallelism))
      then Err (ENew "invalid authentication challenge")
      else Ok c
  end.

Definition zero_response : AuthResponse := json_zero.

Definition type_error (what : string) (t : FrameType) : error :=
  ENew ("expected " +:+ what +:+ ", got frame " +:+ Itoa (byte_to_Z t)).

Definition accepts_role (roleLimit role : string) : bool :=
  empty_string roleLimit || bool_decide (roleLimit = role).

(** The verdict, written to the client and returned: the end that
    [ServerHandshake] and [ServerHandshakePassword] share. *)
Definition send_result (response : AuthResponse) (ok : bool) (rw : ReadWriter)
  : AuthResponse * option error * ReadWriter :=
  let result := mkAuthResult ok (if ok then "" else "authentication failed") Version in
  match WriteJSON rw.(rw_out) FrameAuthResult 0 result with
  | (Some e, w) => (response, Some e, mkRW rw.(rw_in) w)
  | (None, w) =>
      (response, if ok then None else Some ErrInvalidPassword, mkRW rw.(rw_in) w)
  end.

Definition ServerHandshake (rand : result bytes) (verifier : Verifier) (roleLimit : string)
  (rw : ReadWriter) : AuthResponse * option error * ReadWriter :=
  match makeChallenge rand verifier with
  | Err e => (zero_response, Some e, rw)
  | Ok challenge =>
      match Writer_Write rw.(rw_out) (mkFrame FrameChallenge 0 challenge) with
      | (Some e, w) => (zero_response, Some e, mkRW rw.(rw_in) w)
      | (None, w) =>
          match ReadFrame rw.(rw_in) with
          | (Err e, r) => (zero_response, Some e, mkRW r w)
          | (Ok frame, r) =>
              let rw := mkRW r w in
              if negb (bool_decide (frame.(fr_Type) = FrameAuthResponse))
              then (zero_response, Some (type_error "auth response" frame.(fr_Type)), rw)
              else
                match DecodeJSON frame with
                | (_, Some e) => (zero_response, Some (EWrap "decode auth response: " e), rw)
                | (response, None) =>
                    match decodeChallenge challenge with
                    | Err e => (zero_response, Some e, rw)
                    | Ok decoded =>
                        let ok := (response.(as_Version) =? Version) &&
                          VerifyChallenge verifier decoded.(ch_Nonce) response.(as_Response) &&
                          accepts_role roleLimit response.(as_Role) in
                        send_result response ok rw
                    end
                end
          end
      end
  end.

Definition ServerHandshakePassword (rand : result bytes) (verifier : Verifier) (roleLimit : string)
  (rw : ReadWriter) : AuthResponse * option error * ReadWriter :=
  match makeChallenge rand verifier with
  | Err e => (zero_response, Some e, rw)
  | Ok challenge =>
      match Writer_Write rw.(rw_out) (mkFrame FrameChallenge 0 challenge) with
      | (Some e, w) => (zero_response, Some e, mkRW rw.(rw_in) w)
      | (None, w) =>
          match ReadFrame rw.(rw_in) with
          | (Err e, r) => (zero_response, Some e, mkRW r w)
          | (Ok frame, r) =>
              let rw := mkRW r w in
              if negb (bool_decide (frame.(fr_Type) = FrameAuthResponse))
              then (zero_response, Some (type_error "auth response" frame.(fr_Type)), rw)
              else
                match DecodeJSON frame with
                | (_, Some e) => (zero_response, Some e, rw)
                | (response, None) =>
                    match decodeChallenge challenge with
                    | Err e => (response, Some e, rw)
                    | Ok decoded =>
                        let ok := (response.(as_Version) =? Version) &&
                          accepts_role roleLimit response.(as_Role) &&
                          VerifyChallenge verifier decoded.(ch_Nonce) response.(as_Response) in
                        send_result response ok rw
                    end
                end
          end
      end
  end.

(** The end of both client handshakes: send the proof, read the verdict. *)
Definition client_finish (role : string) (proof : bytes) (rw : ReadWriter)
  : option error * ReadWriter :=
  match WriteJSON rw.(rw_out) FrameAuthResponse 0 (mkAuthResponse Version role proof "") with
  | (Some e, w) => (Some e, mkRW rw.(rw_in) w)
  | (None, w) =>
      match ReadFrame rw.(rw_in) with
      | (Err e, r) => (Some e, mkRW r w)
      | (Ok frame, r) =>
          let rw := mkRW r w in
          if negb (bool_decide (frame.(fr_Type) = FrameAuthResult))
          then (Some (type_error "authentication result" frame.(fr_Type)), rw)
          else
            match DecodeJSON frame with
            | (_, Some e) => (Some e, rw)
            | (result, None) =>
                if negb (result.(ar_Version) =? Version)
                then (Some (ENew ("protocol version mismatch: server uses "
                                  +:+ Itoa result.(ar_Version))), rw)
                else if negb result.(ar_OK) then (Some ErrInvalidPassword, rw)
                else (None, rw)
            end
      end
  end.

(** The start of both: read the challenge. *)
Definition client_challenge (rw : ReadWriter) : result challengePayload * ReadWriter :=
  match ReadFrame rw.(rw_in) with
  | (Err e, r) => (Err e, mkRW r rw.(rw_out))
  | (Ok frame, r) =>
      let rw := mkRW r rw.(rw_out) in
      if negb (bool_decide (frame.(fr_Type) = FrameChallenge))
      then (Err (type_error "challenge" frame.(fr_Type)), rw)
      else (decodeChallenge frame.(fr_Payload), rw)
  end.

Definition ClientHandshake (verifier : Verifier) (role : string) (rw : ReadWriter)
  : option error * ReadWriter :=
  match client_challenge rw with
  | (Err e, rw) => (Some e, rw)
  | (Ok challenge, rw) => client_finish role (ChallengeResponse verifier challenge.(ch_Nonce)) rw
  end.

Definition ClientHandshakePassword (IDKey : bytes -> bytes -> Z -> Z -> Z -> Z -> bytes)
  (passphrase : bytes) (role : string) (rw : ReadWriter) : option error * ReadWriter :=
  match client_challenge rw with
  | (Err e, rw) => (Some e, rw)
  | (Ok challenge, rw) =>
      let params := mkParameters challenge.(ch_Memory) challenge.(ch_Iterations)
        challenge.(ch_Parallelism) in
      let hash := Derive IDKey passphrase challenge.(ch_Salt) params in
      let verifier := mkVerifier challenge.(ch_Salt) hash params in
      client_finish role (ChallengeResponse verifier challenge.(ch_Nonce)) rw
  end.
