(* ===== verification/AuthProps.v ===== *)
(** * Properties of authentication

    The handshake accepts exactly the holders of the password for the
    connection's own challenge; the verifier file round-trips and is replaced
    atomically; passphrases are never empty. *)
From S2P Require Import Prelude GoIO GoStrings Json Codec Protocol Base64 Crypto GoText GoFS.
From S2P Require Import Auth.

(* ------------------------------------------------------------------ *)
(** ** Codec laws of the messages *)

Lemma dec_enc_bytes b cur : dec_bytes (enc_bytes b) cur = (b, None).
Proof. cbn. by rewrite b64_decode_encode. Qed.

(** Values of the fields' Go types. *)
Definition Parameters_ok (p : Parameters) : Prop :=
  0 <= p.(pa_Memory) < 2 ^ 32 /\ 0 <= p.(pa_Iterations) < 2 ^ 32 /\ 0 <= p.(pa_Parallelism) < 2 ^ 8.
Definition VerifierFile_ok (f : VerifierFile) : Prop :=
  in_i64 f.(vf_Version) /\ string_ok f.(vf_Salt) /\ string_ok f.(vf_Hash) /\
  Parameters_ok f.(vf_Params).
Definition AuthResponse_ok (r : AuthResponse) : Prop :=
  in_i64 r.(as_Version) /\ string_ok r.(as_Role) /\ string_ok r.(as_SessionID).
Definition challenge_ok (c : challengePayload) : Prop :=
  in_i64 c.(ch_Version) /\ 0 <= c.(ch_Iterations) < 2 ^ 32 /\ 0 <= c.(ch_Memory) < 2 ^ 32 /\
  0 <= c.(ch_Parallelism) < 2 ^ 8.

Ltac solve_auth_jwf :=
  let H := fresh in
  intros ? H; red in H; destruct_and?; apply jwf_JObj;
  solve_members ltac:(apply member_jwf;
    [reflexivity|first [apply jwf_enc_int|apply jwf_enc_string; assumption
                       |apply b64_encode_utf8|exact I]]).
Ltac solve_auth_dec :=
  let H := fresh in
  intros [] H; red in H; destruct_and?; cbn in *;
  split_omitted; cbn [app];
  solve_dec_struct ltac:(first [apply dec_enc_bytes|solve_msg_dec]).

#[export] Instance Parameters_laws : JsonLaws Parameters.
Proof. refine (Build_JsonLaws _ _ Parameters_ok _ _ _); [solve_auth_jwf|solve_depth|solve_auth_dec]. Defined.
#[export] Instance AuthResponse_laws : JsonLaws AuthResponse.
Proof. refine (Build_JsonLaws _ _ AuthResponse_ok _ _ _); [solve_auth_jwf|solve_depth|solve_auth_dec]. Defined.
#[export] Instance challengePayload_laws : JsonLaws challengePayload.
Proof. refine (Build_JsonLaws _ _ challenge_ok _ _ _); [solve_auth_jwf|solve_depth|solve_auth_dec]. Defined.
#[export] Instance VerifierFile_laws : JsonLaws VerifierFile.
Proof.
  refine (Build_JsonLaws _ _ VerifierFile_ok _ _ _).
  - intros f (H1 & H2 & H3 & H4). apply jwf_JObj.
    solve_members ltac:(apply member_jwf; [reflexivity|first [apply jwf_enc_int
      |apply jwf_enc_string; assumption|exact (to_json_jwf (A := Parameters) _ H4)]]).
  - intros f. transitivity (1 + 3); [|done]. apply jdepth_obj; [done|].
    solve_members ltac:(apply member_depth;
      first [done|by destruct (vf_Params f); vm_compute]).
  - intros [v salt hash params] (H1 & H2 & H3 & H4). cbn in *. unfold member. cbn [app].
    solve_dec_struct ltac:(first [exact (json_dec_to_json (A := Parameters) _ H4)|solve_msg_dec]).
Defined.

(* ------------------------------------------------------------------ *)
(** ** The verifier file *)

Lemma writePrivateFile_spec ft path data fs :
  let r := writePrivateFile ft path data fs in
  match r.1 with
  | None => r.2.(fs_files) !! path = Some (mkFile data 0x180)
  | Some _ => r.2.(fs_files) !! path = fs.(fs_files) !! path
  end /\
  forall q, q <> path -> q <> temp_name path -> r.2.(fs_files) !! q = fs.(fs_files) !! q.
Proof.
  pose proof (temp_name_ne path) as Hne. unfold writePrivateFile.
  destruct (ft_mkdir ft); [done|].
  pose proof (WriteFile_other (ft_write ft) (temp_name path) data 0x180 fs) as Ho.
  destruct (WriteFile _ _ _ _ fs) as [[e|] fs1] eqn:Ew; cbn in *; [by auto|].
  apply WriteFile_ok in Ew as (m & Hm & _). unfold Chmod.
  destruct (ft_chmod ft) as [e|]; cbn.
  { split; [|intros q ? ?]; rewrite lookup_delete_ne by done; by apply Ho. }
  rewrite Hm, lookup_insert_eq. cbn. unfold Rename. destruct (ft_rename ft) as [e|]; cbn.
  - split; [|intros q ? ?]; rewrite lookup_delete_ne by done;
      rewrite lookup_insert_ne by done; [rewrite <-Ho by done|rewrite <-(Ho q) by done]; by rewrite Hm.
  - rewrite lookup_insert_eq. cbn. split; [by rewrite lookup_insert_eq|].
    intros q Hq Hq'. rewrite lookup_insert_ne, lookup_delete_ne, lookup_insert_ne by done.
    by rewrite <-Ho, Hm.
Qed.

Definition verifier_ok (v : Verifier) : Prop :=
  (8 <= length v.(ve_Salt))%nat /\ length v.(ve_Hash) = 32%nat /\ Parameters_ok v.(ve_Params).

Lemma LoadVerifier_saved v path fs mode :
  verifier_ok v ->
  fs.(fs_files) !! path = Some (mkFile (print_indent (to_json (mkVerifierFile 1
    (string_of (b64_encode false v.(ve_Salt))) (string_of (b64_encode false v.(ve_Hash)))
    v.(ve_Params))) ++ [x0a]) mode) ->
  LoadVerifier None path fs = Ok v.
Proof.
  intros (Hs & Hh & Hp) Hf. set (enc := mkVerifierFile _ _ _ _) in Hf.
  assert (VerifierFile_ok enc) as Hok.
  { unfold enc. split; [done|]. split; [|split; [|done]]; unfold string_ok; cbn [vf_Salt vf_Hash];
      rewrite bytes_of_string_of; apply b64_encode_utf8. }
  unfold LoadVerifier, ReadFile. rewrite Hf. cbn [result_bind fl_data]. unfold Unmarshal.
  rewrite parse_print_indent; [|exact (to_json_jwf (A := VerifierFile) enc Hok)
    |exact (to_json_depth (A := VerifierFile) enc)|by repeat constructor].
  rewrite (@json_dec_to_json _ _ VerifierFile_laws enc Hok). unfold enc. cbn [vf_Version vf_Salt vf_Hash vf_Params].
  rewrite !bytes_of_string_of, !b64_decode_encode. change (1 =? 1) with true. cbn [negb].
  rewrite (proj2 (Nat.ltb_ge _ _)) by done. rewrite Hh. by destruct v.
Qed.

(** The verifier file: when [Save] reports success the file has mode 0600
    and [LoadVerifier] returns the very verifier; when it reports an error,
    whichever system call failed, the file at that path is what it was before;
    no other file but the temporary one is touched. *)
Theorem verifier_file_roundtrip (v : Verifier) (ft : save_faults) (path : string) (fs : FS)
  (Hok : verifier_ok v) :
  let r := Verifier_Save v ft path fs in
  match r.1 with
  | None => LoadVerifier None path r.2 = Ok v /\
            exists f, r.2.(fs_files) !! path = Some f /\ f.(fl_mode) = 0x180
  | Some _ => r.2.(fs_files) !! path = fs.(fs_files) !! path
  end /\
  forall q, q <> path -> q <> temp_name path -> r.2.(fs_files) !! q = fs.(fs_files) !! q.
Proof.
  cbn zeta. unfold Verifier_Save. set (enc := mkVerifierFile _ _ _ _). set (data := _ ++ [x0a]).
  destruct (writePrivateFile_spec ft path data fs) as [H1 H2]. split; [|done].
  destruct (writePrivateFile ft path data fs) as [[e|] fs']; cbn in *; [done|]. split.
  - by apply (LoadVerifier_saved v path fs' 0x180).
  - eexists. split; [exact H1|done].
Qed.

Definition demo_verifier : Verifier :=
  mkVerifier (repeat x53 16) (repeat x48 32) DefaultParameters.

Lemma demo_verifier_ok : verifier_ok demo_verifier.
Proof. split_and!; [cbn; lia|done|]. repeat split; vm_compute; congruence. Qed.

Lemma verifier_file_roundtrip_witness :
  LoadVerifier None "v.json" (Verifier_Save demo_verifier no_faults "v.json" (mkFS ∅ 0)).2
  = Ok demo_verifier.
Proof.
  destruct (verifier_file_roundtrip demo_verifier no_faults "v.json" (mkFS ∅ 0) demo_verifier_ok)
    as [H _]. cbn [fst] in H.
  assert ((Verifier_Save demo_verifier no_faults "v.json" (mkFS ∅ 0)).1 = None) as E
    by (vm_compute; reflexivity).
  rewrite E in H. apply H.
Defined.

(** A stand-in for the key derivation, for the witnesses. *)
Definition demo_IDKey (password salt : bytes) (time memory threads keyLen : Z) : bytes :=
  take (Z.to_nat keyLen) (sha256 (password ++ salt) ++ repeat x00 (Z.to_nat keyLen)).

(** A password set with [NewVerifier] and saved is the only one [Verify]
    accepts after loading, up to collisions of the key derivation: for a
    derivation that returns keys of the requested length, a passphrase is
    accepted exactly when it derives the same key. *)
Theorem saved_password_verifies
  (IDKey : bytes -> bytes -> Z -> Z -> Z -> Z -> bytes)
  (IDKey_length : forall p s t m th k, 0 <= k -> Z.of_nat (length (IDKey p s t m th k)) = k)
  (salt passphrase : bytes) (path : string) (fs : FS)
  (Hsalt : length salt = saltLength) :
  exists v v', NewVerifier IDKey (Ok salt) passphrase = Ok v /\
    LoadVerifier None path (Verifier_Save v no_faults path fs).2 = Ok v' /\
    Verify IDKey v' passphrase = true /\
    forall other, Verify IDKey v' other = true <->
      Derive IDKey other salt DefaultParameters = Derive IDKey passphrase salt DefaultParameters.
Proof.
  set (v := mkVerifier salt (Derive IDKey passphrase salt DefaultParameters) DefaultParameters).
  assert (verifier_ok v) as Hv.
  { unfold verifier_ok, saltLength in *. split_and!; cbn.
    - lia.
    - apply Nat2Z.inj. by apply IDKey_length.
    - repeat split; vm_compute; congruence. }
  assert (forall other, Verify IDKey v other = true <->
    Derive IDKey other salt DefaultParameters = Derive IDKey passphrase salt DefaultParameters) as Hver.
  { intros other. unfold Verify. rewrite Z.eqb_eq, ConstantTimeCompare_spec. done. }
  exists v, v. split_and!; [done| |by apply Hver|done].
  unfold Verifier_Save. set (data := _ ++ [x0a]).
  destruct (writePrivateFile_spec no_faults path data fs) as [H1 _].
  assert ((writePrivateFile no_faults path data fs).1 = None) as E.
  { unfold writePrivateFile. cbn. unfold Chmod, Rename. cbn.
    rewrite lookup_insert_eq. cbn. by rewrite lookup_insert_eq. }
  rewrite E in H1. by apply (LoadVerifier_saved v path _ 0x180).
Qed.

Lemma saved_password_verifies_witness :
  exists v v', NewVerifier demo_IDKey (Ok (repeat x53 16)) (bytes_of "secret") = Ok v /\
    LoadVerifier None "v.json" (Verifier_Save v no_faults "v.json" (mkFS ∅ 0)).2 = Ok v' /\
    Verify demo_IDKey v' (bytes_of "secret") = true /\
    forall other, Verify demo_IDKey v' other = true <->
      Derive demo_IDKey other (repeat x53 16) DefaultParameters =
      Derive demo_IDKey (bytes_of "secret") (repeat x53 16) DefaultParameters.
Proof.
  apply (saved_password_verifies demo_IDKey); [|reflexivity].
  intros p s t m th k Hk. unfold demo_IDKey.
  rewrite length_take, length_app, repeat_length, Nat.min_l by lia. lia.
Defined.

(* ------------------------------------------------------------------ *)
(** ** The handshake *)

Definition challenge_of (nonce : bytes) (v : Verifier) : challengePayload :=
  mkChallenge Version nonce v.(ve_Salt) v.(ve_Params).(pa_Iterations) v.(ve_Params).(pa_Memory)
    v.(ve_Params).(pa_Parallelism).

Lemma makeChallenge_Ok nonce v :
  makeChallenge (Ok nonce) v = Ok (print (to_json (challenge_of nonce v))).
Proof. done. Qed.

(** The parameters a challenge may carry. *)
Definition acceptable (p : Parameters) : Prop :=
  1 <= p.(pa_Iterations) <= 10 /\ 8192 <= p.(pa_Memory) <= 1048576 /\ 1 <= p.(pa_Parallelism) <= 16.

Lemma challenge_of_ok nonce v : Parameters_ok v.(ve_Params) -> challenge_ok (challenge_of nonce v).
Proof. intros (? & ? & ?). split; [done|]. split; [|split]; assumption. Qed.

Lemma decodeChallenge_sent nonce v : Parameters_ok v.(ve_Params) ->
  decodeChallenge (print (to_json (challenge_of nonce v))) = Ok (challenge_of nonce v) \/
  decodeChallenge (print (to_json (challenge_of nonce v))) =
    Err (ENew "invalid authentication challenge").
Proof.
  intros Hp. unfold decodeChallenge.
  rewrite (@Unmarshal_Marshal _ _ challengePayload_laws (challenge_of nonce v) _
    (challenge_of_ok nonce v Hp) eq_refl).
  destruct (_ || _); auto.
Qed.

Lemma decodeChallenge_acceptable nonce v :
  Parameters_ok v.(ve_Params) -> (16 <= length nonce)%nat -> (8 <= length v.(ve_Salt))%nat ->
  (decodeChallenge (print (to_json (challenge_of nonce v))) = Ok (challenge_of nonce v) <->
   acceptable v.(ve_Params)).
Proof.
  intros Hp Hn Hs. unfold decodeChallenge.
  rewrite (@Unmarshal_Marshal _ _ challengePayload_laws (challenge_of nonce v) _
    (challenge_of_ok nonce v Hp) eq_refl).
  cbn [challenge_of ch_Version ch_Nonce ch_Salt ch_Iterations ch_Memory ch_Parallelism].
  change (Version =? Version) with true. cbn [negb orb].
  rewrite (proj2 (Nat.ltb_ge _ _) Hn), (proj2 (Nat.ltb_ge _ _) Hs). cbn [orb].
  unfold acceptable. destruct (ve_Params v) as [m i p]. cbn [pa_Memory pa_Iterations pa_Parallelism].
  destruct (Z.ltb_spec i 1), (Z.ltb_spec 10 i), (Z.ltb_spec m (8 * 1024)),
    (Z.ltb_spec (1024 * 1024) m), (Z.ltb_spec p 1), (Z.ltb_spec 16 p); cbn [orb];
    (split; [intros E|intros E]); try discriminate E; try lia; try reflexivity.
Qed.

Lemma VerifyChallenge_spec v nonce response :
  VerifyChallenge v nonce response = true <-> response = ChallengeResponse v nonce.
Proof.
  unfold VerifyChallenge. rewrite Z.eqb_eq, ConstantTimeCompare_spec. split; by intros ->.
Qed.

Lemma Writer_Write_unbounded w f :
  w.(sk_room) = None -> Z.of_nat (length f.(fr_Payload)) <= MaxFrameSize ->
  Writer_Write w f = (None, sink_append w (frame_bytes f)).
Proof. intros Hw Hf. apply WriteFrame_room; [done|]. unfold has_room. by rewrite Hw. Qed.

Lemma sink_append_unbounded w p : w.(sk_room) = None -> (sink_append w p).(sk_room) = None.
Proof. intros H. cbn. by rewrite H. Qed.

(** The three frames of a successful handshake. *)
Definition hs_challenge (nonce : bytes) (v : Verifier) : Frame :=
  mkFrame FrameChallenge 0 (print (to_json (challenge_of nonce v))).
Definition hs_response (role : string) (proof : bytes) : Frame :=
  mkFrame FrameAuthResponse 0 (print (to_json (mkAuthResponse Version role proof ""))).
Definition hs_result (ok : bool) : Frame :=
  mkFrame FrameAuthResult 0
    (print (to_json (mkAuthResult ok (if ok then "" else "authentication failed") Version))).

Lemma hs_result_ok b : frame_ok (hs_result b).
Proof. destruct b; vm_compute; intuition congruence. Qed.

(** C21: the handshake completes for whoever knows the password: a server with
    a usable verifier and a client whose passphrase derives its key, in a role
    the server admits, exchange one challenge, one response and one result, and
    both report success; each side's input is exactly the other's output.  This
    holds for [ServerHandshake], which the server calls (with no role limit), and
    for [ServerHandshakePassword]. *)
Theorem handshake_completes (IDKey : bytes -> bytes -> Z -> Z -> Z -> Z -> bytes)
  (v : Verifier) (passphrase nonce : bytes) (role roleLimit : string) (ks kc : Sink) (e : error)
  (Hpass : Derive IDKey passphrase v.(ve_Salt) v.(ve_Params) = v.(ve_Hash))
  (Hparams : acceptable v.(ve_Params)) (Hsalt : (8 <= length v.(ve_Salt))%nat)
  (Hnonce : length nonce = 32%nat) (Hrole : string_ok role)
  (Hlimit : roleLimit = ""%string \/ roleLimit = role)
  (Hsize : frame_ok (hs_challenge nonce v) /\
           frame_ok (hs_response role (ChallengeResponse v nonce)))
  (Hks : ks.(sk_room) = None) (Hkc : kc.(sk_room) = None) :
  exists c2s s2c,
    ServerHandshake (Ok nonce) v roleLimit (mkRW (mkReader c2s e) ks) =
      (mkAuthResponse Version role (ChallengeResponse v nonce) "", None,
       mkRW (mkReader [] e) (sink_append ks s2c)) /\
    ServerHandshakePassword (Ok nonce) v roleLimit (mkRW (mkReader c2s e) ks) =
      (mkAuthResponse Version role (ChallengeResponse v nonce) "", None,
       mkRW (mkReader [] e) (sink_append ks s2c)) /\
    ClientHandshakePassword IDKey passphrase role (mkRW (mkReader s2c e) kc) =
      (None, mkRW (mkReader [] e) (sink_append kc c2s)).
Proof.
  set (proof := ChallengeResponse v nonce). fold proof in Hsize.
  destruct Hsize as [Hf1 Hf2]. pose proof (hs_result_ok true) as Hf3.
  assert (Parameters_ok v.(ve_Params)) as Hp.
  { destruct Hparams as (? & ? & ?). split_and!; lia. }
  assert (decodeChallenge (print (to_json (challenge_of nonce v))) = Ok (challenge_of nonce v)) as Hdc.
  { apply decodeChallenge_acceptable; try done. lia. }
  assert (AuthResponse_ok (mkAuthResponse Version role proof "")) as Hr by (by split_and!).
  exists (frame_bytes (hs_response role proof)), (frame_bytes (hs_challenge nonce v) ++ frame_bytes (hs_result true)).
  assert (accepts_role roleLimit role = true) as Hacc.
  { unfold accepts_role. destruct Hlimit as [->| ->]; [done|]. by rewrite (bool_decide_true (role = role)), orb_true_r. }
  split_and!.
  1, 2: unfold ServerHandshake, ServerHandshakePassword; rewrite makeChallenge_Ok;
    fold (hs_challenge nonce v); cbn [rw_in rw_out];
    rewrite Writer_Write_unbounded by (done || apply Hf1);
    rewrite <-(app_nil_r (frame_bytes (hs_response role proof))), ReadFrame_frame_bytes by done;
    cbn [fr_Type hs_response]; rewrite bool_decide_true by done; cbn [negb];
    unfold DecodeJSON; cbn [fr_Payload hs_response];
    rewrite (@Unmarshal_Marshal _ _ AuthResponse_laws _ _ Hr eq_refl), Hdc;
    cbn [as_Version as_Role as_Response challenge_of ch_Nonce]; change (Version =? Version) with true;
    rewrite Hacc, (proj2 (VerifyChallenge_spec v nonce proof)) by done; cbn [andb];
    unfold send_result, WriteJSON, Marshal; cbn [rw_out rw_in]; fold (hs_result true);
    rewrite Writer_Write_unbounded by (by apply sink_append_unbounded || apply Hf3);
    by rewrite sink_append_app.
  - unfold ClientHandshakePassword, client_challenge. cbn [rw_in rw_out].
    rewrite ReadFrame_frame_bytes by done. cbn [fr_Type hs_challenge].
    rewrite bool_decide_true by done. cbn [negb fr_Payload hs_challenge]. rewrite Hdc.
    cbn [challenge_of ch_Memory ch_Iterations ch_Parallelism ch_Salt ch_Nonce].
    assert (mkParameters (pa_Memory (ve_Params v)) (pa_Iterations (ve_Params v))
      (pa_Parallelism (ve_Params v)) = ve_Params v) as -> by (by destruct (ve_Params v)).
    rewrite Hpass. assert (mkVerifier (ve_Salt v) (ve_Hash v) (ve_Params v) = v) as ->
      by (by destruct v). fold proof.
    unfold client_finish, WriteJSON, Marshal. cbn [rw_out rw_in]. fold (hs_response role proof).
    rewrite Writer_Write_unbounded by (done || apply Hf2).
    rewrite <-(app_nil_r (frame_bytes (hs_result true))), ReadFrame_frame_bytes by done.
    cbn [fr_Type hs_result]. rewrite bool_decide_true by done. cbn [negb]. unfold DecodeJSON.
    cbn [fr_Payload hs_result]. by rewrite (@Unmarshal_Marshal _ _ AuthResult_laws _ _
      (ltac:(by split_and!) : AuthResult_ok (mkAuthResult true "" Version)) eq_refl).
Qed.

Definition demo_hash : bytes := Derive demo_IDKey (bytes_of "secret") (repeat x53 16) DefaultParameters.

Lemma handshake_completes_witness :
  exists c2s s2c,
    ServerHandshake (Ok (repeat x4e 32))
      (mkVerifier (repeat x53 16) demo_hash DefaultParameters) ""
      (mkRW (mkReader c2s EOF) (mkSink [] None EOF)) =
      (mkAuthResponse Version "client" (ChallengeResponse
         (mkVerifier (repeat x53 16) demo_hash DefaultParameters) (repeat x4e 32)) "", None,
       mkRW (mkReader [] EOF) (sink_append (mkSink [] None EOF) s2c)) /\
    ClientHandshakePassword demo_IDKey (bytes_of "secret") "client"
      (mkRW (mkReader s2c EOF) (mkSink [] None EOF)) =
      (None, mkRW (mkReader [] EOF) (sink_append (mkSink [] None EOF) c2s)).
Proof.
  destruct (handshake_completes demo_IDKey
    (mkVerifier (repeat x53 16) demo_hash DefaultParameters) (bytes_of "secret") (repeat x4e 32) "client" ""
    (mkSink [] None EOF) (mkSink [] None EOF) EOF) as (c2s & s2c & H1 & _ & H2);
    [| | | | | | | | |exists c2s, s2c; split; [exact H1|exact H2]].
  - vm_compute. reflexivity.
  - repeat split; vm_compute; congruence.
  - cbn [ve_Salt]. rewrite repeat_length. lia.
  - apply repeat_length.
  - vm_compute. reflexivity.
  - left. reflexivity.
  - split; vm_compute; intuition congruence.
  - reflexivity.
  - reflexivity.
Defined.

(** What a frame the server reads comes to. *)
Definition server_verdict (v : Verifier) (nonce : bytes) (roleLimit : string) (r : AuthResponse) : bool :=
  (r.(as_Version) =? Version) && bool_decide (r.(as_Response) = ChallengeResponse v nonce) &&
  accepts_role roleLimit r.(as_Role).

Lemma VerifyChallenge_decide v nonce response :
  VerifyChallenge v nonce response = bool_decide (response = ChallengeResponse v nonce).
Proof. apply eq_bool_prop_intro. by rewrite bool_decide_spec, <-VerifyChallenge_spec, Is_true_true. Qed.

Lemma send_result_ok response ok rw rw' r : send_result response ok rw = (r, None, rw') ->
  r = response /\ ok = true /\ rw'.(rw_in) = rw.(rw_in) /\
  WriteJSON rw.(rw_out) FrameAuthResult 0 (mkAuthResult true "" Version) = (None, rw'.(rw_out)).
Proof.
  unfold send_result. destruct ok, (WriteJSON (rw_out rw) _ _ _) as [[e|] w] eqn:E; intros H; try done.
  by injection H as <- <-.
Qed.

(** What both server handshakes have done and checked when they report no
    error. *)
Lemma ServerHandshake_sound (v : Verifier) (nonce : bytes) (roleLimit : string)
  (rw rw' : ReadWriter) (response : AuthResponse)
  (Hv : Parameters_ok v.(ve_Params))
  (H : ServerHandshakePassword (Ok nonce) v roleLimit rw = (response, None, rw') \/
       ServerHandshake (Ok nonce) v roleLimit rw = (response, None, rw')) :
  (exists w, Writer_Write rw.(rw_out) (hs_challenge nonce v) = (None, w) /\
     WriteJSON w FrameAuthResult 0 (mkAuthResult true "" Version) = (None, rw'.(rw_out))) /\
  (exists f, rw.(rw_in).(rd_buf) = frame_bytes f ++ rw'.(rw_in).(rd_buf) /\
     f.(fr_Type) = FrameAuthResponse /\ DecodeJSON f = (response, None)) /\
  response.(as_Response) = hmac_sha256 v.(ve_Hash) (bytes_of "lnproxy-auth-v1" ++ nonce) /\
  response.(as_Version) = Version /\
  (roleLimit = ""%string \/ roleLimit = response.(as_Role)).
Proof.
  enough (exists w f r, Writer_Write rw.(rw_out) (hs_challenge nonce v) = (None, w) /\
    ReadFrame rw.(rw_in) = (Ok f, r) /\ f.(fr_Type) = FrameAuthResponse /\ DecodeJSON f = (response, None) /\
    send_result response (server_verdict v nonce roleLimit response) (mkRW r w) = (response, None, rw'))
    as (w & f & r & Hw & Hf & Ht & Hd & Hs).
  { apply send_result_ok in Hs as (_ & Hok & Hin & Hout). cbn [rw_in rw_out] in Hin, Hout.
    apply ReadFrame_Ok_bytes in Hf as (_ & Hb & _). unfold server_verdict in Hok.
    apply andb_true_iff in Hok as [[E1 E2]%andb_true_iff E3].
    apply Z.eqb_eq in E1. apply bool_decide_eq_true in E2. split_and!; try done.
    - by exists w.
    - exists f. by rewrite Hin.
    - unfold accepts_role in E3. apply orb_true_iff in E3 as [E3|E3].
      + left. by apply empty_string_spec.
      + right. by apply bool_decide_eq_true in E3. }
  destruct H as [H|H]; [unfold ServerHandshakePassword in H|unfold ServerHandshake in H];
    rewrite makeChallenge_Ok in H; fold (hs_challenge nonce v) in H;
    (destruct (Writer_Write _ _) as [[e|] w]; [done|]);
    (destruct (ReadFrame _) as [[f|e] r]; [|done]);
    (destruct (bool_decide (fr_Type f = FrameAuthResponse)) eqn:Et; [|done]); apply bool_decide_eq_true in Et;
    cbn [negb] in H; (destruct (DecodeJSON f) as [resp [e|]] eqn:Ed; [done|]);
    (destruct (decodeChallenge_sent nonce v Hv) as [E|E]; rewrite E in H; [|done]);
    pose proof (send_result_ok _ _ _ _ _ H) as (-> & _);
    exists w, f, r; (split_and!; [done..|]); rewrite <-H; f_equal; unfold server_verdict;
    rewrite VerifyChallenge_decide; cbn [challenge_of ch_Nonce];
    by destruct (_ =? _), (accepts_role _ _), (bool_decide _).
Qed.

(** C8: the server lets in only whoever answered its own challenge: if either
    server handshake reports no error, whatever bytes the peer sent, then the
    server sent the challenge with this connection's nonce, read one frame, an
    authentication response, and answered it with a positive result; and the
    response decoded from that frame holds the HMAC of the nonce under the
    verifier's key, our protocol version and an admitted role. *)
Theorem server_accepts_only_proof (v : Verifier) (nonce : bytes) (roleLimit : string)
  (rw rw' : ReadWriter) (response : AuthResponse)
  (Hv : Parameters_ok v.(ve_Params))
  (H : ServerHandshakePassword (Ok nonce) v roleLimit rw = (response, None, rw') \/
       ServerHandshake (Ok nonce) v roleLimit rw = (response, None, rw')) :
  (exists w, Writer_Write rw.(rw_out) (hs_challenge nonce v) = (None, w) /\
     WriteJSON w FrameAuthResult 0 (mkAuthResult true "" Version) = (None, rw'.(rw_out))) /\
  (exists f, rw.(rw_in).(rd_buf) = frame_bytes f ++ rw'.(rw_in).(rd_buf) /\
     f.(fr_Type) = FrameAuthResponse /\ DecodeJSON f = (response, None)) /\
  response.(as_Response) = hmac_sha256 v.(ve_Hash) (bytes_of "lnproxy-auth-v1" ++ nonce) /\
  response.(as_Version) = Version /\
  (roleLimit = ""%string \/ roleLimit = response.(as_Role)).
Proof. by apply (ServerHandshake_sound v nonce roleLimit rw rw' response). Qed.

Definition demo_client : Verifier := mkVerifier (repeat x53 16) demo_hash DefaultParameters.
Definition demo_answer : AuthResponse :=
  mkAuthResponse Version "client" (ChallengeResponse demo_client (repeat x4e 32)) "".
Definition demo_rw : ReadWriter :=
  mkRW (mkReader (frame_bytes (mkFrame FrameAuthResponse 0 (print (to_json demo_answer)))) EOF)
    (mkSink [] None EOF).

Lemma server_accepts_only_proof_witness :
  demo_answer.(as_Response) =
    hmac_sha256 demo_client.(ve_Hash) (bytes_of "lnproxy-auth-v1" ++ repeat x4e 32).
Proof.
  apply (server_accepts_only_proof demo_client (repeat x4e 32) "client" demo_rw
    (ServerHandshake (Ok (repeat x4e 32)) demo_client "client" demo_rw).2 demo_answer).
  - repeat split; vm_compute; congruence.
  - right. vm_compute. reflexivity.
Defined.

(** C24: what a client's success means, and what it gives away: the server
    sent an acceptable challenge and then a positive result of our version, and
    the client sent exactly one frame, whose only secret-dependent part is the
    HMAC of the challenge's nonce under the key derived from the passphrase with
    the salt and parameters of the challenge. *)
Theorem client_success (IDKey : bytes -> bytes -> Z -> Z -> Z -> Z -> bytes)
  (passphrase : bytes) (role : string) (rw rw' : ReadWriter)
  (H : ClientHandshakePassword IDKey passphrase role rw = (None, rw')) :
  exists f1 f2 c result,
    rw.(rw_in).(rd_buf) = frame_bytes f1 ++ frame_bytes f2 ++ rw'.(rw_in).(rd_buf) /\
    f1.(fr_Type) = FrameChallenge /\ decodeChallenge f1.(fr_Payload) = Ok c /\
    acceptable (mkParameters c.(ch_Memory) c.(ch_Iterations) c.(ch_Parallelism)) /\
    f2.(fr_Type) = FrameAuthResult /\ DecodeJSON f2 = (result, None) /\
    result.(ar_OK) = true /\ result.(ar_Version) = Version /\
    let key := Derive IDKey passphrase c.(ch_Salt)
      (mkParameters c.(ch_Memory) c.(ch_Iterations) c.(ch_Parallelism)) in
    Writer_Write rw.(rw_out)
      (hs_response role (hmac_sha256 key (bytes_of "lnproxy-auth-v1" ++ c.(ch_Nonce)))) =
      (None, rw'.(rw_out)).
Proof.
  unfold ClientHandshakePassword, client_challenge in H.
  destruct (ReadFrame (rw_in rw)) as [[f1|e] r1] eqn:E1; [|done].
  destruct (bool_decide (fr_Type f1 = FrameChallenge)) eqn:T1; [|done]. cbn [negb] in H.
  apply bool_decide_eq_true in T1.
  destruct (decodeChallenge (fr_Payload f1)) as [c|e] eqn:Dc; [|done].
  unfold client_finish, WriteJSON, Marshal in H. cbn [rw_in rw_out] in H.
  destruct (Writer_Write (rw_out rw) _) as [[e|] w] eqn:Ew in H; [done|].
  destruct (ReadFrame r1) as [[f2|e] r2] eqn:E2; [|done].
  destruct (bool_decide (fr_Type f2 = FrameAuthResult)) eqn:T2; [|done]. cbn [negb] in H.
  apply bool_decide_eq_true in T2.
  destruct (DecodeJSON (A := AuthResult) f2) as [result [e|]] eqn:Dr; [done|].
  destruct (Z.eqb_spec (ar_Version result) Version) as [Ev|]; [|done]. cbn [negb] in H.
  destruct (ar_OK result) eqn:Eo; [|done]. injection H as <-.
  apply ReadFrame_Ok_bytes in E1 as (_ & B1 & _), E2 as (_ & B2 & _).
  exists f1, f2, c, result. cbn [rw_in rw_out]. split_and!; try done.
  - by rewrite B1, B2.
  - unfold decodeChallenge in Dc. destruct (Unmarshal _) as [c' [e|]]; [done|].
    destruct (_ || _) eqn:Eb in Dc; [done|]. injection Dc as ->.
    repeat (apply orb_false_iff in Eb as [Eb ?]).
    unfold acceptable. cbn. rewrite !Z.ltb_ge in *. lia.
Qed.

Lemma client_success_witness :
  exists f1 f2, frame_bytes f1 ++ frame_bytes f2 =
    frame_bytes (hs_challenge (repeat x4e 32) demo_client) ++ frame_bytes (hs_result true) /\
    f1.(fr_Type) = FrameChallenge.
Proof.
  destruct (client_success demo_IDKey (bytes_of "secret") "client"
    (mkRW (mkReader (frame_bytes (hs_challenge (repeat x4e 32) demo_client) ++
       frame_bytes (hs_result true)) EOF) (mkSink [] None EOF))
    (mkRW (mkReader [] EOF) (sink_append (mkSink [] None EOF)
       (frame_bytes (hs_response "client" (as_Response demo_answer))))))
    as (f1 & f2 & c & result & Hb & Ht & _).
  - vm_compute. reflexivity.
  - exists f1, f2. cbn [rw_in rd_buf] in Hb. rewrite app_nil_r in Hb. split; [symmetry; exact Hb|exact Ht].
Defined.

(** The four handshake functions agree: the two server handshakes send the
    same bytes, consume the same bytes and accept the same peers, and a client
    that derives its key from the passphrase does what a client holding that
    key does. *)
Theorem handshake_variants_agree (IDKey : bytes -> bytes -> Z -> Z -> Z -> Z -> bytes)
  (rand : result bytes) (v : Verifier) (passphrase : bytes) (role roleLimit : string)
  (rw : ReadWriter) :
  let a := ServerHandshake rand v roleLimit rw in
  let b := ServerHandshakePassword rand v roleLimit rw in
  (a.2 = b.2 /\ (a.1.2 = None <-> b.1.2 = None)) /\
  (forall c rw1, client_challenge rw = (Ok c, rw1) ->
     Derive IDKey passphrase c.(ch_Salt)
       (mkParameters c.(ch_Memory) c.(ch_Iterations) c.(ch_Parallelism)) = v.(ve_Hash) ->
     ClientHandshakePassword IDKey passphrase role rw = ClientHandshake v role rw).
Proof.
  assert (forall c rw1, client_challenge rw = (Ok c, rw1) ->
     Derive IDKey passphrase c.(ch_Salt)
       (mkParameters c.(ch_Memory) c.(ch_Iterations) c.(ch_Parallelism)) = v.(ve_Hash) ->
     ClientHandshakePassword IDKey passphrase role rw = ClientHandshake v role rw) as Hc.
  { intros c rw1 E Hk. unfold ClientHandshakePassword, ClientHandshake. by rewrite E, Hk. }
  intros a b. split; [|done]. clear Hc. subst a b.
  unfold ServerHandshake, ServerHandshakePassword.
  destruct (makeChallenge rand v) as [challenge|e]; [|done].
  destruct (Writer_Write _ _) as [[e|] w]; [done|].
  destruct (ReadFrame _) as [[frame|e] r]; [|done]. destruct (negb _); [done|].
  destruct (DecodeJSON (A := AuthResponse) frame) as [resp [e|]]; [done|].
  destruct (decodeChallenge challenge) as [decoded|e]; [|done].
  by rewrite <-!andb_assoc, (andb_comm (accepts_role _ _)).
Qed.

(** A verifier file whose key-derivation parameters are outside what a
    challenge may carry (no memory parameter at all, for instance) is loaded
    without complaint, and then no handshake with it ever succeeds, whatever the
    peer sends. *)
Theorem unusable_verifier (v : Verifier) (path : string) (fs : FS) (mode : Z)
  (Hok : verifier_ok v) (Hbad : ~ acceptable v.(ve_Params))
  (Hf : fs.(fs_files) !! path = Some (mkFile (print_indent (to_json (mkVerifierFile 1
    (string_of (b64_encode false v.(ve_Salt))) (string_of (b64_encode false v.(ve_Hash)))
    v.(ve_Params))) ++ [x0a]) mode)) :
  LoadVerifier None path fs = Ok v /\
  forall nonce roleLimit rw, length nonce = 32%nat ->
    (ServerHandshakePassword (Ok nonce) v roleLimit rw).1.2 <> None.
Proof.
  split; [by eapply LoadVerifier_saved|]. intros nonce roleLimit rw Hn.
  destruct Hok as (Hs & _ & Hp). unfold ServerHandshakePassword. rewrite makeChallenge_Ok.
  destruct (Writer_Write _ _) as [[e|] w]; [done|].
  destruct (ReadFrame _) as [[frame|e] r]; [|done]. destruct (negb _); [done|].
  destruct (DecodeJSON frame) as [resp [e|]]; [done|].
  destruct (decodeChallenge_sent nonce v Hp) as [E|E]; rewrite E; [|done].
  apply decodeChallenge_acceptable in E; [done|done|lia|done].
Qed.

Definition demo_unusable : Verifier := mkVerifier (repeat x53 16) (repeat x48 32) (mkParameters 0 3 2).

Lemma unusable_verifier_witness :
  forall nonce roleLimit rw, length nonce = 32%nat ->
    (ServerHandshakePassword (Ok nonce) demo_unusable roleLimit rw).1.2 <> None.
Proof.
  apply (unusable_verifier demo_unusable "v.json"
    (mkFS {[ "v.json"%string := mkFile (print_indent (to_json (mkVerifierFile 1
      (string_of (b64_encode false (repeat x53 16))) (string_of (b64_encode false (repeat x48 32)))
      (mkParameters 0 3 2))) ++ [x0a]) 0 ]} 0) 0).
  - split; [cbn; lia|]. split; [reflexivity|]. repeat split; vm_compute; congruence.
  - intros (_ & [H _] & _). vm_compute in H. apply H. reflexivity.
  - reflexivity.
Defined.

(** A passphrase the program goes on with is never empty and comes from
    one of the three sources it documents: the terminal, a set environment
    variable, or a file, whose trailing line ends are removed. *)
Theorem ResolvePassphrase_spec (t : Terminal) (env : gmap string bytes) (fault : option error)
  (fs : FS) (source value : bytes)
  (H : ResolvePassphrase t env fault fs source = Ok value) :
  value <> [] /\
  ((source = bytes_of "prompt" /\ t.(tm_isTerminal) = true /\ t.(tm_first) = Ok value) \/
   (exists name, source = bytes_of "env:" ++ name /\ name <> [] /\
      env !! string_of name = Some value) \/
   (exists path data, source = bytes_of "file:" ++ path /\ path <> [] /\
      ReadFile fault (string_of path) fs = Ok data /\ value = TrimRight data [x0d; x0a])).
Proof.
  unfold ResolvePassphrase in H. case_bool_decide as Es.
  { unfold PromptPassphrase in H. destruct (tm_isTerminal t) eqn:Et; [|done]. cbn in H.
    destruct (tm_first t) as [[|b first]|e]; try done. injection H as <-. split; [done|]. by left. }
  destruct (HasPrefix source (bytes_of "env:")) eqn:Ee.
  { apply HasPrefix_spec in Ee as [name ->]. rewrite TrimPrefix_app in H.
    destruct name as [|b name]; [done|]. destruct (env !! _) as [[|c val]|] eqn:Ev; try done.
    injection H as <-. split; [done|]. right; left. by exists (b :: name). }
  destruct (HasPrefix source (bytes_of "file:")) eqn:Ef; [|done].
  apply HasPrefix_spec in Ef as [path ->]. rewrite TrimPrefix_app in H.
  destruct path as [|b path]; [done|]. destruct (ReadFile _ _ fs) as [data|e] eqn:Er; [|done].
  cbn [result_bind] in H. destruct (TrimRight data _) as [|c val] eqn:Et; [done|].
  injection H as <-. split; [done|]. right; right. by exists (b :: path), data.
Qed.

Lemma ResolvePassphrase_spec_witness : bytes_of "hunter2" <> [].
Proof.
  apply (ResolvePassphrase_spec (mkTerminal false (Ok []) (Ok [])) ∅ None
    (mkFS {[ "pw"%string := mkFile (bytes_of "hunter2" ++ [x0d; x0a]) 0 ]} 0)
    (bytes_of "file:pw")).
  vm_compute. reflexivity.
Defined.
