(* ===== verification/GoNet.v ===== *)
(** * What the program uses of [net]: host/port strings

    [SplitHostPort] and [JoinHostPort] as in package [net], on byte strings,
    and [portString] of [internal/node/dialer.go]. *)
From S2P Require Import Prelude GoStrings Json GoText.

Definition colon : byte := x3a.
Definition lbracket : byte := x5b.
Definition rbracket : byte := x5d.

(** The text before and after the last (first) occurrence of a byte. *)
Fixpoint cut_last (b : byte) (s : bytes) : option (bytes * bytes) :=
  match s with
  | [] => None
  | c :: r =>
      match cut_last b r with
      | Some (p, q) => Some (c :: p, q)
      | None => if c =b b then Some ([], r) else None
      end
  end.
Fixpoint cut_first (b : byte) (s : bytes) : option (bytes * bytes) :=
  match s with
  | [] => None
  | c :: r =>
      if c =b b then Some ([], r)
      else match cut_first b r with Some (p, q) => Some (c :: p, q) | None => None end
  end.

Definition missingPort : error := ENew "missing port in address".
Definition tooManyColons : error := ENew "too many colons in address".

Definition SplitHostPort (hostport : bytes) : result (bytes * bytes) :=
  match cut_last colon hostport with
  | None => Err missingPort
  | Some (before, port) =>
      match hostport with
      | [] => Err missingPort
      | b :: rest =>
          if b =b lbracket then
            match cut_first rbracket rest with
            | None => Err (ENew "missing ']' in address")
            | Some (host, after) =>
                match after with
                | [] => Err missingPort
                | c :: _ =>
                    (* [after] is the last colon and the port *)
                    if (length after =? S (length port))%nat then
                      if Contains rest lbracket then Err (ENew "unexpected '[' in address")
                      else if Contains after rbracket then Err (ENew "unexpected ']' in address")
                      else Ok (host, port)
                    else if c =b colon then Err tooManyColons else Err missingPort
                end
            end
          else if Contains before colon then Err tooManyColons
          else if Contains hostport lbracket then Err (ENew "unexpected '[' in address")
          else if Contains hostport rbracket then Err (ENew "unexpected ']' in address")
          else Ok (before, port)
      end
  end.

Definition JoinHostPort (host port : bytes) : bytes :=
  if Contains host colon then [lbracket] ++ host ++ [rbracket; colon] ++ port
  else host ++ [colon] ++ port.

Definition remoteHost (remote : bytes) : bytes :=
  match SplitHostPort remote with
  | Err _ => remote
  | Ok (host, _) => host
  end.

(** [portString]: digits are filled in from the end of a five-byte buffer. *)
Fixpoint port_digits (fuel : nat) (port : Z) (buf : bytes) : bytes :=
  match fuel with
  | O => buf
  | S k =>
      if 0 <? port then port_digits k (port / 10) (byte_of_Z (48 + port mod 10) :: buf) else buf
  end.

Definition portString (port : Z) : bytes :=
  match port_digits 5 port [] with
  | [] => [x30]
  | buf => buf
  end.

(* ------------------------------------------------------------------ *)
(** ** Lemmas *)

Lemma Contains_spec s b : Contains s b = true <-> In b s.
Proof.
  unfold Contains. rewrite existsb_exists. split.
  - intros (x & Hx & E). by destruct (byte_eqb_spec b x) as [->|].
  - intros H. exists b. split; [done|]. by destruct (byte_eqb_spec b b).
Qed.

Lemma Contains_false s b : Contains s b = false <-> ~ In b s.
Proof. rewrite <-Contains_spec. by destruct (Contains s b). Qed.

Lemma cut_last_app b p q : ~ In b q -> cut_last b (p ++ b :: q) = Some (p, q).
Proof.
  intros Hq. induction p as [|c p IH]; cbn [app cut_last].
  - assert (cut_last b q = None) as ->.
    { clear -Hq. induction q as [|c q IH]; [done|]. cbn. rewrite IH by (intros ?; apply Hq; by right).
      destruct (byte_eqb_spec c b) as [->|]; [|done]. destruct Hq. by left. }
    by destruct (byte_eqb_spec b b).
  - by rewrite IH.
Qed.

Lemma cut_first_app b p q : ~ In b p -> cut_first b (p ++ b :: q) = Some (p, q).
Proof.
  intros Hp. induction p as [|c p IH]; cbn [app cut_first].
  - by destruct (byte_eqb_spec b b).
  - destruct (byte_eqb_spec c b) as [->|]; [destruct Hp; by left|].
    rewrite IH; [done|]. intros H. apply Hp. by right.
Qed.

Lemma cut_last_Some b s p q : cut_last b s = Some (p, q) -> s = p ++ b :: q /\ ~ In b q.
Proof.
  revert p q. induction s as [|c s IH]; intros p q; [done|]. cbn [cut_last].
  destruct (cut_last b s) as [[p' q']|] eqn:E.
  - intros [= <- <-]. destruct (IH p' q' eq_refl) as [-> ?]. done.
  - destruct (byte_eqb_spec c b) as [->|]; [|done]. intros [= <- <-]. split; [done|].
    intros Hin. apply in_split in Hin as (l1 & l2 & ->).
    assert (cut_last b (l1 ++ b :: l2) <> None) as Hne; [|done].
    clear. induction l1 as [|d l1 IH]; cbn; [|by destruct (cut_last b (l1 ++ b :: l2)) as [[? ?]|]].
    destruct (cut_last b l2) as [[? ?]|]; [done|]. by destruct (byte_eqb_spec b b).
Qed.

Lemma cut_first_Some b s p q : cut_first b s = Some (p, q) -> s = p ++ b :: q /\ ~ In b p.
Proof.
  revert p q. induction s as [|c s IH]; intros p q; [done|]. cbn [cut_first].
  destruct (byte_eqb_spec c b) as [->|Hne].
  - intros [= <- <-]. split; [done|]. by intros [].
  - destruct (cut_first b s) as [[p' q']|]; [|done]. intros [= <- <-].
    destruct (IH p' q' eq_refl) as [-> ?]. split; [done|]. by intros [->|].
Qed.

(** No bracket and no colon. *)
Definition plain (s : bytes) : Prop := ~ In lbracket s /\ ~ In rbracket s.

Lemma SplitHostPort_Join host port :
  plain host -> plain port -> ~ In colon port ->
  SplitHostPort (JoinHostPort host port) = Ok (host, port).
Proof.
  intros [Hl Hr] [Pl Pr] Pc. unfold JoinHostPort. destruct (Contains host colon) eqn:E.
  - unfold SplitHostPort.
    replace ([lbracket] ++ host ++ [rbracket; colon] ++ port)
      with ((lbracket :: host ++ [rbracket]) ++ colon :: port)
      by (cbn; by rewrite <-app_assoc).
    rewrite cut_last_app by done. cbn [app]. change (lbracket =b lbracket) with true. cbn iota.
    rewrite <-app_assoc. cbn [app]. rewrite cut_first_app by done.
    cbn [length]. rewrite Nat.eqb_refl.
    assert (Contains (host ++ rbracket :: colon :: port) lbracket = false) as ->.
    { apply Contains_false. rewrite in_app_iff. cbn. intros [?|[?|[?|?]]]; done. }
    assert (Contains (colon :: port) rbracket = false) as ->; [|done].
    apply Contains_false. cbn. by intros [?|?].
  - apply Contains_false in E. unfold SplitHostPort. cbn [app]. rewrite cut_last_app by done.
    assert (Contains host colon = false) as -> by (by apply Contains_false).
    assert (Contains (host ++ colon :: port) lbracket = false) as ->.
    { apply Contains_false. rewrite in_app_iff. cbn. intros [?|[?|?]]; done. }
    assert (Contains (host ++ colon :: port) rbracket = false) as ->.
    { apply Contains_false. rewrite in_app_iff. cbn. intros [?|[?|?]]; done. }
    destruct (host ++ colon :: port) as [|b rest] eqn:Eh; [by destruct host|].
    destruct (byte_eqb_spec b lbracket) as [->|]; [|done].
    exfalso. destruct host as [|c host]; cbn in Eh; [done|]. injection Eh as -> _. apply Hl. by left.
Qed.

(** A split address is one colon between a host and a port without colons. *)
Lemma SplitHostPort_Ok hp host port :
  SplitHostPort hp = Ok (host, port) ->
  plain host /\ ~ In colon port /\ plain port /\
  (hp = host ++ colon :: port /\ ~ In colon host \/
   hp = lbracket :: host ++ rbracket :: colon :: port).
Proof.
  unfold SplitHostPort. destruct (cut_last colon hp) as [[before port']|] eqn:E; [|done].
  apply cut_last_Some in E as [E Hp]. destruct hp as [|b rest]; [done|].
  destruct (byte_eqb_spec b lbracket) as [->|Hb].
  - destruct (cut_first rbracket rest) as [[h after]|] eqn:Ef; [|done].
    apply cut_first_Some in Ef as [-> Hh]. destruct after as [|c after']; [done|].
    destruct (Nat.eqb_spec (length (c :: after')) (S (length port'))) as [El|];
      [|by destruct (c =b colon)].
    destruct (Contains _ lbracket) eqn:C1; [done|]. destruct (Contains _ rbracket) eqn:C2; [done|].
    intros [= <- <-]. apply Contains_false in C1, C2. rewrite in_app_iff in C1.
    assert (c = colon /\ after' = port') as [-> ->].
    { assert ((lbracket :: h ++ [rbracket]) ++ c :: after' = before ++ colon :: port') as Eq.
      { rewrite <-E. cbn. by rewrite <-app_assoc. }
      apply app_inj_2 in Eq as [_ Eq]; [by injection Eq|]. done. }
    split_and!; try done.
    + split; [|done]. intros ?; apply C1. by left.
    + split.
      * intros ?. apply C1. right. by do 2 right.
      * intros ?. apply C2. by right.
    + by right.
  - destruct (Contains before colon) eqn:C0; [done|].
    destruct (Contains (b :: rest) lbracket) eqn:C1; [done|].
    destruct (Contains (b :: rest) rbracket) eqn:C2; [done|]. intros [= <- <-].
    apply Contains_false in C0, C1, C2. rewrite E, in_app_iff in C1, C2.
    split_and!; try done.
    + split; intros ?; [apply C1|apply C2]; by left.
    + split; intros ?; [apply C1|apply C2]; right; by right.
    + left. by split.
Qed.

(** The two ways of writing a number agree, given enough room. *)
Lemma port_digits_utoa f : forall g n acc, 0 < n -> n < 10 ^ Z.of_nat f -> n < 10 ^ Z.of_nat g ->
  port_digits f n acc = utoa_aux g n acc.
Proof.
  induction f as [|f IH]; intros [|g] n acc Hn Hf Hg;
    [change (10 ^ Z.of_nat 0) with 1 in *; lia..|].
  rewrite Nat2Z.inj_succ, Z.pow_succ_r in Hf, Hg by lia. cbn [port_digits utoa_aux].
  rewrite (proj2 (Z.ltb_lt 0 n) Hn). fold (digit (n mod 10)). destruct (Z.ltb_spec n 10) as [H|H].
  - rewrite Z.div_small by lia. by destruct f.
  - apply IH; [|apply Z.div_lt_upper_bound; lia..].
    apply Z.div_str_pos. lia.
Qed.

Lemma portString_utoa port : 0 <= port < 2 ^ 16 -> portString port = utoa port.
Proof.
  intros Hp. unfold portString. destruct (Z.eq_dec port 0) as [->|Hn]; [done|].
  rewrite (port_digits_utoa 5 (S (Z.to_nat (Z.log2 port)))) by (lia || (apply utoa_fuel; lia)).
  fold (utoa port). destruct (utoa_hd port ltac:(lia)) as (d & r & -> & _). done.
Qed.
