(* ===== verification/Config.v ===== *)
(** * Node configuration: [internal/config/config.go]

    The configuration record, its defaults, its validation, its file, and the
    normalisation of server addresses.  What the operating system answers
    ([os.UserConfigDir], [os.Hostname]) and the faults of the file system are
    arguments.  [GenerateCertificate] (X.509 and key generation) is not
    modelled. *)
From S2P Require Import Prelude GoStrings GoTime Json Codec Protocol GoText GoFS GoNet.

Definition RoleServer : string := "server".
Definition RoleExit : string := "exit".
Definition RoleServerExit : string := "server-exit".
Definition DefaultListen : string := ":443".
Definition DefaultIdle : Duration := 5 * Minute.
Definition DefaultCapacity : Z := 128.

Record Node := mkNode {
  nd_Role : string;
  nd_ListenAddress : string;
  nd_DataDirectory : string;
  nd_CertificateFile : string;
  nd_KeyFile : string;
  nd_VerifierFile : string;
  nd_ServerAddress : string;
  nd_ServerFingerprint : string;
  nd_PassphraseSource : string;
  nd_ConnectionLimit : Z;
  nd_IdleTimeout : Duration;
  nd_ExitName : string;
  nd_ExitID : string;
  nd_Capacity : Z;
  nd_Console : bool
}.

#[export] Instance Node_Json : Json Node := {|
  to_json n := JObj (
    member "role" false (enc_string n.(nd_Role)) ++
    member "listen_address" false (enc_string n.(nd_ListenAddress)) ++
    member "data_directory" false (enc_string n.(nd_DataDirectory)) ++
    member "certificate_file" false (enc_string n.(nd_CertificateFile)) ++
    member "key_file" false (enc_string n.(nd_KeyFile)) ++
    member "verifier_file" false (enc_string n.(nd_VerifierFile)) ++
    member "server_address" (empty_string n.(nd_ServerAddress)) (enc_string n.(nd_ServerAddress)) ++
    member "server_fingerprint" (empty_string n.(nd_ServerFingerprint))
      (enc_string n.(nd_ServerFingerprint)) ++
    member "passphrase_source" false (enc_string n.(nd_PassphraseSource)) ++
    member "connection_limit" false (enc_int n.(nd_ConnectionLimit)) ++
    member "idle_timeout" false (enc_int n.(nd_IdleTimeout)) ++
    member "exit_name" (empty_string n.(nd_ExitName)) (enc_string n.(nd_ExitName)) ++
    member "exit_id" (empty_string n.(nd_ExitID)) (enc_string n.(nd_ExitID)) ++
    member "capacity" (n.(nd_Capacity) =? 0) (enc_int n.(nd_Capacity)) ++
    member "console" (negb n.(nd_Console)) (JBool n.(nd_Console)));
  json_zero := mkNode "" "" "" "" "" "" "" "" "" 0 0 "" "" 0 false;
  json_dec := dec_struct [
    mkfield "role" dec_string nd_Role
      (fun v '(mkNode _ b c d e f g h i j k l m n o) => mkNode v b c d e f g h i j k l m n o);
    mkfield "listen_address" dec_string nd_ListenAddress
      (fun v '(mkNode a _ c d e f g h i j k l m n o) => mkNode a v c d e f g h i j k l m n o);
    mkfield "data_directory" dec_string nd_DataDirectory
      (fun v '(mkNode a b _ d e f g h i j k l m n o) => mkNode a b v d e f g h i j k l m n o);
    mkfield "certificate_file" dec_string nd_CertificateFile
      (fun v '(mkNode a b c _ e f g h i j k l m n o) => mkNode a b c v e f g h i j k l m n o);
    mkfield "key_file" dec_string nd_KeyFile
      (fun v '(mkNode a b c d _ f g h i j k l m n o) => mkNode a b c d v f g h i j k l m n o);
    mkfield "verifier_file" dec_string nd_VerifierFile
      (fun v '(mkNode a b c d e _ g h i j k l m n o) => mkNode a b c d e v g h i j k l m n o);
    mkfield "server_address" dec_string nd_ServerAddress
      (fun v '(mkNode a b c d e f _ h i j k l m n o) => mkNode a b c d e f v h i j k l m n o);
    mkfield "server_fingerprint" dec_string nd_ServerFingerprint
      (fun v '(mkNode a b c d e f g _ i j k l m n o) => mkNode a b c d e f g v i j k l m n o);
    mkfield "passphrase_source" dec_string nd_PassphraseSource
      (fun v '(mkNode a b c d e f g h _ j k l m n o) => mkNode a b c d e f g h v j k l m n o);
    mkfield "connection_limit" dec_i64 nd_ConnectionLimit
      (fun v '(mkNode a b c d e f g h i _ k l m n o) => mkNode a b c d e f g h i v k l m n o);
    mkfield "idle_timeout" dec_i64 nd_IdleTimeout
      (fun v '(mkNode a b c d e f g h i j _ l m n o) => mkNode a b c d e f g h i j v l m n o);
    mkfield "exit_name" dec_string nd_ExitName
      (fun v '(mkNode a b c d e f g h i j k _ m n o) => mkNode a b c d e f g h i j k v m n o);
    mkfield "exit_id" dec_string nd_ExitID
      (fun v '(mkNode a b c d e f g h i j k l _ n o) => mkNode a b c d e f g h i j k l v n o);
    mkfield "capacity" dec_i64 nd_Capacity
      (fun v '(mkNode a b c d e f g h i j k l m _ o) => mkNode a b c d e f g h i j k l m v o);
    mkfield "console" dec_bool nd_Console
      (fun v '(mkNode a b c d e f g h i j k l m n _) => mkNode a b c d e f g h i j k l m n v)]
|}.

(* ------------------------------------------------------------------ *)
(** ** Paths *)

Definition slash : byte := x2f.

Fixpoint split_on (b : byte) (cur : bytes) (s : bytes) : list bytes :=
  match s with
  | [] => [rev cur]
  | c :: r => if c =b b then rev cur :: split_on b [] r else split_on b (c :: cur) r
  end.

(** [filepath.Clean] with a slash as the separator: empty and dot elements go,
    dot-dot removes the element before it; [stack] is in reverse. *)
Definition clean_step (rooted : bool) (stack : list bytes) (part : bytes) : list bytes :=
  if bool_decide (part = []) || bool_decide (part = [x2e]) then stack
  else if bool_decide (part = [x2e; x2e]) then
    match stack with
    | [] => if rooted then [] else [part]
    | top :: rest => if bool_decide (top = [x2e; x2e]) then part :: stack else rest
    end
  else part :: stack.

Definition Clean (path : bytes) : bytes :=
  let rooted := match path with b :: _ => b =b slash | [] => false end in
  let parts := rev (fold_left (clean_step rooted) (split_on slash [] path) []) in
  match (if rooted then [slash] else []) ++ GoText.Join parts [slash] with
  | [] => [x2e]
  | p => p
  end.

(** [filepath.Join(dir, name)] for a non-empty [name]. *)
Definition filepath_Join (dir name : string) : string :=
  string_of (Clean (match bytes_of dir with [] => bytes_of name | d => d ++ [slash] ++ bytes_of name end)).

(* ------------------------------------------------------------------ *)
(** ** Defaults and validation *)

(** What the operating system answers. *)
Record OS := mkOS { os_UserConfigDir : result string; os_Hostname : string }.

Definition DefaultDataDir (os : OS) : result string :=
  let? base := os.(os_UserConfigDir) in Ok (filepath_Join base "lnproxy").

Definition or_else (s d : string) : string := if empty_string s then d else s.

Definition DefaultNode (os : OS) (role : string) : result Node :=
  let? dataDir := DefaultDataDir os in
  let hostname := or_else os.(os_Hostname) "node" in
  Ok (mkNode role DefaultListen dataDir (filepath_Join dataDir "server.crt")
    (filepath_Join dataDir "server.key") (filepath_Join dataDir "passphrase.json") "" "" "prompt"
    256 DefaultIdle hostname "" DefaultCapacity false).

Definition is_role (n : Node) (r : string) : bool := bool_decide (n.(nd_Role) = r).

Definition Validate (n : Node) : option error :=
  if negb (is_role n RoleServer || is_role n RoleExit || is_role n RoleServerExit)
  then Some (ENew ("unsupported node role " +:+ Quote n.(nd_Role)))
  else if empty_string n.(nd_DataDirectory) then Some (ENew "data directory is required")
  else if n.(nd_ConnectionLimit) <=? 0 then Some (ENew "connection limit must be positive")
  else if n.(nd_IdleTimeout) <=? 0 then Some (ENew "idle timeout must be positive")
  else if (is_role n RoleExit || is_role n RoleServerExit) &&
          (is_role n RoleExit && empty_string n.(nd_ServerAddress))
  then Some (ENew "exit mode requires server_address")
  else if (is_role n RoleExit || is_role n RoleServerExit) && (n.(nd_Capacity) <=? 0)
  then Some (ENew "capacity must be positive")
  else if (is_role n RoleServer || is_role n RoleServerExit) && empty_string n.(nd_ListenAddress)
  then Some (ENew "listen address is required")
  else None.

Definition FillPaths (os : OS) (n : Node) : Node :=
  let dir :=
    if empty_string n.(nd_DataDirectory)
    then match DefaultDataDir os with Ok d => d | Err _ => ""%string end
    else n.(nd_DataDirectory) in
  mkNode n.(nd_Role) (or_else n.(nd_ListenAddress) DefaultListen) dir
    (or_else n.(nd_CertificateFile) (filepath_Join dir "server.crt"))
    (or_else n.(nd_KeyFile) (filepath_Join dir "server.key"))
    (or_else n.(nd_VerifierFile) (filepath_Join dir "passphrase.json"))
    n.(nd_ServerAddress) n.(nd_ServerFingerprint) (or_else n.(nd_PassphraseSource) "prompt")
    (if n.(nd_ConnectionLimit) =? 0 then 256 else n.(nd_ConnectionLimit))
    (if n.(nd_IdleTimeout) =? 0 then DefaultIdle else n.(nd_IdleTimeout))
    n.(nd_ExitName)
    (or_else n.(nd_ExitID) (or_else os.(os_Hostname) "exit"))
    (if n.(nd_Capacity) =? 0 then DefaultCapacity else n.(nd_Capacity))
    n.(nd_Console).

Definition LoadNode (os : OS) (fault : option error) (path : string) (fs : FS)
  : Node * option error :=
  match ReadFile fault path fs with
  | Err e => (json_zero, Some e)
  | Ok data =>
      match Unmarshal data with
      | (_, Some e) => (json_zero, Some (EWrap "parse node config: " e))
      | (node, None) => let node := FillPaths os node in (node, Validate node)
      end
  end.

Definition SaveNode (os : OS) (ft : save_faults) (path : string) (node : Node) (fs : FS)
  : option error * FS :=
  save_rename ft path (print_indent (to_json (FillPaths os node)) ++ [x0a]) fs.

(* ------------------------------------------------------------------ *)
(** ** Server addresses *)

(** [net.ParseIP] on text whose first separator is a colon: whether it is an
    IPv6 address ([netip.parseIPv6], no zone). *)
Definition is_hex (b : byte) : bool :=
  in_range 48 57 b || in_range 97 102 b || in_range 65 70 b.

Fixpoint span_hex (s : bytes) : bytes * bytes :=
  match s with
  | b :: r => if is_hex b then let '(d, t) := span_hex r in (b :: d, t) else ([], s)
  | [] => ([], [])
  end.

Definition dot : byte := x2e.

(** [netip.parseIPv4Fields]: [prev] tells whether the byte before was a dot or
    the start, [pos] the fields finished, [val] and [len] the current one. *)
Fixpoint ipv4_fields (prev : bool) (pos : nat) (val : Z) (len : nat) (s : bytes) : bool :=
  match s with
  | [] => (3 <=? pos)%nat
  | b :: r =>
      if is_digit b then
        if (len =? 1)%nat && (val =? 0) then false
        else
          let val := val * 10 + digit_val b in
          if 255 <? val then false else ipv4_fields false pos val (S len) r
      else if b =b dot then
        if prev || match r with [] => true | _ => false end then false
        else if (pos =? 3)%nat then false
        else ipv4_fields true (S pos) 0 0 r
      else false
  end.

Definition ipv6_finish (s : bytes) (i : nat) (ellipsis : bool) : bool :=
  match s with [] => if (i <? 8)%nat then ellipsis else negb ellipsis | _ => false end.

(** [i] counts the 16-bit fields read; the loop runs while there are fewer
    than eight. *)
Fixpoint ipv6_loop (k : nat) (i : nat) (ellipsis : bool) (s : bytes) : bool :=
  match k with
  | O => ipv6_finish s i ellipsis
  | S k =>
      let '(digits, r) := span_hex s in
      if (4 <? length digits)%nat || (length digits =? 0)%nat then false
      else
        match r with
        | [] => ipv6_finish [] (S i) ellipsis
        | c :: t =>
            if c =b dot then
              if negb ellipsis && negb (i =? 6)%nat then false
              else if (8 <? i + 2)%nat then false
              else ipv4_fields true 0 0 0 s && ipv6_finish [] (i + 2) ellipsis
            else if negb (c =b colon) then false
            else
              match t with
              | [] => false
              | c2 :: t2 =>
                  if c2 =b colon then
                    if ellipsis then false
                    else match t2 with
                         | [] => ipv6_finish [] (S i) true
                         | _ => ipv6_loop k (S i) true t2
                         end
                  else ipv6_loop k (S i) ellipsis t
              end
        end
  end.

Definition parseIPv6 (s : bytes) : bool :=
  match s with
  | a :: b :: r =>
      if (a =b colon) && (b =b colon) then
        match r with [] => true | _ => ipv6_loop 8 0 true r end
      else ipv6_loop 8 0 false s
  | _ => ipv6_loop 8 0 false s
  end.

Definition is_sep (b : byte) : bool := (b =b dot) || (b =b colon) || (b =b x25).

(** For text with a colon: an address with a dot first is IPv4, whose syntax
    has no colon; a percent sign is a zone, which [ParseIP] refuses. *)
Definition ParseIP_colon (s : bytes) : bool :=
  match List.find is_sep s with
  | Some b => (b =b colon) && negb (Contains s x25) && parseIPv6 s
  | None => false
  end.

Definition NormalizeServerAddress (address : bytes) : result bytes :=
  let address := TrimSpace address in
  match address with
  | [] => Err (ENew "server address is required")
  | _ =>
      match SplitHostPort address with
      | Ok _ => Ok address
      | Err _ =>
          if Contains address colon && negb (HasPrefix address [lbracket]) && ParseIP_colon address
          then Ok (JoinHostPort address (bytes_of "443"))
          else if (Count address colon =? 0)%nat then Ok (JoinHostPort address (bytes_of "443"))
          else Err (ENew ("invalid server address " +:+ Quote (string_of address)))
      end
  end.

Example normalize_host : NormalizeServerAddress (bytes_of " vpn.example.org ") =
  Ok (bytes_of "vpn.example.org:443").
Proof. vm_compute. reflexivity. Qed.
Example normalize_ipv6 : NormalizeServerAddress (bytes_of "2001:db8::1") =
  Ok (bytes_of "[2001:db8::1]:443").
Proof. vm_compute. reflexivity. Qed.
Example normalize_ipv4_mapped : NormalizeServerAddress (bytes_of "::ffff:192.0.2.1") =
  Ok (bytes_of "[::ffff:192.0.2.1]:443").
Proof. vm_compute. reflexivity. Qed.
Example normalize_bracketed : exists e, NormalizeServerAddress (bytes_of "[::1]") = Err e.
Proof. vm_compute. eauto. Qed.

(* ------------------------------------------------------------------ *)
(** ** Lemmas *)

Definition addr_char (b : byte) : bool := is_hex b || (b =b dot) || (b =b colon).

Lemma span_hex_spec s : s = (span_hex s).1 ++ (span_hex s).2 /\
  Forall (fun b => addr_char b = true) (span_hex s).1.
Proof.
  induction s as [|b s [IH1 IH2]]; [done|]. cbn. destruct (is_hex b) eqn:E; [|done].
  destruct (span_hex s) as [d t]. cbn in *. split; [by f_equal|]. apply Forall_cons.
  split; [|done]. unfold addr_char. by rewrite E.
Qed.

Lemma ipv4_fields_chars s : forall prev pos val len, ipv4_fields prev pos val len s = true ->
  Forall (fun b => addr_char b = true) s.
Proof.
  induction s as [|b s IH]; intros prev pos val len; [done|]. cbn [ipv4_fields].
  destruct (is_digit b) eqn:Ed.
  - destruct (_ && _); [done|]. destruct (255 <? _); [done|]. intros H. apply Forall_cons.
    split; [|by eapply IH]. unfold addr_char, is_hex, in_range. unfold is_digit in Ed. by rewrite Ed.
  - destruct (b =b dot) eqn:Eb; [|done]. destruct (_ || _); [done|].
    destruct (_ =? _)%nat; [done|]. intros H. apply Forall_cons. split; [|by eapply IH].
    unfold addr_char. rewrite Eb. by rewrite orb_true_r.
Qed.

Lemma ipv6_loop_chars k : forall i e s, ipv6_loop k i e s = true ->
  Forall (fun b => addr_char b = true) s.
Proof.
  assert (forall b, (b =b colon) = true -> addr_char b = true) as Hcolon.
  { intros b E. unfold addr_char. rewrite E. by rewrite !orb_true_r. }
  induction k as [|k IH]; intros i e s; cbn [ipv6_loop]; [by destruct s|].
  destruct (span_hex_spec s) as [Hs Hd]. destruct (span_hex s) as [d r]. cbn in Hs, Hd.
  destruct (_ || _); [done|]. intros H.
  destruct (bool_decide (Forall (fun b => addr_char b = true) s)) eqn:E;
    [by apply bool_decide_eq_true in E|]. exfalso.
  apply bool_decide_eq_false in E. apply E. rewrite Hs. apply Forall_app. split; [done|].
  destruct r as [|c t]; [apply Forall_nil_2|]. destruct (c =b dot) eqn:Ec.
  { destruct (_ && _); [done|]. destruct (_ <? _)%nat; [done|].
    apply andb_true_iff in H as [H _]. apply ipv4_fields_chars in H. rewrite Hs in H.
    by apply Forall_app in H as [_ H]. }
  destruct (c =b colon) eqn:Ec2; [|done]. cbn [negb] in H. apply Forall_cons. split; [by apply Hcolon|].
  destruct t as [|c2 t2]; [done|]. destruct (c2 =b colon) eqn:Ec3.
  - destruct e; [done|]. apply Forall_cons. split; [by apply Hcolon|].
    destruct t2; [apply Forall_nil_2|]. by eapply IH.
  - by eapply IH.
Qed.

Lemma parseIPv6_chars s : parseIPv6 s = true -> Forall (fun b => addr_char b = true) s.
Proof.
  unfold parseIPv6. destruct s as [|a [|b r]]; try apply ipv6_loop_chars.
  destruct (_ && _) eqn:E; [|apply ipv6_loop_chars]. apply andb_true_iff in E as [Ea Eb].
  intros H. apply Forall_cons. split; [unfold addr_char; by rewrite Ea, orb_true_r|].
  apply Forall_cons. split; [unfold addr_char; by rewrite Eb, orb_true_r|].
  destruct r; [apply Forall_nil_2|]. by eapply ipv6_loop_chars.
Qed.

Lemma addr_chars_plain s : Forall (fun b => addr_char b = true) s -> plain s.
Proof.
  intros H. rewrite Forall_forall in H.
  split; intros Hin; apply list_elem_of_In in Hin; specialize (H _ Hin); vm_compute in H; done.
Qed.

Definition Node_ok (n : Node) : Prop :=
  string_ok n.(nd_Role) /\ string_ok n.(nd_ListenAddress) /\ string_ok n.(nd_DataDirectory) /\
  string_ok n.(nd_CertificateFile) /\ string_ok n.(nd_KeyFile) /\ string_ok n.(nd_VerifierFile) /\
  string_ok n.(nd_ServerAddress) /\ string_ok n.(nd_ServerFingerprint) /\
  string_ok n.(nd_PassphraseSource) /\ in_i64 n.(nd_ConnectionLimit) /\ in_i64 n.(nd_IdleTimeout) /\
  string_ok n.(nd_ExitName) /\ string_ok n.(nd_ExitID) /\ in_i64 n.(nd_Capacity).

(** Decoding a member that may have been left out, without a case split. *)
Lemma fold_member {A} (fs : list (field A)) name omit v rest a a' d :
  lookup_field fs (bytes_of name) = Some d -> d v a = (a', None) -> (omit = true -> a' = a) ->
  fold_left (dec_member fs) (member name omit v ++ rest) (a, None) =
  fold_left (dec_member fs) rest (a', None).
Proof.
  intros Hl Hd Ho. unfold member. destruct omit; [by rewrite Ho|]. cbn [app fold_left].
  by rewrite (dec_member_known fs a a' (bytes_of name) v d Hl Hd).
Qed.

Ltac solve_omitted :=
  let E := fresh in
  intros E;
  first
    [ discriminate E
    | apply empty_string_spec in E; rewrite E; reflexivity
    | apply Z.eqb_eq in E; rewrite E; reflexivity
    | apply negb_true_iff in E; rewrite E; reflexivity ].

#[export] Instance Node_laws : JsonLaws Node.
Proof.
  refine (Build_JsonLaws _ _ Node_ok _ _ _); [solve_jwf|solve_depth|].
  intros [] H; red in H; destruct_and?. cbn [nd_Role nd_ListenAddress nd_DataDirectory
    nd_CertificateFile nd_KeyFile nd_VerifierFile nd_ServerAddress nd_ServerFingerprint
    nd_PassphraseSource nd_ConnectionLimit nd_IdleTimeout nd_ExitName nd_ExitID nd_Capacity
    nd_Console] in *.
  cbn [to_json json_dec json_zero Node_Json dec_struct nd_Role nd_ListenAddress nd_DataDirectory
    nd_CertificateFile nd_KeyFile nd_VerifierFile nd_ServerAddress nd_ServerFingerprint
    nd_PassphraseSource nd_ConnectionLimit nd_IdleTimeout nd_ExitName nd_ExitID nd_Capacity
    nd_Console].
  rewrite <-(app_nil_r (member "console" _ _)).
  do 15 (erewrite fold_member; [|reflexivity|apply mkfield_dec; solve_msg_dec|solve_omitted]).
  reflexivity.
Defined.

Lemma or_else_idem s d : d <> ""%string -> or_else (or_else s d) d = or_else s d.
Proof.
  intros Hd. unfold or_else. destruct (empty_string s) eqn:E; [|by rewrite E].
  unfold empty_string. by rewrite bool_decide_false.
Qed.

Lemma or_else_nonempty s d d' : d <> ""%string -> or_else (or_else s d) d' = or_else s d.
Proof.
  intros Hd. unfold or_else. destruct (empty_string s) eqn:E; [|by rewrite E].
  unfold empty_string. by rewrite bool_decide_false.
Qed.

Lemma filepath_Join_nonempty d n : filepath_Join d n <> ""%string.
Proof.
  intros H. apply (f_equal bytes_of) in H. unfold filepath_Join in H.
  rewrite bytes_of_string_of in H. unfold Clean in H.
  by destruct ((if match _ with [] => false | b :: _ => b =b slash end then [slash] else []) ++ _)
    eqn:E in H.
Qed.

(** Filling in defaults is done once. *)
Lemma FillPaths_idem os n : FillPaths os (FillPaths os n) = FillPaths os n.
Proof.
  assert (forall a b, (if (if a =? 0 then b else a) =? 0 then b else if a =? 0 then b else a)
    = (if a =? 0 then b else a)) as Hz.
  { intros a b. destruct (Z.eqb_spec a 0) as [->|Hne].
    - cbn. by destruct (b =? 0).
    - by rewrite (proj2 (Z.eqb_neq a 0)). }
  unfold FillPaths. cbn [nd_Role nd_ListenAddress nd_DataDirectory nd_CertificateFile nd_KeyFile
    nd_VerifierFile nd_ServerAddress nd_ServerFingerprint nd_PassphraseSource nd_ConnectionLimit
    nd_IdleTimeout nd_ExitName nd_ExitID nd_Capacity nd_Console].
  set (dir := if empty_string (nd_DataDirectory n) then _ else _).
  assert ((if empty_string dir then match DefaultDataDir os with Ok d => d | Err _ => ""%string end
    else dir) = dir) as ->.
  { unfold dir. destruct (empty_string (nd_DataDirectory n)) eqn:E; [|by rewrite E].
    cbn iota. generalize (match DefaultDataDir os with Ok d => d | Err _ => ""%string end).
    intros d. by destruct (empty_string d). }
  rewrite !Hz, !or_else_nonempty; try apply filepath_Join_nonempty; try done.
  unfold or_else. by destruct (empty_string (os_Hostname os)) eqn:E; [|apply bool_decide_eq_false in E].
Qed.

(** The configuration file: when [SaveNode] reports success, [LoadNode]
    returns the saved configuration with its defaults filled in, and accepts it
    exactly when it is valid; when [SaveNode] fails, the file is as it was. *)
Theorem config_file_roundtrip (os : OS) (n : Node) (ft : save_faults) (path : string) (fs : FS)
  (Hok : Node_ok (FillPaths os n)) :
  let r := SaveNode os ft path n fs in
  match r.1 with
  | None => LoadNode os None path r.2 = (FillPaths os n, Validate (FillPaths os n))
  | Some _ => r.2.(fs_files) !! path = fs.(fs_files) !! path
  end.
Proof.
  unfold SaveNode. set (data := _ ++ [x0a]).
  destruct (save_rename_atomic ft path data fs) as [H _].
  destruct (save_rename ft path data fs) as [[e|] fs']; cbn [fst snd] in *; [done|].
  destruct H as ([d m] & Hf & Hd). cbn [fl_data] in Hd. subst d.
  unfold LoadNode, ReadFile. rewrite Hf. cbn [fl_data]. unfold Unmarshal, data.
  rewrite parse_print_indent; [|exact (to_json_jwf (A := Node) _ Hok)
    |exact (to_json_depth (A := Node) _)|by repeat constructor].
  rewrite (@json_dec_to_json _ _ Node_laws _ Hok). by rewrite FillPaths_idem.
Qed.

Definition demo_os : OS := mkOS (Ok "/home/u/.config"%string) "host".
Definition demo_node : Node := mkNode "server-exit" "" "/srv/ln" "" "" "" "" "" "" 0 0 "" "" 0 false.

Lemma config_file_roundtrip_witness :
  LoadNode demo_os None "c.json" (SaveNode demo_os no_faults "c.json" demo_node (mkFS ∅ 0)).2 =
  (FillPaths demo_os demo_node, None).
Proof.
  pose proof (config_file_roundtrip demo_os demo_node no_faults "c.json" (mkFS ∅ 0)) as H.
  assert ((SaveNode demo_os no_faults "c.json" demo_node (mkFS ∅ 0)).1 = None) as E
    by (vm_compute; reflexivity).
  cbn zeta in H. rewrite E in H. rewrite H; [vm_compute; reflexivity|].
  repeat split; vm_compute; congruence.
Defined.

(** A server address the program goes on with names a host and a port: the
    trimmed text if it already does; otherwise port 443 is added to a text that
    is an IPv6 address, which gets brackets, or has no colon; [SplitHostPort]
    takes the result apart again (for a host without brackets). *)
Theorem NormalizeServerAddress_spec (address a : bytes)
  (H : NormalizeServerAddress address = Ok a) :
  let t := TrimSpace address in
  t <> [] /\
  ((a = t /\ exists host port, SplitHostPort t = Ok (host, port)) \/
   (a = JoinHostPort t (bytes_of "443") /\ In colon t /\ SplitHostPort a = Ok (t, bytes_of "443")) \/
   (a = t ++ bytes_of ":443" /\ ~ In colon t /\
    (plain t -> SplitHostPort a = Ok (t, bytes_of "443")))).
Proof.
  assert (plain (bytes_of "443") /\ ~ In colon (bytes_of "443")) as [P1 P2].
  { split; [split|]; cbn; intuition discriminate. }
  cbn zeta. unfold NormalizeServerAddress in H. set (t := TrimSpace address) in *.
  destruct t as [|b t'] eqn:Et; [done|]. rewrite <-Et in *. split; [by rewrite Et|]. clear Et b t'.
  destruct (SplitHostPort t) as [[host port]|e] eqn:Es.
  { injection H as <-. left. eauto. }
  destruct (Contains t colon && negb (HasPrefix t [lbracket]) && ParseIP_colon t) eqn:E.
  - apply andb_true_iff in E as [[Ec _]%andb_true_iff Ep]. injection H as <-. right; left.
    apply Contains_spec in Ec. split; [done|]. split; [done|]. apply SplitHostPort_Join; [|done|done].
    apply addr_chars_plain, parseIPv6_chars. unfold ParseIP_colon in Ep.
    destruct (List.find is_sep t); [|done]. by apply andb_true_iff in Ep as [_ Ep].
  - destruct (Nat.eqb_spec (Count t colon) 0) as [E0|]; [|done]. injection H as <-. right; right.
    assert (~ In colon t) as Hn.
    { intros Hin. unfold Count in E0. apply length_zero_iff_nil in E0.
      assert (In colon (List.filter (Byte.eqb colon) t)) as Hf; [|by rewrite E0 in Hf].
      apply filter_In. by destruct (byte_eqb_spec colon colon). }
    assert (JoinHostPort t (bytes_of "443") = t ++ bytes_of ":443") as Ej.
    { unfold JoinHostPort. by rewrite (proj2 (Contains_false t colon) Hn). }
    split; [done|]. split; [done|]. intros Hp. by apply SplitHostPort_Join.
Qed.

Lemma NormalizeServerAddress_spec_witness : TrimSpace (bytes_of "2001:db8::1") <> [].
Proof.
  apply (NormalizeServerAddress_spec (bytes_of "2001:db8::1") (bytes_of "[2001:db8::1]:443")).
  vm_compute. reflexivity.
Defined.

(** A valid configuration is one a node can run with: a known role, a data
    directory, positive limits, a server to connect to in exit mode, capacity
    for an exit, a listen address for a server. *)
Theorem Validate_spec (n : Node) :
  Validate n = None <->
  (n.(nd_Role) = RoleServer \/ n.(nd_Role) = RoleExit \/ n.(nd_Role) = RoleServerExit) /\
  n.(nd_DataDirectory) <> ""%string /\ 0 < n.(nd_ConnectionLimit) /\ 0 < n.(nd_IdleTimeout) /\
  (n.(nd_Role) = RoleExit -> n.(nd_ServerAddress) <> ""%string) /\
  (n.(nd_Role) <> RoleServer -> 0 < n.(nd_Capacity)) /\
  (n.(nd_Role) <> RoleExit -> n.(nd_ListenAddress) <> ""%string).
Proof.
  assert (forall s, empty_string s = false <-> s <> ""%string) as He.
  { intros s. apply bool_decide_eq_false. }
  assert (forall (c : bool) (e : error) r, (if c then Some e else r) = None <-> c = false /\ r = None) as Hif.
  { intros [] e r; intuition congruence. }
  assert (RoleServer <> RoleExit /\ RoleServer <> RoleServerExit /\ RoleExit <> RoleServerExit)
    as (N1 & N2 & N3) by done.
  unfold Validate, is_role. rewrite !Hif.
  destruct (decide (nd_Role n = RoleServer)) as [R1|R1], (decide (nd_Role n = RoleExit)) as [R2|R2],
    (decide (nd_Role n = RoleServerExit)) as [R3|R3]; try congruence;
    rewrite ?(bool_decide_true _ R1), ?(bool_decide_false _ R1), ?(bool_decide_true _ R2),
      ?(bool_decide_false _ R2), ?(bool_decide_true _ R3), ?(bool_decide_false _ R3);
    cbn [orb negb andb]; rewrite ?He, ?Z.leb_gt; clear He Hif; intuition congruence.
Qed.
