(* ===== verification/Trust.v ===== *)
(** * Certificate trust: [internal/transport/conn.go], [knownhosts.go] and
      [memoryTrust] of [cmd/lnproxy-probe/main.go]

    The program pins server certificates by the SHA-256 fingerprint of their
    DER bytes.  [Trust] is the interface of the same name; [ClientTLSConfig]'s
    [VerifyConnection] is written against it, and its theorem is proved against
    the laws [TrustLaws], which [KnownHosts] satisfies.  A certificate is its
    raw bytes; the prompts are arguments.  [upper] is the case mapping of
    non-ASCII characters (see [GoText.v]). *)
From S2P Require Import Prelude GoStrings Json Codec Protocol Crypto GoText GoFS.

Definition upper_hex (n : Z) : byte := if n <? 10 then byte_of_Z (48 + n) else byte_of_Z (55 + n).

(** [fmt.Sprintf("%02X", value)]. *)
Definition hex2 (b : byte) : bytes := [upper_hex (byte_to_Z b / 16); upper_hex (byte_to_Z b mod 16)].

Definition Fingerprint (raw : bytes) : string :=
  string_of (Join (map hex2 (sha256 raw)) [x3a]).

Definition IsTrustError (e : error) : bool :=
  (fix go e := match e with ETrust _ => true | EWrap _ e => go e | _ => false end) e.

Section Normalize.
Variable upper : bytes -> bytes.

Definition NormalizeFingerprint (value : string) : string :=
  let value := ToUpper upper (TrimSpace (bytes_of value)) in
  let value := ReplaceAll value x20 [] in
  let value := ReplaceAll value x2d [x3a] in
  string_of value.

Definition EqualFingerprint (a b : string) : bool :=
  bool_decide (NormalizeFingerprint a = NormalizeFingerprint b).

End Normalize.

(** [transport.Trust], for a store of type [T]. *)
Class Trust (T : Type) := {
  Trust_Check : string -> string -> T -> option error;
  Trust_Save : string -> string -> T -> option error * T
}.

(** The callback [ClientTLSConfig] installs, on the peer's certificates. *)
Definition VerifyConnection {T} `{Trust T} (upper : bytes -> bytes) (expectedFingerprint : string)
  (host : string) (peer : list bytes) (trust : option T) : option error * option T :=
  match peer with
  | [] => (Some (ETrust (ENew "server did not present a certificate")), trust)
  | cert :: _ =>
      let actual := Fingerprint cert in
      if negb (empty_string expectedFingerprint) then
        if negb (EqualFingerprint upper expectedFingerprint actual) then
          (Some (ETrust (ENew ("server certificate fingerprint changed: expected " +:+
             expectedFingerprint +:+ ", got " +:+ actual))), trust)
        else (None, trust)
      else
        match trust with
        | None => (Some (ETrust (ENew "server is not trusted and no trust store is available")), trust)
        | Some t =>
            match Trust_Save host actual t with
            | (Some e, t) => (Some (ETrust e), Some t)
            | (None, t) => (None, Some t)
            end
        end
  end.

(* ------------------------------------------------------------------ *)
(** ** Known hosts *)

(** [confirm] asks the user; [None] when no confirmer is set.  The map is nil
    ([None]) after loading a file that holds [null]. *)
Record KnownHosts := mkKnown {
  kh_path : string;
  kh_entries : option (gmap string string);
  kh_confirm : option (string -> string -> result bool)
}.

(** [k.entries[host]]. *)
Definition entry (host : string) (k : KnownHosts) : string :=
  match k.(kh_entries) with
  | Some m => default ""%string (m !! host)
  | None => ""%string
  end.

Definition Known_Get (host : string) (k : KnownHosts) : string := entry host k.

Definition SetConfirmer (confirm : option (string -> string -> result bool)) (k : KnownHosts) : KnownHosts :=
  mkKnown k.(kh_path) k.(kh_entries) confirm.

(** A [map[string]string] in JSON: members in the order of their keys; decoding
    adds to the map, and [null] makes it nil. *)
Definition key_le (a b : string * string) : Prop := String.le a.1 b.1.
#[export] Instance key_le_dec : RelDecision key_le.
Proof. intros a b. unfold key_le. apply _. Defined.

Definition enc_map (m : gmap string string) : json :=
  JObj (map (fun kv => (bytes_of kv.1, enc_string kv.2)) (merge_sort key_le (map_to_list m))).

Definition dec_map_member (st : gmap string string * option error) (kv : bytes * json)
  : gmap string string * option error :=
  let '(v, e) := dec_string kv.2 ""%string in
  (<[string_of kv.1 := v]> st.1, first_err st.2 e).

Definition dec_map : decoder (option (gmap string string)) := fun j cur =>
  match j with
  | JObj l =>
      let '(m, e) := fold_left dec_map_member l (default ∅ cur, None) in (Some m, e)
  | JNull => (None, None)
  | _ => (cur, Some json_type_error)
  end.

Definition LoadKnownHosts (fault : option error) (path : string) (fs : FS) : result KnownHosts :=
  match ReadFile fault path fs with
  | Err e => if errors_Is e ErrNotExist then Ok (mkKnown path (Some ∅) None) else Err e
  | Ok data =>
      match parse data with
      | None => Err (EWrap "parse known hosts: " json_syntax_error)
      | Some j =>
          match dec_map j (Some ∅) with
          | (_, Some e) => Err (EWrap "parse known hosts: " e)
          | (m, None) => Ok (mkKnown path m None)
          end
      end
  end.

Definition nil_map_panic : error := EForeign 4 "panic: assignment to entry in nil map".

Section KnownHostsOps.
Variable upper : bytes -> bytes.

(** [k.entries[host] = NormalizeFingerprint(fingerprint)] and the file after
    it: the tail of [Save] and [SaveUnconfirmed].  An assignment to a nil map
    panics. *)
Definition store_entry (ft : save_faults) (host fingerprint : string) (k : KnownHosts) (fs : FS)
  : option error * KnownHosts * FS :=
  match k.(kh_entries) with
  | None => (Some nil_map_panic, k, fs)
  | Some m =>
      let m := <[host := NormalizeFingerprint upper fingerprint]> m in
      let k := mkKnown k.(kh_path) (Some m) k.(kh_confirm) in
      let '(e, fs) := save_rename ft k.(kh_path) (print_indent (enc_map m) ++ [x0a]) fs in
      (e, k, fs)
  end.

Definition SaveUnconfirmed := store_entry.

Definition Known_Save (ft : save_faults) (host fingerprint : string) (k : KnownHosts) (fs : FS)
  : option error * KnownHosts * FS :=
  let existing := entry host k in
  if negb (empty_string existing) && negb (EqualFingerprint upper existing fingerprint)
  then (Some (ENew ("refusing to replace fingerprint for " +:+ host)), k, fs)
  else if empty_string existing then
    match k.(kh_confirm) with
    | None => (Some (ENew ("server " +:+ host +:+
        " is not trusted and no fingerprint confirmation is available")), k, fs)
    | Some confirm =>
        match confirm host (NormalizeFingerprint upper fingerprint) with
        | Err e => (Some e, k, fs)
        | Ok false => (Some (ENew ("server certificate fingerprint for " +:+ host +:+
            " was not accepted")), k, fs)
        | Ok true => store_entry ft host fingerprint k fs
        end
    end
  else store_entry ft host fingerprint k fs.

Definition Known_Check (host fingerprint : string) (k : KnownHosts) : option error :=
  let expected := Known_Get host k in
  if empty_string expected then None
  else if negb (EqualFingerprint upper expected fingerprint)
  then Some (ENew ("server certificate fingerprint changed for " +:+ host +:+ ": expected " +:+
    expected +:+ ", got " +:+ fingerprint))
  else None.

(** The store with the file system under it and the faults to come. *)
Record KnownStore := mkStore { ks_known : KnownHosts; ks_fs : FS; ks_faults : list save_faults }.

Definition KnownStore_Trust : Trust KnownStore := {|
  Trust_Check host fp t := Known_Check host fp t.(ks_known);
  Trust_Save host fp t :=
    let '(e, k, fs) :=
      Known_Save (default no_faults (head t.(ks_faults))) host fp t.(ks_known) t.(ks_fs) in
    (e, mkStore k fs (tail t.(ks_faults)))
|}.

(* ------------------------------------------------------------------ *)
(** ** The probe's store *)

(** [answers] are the lines the user types; a failing read is [Err]. *)
Record memoryTrust := mkMemory {
  mt_expected : string;
  mt_fingerprint : string;
  mt_confirmed : bool;
  mt_answers : list (result string)
}.

Definition newMemoryTrust (expected : string) (answers : list (result string)) : memoryTrust :=
  mkMemory (NormalizeFingerprint upper expected) "" false answers.

(** [Get], and [Fingerprint]. *)
Definition memory_Get (t : memoryTrust) : string :=
  if empty_string t.(mt_expected) then t.(mt_fingerprint) else t.(mt_expected).
Definition memory_Fingerprint (t : memoryTrust) : string := t.(mt_fingerprint).

Definition memory_Check (fingerprint : string) (t : memoryTrust) : option error :=
  let expected := if empty_string t.(mt_expected) then t.(mt_fingerprint) else t.(mt_expected) in
  if empty_string expected || EqualFingerprint upper expected fingerprint then None
  else Some (ENew "server certificate fingerprint changed").

Definition memory_Save (lower : bytes -> bytes) (fingerprint : string) (t : memoryTrust)
  : option error * memoryTrust :=
  let fingerprint := NormalizeFingerprint upper fingerprint in
  if negb (empty_string t.(mt_expected)) && negb (EqualFingerprint upper t.(mt_expected) fingerprint)
  then (Some (ENew ("server certificate fingerprint mismatch: expected " +:+ t.(mt_expected) +:+
    ", got " +:+ fingerprint)), t)
  else if t.(mt_confirmed) || negb (empty_string t.(mt_expected))
  then (None, mkMemory t.(mt_expected) fingerprint true t.(mt_answers))
  else
    match t.(mt_answers) with
    | [] => (Some EOF, mkMemory t.(mt_expected) fingerprint t.(mt_confirmed) [])
    | Err e :: rest => (Some e, mkMemory t.(mt_expected) fingerprint t.(mt_confirmed) rest)
    | Ok answer :: rest =>
        let answer := string_of (ToLower lower (TrimSpace (bytes_of answer))) in
        if negb (bool_decide (answer = "y"%string)) && negb (bool_decide (answer = "yes"%string))
        then (Some (ENew "server certificate fingerprint was not accepted"),
              mkMemory t.(mt_expected) fingerprint t.(mt_confirmed) rest)
        else (None, mkMemory t.(mt_expected) fingerprint true rest)
    end.

End KnownHostsOps.

(** The probe's store as a [Trust]. *)
Definition memoryTrust_Trust (upper lower : bytes -> bytes) : Trust memoryTrust := {|
  Trust_Check _ fp t := memory_Check upper fp t;
  Trust_Save _ fp t := memory_Save upper lower fp t
|}.

(* ------------------------------------------------------------------ *)
(** ** Fingerprints *)

Definition fp_char (b : byte) : bool := in_range 48 58 b || in_range 65 70 b.

Lemma upper_hex_char n : 0 <= n < 16 -> fp_char (upper_hex n) = true.
Proof.
  intros H. assert (forallb (fun k => fp_char (upper_hex (Z.of_nat k))) (seq 0 16) = true) as Hall
    by (vm_compute; reflexivity).
  rewrite forallb_forall in Hall. specialize (Hall (Z.to_nat n)). rewrite Z2Nat.id in Hall by lia.
  apply Hall, in_seq. lia.
Qed.

Lemma hex2_chars b : Forall (fun c => fp_char c = true) (hex2 b).
Proof.
  pose proof (byte_to_Z_range b). unfold hex2.
  repeat (apply Forall_cons; split; [apply upper_hex_char; Z.to_euclidean_division_equations; lia|]).
  apply Forall_nil_2.
Qed.

Lemma Join_chars (P : byte -> Prop) ps sep :
  Forall (Forall P) ps -> Forall P sep -> Forall P (Join ps sep).
Proof.
  intros Hps Hsep. induction Hps as [|p ps Hp Hps IH]; [apply Forall_nil_2|].
  destruct ps; [done|]. cbn [Join]. apply Forall_app. split; [done|]. by apply Forall_app.
Qed.

Lemma Fingerprint_chars raw : Forall (fun c => fp_char c = true) (bytes_of (Fingerprint raw)).
Proof.
  unfold Fingerprint. rewrite bytes_of_string_of. apply Join_chars.
  - apply Forall_map. apply Forall_true. intros b. apply hex2_chars.
  - by repeat constructor.
Qed.

Lemma fp_char_facts b : fp_char b = true ->
  is_ascii b = true /\ ascii_space b = false /\ upper_ascii b = b /\
  (b =b x20) = false /\ (b =b x2d) = false.
Proof. destruct b; try discriminate; intros _; vm_compute; done. Qed.

Lemma map_id_on {A} (f : A -> A) l : Forall (fun x => f x = x) l -> map f l = l.
Proof. induction 1 as [|x l Hx _ IH]; [done|]. cbn. by rewrite Hx, IH. Qed.

Lemma ReplaceAll_none s b n : Forall (fun c => (c =b b) = false) s -> ReplaceAll s b n = s.
Proof.
  unfold ReplaceAll. induction 1 as [|c s Hc _ IH]; [done|]. cbn. by rewrite Hc, IH.
Qed.

(** A computed fingerprint is in normal form. *)
Lemma NormalizeFingerprint_canonical upper raw :
  NormalizeFingerprint upper (Fingerprint raw) = Fingerprint raw.
Proof.
  pose proof (Fingerprint_chars raw) as H. unfold NormalizeFingerprint.
  set (s := bytes_of (Fingerprint raw)) in *.
  assert (ascii_text s /\ Forall (fun b => ascii_space b = false) s /\
    Forall (fun b => upper_ascii b = b) s /\ Forall (fun b => (b =b x20) = false) s /\
    Forall (fun b => (b =b x2d) = false) s) as (H1 & H2 & H3 & H4 & H5).
  { split_and!; (eapply Forall_impl; [exact H|]); intros b Hb;
      by apply fp_char_facts in Hb as (? & ? & ? & ? & ?). }
  rewrite TrimSpace_id, ToUpper_ascii, map_id_on, (ReplaceAll_none s x20), (ReplaceAll_none s x2d)
    by done.
  apply string_of_bytes_of.
Qed.

Lemma upper_hex_inj m n : 0 <= m < 16 -> 0 <= n < 16 -> upper_hex m = upper_hex n -> m = n.
Proof.
  intros Hm Hn E. apply (f_equal byte_to_Z) in E. unfold upper_hex in E.
  destruct (Z.ltb_spec m 10), (Z.ltb_spec n 10); rewrite !byte_to_of_Z, !Z.mod_small in E by lia; lia.
Qed.

Lemma hex2_inj a b : hex2 a = hex2 b -> a = b.
Proof.
  pose proof (byte_to_Z_range a). pose proof (byte_to_Z_range b). unfold hex2. intros E.
  injection E as E1 E2. apply byte_to_Z_inj.
  apply upper_hex_inj in E1; [|Z.to_euclidean_division_equations; lia..].
  apply upper_hex_inj in E2; [|Z.to_euclidean_division_equations; lia..].
  rewrite (Z.div_mod (byte_to_Z a) 16), (Z.div_mod (byte_to_Z b) 16) by lia. congruence.
Qed.

Lemma Join_hex_inj xs : forall ys, length xs = length ys ->
  Join (map hex2 xs) [x3a] = Join (map hex2 ys) [x3a] -> xs = ys.
Proof.
  induction xs as [|x xs IH]; intros [|y ys] Hl E; try done.
  destruct xs as [|x' xs], ys as [|y' ys]; try done.
  - cbn [map Join] in E. apply hex2_inj in E. by subst.
  - cbn [map Join] in E. apply app_inj_1 in E as [E1 E2]; [|done]. apply hex2_inj in E1 as ->.
    f_equal. apply IH; [cbn in *; lia|]. by apply app_inv_head in E2.
Qed.

(** Two certificates have the same fingerprint only if their SHA-256 digests
    agree. *)
Lemma Fingerprint_inj a b : Fingerprint a = Fingerprint b -> sha256 a = sha256 b.
Proof.
  intros E. apply (f_equal bytes_of) in E. unfold Fingerprint in E. rewrite !bytes_of_string_of in E.
  apply Join_hex_inj in E; [done|]. by rewrite !length_sha256.
Qed.

Lemma Fingerprint_nonempty a : empty_string (Fingerprint a) = false.
Proof.
  apply bool_decide_eq_false. intros E. apply (f_equal bytes_of) in E. unfold Fingerprint in E.
  rewrite bytes_of_string_of in E. pose proof (length_sha256 a) as Hl.
  destruct (sha256 a) as [|x [|y l]]; [done|done|]. by cbn in E.
Qed.

(* ------------------------------------------------------------------ *)
(** ** The laws of a trust store *)

(** [Get], which callers ask for the expected fingerprint. *)
Class TrustGet (T : Type) := Trust_Get : string -> T -> string.

(** What a store has pinned a host to. *)
Definition pinned {T} `{TrustGet T} (upper : bytes -> bytes) (host : string) (t : T) : option string :=
  let f := Trust_Get host t in
  if empty_string f then None else Some (NormalizeFingerprint upper f).

(** What a store promises for fingerprints in normal form: a successful [Save]
    pins the host to the fingerprint, and no [Save] ever changes a pin. *)
Class TrustLaws (T : Type) `{Trust T, TrustGet T} (upper : bytes -> bytes) := {
  save_pins host raw t t' :
    Trust_Save host (Fingerprint raw) t = (None, t') -> pinned upper host t' = Some (Fingerprint raw);
  save_keeps host raw t e t' h f :
    Trust_Save host (Fingerprint raw) t = (e, t') -> pinned upper h t = Some f -> pinned upper h t' = Some f
}.

#[export] Instance KnownStore_Get : TrustGet KnownStore := fun host t => Known_Get host t.(ks_known).

Lemma entry_store upper ft host fp k fs e k' fs' :
  store_entry upper ft host fp k fs = (e, k', fs') ->
  (k' = k /\ e = Some nil_map_panic) \/
  (forall h, entry h k' = if decide (h = host) then NormalizeFingerprint upper fp else entry h k).
Proof.
  unfold store_entry. destruct (kh_entries k) as [m|] eqn:Em; [|intros [= <- <- <-]; by left].
  destruct (save_rename _ _ _ fs) as [e1 fs1]. intros [= <- <- <-]. right. intros h.
  unfold entry. cbn [kh_entries]. rewrite Em. case_decide; subst.
  - by rewrite lookup_insert_eq.
  - by rewrite lookup_insert_ne.
Qed.

#[export] Instance KnownStore_laws (upper : bytes -> bytes) :
  @TrustLaws KnownStore (KnownStore_Trust upper) KnownStore_Get upper.
Proof.
  assert (forall h t, pinned upper h t = (if empty_string (entry h t.(ks_known)) then None
    else Some (NormalizeFingerprint upper (entry h t.(ks_known))))) as Hpin by done.
  split.
  - intros host raw [k fs fts] t' H. cbn [Trust_Save KnownStore_Trust ks_known ks_fs ks_faults] in H. unfold Known_Save in H.
    destruct (_ && _); [by injection H|].
    assert (forall e k1 fs1, store_entry upper (default no_faults (head fts)) host (Fingerprint raw) k fs
        = (e, k1, fs1) -> (e, mkStore k1 fs1 (tail fts)) = (None, t') ->
        pinned upper host t' = Some (Fingerprint raw)) as Hs.
    { intros e k1 fs1 Es [= -> <-]. apply entry_store in Es as [[_ ?]|Es]; [done|].
      rewrite Hpin. cbn [ks_known]. rewrite Es, decide_True by done.
      rewrite NormalizeFingerprint_canonical, Fingerprint_nonempty.
      by rewrite NormalizeFingerprint_canonical. }
    destruct (empty_string (entry host k)).
    + destruct (kh_confirm k) as [confirm|]; [|done]. destruct (confirm _ _) as [[]|e]; try done.
      destruct (store_entry _ _ _ _ _ _) as [[e k1] fs1] eqn:Es. by eapply Hs.
    + destruct (store_entry _ _ _ _ _ _) as [[e k1] fs1] eqn:Es. by eapply Hs.
  - intros host raw [k fs fts] e t' h f H Hp. cbn [Trust_Save KnownStore_Trust ks_known ks_fs ks_faults] in H. unfold Known_Save in H.
    rewrite Hpin in *. cbn [ks_known] in Hp.
    destruct (negb (empty_string (entry host k)) &&
      negb (EqualFingerprint upper (entry host k) (Fingerprint raw))) eqn:Eq.
    { by injection H as <- <-. }
    destruct (empty_string (entry h k)) eqn:Eh; [done|].
    assert (forall e1 k1 fs1, store_entry upper (default no_faults (head fts)) host (Fingerprint raw) k fs
        = (e1, k1, fs1) -> (e1, mkStore k1 fs1 (tail fts)) = (e, t') ->
        (if empty_string (entry h (ks_known t')) then None
         else Some (NormalizeFingerprint upper (entry h (ks_known t')))) = Some f) as Hs.
    { intros e1 k1 fs1 Es [= <- <-]. cbn [ks_known].
      apply entry_store in Es as [[-> _]|Es]; [by rewrite Eh|].
      rewrite Es. case_decide as Ed; [|by rewrite Eh]. subst h. rewrite Eh in Eq. cbn [negb andb] in Eq.
      apply negb_false_iff, bool_decide_eq_true in Eq.
      rewrite NormalizeFingerprint_canonical in *. rewrite Fingerprint_nonempty.
      rewrite NormalizeFingerprint_canonical. by rewrite <-Eq. }
    destruct (empty_string (entry host k)).
    + destruct (kh_confirm k) as [confirm|]; [|injection H as <- <-; cbn; by rewrite Eh].
      destruct (confirm _ _) as [[]|e']; try (injection H as <- <-; cbn; by rewrite Eh).
      destruct (store_entry _ _ _ _ _ _) as [[e1 k1] fs1] eqn:Es. by eapply Hs.
    + destruct (store_entry _ _ _ _ _ _) as [[e1 k1] fs1] eqn:Es. by eapply Hs.
Qed.

(* ------------------------------------------------------------------ *)
(** ** Pinning *)

Section Pinning.
Context {T : Type} `{TT : Trust T} {TG : TrustGet T} {upper : bytes -> bytes} {TL : TrustLaws T upper}.

(** A series of connections, each with the fingerprint its caller expects, the
    host and the certificates it shows. *)
Definition verify_all (conns : list (string * string * list bytes)) (t : T) : T :=
  fold_left (fun t c =>
    default t (VerifyConnection upper c.1.1 c.1.2 c.2 (Some t)).2) conns t.

Lemma VerifyConnection_keeps exp host peer t h f :
  pinned upper h t = Some f ->
  pinned upper h (default t (VerifyConnection upper exp host peer (Some t)).2) = Some f.
Proof.
  intros Hp. unfold VerifyConnection. destruct peer as [|cert peer]; [done|]. cbn zeta.
  destruct (negb (empty_string exp)); [by destruct (negb _)|].
  destruct (Trust_Save host (Fingerprint cert) t) as [e t'] eqn:E.
  pose proof (save_keeps _ _ _ _ _ _ _ E Hp). by destruct e.
Qed.

Lemma verify_all_keeps conns : forall t h f,
  pinned upper h t = Some f -> pinned upper h (verify_all conns t) = Some f.
Proof.
  induction conns as [|[[exp host] peer] conns IH]; intros t h f Hp; [done|].
  cbn. apply IH. by apply VerifyConnection_keeps.
Qed.

(** What a caller expects of the host: nothing, when it asked the store before
    anything was pinned, or the pin. *)
Definition expects (exp host : string) (t : T) : Prop := exp = ""%string \/ exp = Trust_Get host t.

Lemma get_pinned host t : Trust_Get host t <> ""%string ->
  pinned upper host t = Some (NormalizeFingerprint upper (Trust_Get host t)).
Proof. intros H. unfold pinned. destruct (empty_string _) eqn:E; [|done]. by apply empty_string_spec in E. Qed.

Lemma pinned_get host t f : pinned upper host t = Some f ->
  Trust_Get host t <> ""%string /\ NormalizeFingerprint upper (Trust_Get host t) = f.
Proof.
  unfold pinned. destruct (empty_string _) eqn:E; [done|]. intros [= <-]. split; [|done].
  intros H. by rewrite H in E.
Qed.

(** An accepted certificate is the pinned one, if the expected fingerprint was
    asked for in some earlier state of the store. *)
Lemma VerifyConnection_pins exp host cert peer t0 conns t' :
  expects exp host t0 ->
  VerifyConnection upper exp host (cert :: peer) (Some (verify_all conns t0)) = (None, t') ->
  exists t1, t' = Some t1 /\ pinned upper host t1 = Some (Fingerprint cert).
Proof.
  intros Hexp. unfold VerifyConnection. cbn zeta. destruct (empty_string exp) eqn:Ee; cbn [negb].
  - destruct (Trust_Save host (Fingerprint cert) _) as [[e|] t1] eqn:E; [done|].
    intros [= <-]. exists t1. split; [done|]. by apply (save_pins _ _ _ _ E).
  - destruct (EqualFingerprint upper exp (Fingerprint cert)) eqn:Eq; cbn [negb]; [|done].
    intros [= <-]. eexists. split; [done|]. apply verify_all_keeps.
    destruct Hexp as [->| ->]; [done|]. rewrite get_pinned by (intros E; by rewrite E in Ee).
    apply bool_decide_eq_true in Eq. by rewrite Eq, NormalizeFingerprint_canonical.
Qed.

Lemma VerifyConnection_error exp host peer tr e tr' :
  VerifyConnection upper exp host peer tr = (Some e, tr') -> IsTrustError e = true.
Proof.
  unfold VerifyConnection. destruct peer as [|cert peer]; [by intros [= <- _]|].
  destruct (negb (empty_string exp)).
  - destruct (negb (EqualFingerprint _ _ _)); by intros [= <- _].
  - destruct tr as [t|]; [|by intros [= <- _]].
    destruct (Trust_Save _ _ t) as [[e1|] t1]; by intros [= <- _].
Qed.
End Pinning.

Lemma Fingerprint_digest a b : sha256 a = sha256 b -> Fingerprint a = Fingerprint b.
Proof. unfold Fingerprint. by intros ->. Qed.

(** C12: trust on first use is kept, for every trust store that obeys the laws
    and for the expected fingerprints the program passes: before connecting to a
    host it asks the store for the host's fingerprint ([trust.Get(host)]), and the
    answer may be out of date when the certificate is verified.  Once a connection to a
    host was accepted with a certificate, then whatever connections follow, to
    this or to other hosts, with whatever certificates and expectations, a later
    connection to that host is accepted only with a certificate that has the
    same SHA-256 digest, both when its caller expects the pin and when it asked
    before there was one; with the pin expected, the same certificate is accepted,
    and the store is not written.  Every refusal is a trust error, which callers
    treat as permanent. *)
Theorem pinned_certificate {T : Type} `{TT : Trust T} {TG : TrustGet T} (upper : bytes -> bytes)
  {TL : TrustLaws T upper} (host exp exp' : string) (cert cert' : bytes) (peer peer' : list bytes)
  (conns0 conns1 conns2 : list (string * string * list bytes)) (t0 t1 : T) (r : option error) (t3 : option T)
  (Hexp : expects exp host t0)
  (Hfirst : VerifyConnection upper exp host (cert :: peer) (Some (verify_all (upper := upper) conns0 t0))
            = (None, Some t1))
  (Hexp' : expects exp' host (verify_all (upper := upper) conns1 t1))
  (Hlater : VerifyConnection upper exp' host (cert' :: peer')
              (Some (verify_all (upper := upper) conns2 (verify_all (upper := upper) conns1 t1))) = (r, t3)) :
  (r = None -> sha256 cert' = sha256 cert) /\
  (exp' <> ""%string -> sha256 cert' = sha256 cert ->
     r = None /\ t3 = Some (verify_all (upper := upper) conns2 (verify_all (upper := upper) conns1 t1))) /\
  (forall e, r = Some e -> IsTrustError e = true).
Proof.
  destruct (VerifyConnection_pins _ _ _ _ _ _ _ Hexp Hfirst) as (t1' & [= <-] & Hp).
  pose proof (verify_all_keeps conns1 _ _ _ Hp) as Hp1.
  pose proof (verify_all_keeps conns2 _ _ _ Hp1) as Hp2. split_and!.
  - intros ->. destruct (VerifyConnection_pins _ _ _ _ _ _ _ Hexp' Hlater) as (t3' & -> & Hp3).
    pose proof (VerifyConnection_keeps exp' host (cert' :: peer') _ _ _ Hp2) as Hk. rewrite Hlater in Hk.
    apply Fingerprint_inj. change (pinned upper host t3' = Some (Fingerprint cert)) in Hk. congruence.
  - intros Hne Hsame. destruct Hexp' as [->| ->]; [done|].
    destruct (pinned_get _ _ _ Hp1) as [_ Hn]. unfold VerifyConnection in Hlater. cbn zeta in Hlater.
    destruct (empty_string _) eqn:E; [by apply empty_string_spec in E|]. cbn [negb] in Hlater.
    rewrite (Fingerprint_digest _ _ Hsame) in Hlater.
    assert (EqualFingerprint upper (Trust_Get host (verify_all (upper := upper) conns1 t1)) (Fingerprint cert) = true) as Eq.
    { apply bool_decide_eq_true. by rewrite Hn, NormalizeFingerprint_canonical. }
    rewrite Eq in Hlater. by injection Hlater as <- <-.
  - intros e ->. by eapply VerifyConnection_error.
Qed.

Definition demo_store : KnownStore :=
  mkStore (mkKnown "known_hosts.json" (Some ∅) (Some (fun _ _ => Ok true))) (mkFS ∅ 0) [].
Definition demo_cert : bytes := bytes_of "certificate one".
Definition demo_cert2 : bytes := bytes_of "certificate two".
#[local] Instance demo_trust : Trust KnownStore := KnownStore_Trust (fun b => b).
Definition demo_verify (exp : string) (cert : bytes) (t : KnownStore) : option error * option KnownStore :=
  VerifyConnection (fun b => b) exp "srv" [cert] (Some t).

(** The host shows another certificate, to a caller that expects the pin and to
    one that does not; and the same one again. *)
Lemma pinned_certificate_witness :
  exists t1 e e' t3,
    demo_verify "" demo_cert demo_store = (None, Some t1) /\
    let t2 := verify_all (upper := fun b => b) [(""%string, "other"%string, [demo_cert2])] t1 in
    demo_verify (Trust_Get "srv" t2) demo_cert2 t2 = (Some e, Some t2) /\ IsTrustError e = true /\
    demo_verify "" demo_cert2 t2 = (Some e', t3) /\ IsTrustError e' = true /\
    demo_verify (Trust_Get "srv" t2) demo_cert t2 = (None, Some t2).
Proof.
  pose proof (fun exp' cert' t1 r t3 => @pinned_certificate _ demo_trust KnownStore_Get (fun b => b)
    (KnownStore_laws (fun b => b)) "srv" "" exp' demo_cert cert' [] [] [] [(""%string, "other"%string, [demo_cert2])] []
    demo_store t1 r t3 (or_introl eq_refl)) as H.
  eexists _, _, _, _. cbn zeta. split_and!; [reflexivity|vm_compute; reflexivity| |vm_compute; reflexivity| |].
  - eapply (H _ demo_cert2); [reflexivity|right; reflexivity|vm_compute; reflexivity|reflexivity].
  - eapply (H "" demo_cert2); [reflexivity|left; reflexivity|vm_compute; reflexivity|reflexivity].
  - match goal with |- ?x = _ => destruct x as [r t3] eqn:E end.
    destruct (H _ demo_cert _ _ _ eq_refl (or_intror eq_refl) E) as (_ & Hs & _).
    destruct Hs as [-> ->]; [|reflexivity|reflexivity]. intros Hn. vm_compute in Hn. discriminate Hn.
Defined.

(** The probe's store breaks the laws: with no expected fingerprint, once the
    user has accepted one certificate, any other certificate is accepted
    without a question. *)
Theorem memoryTrust_accepts_changed_certificate :
  exists t1 t2,
    @VerifyConnection _ (memoryTrust_Trust (fun b => b) (fun b => b)) (fun b => b) "" "srv"
      [demo_cert] (Some (newMemoryTrust (fun b => b) "" [Ok "y"%string])) = (None, Some t1) /\
    @VerifyConnection _ (memoryTrust_Trust (fun b => b) (fun b => b)) (fun b => b) "" "srv"
      [demo_cert2] (Some t1) = (None, Some t2) /\
    sha256 demo_cert <> sha256 demo_cert2.
Proof.
  eexists _, _. split_and!; [vm_compute; reflexivity..|]. vm_compute. discriminate.
Qed.

(* ------------------------------------------------------------------ *)
(** ** The known-hosts file *)

Lemma fold_dec_members (l : list (string * string)) : forall m,
  fold_left dec_map_member (map (fun kv => (bytes_of kv.1, enc_string kv.2)) l) (m, None) =
  (fold_left (fun m kv => <[kv.1 := kv.2]> m) l m, None).
Proof.
  induction l as [|[k v] l IH]; intros m; [done|]. cbn [map fold_left fst snd].
  assert (dec_map_member (m, None) (bytes_of k, enc_string v) = (<[k := v]> m, None)) as ->.
  { unfold dec_map_member, enc_string, dec_string. cbn [fst snd first_err].
    by rewrite !string_of_bytes_of. }
  apply IH.
Qed.

Lemma fold_insert_lookup (l : list (string * string)) k : forall m : gmap string string,
  NoDup l.*1 ->
  fold_left (fun m kv => <[kv.1 := kv.2]> m) l m !! k =
  match list_to_map (M := gmap string string) l !! k with Some v => Some v | None => m !! k end.
Proof.
  induction l as [|[k' v] l IH]; intros m Hn; [cbn; by rewrite lookup_empty|].
  apply NoDup_cons in Hn as [Hk Hn]. cbn [fold_left fst snd]. rewrite IH by done.
  rewrite list_to_map_cons. destruct (decide (k' = k)) as [->|Hne].
  - rewrite !lookup_insert_eq. assert (list_to_map (M := gmap string string) l !! k = None) as ->; [|done].
    by apply not_elem_of_list_to_map_1.
  - by rewrite !lookup_insert_ne.
Qed.

Lemma dec_enc_map m : dec_map (enc_map m) (Some ∅) = (Some m, None).
Proof.
  unfold enc_map, dec_map. cbn [default]. rewrite fold_dec_members. f_equal. f_equal.
  assert (merge_sort key_le (map_to_list m) ≡ₚ map_to_list m) as Hp by apply merge_sort_Permutation.
  assert (NoDup (merge_sort key_le (map_to_list m)).*1) as Hn.
  { rewrite Hp. apply NoDup_fst_map_to_list. }
  apply map_eq. intros k. rewrite fold_insert_lookup by done.
  rewrite (list_to_map_proper _ (map_to_list m)) by done. rewrite list_to_map_to_list.
  by destruct (m !! k).
Qed.

Definition map_ok (m : gmap string string) : Prop :=
  map_Forall (fun k v => string_ok k /\ string_ok v) m.

Lemma enc_map_jwf m : map_ok m -> jwf (enc_map m).
Proof.
  intros H. apply jwf_JObj, Forall_map. rewrite merge_sort_Permutation.
  apply Forall_forall. intros [k v] Hin. apply elem_of_map_to_list in Hin.
  destruct (H k v Hin) as [Hk Hv]. split; [done|]. by apply jwf_enc_string.
Qed.

Lemma enc_map_depth m : jdepth (enc_map m) <= max_depth.
Proof.
  transitivity (1 + 0); [|done]. apply jdepth_obj; [done|]. apply Forall_map, Forall_true. done.
Qed.

(** A fingerprint that was saved is found again: after a successful [Save]
    the file, loaded anew, gives the very entries the store holds, among them
    the normalised fingerprint of the host; a failed write leaves the file as
    it was. *)
Theorem known_hosts_roundtrip (upper : bytes -> bytes) (ft : save_faults) (host fp : string)
  (k k' : KnownHosts) (fs fs' : FS) (e : option error) (m : gmap string string)
  (Hm : k.(kh_entries) = Some m)
  (Hok : map_ok (<[host := NormalizeFingerprint upper fp]> m))
  (H : Known_Save upper ft host fp k fs = (e, k', fs')) :
  match e with
  | None => LoadKnownHosts None k.(kh_path) fs' = Ok (mkKnown k.(kh_path) k'.(kh_entries) None) /\
            entry host k' = NormalizeFingerprint upper fp
  | Some _ => fs'.(fs_files) !! k.(kh_path) = fs.(fs_files) !! k.(kh_path)
  end.
Proof.
  assert (forall e k' fs', store_entry upper ft host fp k fs = (e, k', fs') ->
    match e with
    | None => LoadKnownHosts None k.(kh_path) fs' = Ok (mkKnown k.(kh_path) k'.(kh_entries) None) /\
              entry host k' = NormalizeFingerprint upper fp
    | Some _ => fs'.(fs_files) !! k.(kh_path) = fs.(fs_files) !! k.(kh_path)
    end) as Hstore.
  { clear H e k' fs'. intros e k' fs' H. unfold store_entry in H. rewrite Hm in H. cbn [kh_path] in H.
    set (m' := <[host := _]> m) in *. set (data := print_indent (enc_map m') ++ [x0a]) in *.
    destruct (save_rename_atomic ft (kh_path k) data fs) as [Hr _].
    destruct (save_rename ft (kh_path k) data fs) as [e1 fs1]. injection H as <- <- <-.
    cbn [fst snd] in Hr. destruct e1 as [e1|]; [done|]. destruct Hr as ([d mode] & Hf & Hd).
    cbn [fl_data] in Hd. subst d. split.
    - unfold LoadKnownHosts, ReadFile. rewrite Hf. cbn [fl_data]. unfold data.
      rewrite parse_print_indent; [|by apply enc_map_jwf|apply enc_map_depth|by repeat constructor].
      by rewrite dec_enc_map.
    - unfold entry. cbn [kh_entries]. unfold m'. by rewrite lookup_insert_eq. }
  unfold Known_Save in H. destruct (_ && _); [by injection H as <- <- <-|].
  destruct (empty_string (entry host k)); [|by apply Hstore].
  destruct (kh_confirm k) as [confirm|]; [|by injection H as <- <- <-].
  destruct (confirm _ _) as [[]|e1]; [by apply Hstore|by injection H as <- <- <-..].
Qed.

Lemma known_hosts_roundtrip_witness :
  exists k' fs', Known_Save (fun b => b) no_faults "srv" "aa-bb" demo_store.(ks_known) (mkFS ∅ 0) =
    (None, k', fs') /\ entry "srv" k' = "AA:BB"%string.
Proof.
  eexists _, _. split; [vm_compute; reflexivity|].
  refine (proj2 (known_hosts_roundtrip (fun b => b) no_faults "srv" "aa-bb" demo_store.(ks_known)
    _ (mkFS ∅ 0) _ None ∅ eq_refl _ _)); [|vm_compute; reflexivity].
  apply map_Forall_insert_2; [split; vm_compute; reflexivity|apply map_Forall_empty].
Defined.
