(* ===== verification/Server.v ===== *)
(** * The server: [internal/node/server.go]

    The server's tables (clients, exits, registry, rate limiter), the admission
    of connections, the two kinds of handlers, routing of open requests, and
    the catalog.  Sessions live in a heap; a [*session.Session] is an index
    into it.  A handler that blocks is cut at the points where it blocks, and
    the pieces are the steps of [server_step]; the instants at which the clock
    is read, the iteration orders of maps and the results of dialling are
    arguments.  The accept loops are in [ServerRun], what follows a dial in
    [Forwarding]; logging is left out. *)
From S2P Require Import Prelude GoIO GoStrings GoTime Json Codec Protocol Registry RateLimiter Session.
From S2P Require Import Crypto Auth AuthProps GoNet Config.

Abbreviation sid := nat.

Record exitConn := mkExitConn { ec_id : string; ec_session : sid; ec_name : string }.

Record Server := mkServer {
  sv_config : Node;
  sv_verifier : Verifier;
  sv_registry : Registry;
  sv_clientConns : gset sid;
  sv_exitConns : gmap string exitConn;
  sv_directID : string;
  sv_limiter : RateLimiter;
  sv_sessions : list Session
}.

Definition with_registry (r : Registry) (s : Server) : Server :=
  mkServer s.(sv_config) s.(sv_verifier) r s.(sv_clientConns) s.(sv_exitConns) s.(sv_directID)
    s.(sv_limiter) s.(sv_sessions).
Definition with_clients (c : gset sid) (s : Server) : Server :=
  mkServer s.(sv_config) s.(sv_verifier) s.(sv_registry) c s.(sv_exitConns) s.(sv_directID)
    s.(sv_limiter) s.(sv_sessions).
Definition with_exits (m : gmap string exitConn) (s : Server) : Server :=
  mkServer s.(sv_config) s.(sv_verifier) s.(sv_registry) s.(sv_clientConns) m s.(sv_directID)
    s.(sv_limiter) s.(sv_sessions).
Definition with_limiter (l : RateLimiter) (s : Server) : Server :=
  mkServer s.(sv_config) s.(sv_verifier) s.(sv_registry) s.(sv_clientConns) s.(sv_exitConns)
    s.(sv_directID) l s.(sv_sessions).
Definition with_sessions (h : list Session) (s : Server) : Server :=
  mkServer s.(sv_config) s.(sv_verifier) s.(sv_registry) s.(sv_clientConns) s.(sv_exitConns)
    s.(sv_directID) s.(sv_limiter) h.

Definition NewServer (now : Time) (cfg : Node) (verifier : Verifier) : Server :=
  let server := mkServer cfg verifier (NewRegistry (45 * Second)) ∅ ∅ "direct"
    (NewRateLimiter 5 Minute (30 * Second)) [] in
  if is_role cfg RoleServer || is_role cfg RoleServerExit
  then with_registry
    (AddPersistent now
      (mkExitInfo "direct" "server" "direct" "" 1 0 cfg.(nd_ConnectionLimit) ["tcp"%string] 0)
      "healthy" server.(sv_registry)) server
  else server.

(* ------------------------------------------------------------------ *)
(** ** Admission *)

Definition connectionCount (s : Server) : Z :=
  Z.of_nat (size s.(sv_clientConns)) + Z.of_nat (size s.(sv_exitConns)).

Inductive admission : Type := Refuse (e : error) | ServeClient | ServeExit.

(** [handleConnection] after the handshake. *)
Definition settle (now : Time) (key : string) (response : AuthResponse) (err : option error)
  (s : Server) : admission * Server :=
  match err with
  | Some e => (Refuse e, with_limiter (Fail_ now key s.(sv_limiter)) s)
  | None =>
      let s := with_limiter (Success key s.(sv_limiter)) s in
      if s.(sv_config).(nd_ConnectionLimit) <=? connectionCount s
      then (Refuse (ENew "connection limit reached"), s)
      else if bool_decide (response.(as_Role) = Auth.RoleClient) then (ServeClient, s)
      else if bool_decide (response.(as_Role) = Auth.RoleExit) then (ServeExit, s)
      else (Refuse (ENew ("unsupported authenticated role " +:+ Quote response.(as_Role))), s)
  end.

(** [handleConnection] up to the handler it calls; [now] and [now'] are the
    instants of the limiter's two calls. *)
Definition handleConnection (now now' : Time) (rand : result bytes) (remote : bytes) (rw : ReadWriter)
  (s : Server) : admission * ReadWriter * Server :=
  let key := string_of (remoteHost remote) in
  match Allowed now key s.(sv_limiter) with
  | (Some e, l) => (Refuse e, rw, with_limiter l s)
  | (None, l) =>
      let s := with_limiter l s in
      let '(response, err, rw) := ServerHandshake rand s.(sv_verifier) "" rw in
      let '(a, s) := settle now' key response err s in (a, rw, s)
  end.

(* ------------------------------------------------------------------ *)
(** ** The catalog *)

Definition catalog (ord : order) : Catalog := mkCatalog (Snapshot ord).

(** [sess.WriteJSON(FrameCatalog, 0, catalog)]; the error is only logged. *)
Definition push (c : Catalog) (sess : Session) : Session := (writeFrameJSON FrameCatalog 0 c sess).2.

Definition pushCatalog (ord : order) (i : sid) (s : Server) : Server :=
  with_sessions (alter (push (catalog ord)) i s.(sv_sessions)) s.

Definition broadcastCatalog (ord : order) (s : Server) : Server :=
  with_sessions
    (foldr (fun i h => alter (push (catalog ord)) i h) s.(sv_sessions) (elements s.(sv_clientConns))) s.

(** A tick of [catalogLoop]; [ord], [ord'] and [ord''] are the orders in which
    the map is visited before, during and after the expiry. *)
Definition catalog_tick (now : Time) (ord ord' ord'' : order) (s : Server) : Server :=
  let before := Snapshot ord in
  let s := with_registry (Expire now ord' s.(sv_registry)) s in
  let after := Snapshot ord'' in
  if negb (length before =? length after)%nat then broadcastCatalog ord'' s else s.

(* ------------------------------------------------------------------ *)
(** ** Clients *)

Definition new_session (s : Server) : Session :=
  New (mkConfig s.(sv_config).(nd_IdleTimeout) 0).

(** [handleClient] until it waits for the session to end. *)
Definition handleClient_begin (conn : Sink) (ord : order) (s : Server) : result sid * Server :=
  match Start (Ok conn) true (new_session s) with
  | (Some e, _) => (Err e, s)
  | (None, sess) =>
      let i := length s.(sv_sessions) in
      let s := with_sessions (s.(sv_sessions) ++ [sess]) s in
      let s := with_clients ({[i]} ∪ s.(sv_clientConns)) s in
      (Ok i, pushCatalog ord i s)
  end.

(** The rest, once [sess.Done()] is closed. *)
Definition handleClient_end (i : sid) (s : Server) : Server :=
  with_clients (s.(sv_clientConns) ∖ {[i]}) s.

(* ------------------------------------------------------------------ *)
(** ** Exits *)

Definition handleExit_begin (conn : Sink) (s : Server) : result sid * Server :=
  match Start (Ok conn) true (new_session s) with
  | (Some e, _) => (Err e, s)
  | (None, sess) =>
      let i := length s.(sv_sessions) in
      (Ok i, with_sessions (s.(sv_sessions) ++ [SetControlHandler true sess]) s)
  end.

(** The two channels of [waitForRegistration], each of capacity one. *)
Record registration_wait := mkWait { wt_registration : option ExitRegistration; wt_err : option error }.

(** The control handler it installs. *)
Definition registration_frame (f : Frame) (w : registration_wait) : registration_wait :=
  if bool_decide (f.(fr_Type) = FrameRegister) then
    match DecodeJSON f with
    | (_, Some e) =>
        mkWait w.(wt_registration) (match w.(wt_err) with None => Some e | x => x end)
    | (r, None) =>
        mkWait (match w.(wt_registration) with None => Some r | x => x end) w.(wt_err)
    end
  else w.

Inductive wait_choice : Type := OnRegistration | OnDecodeError | OnTimeout | OnSessionEnd.

(** One alternative of the [select]; [None] when it is not ready. *)
Definition waitForRegistration (c : wait_choice) (w : registration_wait) (sess : Session)
  : option (result ExitRegistration) :=
  match c with
  | OnRegistration => match w.(wt_registration) with Some r => Some (Ok r) | None => None end
  | OnDecodeError => match w.(wt_err) with Some e => Some (Err e) | None => None end
  | OnTimeout => Some (Err (ENew "exit registration timed out"))
  | OnSessionEnd =>
      if sess.(ss_done)
      then Some (match sess.(ss_err) with Some e => Err e | None => Ok json_zero end) else None
  end.

(** The registration with its defaults. *)
Definition complete_registration (cfg : Node) (r : ExitRegistration) : result ExitRegistration :=
  let '(mkExitRegistration id name capacity features) := r in
  let id := if empty_string id then cfg.(nd_ExitID) else id in
  if empty_string id then Err (ENew "exit registration has no ID")
  else
    let capacity := if capacity <=? 0 then cfg.(nd_ConnectionLimit) else capacity in
    let name := if empty_string name then id else name in
    Ok (mkExitRegistration id name capacity features).

(** [old.session.Close()]. *)
Definition close_session (i : sid) (s : Server) : Server :=
  with_sessions (alter (fun sess => (Session_Close None sess).2) i s.(sv_sessions)) s.

(** [handleExit] from the registration until it waits for the session to end.
    The update of the exit table and [registry.Add] are two critical sections,
    taken as one step here. *)
Definition handleExit_register (now : Time) (r : ExitRegistration) (i : sid) (ord : order) (s : Server)
  : result string * Server :=
  match complete_registration s.(sv_config) r with
  | Err e => (Err e, close_session i s)
  | Ok r =>
      let entry := mkExitConn r.(er_ID) i r.(er_Name) in
      let s :=
        match s.(sv_exitConns) !! r.(er_ID) with
        | Some old => close_session old.(ec_session) s
        | None => s
        end in
      let s := with_exits (<[r.(er_ID) := entry]> s.(sv_exitConns)) s in
      let s := with_registry
        (Add now (mkExitInfo r.(er_ID) r.(er_Name) "exit" "" 10 0 r.(er_Capacity) r.(er_Features) 0)
           "healthy" s.(sv_registry)) s in
      (Ok r.(er_ID), broadcastCatalog ord s)
  end.

(** The control handler of a registered exit. *)
Definition exit_control (now : Time) (id : string) (f : Frame) (s : Server) : Server :=
  if negb (bool_decide (f.(fr_Type) = FrameHeartbeat)) then s
  else
    match DecodeJSON f with
    | (_, Some _) => s
    | (mkHeartbeat _ active capacity ts, None) =>
        with_registry (Registry_Heartbeat now (mkHeartbeat id active capacity ts) s.(sv_registry)) s
    end.

(** The rest of [handleExit], once [sess.Done()] is closed. *)
Definition handleExit_end (id : string) (i : sid) (ord : order) (s : Server) : Server :=
  let s :=
    match s.(sv_exitConns) !! id with
    | Some e =>
        if (e.(ec_session) =? i)%nat then with_exits (delete id s.(sv_exitConns)) s else s
    | None => s
    end in
  let s := with_registry (Remove id s.(sv_registry)) s in
  broadcastCatalog ord s.

(* ------------------------------------------------------------------ *)
(** ** Routing *)

Inductive route : Type :=
  | Reject (message : string)
  | DialDirect (host : string) (port : Z)
  | DialExit (i : sid) (request : OpenRequest).

(** [forwardOpen] up to the dial. *)
Definition forwardOpen (request : OpenRequest) (ord : order) (s : Server) : route :=
  match Select ord request.(or_ExitID) false s.(sv_registry) with
  | Err e => Reject (Error e)
  | Ok selected =>
      if bool_decide (selected.(ei_ID) = s.(sv_directID))
      then DialDirect request.(or_Destination) request.(or_Port)
      else
        match s.(sv_exitConns) !! selected.(ei_ID) with
        | None => Reject (Error ErrExitUnavailable)
        | Some exit => DialExit exit.(ec_session) request
        end
  end.

(** [exit.session.Dial(ctx, request)], up to the registration of its stream. *)
Definition dial_exit (i : sid) (request : OpenRequest) (s : Server)
  : option (result (ptr * OpenRequest)) * Server :=
  match s.(sv_sessions) !! i with
  | None => (None, s)
  | Some sess =>
      let '(r, sess) := open_register request sess in
      (Some r, with_sessions (<[i := sess]> s.(sv_sessions)) s)
  end.

(** [DialDestination] up to the dial itself: the address it dials. *)
Definition DialDestination (host : string) (port : Z) : result bytes :=
  if empty_string host || (port =? 0) then Err (ENew "destination and port are required")
  else Ok (JoinHostPort (bytes_of host) (portString port)).
