(* ===== verification/ServerProps.v ===== *)
(** * Properties of the server

    Only authenticated peers are served; the tables of clients and exits match
    the handlers that run, in every interleaving; how far the connection limit
    holds; what a request is routed to; and what a reconnecting exit does to
    its registry entry. *)
From S2P Require Import Prelude GoIO GoStrings GoTime Json Codec Protocol Registry RateLimiter Session.
From S2P Require Import Crypto Auth AuthProps GoNet Config Server.
From S2P Require SessionEnd.

#[local] Existing Instance SessionEnd.same_end_preorder.

(* ------------------------------------------------------------------ *)
(** ** Admission *)

(** C10: what [handleConnection] does with a connection, case by case.  If the
    rate limiter refuses the address, the connection is refused with its error
    and nothing is read from it or written to it.  Otherwise the handshake runs.
    If it fails, the connection is refused with its error and a failure is counted
    against the address.  If it succeeds, the peer's response was the HMAC of
    this connection's nonce under the verifier's key, the address's record is
    cleared, and the connection is served as a client or as an exit exactly when
    the server is below its connection limit and the authenticated role is that
    one; nothing but the limiter has changed when the handler is entered. *)
Theorem handleConnection_authenticated (now now' : Time) (nonce remote : bytes) (rw rw' : ReadWriter)
  (s s' : Server) (a : admission)
  (Hparams : Parameters_ok s.(sv_verifier).(ve_Params))
  (H : handleConnection now now' (Ok nonce) remote rw s = (a, rw', s')) :
  let key := string_of (remoteHost remote) in
  match Allowed now key s.(sv_limiter) with
  | (Some e, l) => a = Refuse e /\ rw' = rw /\ s' = with_limiter l s
  | (None, l) =>
      exists response err,
        ServerHandshake (Ok nonce) s.(sv_verifier) "" rw = (response, err, rw') /\
        match err with
        | Some e => a = Refuse e /\ s' = with_limiter (Fail_ now' key l) s
        | None =>
            s' = with_limiter (Success key l) s /\
            response.(as_Response) =
              hmac_sha256 s.(sv_verifier).(ve_Hash) (bytes_of "lnproxy-auth-v1" ++ nonce) /\
            (a = ServeClient <-> response.(as_Role) = "client"%string /\
               connectionCount s < s.(sv_config).(nd_ConnectionLimit)) /\
            (a = ServeExit <-> response.(as_Role) = "exit"%string /\
               connectionCount s < s.(sv_config).(nd_ConnectionLimit)) /\
            (s.(sv_config).(nd_ConnectionLimit) <= connectionCount s ->
               a = Refuse (ENew "connection limit reached"))
        end
  end.
Proof.
  unfold handleConnection in H. cbn zeta. destruct (Allowed _ _ _) as [[e|] l] eqn:El.
  { by injection H as <- <- <-. }
  destruct (ServerHandshake (Ok nonce) _ "" rw) as [[response err] rw1] eqn:Eh.
  cbn [sv_verifier with_limiter] in Eh.
  destruct (settle _ _ response err _) as [a1 s1] eqn:Es. injection H as <- <- <-.
  exists response, err. split; [done|]. unfold settle in Es.
  destruct err as [e|]; [by injection Es as <- <-|].
  destruct (ServerHandshake_sound (sv_verifier s) nonce "" rw rw1 response Hparams
    (or_intror Eh)) as (_ & _ & Hr & _).
  cbn [sv_config with_limiter] in Es. unfold connectionCount in *. cbn [sv_clientConns sv_exitConns with_limiter] in Es.
  change Auth.RoleClient with "client"%string in Es. change Auth.RoleExit with "exit"%string in Es.
  match type of Es with context [Z.leb ?x ?y] => destruct (Z.leb_spec x y) as [Hl|Hl] end.
  { injection Es as <- <-. split_and!; try done; split; [done|intros []; lia|done|intros []; lia]. }
  case_bool_decide as E1; [|case_bool_decide as E2]; injection Es as <- <-;
    (split_and!; [done|exact Hr| | |lia]); split; try done; intros [Hrole _]; congruence.
Qed.

Definition demo_server : Server :=
  NewServer 1 (FillPaths demo_os demo_node) demo_client.

Definition demo_refused : admission * ReadWriter * Server :=
  handleConnection 5 6 (Ok (repeat x4e 32)) (bytes_of "192.0.2.7:5000") (mkRW (mkReader [] EOF) demo_rw.(rw_out))
    demo_server.

(** An accepted handshake, and one whose peer hangs up: the failure is counted. *)
Lemma handleConnection_authenticated_witness :
  (exists response, response.(as_Response) =
    hmac_sha256 demo_client.(ve_Hash) (bytes_of "lnproxy-auth-v1" ++ repeat x4e 32)) /\
  exists l, demo_refused.2 = with_limiter (Fail_ 6 "192.0.2.7" l) demo_server.
Proof.
  split.
  - pose proof (handleConnection_authenticated 5 6 (repeat x4e 32) (bytes_of "192.0.2.7:5000") demo_rw
      (handleConnection 5 6 (Ok (repeat x4e 32)) (bytes_of "192.0.2.7:5000") demo_rw demo_server).1.2
      demo_server
      (handleConnection 5 6 (Ok (repeat x4e 32)) (bytes_of "192.0.2.7:5000") demo_rw demo_server).2
      ServeClient) as H.
    destruct (Allowed 5 (string_of (remoteHost (bytes_of "192.0.2.7:5000"))) demo_server.(sv_limiter))
      as [[e|] l] eqn:El; [vm_compute in El; discriminate El|].
    destruct H as (response & err & _ & Hc).
    + repeat split; vm_compute; congruence.
    + vm_compute. reflexivity.
    + destruct err as [e|]; [destruct Hc as [Hc _]; discriminate Hc|]. exists response.
      destruct Hc as (_ & Hr & _). exact Hr.
  - pose proof (handleConnection_authenticated 5 6 (repeat x4e 32) (bytes_of "192.0.2.7:5000")
      (mkRW (mkReader [] EOF) demo_rw.(rw_out)) demo_refused.1.2 demo_server demo_refused.2
      demo_refused.1.1) as H.
    destruct (Allowed 5 (string_of (remoteHost (bytes_of "192.0.2.7:5000"))) demo_server.(sv_limiter))
      as [[e|] l] eqn:El; [vm_compute in El; discriminate El|].
    destruct H as (response & err & Hh & Hc).
    + repeat split; vm_compute; congruence.
    + unfold demo_refused. destruct (handleConnection _ _ _ _ _ _) as [[? ?] ?]. reflexivity.
    + destruct err as [e|]; [|apply (f_equal (fun x => x.1.2)) in Hh; vm_compute in Hh; discriminate Hh].
      destruct Hc as [_ Hs]. eexists. rewrite Hs. do 2 f_equal.
Defined.

(* ------------------------------------------------------------------ *)
(** ** Handlers and their interleavings *)

(** Where the handler of a connection is. *)
Inductive handler : Type :=
  | HPending (a : admission)                      (* past the limit check *)
  | HClient (i : sid)                             (* serving a client *)
  | HExitWait (i : sid) (w : registration_wait)   (* waiting for a registration *)
  | HExit (i : sid) (id : string).                (* serving a registered exit *)

Record SWorld := mkSWorld { sw_server : Server; sw_handlers : list handler }.

Definition serves (a : admission) : bool := match a with Refuse _ => false | _ => true end.

Inductive server_step (w : SWorld) : SWorld -> Prop :=
  | sv_allowed now key :
      server_step w (mkSWorld
        (with_limiter (Allowed now key w.(sw_server).(sv_limiter)).2 w.(sw_server)) w.(sw_handlers))
  | sv_settle now key response err a s' :
      settle now key response err w.(sw_server) = (a, s') ->
      server_step w (mkSWorld s'
        (if serves a then HPending a :: w.(sw_handlers) else w.(sw_handlers)))
  | sv_client_begin l1 l2 conn ord i s' :
      w.(sw_handlers) = l1 ++ HPending ServeClient :: l2 ->
      handleClient_begin conn ord w.(sw_server) = (Ok i, s') ->
      server_step w (mkSWorld s' (l1 ++ HClient i :: l2))
  | sv_client_end l1 l2 i sess :
      w.(sw_handlers) = l1 ++ HClient i :: l2 ->
      w.(sw_server).(sv_sessions) !! i = Some sess -> sess.(ss_done) = true ->
      server_step w (mkSWorld (handleClient_end i w.(sw_server)) (l1 ++ l2))
  | sv_exit_begin l1 l2 conn i s' :
      w.(sw_handlers) = l1 ++ HPending ServeExit :: l2 ->
      handleExit_begin conn w.(sw_server) = (Ok i, s') ->
      server_step w (mkSWorld s' (l1 ++ HExitWait i (mkWait None None) :: l2))
  | sv_exit_frame l1 l2 i rw f :
      w.(sw_handlers) = l1 ++ HExitWait i rw :: l2 ->
      server_step w (mkSWorld w.(sw_server) (l1 ++ HExitWait i (registration_frame f rw) :: l2))
  | sv_exit_register l1 l2 i rw c sess r now ord id s' :
      w.(sw_handlers) = l1 ++ HExitWait i rw :: l2 ->
      w.(sw_server).(sv_sessions) !! i = Some sess ->
      waitForRegistration c rw sess = Some (Ok r) ->
      handleExit_register now r i ord w.(sw_server) = (Ok id, s') ->
      server_step w (mkSWorld s' (l1 ++ HExit i id :: l2))
  | sv_exit_no_id l1 l2 i rw c sess r now ord e s' :
      w.(sw_handlers) = l1 ++ HExitWait i rw :: l2 ->
      w.(sw_server).(sv_sessions) !! i = Some sess ->
      waitForRegistration c rw sess = Some (Ok r) ->
      handleExit_register now r i ord w.(sw_server) = (Err e, s') ->
      server_step w (mkSWorld s' (l1 ++ l2))
  | sv_exit_unregistered l1 l2 i rw c sess e :
      w.(sw_handlers) = l1 ++ HExitWait i rw :: l2 ->
      w.(sw_server).(sv_sessions) !! i = Some sess ->
      waitForRegistration c rw sess = Some (Err e) ->
      server_step w (mkSWorld (close_session i w.(sw_server)) (l1 ++ l2))
  | sv_exit_control l1 l2 i id now f :
      w.(sw_handlers) = l1 ++ HExit i id :: l2 ->
      server_step w (mkSWorld (exit_control now id f w.(sw_server)) w.(sw_handlers))
  | sv_exit_end l1 l2 i id ord sess :
      w.(sw_handlers) = l1 ++ HExit i id :: l2 ->
      w.(sw_server).(sv_sessions) !! i = Some sess -> sess.(ss_done) = true ->
      server_step w (mkSWorld (handleExit_end id i ord w.(sw_server)) (l1 ++ l2))
  | sv_tick now ord ord' ord'' :
      visits ord' w.(sw_server).(sv_registry) ->
      server_step w (mkSWorld (catalog_tick now ord ord' ord'' w.(sw_server)) w.(sw_handlers))
  | sv_session i old sess :
      (* whatever the session's own goroutines do ([SessionEnd.step_moves]) *)
      w.(sw_server).(sv_sessions) !! i = Some old -> SessionEnd.session_moves old sess ->
      server_step w (mkSWorld
        (with_sessions (<[i := sess]> w.(sw_server).(sv_sessions)) w.(sw_server)) w.(sw_handlers)).

Inductive server_run (w0 : SWorld) : SWorld -> Prop :=
  | srun_nil : server_run w0 w0
  | srun_step w w' : server_run w0 w -> server_step w w' -> server_run w0 w'.

Definition server_init (now : Time) (cfg : Node) (v : Verifier) : SWorld :=
  mkSWorld (NewServer now cfg v) [].

(* ------------------------------------------------------------------ *)
(** ** The tables match the handlers *)

Definition client_sid (h : handler) : option sid := match h with HClient i => Some i | _ => None end.
Definition handler_sid (h : handler) : option sid :=
  match h with HPending _ => None | HClient i | HExitWait i _ | HExit i _ => Some i end.

Record tables_ok (w : SWorld) : Prop := mk_tables_ok {
  tb_sids : NoDup (omap handler_sid w.(sw_handlers));
  tb_fresh : Forall (fun i => i < length w.(sw_server).(sv_sessions))%nat
    (omap handler_sid w.(sw_handlers));
  tb_clients : forall i, i ∈ w.(sw_server).(sv_clientConns) <-> HClient i ∈ w.(sw_handlers);
  tb_exits : forall id e, w.(sw_server).(sv_exitConns) !! id = Some e ->
    e.(ec_id) = id /\ HExit e.(ec_session) id ∈ w.(sw_handlers);
  tb_registry : forall id e, w.(sw_server).(sv_registry).(rg_exits) !! id = Some e ->
    e.(ee_info).(ei_ID) = id /\
    (e.(ee_persistent) = true \/ exists i, HExit i id ∈ w.(sw_handlers))
}.

Lemma omap_mid {A B} (f : A -> option B) l1 x l2 :
  omap f (l1 ++ x :: l2) ≡ₚ (match f x with Some y => [y] | None => [] end) ++ omap f (l1 ++ l2).
Proof.
  rewrite !omap_app. cbn. destruct (f x) as [y|]; [|done]. by rewrite <-Permutation_middle.
Qed.

Lemma elem_mid {A} (x y : A) l1 l2 : x ∈ l1 ++ y :: l2 <-> x = y \/ x ∈ l1 ++ l2.
Proof. rewrite !elem_of_app, elem_of_cons. tauto. Qed.

(** Sessions are only overwritten in place or appended. *)
Lemma broadcast_fields ord s :
  let s' := broadcastCatalog ord s in
  length s'.(sv_sessions) = length s.(sv_sessions) /\ s'.(sv_clientConns) = s.(sv_clientConns) /\
  s'.(sv_exitConns) = s.(sv_exitConns) /\ s'.(sv_registry) = s.(sv_registry) /\
  s'.(sv_config) = s.(sv_config).
Proof.
  cbn. split_and!; try done. induction (elements (sv_clientConns s)) as [|i l IH]; [done|].
  cbn. by rewrite length_alter.
Qed.

(** Replacing one handler by another. *)
Lemma replace_handler w l1 h l2 h' s' :
  tables_ok w -> w.(sw_handlers) = l1 ++ h :: l2 ->
  (forall i, h <> HClient i) -> (forall i id, h <> HExit i id) ->
  (length w.(sw_server).(sv_sessions) <= length s'.(sv_sessions))%nat ->
  match handler_sid h' with
  | None => True
  | Some i => (i < length s'.(sv_sessions))%nat /\
      (handler_sid h = Some i \/
       handler_sid h = None /\ (length w.(sw_server).(sv_sessions) <= i)%nat)
  end ->
  (forall i, i ∈ s'.(sv_clientConns) <-> h' = HClient i \/ i ∈ w.(sw_server).(sv_clientConns)) ->
  (forall id e, s'.(sv_exitConns) !! id = Some e -> e.(ec_id) = id /\
     (h' = HExit e.(ec_session) id \/ w.(sw_server).(sv_exitConns) !! id = Some e)) ->
  (forall id e, s'.(sv_registry).(rg_exits) !! id = Some e -> e.(ee_info).(ei_ID) = id /\
     ((exists i, h' = HExit i id) \/ w.(sw_server).(sv_registry).(rg_exits) !! id = Some e)) ->
  tables_ok (mkSWorld s' (l1 ++ h' :: l2)).
Proof.
  intros [T1 T2 T3 T4 T5] Hh Hnc Hne Hlen Hsid Hc He Hr. rewrite Hh in *.
  assert (forall i, HClient i ∈ l1 ++ h :: l2 <-> HClient i ∈ l1 ++ l2) as Ec.
  { intros i. rewrite elem_mid. split; [intros [E|]; [by destruct (Hnc i)|done]|by right]. }
  assert (forall i id, HExit i id ∈ l1 ++ h :: l2 <-> HExit i id ∈ l1 ++ l2) as Ee.
  { intros i id. rewrite elem_mid. split; [intros [E|]; [by destruct (Hne i id)|done]|by right]. }
  rewrite omap_mid in T1, T2.
  assert (NoDup (omap handler_sid (l1 ++ l2)) /\
    Forall (fun i => i < length (sv_sessions (sw_server w)))%nat (omap handler_sid (l1 ++ l2)) /\
    forall i, handler_sid h = Some i -> i ∉ omap handler_sid (l1 ++ l2)) as (N1 & N2 & N3).
  { destruct (handler_sid h) as [i|]; cbn in *; [|done].
    apply NoDup_cons in T1 as [? ?]. apply Forall_cons in T2 as [_ ?].
    split_and!; try done. by intros ? [= <-]. }
  split; cbn [sw_server sw_handlers].
  - rewrite omap_mid. destruct (handler_sid h') as [i|]; [|done]. cbn. apply NoDup_cons.
    split; [|done]. destruct Hsid as [_ [E|[_ E]]]; [by apply N3|].
    intros Hin. rewrite Forall_forall in N2. specialize (N2 i Hin). cbn in N2. lia.
  - rewrite omap_mid. assert (Forall (fun i => i < length (sv_sessions s'))%nat
      (omap handler_sid (l1 ++ l2))) as N2'.
    { eapply Forall_impl; [exact N2|]. cbn. intros i. lia. }
    destruct (handler_sid h') as [i|]; [|done]. cbn. apply Forall_cons. split; [by destruct Hsid|done].
  - intros i. rewrite Hc, T3, Ec, elem_mid. split; (intros [E|]; [by left|by right]).
  - intros id e Hl. destruct (He id e Hl) as [Hid [E|Hl']]; (split; [done|]); rewrite elem_mid.
    + by left.
    + destruct (T4 _ _ Hl') as [_ Hx]. right. by apply Ee.
  - intros id e Hl. destruct (Hr id e Hl) as [Hid [[i E]|Hl']]; (split; [done|]).
    + right. exists i. rewrite elem_mid. by left.
    + destruct (T5 _ _ Hl') as [_ [Hp|[i Hx]]]; [by left|]. right. exists i. rewrite elem_mid.
      right. by apply Ee.
Qed.

(** A handler that ends. *)
Lemma remove_handler w l1 h l2 s' :
  tables_ok w -> w.(sw_handlers) = l1 ++ h :: l2 ->
  (length w.(sw_server).(sv_sessions) <= length s'.(sv_sessions))%nat ->
  (forall i, i ∈ s'.(sv_clientConns) <-> i ∈ w.(sw_server).(sv_clientConns) /\ h <> HClient i) ->
  (forall id e, s'.(sv_exitConns) !! id = Some e ->
     w.(sw_server).(sv_exitConns) !! id = Some e /\ h <> HExit e.(ec_session) id) ->
  (forall id e, s'.(sv_registry).(rg_exits) !! id = Some e ->
     w.(sw_server).(sv_registry).(rg_exits) !! id = Some e /\ forall i, h <> HExit i id) ->
  tables_ok (mkSWorld s' (l1 ++ l2)).
Proof.
  intros [T1 T2 T3 T4 T5] Hh Hlen Hc He Hr. rewrite Hh in *. rewrite omap_mid in T1, T2.
  apply NoDup_app in T1 as (_ & T1' & T1). apply Forall_app in T2 as [_ T2].
  split; cbn [sw_server sw_handlers].
  - done.
  - eapply Forall_impl; [exact T2|]. cbn. lia.
  - intros i. rewrite Hc, T3, elem_mid. split.
    + intros [[E|Hin] Hne]; [by destruct Hne|done].
    + intros Hin. split; [by right|]. intros ->. cbn in T1'.
      apply (T1' i); [by apply list_elem_of_singleton|].
      apply list_elem_of_omap. by exists (HClient i).
  - intros id e Hl. destruct (He id e Hl) as [Hl' Hne]. destruct (T4 _ _ Hl') as [? Hin].
    split; [done|]. apply elem_mid in Hin as [E|]; [by destruct Hne|done].
  - intros id e Hl. destruct (Hr id e Hl) as [Hl' Hne]. destruct (T5 _ _ Hl') as [? [?|[i Hin]]];
      (split; [done|]); [by left|]. right. exists i.
    apply elem_mid in Hin as [E|]; [by destruct (Hne i)|done].
Qed.

(** A step that leaves the handlers (but for pending ones) and the tables. *)
Lemma same_tables w s' pending :
  tables_ok w ->
  (length w.(sw_server).(sv_sessions) <= length s'.(sv_sessions))%nat ->
  s'.(sv_clientConns) = w.(sw_server).(sv_clientConns) ->
  s'.(sv_exitConns) = w.(sw_server).(sv_exitConns) ->
  (forall id e', s'.(sv_registry).(rg_exits) !! id = Some e' -> exists e,
     w.(sw_server).(sv_registry).(rg_exits) !! id = Some e /\
     e'.(ee_info).(ei_ID) = e.(ee_info).(ei_ID) /\ e'.(ee_persistent) = e.(ee_persistent)) ->
  Forall (fun h => exists a, h = HPending a) pending ->
  tables_ok (mkSWorld s' (pending ++ w.(sw_handlers))).
Proof.
  intros [T1 T2 T3 T4 T5] Hlen Hc He Hr Hp.
  assert (omap handler_sid (pending ++ w.(sw_handlers)) = omap handler_sid w.(sw_handlers)) as Eo.
  { rewrite omap_app. induction Hp as [|h l [a ->] _ IH]; [done|]. exact IH. }
  assert (forall h, (forall a, h <> HPending a) ->
    h ∈ pending ++ w.(sw_handlers) <-> h ∈ w.(sw_handlers)) as Eh.
  { intros h Hh. rewrite elem_of_app. split; [intros [Hin|]|by right]; [|done].
    rewrite Forall_forall in Hp. destruct (Hp h Hin) as [a ->]. by destruct (Hh a). }
  split; cbn [sw_server sw_handlers]; rewrite ?Eo.
  - done.
  - eapply Forall_impl; [exact T2|]. cbn. lia.
  - intros i. by rewrite Hc, T3, Eh.
  - intros id e. rewrite He, Eh by done. apply T4.
  - intros id e' Hl. destruct (Hr _ _ Hl) as (e & Hl' & -> & ->).
    destruct (T5 _ _ Hl') as [? [?|[i Hin]]]; (split; [done|]); [by left|].
    right. exists i. by apply Eh.
Qed.

Lemma NewServer_tables now cfg v : tables_ok (server_init now cfg v).
Proof.
  unfold server_init, NewServer.
  destruct (is_role cfg RoleServer || is_role cfg RoleServerExit); split; cbn; try done;
    try apply NoDup_nil_2; try apply Forall_nil_2.
  - intros i. rewrite elem_of_empty. split; [done|]. by intros ?%elem_of_nil.
  - intros id e Hl. apply lookup_insert_Some in Hl as [[<- <-]|[_ Hl]]; [cbn; auto|done].
  - intros i. rewrite elem_of_empty. split; [done|]. by intros ?%elem_of_nil.
Qed.

Lemma settle_fields now key response err s a s' :
  settle now key response err s = (a, s') ->
  s'.(sv_sessions) = s.(sv_sessions) /\ s'.(sv_clientConns) = s.(sv_clientConns) /\
  s'.(sv_exitConns) = s.(sv_exitConns) /\ s'.(sv_registry) = s.(sv_registry) /\
  s'.(sv_config) = s.(sv_config) /\
  (serves a = true -> connectionCount s < s.(sv_config).(nd_ConnectionLimit)).
Proof.
  unfold settle. destruct err; [by intros [= <- <-]|].
  match goal with |- context [Z.leb ?x ?y] => destruct (Z.leb_spec x y) as [Hl|Hl] end;
    [by intros [= <- <-]|].
  repeat case_bool_decide; intros [= <- <-]; done.
Qed.

Lemma Start_new conn h s : Start (Ok conn) h (new_session s) =
  (None, with_handler h (with_writer (Some conn) (new_session s))).
Proof. done. Qed.

Lemma complete_registration_id cfg r r' :
  complete_registration cfg r = Ok r' ->
  r'.(er_ID) = (if empty_string r.(er_ID) then cfg.(nd_ExitID) else r.(er_ID)) /\
  r'.(er_ID) <> ""%string.
Proof.
  destruct r as [id name cap feats]. unfold complete_registration.
  destruct (empty_string (if empty_string id then nd_ExitID cfg else id)) eqn:E; [done|].
  intros [= <-]. cbn. split; [done|]. by apply bool_decide_eq_false in E.
Qed.

Lemma register_fields now r i ord s id s' :
  handleExit_register now r i ord s = (Ok id, s') ->
  length s'.(sv_sessions) = length s.(sv_sessions) /\
  s'.(sv_clientConns) = s.(sv_clientConns) /\ s'.(sv_config) = s.(sv_config) /\
  (exists name, s'.(sv_exitConns) = <[id := mkExitConn id i name]> s.(sv_exitConns)) /\
  (exists e, s'.(sv_registry).(rg_exits) = <[id := e]> s.(sv_registry).(rg_exits) /\
     e.(ee_info).(ei_ID) = id) /\ id <> ""%string.
Proof.
  unfold handleExit_register. destruct (complete_registration _ r) as [r'|e] eqn:Er; [|done].
  apply complete_registration_id in Er as [_ Hne]. intros [= <- <-].
  match goal with |- context [broadcastCatalog ord ?s1] =>
    destruct (broadcast_fields ord s1) as (-> & -> & -> & -> & ->) end.
  destruct (sv_exitConns s !! er_ID r') as [old|]; cbn; rewrite ?length_alter;
    (split_and!; try done; eexists; done).
Qed.

Lemma end_fields id i ord s :
  let s' := handleExit_end id i ord s in
  length s'.(sv_sessions) = length s.(sv_sessions) /\
  s'.(sv_clientConns) = s.(sv_clientConns) /\ s'.(sv_config) = s.(sv_config) /\
  s'.(sv_registry).(rg_exits) = delete id s.(sv_registry).(rg_exits) /\
  s'.(sv_exitConns) =
    match s.(sv_exitConns) !! id with
    | Some e => if (e.(ec_session) =? i)%nat then delete id s.(sv_exitConns) else s.(sv_exitConns)
    | None => s.(sv_exitConns)
    end.
Proof.
  unfold handleExit_end. match goal with |- context [broadcastCatalog ord ?s1] =>
    destruct (broadcast_fields ord s1) as (-> & -> & -> & -> & ->) end.
  destruct (sv_exitConns s !! id) as [e|]; [|done]. by destruct (_ =? _)%nat.
Qed.

Lemma tick_fields now ord ord' ord'' s :
  visits ord' s.(sv_registry) ->
  let s' := catalog_tick now ord ord' ord'' s in
  length s'.(sv_sessions) = length s.(sv_sessions) /\
  s'.(sv_clientConns) = s.(sv_clientConns) /\ s'.(sv_exitConns) = s.(sv_exitConns) /\
  s'.(sv_config) = s.(sv_config) /\
  forall id e, s'.(sv_registry).(rg_exits) !! id = Some e -> s.(sv_registry).(rg_exits) !! id = Some e.
Proof.
  intros Hv. assert (forall id e, (Expire now ord' s.(sv_registry)).(rg_exits) !! id = Some e ->
    s.(sv_registry).(rg_exits) !! id = Some e) as He.
  { intros id e. unfold Expire. cbn. clear Hv. generalize (rg_exits (sv_registry s)).
    induction ord' as [|kv l IH]; intros m; [done|]. cbn. intros H. apply IH in H.
    unfold expire_step in H. destruct (ee_persistent kv.2); [done|]. destruct (_ <? _); [|done].
    by apply lookup_delete_Some in H as [_ H]. }
  unfold catalog_tick. destruct (negb _); [|done].
  match goal with |- context [broadcastCatalog ord'' ?s1] =>
    destruct (broadcast_fields ord'' s1) as (-> & -> & -> & -> & ->) end. done.
Qed.

Lemma control_fields now id f s :
  let s' := exit_control now id f s in
  s'.(sv_sessions) = s.(sv_sessions) /\ s'.(sv_clientConns) = s.(sv_clientConns) /\
  s'.(sv_exitConns) = s.(sv_exitConns) /\ s'.(sv_config) = s.(sv_config) /\
  forall k e', s'.(sv_registry).(rg_exits) !! k = Some e' -> exists e,
    s.(sv_registry).(rg_exits) !! k = Some e /\
    e'.(ee_info).(ei_ID) = e.(ee_info).(ei_ID) /\ e'.(ee_persistent) = e.(ee_persistent).
Proof.
  unfold exit_control. assert (forall k e', rg_exits (sv_registry s) !! k = Some e' -> exists e,
    rg_exits (sv_registry s) !! k = Some e /\ ei_ID (ee_info e') = ei_ID (ee_info e) /\
    ee_persistent e' = ee_persistent e) as Hid by eauto.
  destruct (negb _); [done|]. destruct (DecodeJSON f) as [[x active capacity ts] [e|]]; [done|].
  unfold Registry_Heartbeat. cbn [hb_ExitID].
  destruct (rg_exits (sv_registry s) !! id) as [e|] eqn:El; [|done]. cbn. split_and!; try done.
  intros k e' Hl. apply lookup_insert_Some in Hl as [[<- <-]|[_ Hl]]; [|by apply Hid].
  by exists e.
Qed.

Lemma step_tables w w' : tables_ok w -> server_step w w' -> tables_ok w'.
Proof.
  intros Hok Hstep. pose proof Hok as [T1 T2 T3 T4 T5].
  assert (forall s', (length w.(sw_server).(sv_sessions) <= length s'.(sv_sessions))%nat ->
    s'.(sv_clientConns) = w.(sw_server).(sv_clientConns) ->
    s'.(sv_exitConns) = w.(sw_server).(sv_exitConns) ->
    s'.(sv_registry) = w.(sw_server).(sv_registry) ->
    forall pending, Forall (fun h => exists a, h = HPending a) pending ->
    tables_ok (mkSWorld s' (pending ++ w.(sw_handlers)))) as Hsame.
  { intros s' H1 H2 H3 H4 pending Hp. apply same_tables; try done. rewrite H4. eauto. }
  destruct Hstep as [now key|now key response err a s' E|l1 l2 conn ord i s' Eh E
    |l1 l2 i sess Eh Es Ed|l1 l2 conn i s' Eh E|l1 l2 i rw f Eh|l1 l2 i rw c sess r now ord id s' Eh Es Ew E
    |l1 l2 i rw c sess r now ord e s' Eh Es Ew E|l1 l2 i rw c sess e Eh Es Ew|l1 l2 i id now f Eh
    |l1 l2 i id ord sess Eh Es Ed|now ord ord' ord'' Hv|i old sess Eo Em].
  - apply (fun s' a b c d => Hsame s' a b c d []); done.
  - destruct (settle_fields _ _ _ _ _ _ _ E) as (E1 & E2 & E3 & E4 & _ & _).
    assert (length (sv_sessions (sw_server w)) <= length (sv_sessions s'))%nat as Hl by (by rewrite E1).
    destruct (serves a).
    + apply (Hsame _ Hl E2 E3 E4 [HPending a]). apply Forall_singleton. by eexists.
    + refine (Hsame _ Hl E2 E3 E4 [] _). apply Forall_nil_2.
  - unfold handleClient_begin in E. rewrite Start_new in E. injection E as <- <-.
    eapply replace_handler; try done; cbn; rewrite ?length_alter, ?length_app; cbn.
    + lia.
    + split; [lia|]. by right.
    + intros j. rewrite elem_of_union, elem_of_singleton. split; (intros [H|H]; [left; congruence|by right]).
    + intros id e Hl. destruct (T4 _ _ Hl). auto.
    + intros id e Hl. destruct (T5 _ _ Hl). auto.
  - eapply remove_handler; try done; cbn.
    intros j. rewrite elem_of_difference, not_elem_of_singleton.
    split; intros [? Hne]; (split; [done|]); congruence.
  - unfold handleExit_begin in E. rewrite Start_new in E. injection E as <- <-.
    eapply replace_handler; try done; cbn; rewrite ?length_app; cbn.
    + lia.
    + split; [lia|]. by right.
    + intros j. split; [by right|by intros [|]].
    + intros id e Hl. destruct (T4 _ _ Hl). auto.
    + intros id e Hl. destruct (T5 _ _ Hl). auto.
  - eapply replace_handler; try done; cbn.
    + split; [|by left]. rewrite Eh, omap_mid in T2. cbn in T2. by apply Forall_cons in T2 as [? _].
    + intros j. split; [by right|by intros [|]].
    + intros id e Hl. destruct (T4 _ _ Hl). auto.
    + intros id e Hl. destruct (T5 _ _ Hl). auto.
  - destruct (register_fields _ _ _ _ _ _ _ E) as (E1 & E2 & _ & [name E3] & (e & E4 & E5) & _).
    eapply replace_handler; try done; cbn; rewrite ?E1, ?E2, ?E3, ?E4.
    + done.
    + split; [|by left]. rewrite Eh, omap_mid in T2. cbn in T2. by apply Forall_cons in T2 as [? _].
    + intros j. split; [by right|by intros [|]].
    + intros k x Hl. apply lookup_insert_Some in Hl as [[<- <-]|[_ Hl]]; [by auto|].
      destruct (T4 _ _ Hl). auto.
    + intros k x Hl. apply lookup_insert_Some in Hl as [[<- <-]|[_ Hl]]; [by eauto|].
      destruct (T5 _ _ Hl). auto.
  - unfold handleExit_register in E. destruct (complete_registration _ r) as [r'|e']; [done|].
    injection E as _ <-. eapply remove_handler; try done; cbn; rewrite ?length_alter; try done.
    intros j. by split; [|intros [? _]].
  - eapply remove_handler; try done; cbn; rewrite ?length_alter; try done.
    intros j. by split; [|intros [? _]].
  - destruct (control_fields now id f (sw_server w)) as (E1 & E2 & E3 & _ & E4).
    apply (fun s' => same_tables w s' [] Hok); try done. by rewrite E1.
  - destruct (end_fields id i ord (sw_server w)) as (E1 & E2 & _ & E4 & E3).
    eapply remove_handler; try done; rewrite ?E1, ?E2, ?E3, ?E4.
    + done.
    + intros j. by split; [|intros [? _]].
    + intros k x. destruct (sv_exitConns (sw_server w) !! id) as [y|] eqn:Ey.
      * destruct (Nat.eqb_spec (ec_session y) i) as [Hi|Hi].
        -- intros Hl. apply lookup_delete_Some in Hl as [Hne Hl]. split; [done|]. congruence.
        -- intros Hl. split; [done|]. intros [= Hi' Hk]. subst k. congruence.
      * intros Hl. split; [done|]. congruence.
    + intros k x Hl. apply lookup_delete_Some in Hl as [Hne Hl]. split; [done|]. congruence.
  - destruct (tick_fields now ord ord' ord'' (sw_server w) Hv) as (E1 & E2 & E3 & _ & E4).
    apply (fun s' => same_tables w s' [] Hok); try done; [by rewrite E1|by eauto].
  - apply (fun s' a b c d => Hsame s' a b c d []); try done. cbn. by rewrite length_insert.
Qed.

Lemma server_run_tables now cfg v w : server_run (server_init now cfg v) w -> tables_ok w.
Proof. induction 1; [apply NewServer_tables|]. by eapply step_tables. Qed.

(* ------------------------------------------------------------------ *)
(** ** An exit that runs is in the tables *)

(** The flags of every session agree, and a session that is done stays done. *)
Definition heap_ok (h : list Session) : Prop := Forall (fun sess => sess.(ss_close) = sess.(ss_done)) h.
Definition done_at (i : sid) (h : list Session) : Prop :=
  exists sess, h !! i = Some sess /\ sess.(ss_done) = true.
Definition heap_moves (h h' : list Session) : Prop :=
  heap_ok h -> heap_ok h' /\ forall i, done_at i h -> done_at i h'.

#[export] Instance heap_moves_preorder : PreOrder heap_moves.
Proof.
  split; [by split|]. intros a b c H1 H2 Ha. destruct (H1 Ha) as [Hb K1]. destruct (H2 Hb) as [Hc K2].
  split; [done|]. intros i Hi. by apply K2, K1.
Qed.




















(** A server that has admitted a client and begun to serve it. *)
Definition demo_admitted : SWorld :=
  mkSWorld (settle 6 "192.0.2.7" demo_answer None demo_server).2 [HPending ServeClient].
Definition demo_serving : SWorld :=
  mkSWorld (handleClient_begin (mkSink [] None EOF) [] demo_admitted.(sw_server)).2 [HClient 0].

Lemma demo_server_step1 :
  server_step (server_init 1 (FillPaths demo_os demo_node) demo_client) demo_admitted.
Proof.
  apply (sv_settle (server_init 1 (FillPaths demo_os demo_node) demo_client) 6 "192.0.2.7"
    demo_answer None ServeClient). vm_compute. reflexivity.
Defined.

Lemma demo_server_step2 : server_step demo_admitted demo_serving.
Proof.
  apply (sv_client_begin demo_admitted [] [] (mkSink [] None EOF) [] 0); [reflexivity|].
  vm_compute. reflexivity.
Defined.





(* ------------------------------------------------------------------ *)
(** ** The connection limit *)

(** Admitted, but not in a table yet. *)
Definition waiting (h : handler) : bool :=
  match h with HPending _ | HExitWait _ _ => true | _ => false end.
Definition waiting_count (l : list handler) : nat := length (List.filter waiting l).

(** Runs in which at most [k] admitted connections wait at any time. *)
Inductive server_run_within (k : nat) (w0 : SWorld) : SWorld -> Prop :=
  | swithin_nil : server_run_within k w0 w0
  | swithin_step w w' :
      server_run_within k w0 w -> server_step w w' -> (waiting_count w'.(sw_handlers) <= k)%nat ->
      server_run_within k w0 w'.

Lemma run_within_run k w0 w : server_run_within k w0 w -> server_run w0 w.
Proof. induction 1; [constructor|]. by eapply srun_step. Qed.

Lemma waiting_mid l1 h l2 : waiting_count (l1 ++ h :: l2) =
  ((if waiting h then 1 else 0) + waiting_count (l1 ++ l2))%nat.
Proof.
  unfold waiting_count. rewrite !List.filter_app, !length_app. cbn. destruct (waiting h); cbn; lia.
Qed.

Lemma size_insert_le (m : gmap string exitConn) k x : (size (<[k := x]> m) <= S (size m))%nat.
Proof. rewrite map_size_insert. destruct (m !! k); cbn; lia. Qed.

Lemma size_difference_le (c : gset sid) i : (size (c ∖ {[i]}) <= size c)%nat.
Proof. apply subseteq_size. set_solver. Qed.

Lemma size_delete_le (m : gmap string exitConn) k : (size (delete k m) <= size m)%nat.
Proof. rewrite map_size_delete. destruct (m !! k); cbn; lia. Qed.

(** A step adds a connection to a table only by taking it off the waiting ones,
    and lets one wait only below the limit. *)
Lemma step_count w w' : tables_ok w -> server_step w w' ->
  w'.(sw_server).(sv_config) = w.(sw_server).(sv_config) /\
  (connectionCount w'.(sw_server) + Z.of_nat (waiting_count w'.(sw_handlers)) <=
   connectionCount w.(sw_server) + Z.of_nat (waiting_count w.(sw_handlers)) \/
   connectionCount w'.(sw_server) < w.(sw_server).(sv_config).(nd_ConnectionLimit)).
Proof.
  intros [T1 T2 T3 T4 T5] Hstep.
  destruct Hstep as [now key|now key response err a s' E|l1 l2 conn ord i s' Eh E
    |l1 l2 i sess Eh Es Ed|l1 l2 conn i s' Eh E|l1 l2 i rw f Eh|l1 l2 i rw c sess r now ord id s' Eh Es Ew E
    |l1 l2 i rw c sess r now ord e s' Eh Es Ew E|l1 l2 i rw c sess e Eh Es Ew|l1 l2 i id now f Eh
    |l1 l2 i id ord sess Eh Es Ed|now ord ord' ord'' Hv|i old sess Eo Em];
    cbn [sw_server sw_handlers]; unfold connectionCount.
  - split; [done|]. left. done.
  - destruct (settle_fields _ _ _ _ _ _ _ E) as (_ & -> & -> & _ & -> & Hlim). split; [done|].
    destruct (serves a); [right; by apply Hlim|left; done].
  - unfold handleClient_begin in E. rewrite Start_new in E. injection E as <- <-. split; [done|]. left.
    rewrite Eh, !waiting_mid. cbn. rewrite size_union, size_singleton; [lia|].
    apply disjoint_singleton_l. rewrite T3. intros Hin. rewrite Forall_forall in T2.
    assert (length (sv_sessions (sw_server w)) ∈ omap handler_sid (sw_handlers w)) as Hm.
    { apply list_elem_of_omap. by exists (HClient (length (sv_sessions (sw_server w)))). }
    specialize (T2 _ Hm). cbn in T2. lia.
  - split; [done|]. left. rewrite Eh, waiting_mid. cbn.
    pose proof (size_difference_le (sv_clientConns (sw_server w)) i). lia.
  - unfold handleExit_begin in E. rewrite Start_new in E. injection E as <- <-. split; [done|]. left.
    rewrite Eh, !waiting_mid. cbn. lia.
  - split; [done|]. left. rewrite Eh, !waiting_mid. cbn. lia.
  - destruct (register_fields _ _ _ _ _ _ _ E) as (_ & -> & -> & [name ->] & _ & _). split; [done|].
    left. rewrite Eh, !waiting_mid. cbn.
    pose proof (size_insert_le (sv_exitConns (sw_server w)) id (mkExitConn id i name)). lia.
  - unfold handleExit_register in E. destruct (complete_registration _ r) as [r'|e']; [done|].
    injection E as _ <-. split; [done|]. left. rewrite Eh, waiting_mid. cbn. lia.
  - split; [done|]. left. rewrite Eh, waiting_mid. cbn. lia.
  - destruct (control_fields now id f (sw_server w)) as (_ & -> & -> & -> & _). split; [done|]. by left.
  - destruct (end_fields id i ord (sw_server w)) as (_ & -> & -> & _ & ->). split; [done|]. left.
    rewrite Eh, waiting_mid. cbn.
    pose proof (size_delete_le (sv_exitConns (sw_server w)) id).
    destruct (sv_exitConns (sw_server w) !! id) as [e|]; [destruct (_ =? _)%nat|]; lia.
  - destruct (tick_fields now ord ord' ord'' (sw_server w) Hv) as (_ & -> & -> & -> & _).
    split; [done|]. by left.
  - split; [done|]. by left.
Qed.

(** C25: how far the connection limit holds: the check and the registration are
    apart, so the limit is exceeded by at most the number of connections that
    are between the two, less one: if never more than [k] admitted connections
    wait to be registered, the server has at most [limit + k - 1]; with one at a
    time, never more than the limit. *)
Theorem connection_limit (now : Time) (cfg : Node) (v : Verifier) (k : nat) (w : SWorld)
  (Hlimit : 0 < cfg.(nd_ConnectionLimit)) (Hk : (1 <= k)%nat)
  (Hrun : server_run_within k (server_init now cfg v) w) :
  connectionCount w.(sw_server) <= cfg.(nd_ConnectionLimit) + Z.of_nat k - 1.
Proof.
  enough (w.(sw_server).(sv_config) = cfg /\
    connectionCount w.(sw_server) + Z.of_nat (waiting_count w.(sw_handlers)) <=
    cfg.(nd_ConnectionLimit) + Z.of_nat k - 1) by lia.
  induction Hrun as [|w w' Hrun [IHc IH] Hstep Hw].
  - unfold server_init, NewServer. destruct (_ || _); cbn; (split; [done|]); unfold connectionCount; cbn;
      rewrite ?size_empty, ?map_size_empty; lia.
  - destruct (step_count w w' (server_run_tables _ _ _ _ (run_within_run _ _ _ Hrun)) Hstep)
      as [Hc Hs]. rewrite Hc. split; [done|]. rewrite IHc in Hs. lia.
Qed.

Lemma connection_limit_witness : connectionCount demo_serving.(sw_server) <= 256.
Proof.
  apply (connection_limit 1 (FillPaths demo_os demo_node) demo_client 1 demo_serving).
  - vm_compute. reflexivity.
  - lia.
  - eapply swithin_step; [|apply demo_server_step2|vm_compute; lia].
    eapply swithin_step; [|apply demo_server_step1|vm_compute; lia]. apply swithin_nil.
Defined.

(* ------------------------------------------------------------------ *)
(** ** Routing *)

(** C26: where an open request goes.  A request sent on to an exit goes,
    unchanged, to the session of an exit that is registered, healthy and has a
    free slot, and whose handler is running; a request that names an exit is
    never sent to another one.  A request dialled directly is dialled at its own
    destination, and only when the direct exit was selected.  Otherwise it is
    rejected, with the reason. *)
Theorem forwardOpen_routes (now : Time) (cfg : Node) (v : Verifier) (w : SWorld) (ord : order)
  (request : OpenRequest)
  (Hrun : server_run (server_init now cfg v) w)
  (Hord : visits ord w.(sw_server).(sv_registry)) :
  match forwardOpen request ord w.(sw_server) with
  | DialExit i req => req = request /\
      exists id info, Select ord request.(or_ExitID) false w.(sw_server).(sv_registry) = Ok info /\
        info.(ei_ID) = id /\ info.(ei_Health) = "healthy"%string /\
        info.(ei_ActiveConnections) < info.(ei_Capacity) /\
        HExit i id ∈ w.(sw_handlers) /\
        (auto_id request.(or_ExitID) = false -> id = request.(or_ExitID))
  | DialDirect host port => host = request.(or_Destination) /\ port = request.(or_Port) /\
      exists info, Select ord request.(or_ExitID) false w.(sw_server).(sv_registry) = Ok info /\
        info.(ei_ID) = w.(sw_server).(sv_directID)
  | Reject message =>
      (exists e, Select ord request.(or_ExitID) false w.(sw_server).(sv_registry) = Err e /\
         message = Error e) \/
      (exists info, Select ord request.(or_ExitID) false w.(sw_server).(sv_registry) = Ok info /\
         w.(sw_server).(sv_exitConns) !! info.(ei_ID) = None /\
         message = Error ErrExitUnavailable)
  end.
Proof.
  pose proof (server_run_tables _ _ _ _ Hrun) as [_ _ _ T4 T5]. unfold forwardOpen.
  destruct (Select ord (or_ExitID request) false _) as [info|e] eqn:Es; [|by left; eauto].
  case_bool_decide as Ed; [by eauto|].
  destruct (sv_exitConns (sw_server w) !! ei_ID info) as [exit|] eqn:Ee; [|by right; eauto].
  split; [done|]. destruct (Select_sound _ _ _ _ _ Hord Es) as (_ & Hh & Hc & Hget).
  exists (ei_ID info), info. destruct (T4 _ _ Ee) as [_ Hin]. split_and!; try done.
  intros Ha. specialize (Hget Ha eq_refl). unfold Get in Hget.
  destruct (rg_exits (sv_registry (sw_server w)) !! or_ExitID request) as [e|] eqn:El; [|done].
  destruct (T5 _ _ El) as [Hid _]. injection Hget as <-. done.
Qed.

Definition demo_request : OpenRequest := mkOpenRequest 9 "direct" "example.org" 443 "tcp" true.

Lemma forwardOpen_routes_witness :
  forwardOpen demo_request (map_to_list (rg_exits (sv_registry (sw_server demo_serving))))
    demo_serving.(sw_server) = DialDirect "example.org" 443 /\
  "example.org"%string = demo_request.(or_Destination) /\ 443 = demo_request.(or_Port).
Proof.
  assert (forwardOpen demo_request (map_to_list (rg_exits (sv_registry (sw_server demo_serving))))
    demo_serving.(sw_server) = DialDirect "example.org" 443) as E by (vm_compute; reflexivity).
  split; [exact E|].
  pose proof (forwardOpen_routes 1 (FillPaths demo_os demo_node) demo_client demo_serving
    (map_to_list (rg_exits (sv_registry (sw_server demo_serving)))) demo_request) as H.
  rewrite E in H. destruct H as (H1 & H2 & _).
  - eapply srun_step; [|apply demo_server_step2]. eapply srun_step; [|apply demo_server_step1].
    apply srun_nil.
  - unfold visits. reflexivity.
  - split; [exact H1|exact H2].
Defined.

(* ------------------------------------------------------------------ *)
(** ** A reconnecting exit *)

Definition controls (frames : list (Time * Frame)) (id : string) (s : Server) : Server :=
  fold_left (fun s tf => exit_control tf.1 id tf.2 s) frames s.

Lemma controls_no_entry frames id : forall s,
  s.(sv_registry).(rg_exits) !! id = None ->
  (controls frames id s).(sv_registry).(rg_exits) !! id = None /\
  (controls frames id s).(sv_exitConns) = s.(sv_exitConns).
Proof.
  induction frames as [|[t f] l IH]; intros s Hn; [done|]. cbn [controls fold_left fst snd].
  destruct (control_fields t id f s) as (_ & _ & He & _ & Hr).
  assert (rg_exits (sv_registry (exit_control t id f s)) !! id = None) as Hn'.
  { destruct (rg_exits _ !! id) as [e'|] eqn:E in |- *; [|done].
    destruct (Hr _ _ E) as (e & He' & _). congruence. }
  destruct (IH _ Hn') as [H1 H2]. split; [exact H1|]. unfold controls in H2. by rewrite H2.
Qed.

(** An exit that reconnects before its old connection has been cleaned up
    is lost: after it registers again under its ID over a new session, the end
    of the old session's handler removes the new registry entry; the exit stays
    in the exit table and its session stays up, but no heartbeat it sends brings
    the entry back, and every request for it is rejected. *)
Theorem reconnect_loses_exit (s s1 s2 : Server) (r1 r2 : ExitRegistration) (t1 t2 : Time)
  (i1 i2 : sid) (o1 o2 o3 : order) (id : string) (frames : list (Time * Frame))
  (Hnew : i1 <> i2)
  (H1 : handleExit_register t1 r1 i1 o1 s = (Ok id, s1))
  (H2 : handleExit_register t2 r2 i2 o2 s1 = (Ok id, s2))
  (Hauto : auto_id id = false) :
  let s3 := controls frames id (handleExit_end id i1 o3 s2) in
  s3.(sv_registry).(rg_exits) !! id = None /\
  (exists e, s3.(sv_exitConns) !! id = Some e /\ e.(ec_session) = i2) /\
  forall ord request, request.(or_ExitID) = id ->
    forwardOpen request ord s3 = Reject "selected exit is unavailable".
Proof.
  destruct (end_fields id i1 o3 s2) as (_ & _ & _ & Hr & He).
  destruct (register_fields _ _ _ _ _ _ _ H2) as (_ & _ & _ & [name E2] & _ & _).
  rewrite E2, lookup_insert_eq in He. cbn [ec_session] in He.
  rewrite (proj2 (Nat.eqb_neq i2 i1)) in He by done.
  destruct (controls_no_entry frames id (handleExit_end id i1 o3 s2)) as [Hn Hx].
  { rewrite Hr. apply lookup_delete_eq. }
  cbn zeta. split_and!; [done| |].
  - rewrite Hx, He. eexists. split; [apply lookup_insert_eq|done].
  - intros ord request Hid. unfold forwardOpen, Select. rewrite Hid. unfold auto_id in Hauto.
    rewrite Hauto. by rewrite Hn.
Qed.

Definition demo_registration : ExitRegistration := mkExitRegistration "paris" "" 8 ["tcp"%string].
Definition demo_register (i : sid) (s : Server) : Server :=
  (handleExit_register 10 demo_registration i [] s).2.

Lemma reconnect_loses_exit_witness :
  (handleExit_end "paris" 0 [] (demo_register 1 (demo_register 0 demo_server))
  ).(sv_registry).(rg_exits) !! "paris"%string = None.
Proof.
  apply (reconnect_loses_exit demo_server (demo_register 0 demo_server)
    (demo_register 1 (demo_register 0 demo_server)) demo_registration demo_registration 10 10 0 1
    [] [] [] "paris" []).
  - discriminate.
  - vm_compute. reflexivity.
  - vm_compute. reflexivity.
  - reflexivity.
Defined.
