(* ===== verification/Socks5.v ===== *)
(** * The SOCKS5 front end: [internal/proxy/socks5/socks5.go]

    The greeting, the request, the replies and [handle], which composes them
    around the dialer it is given.  The text of an IP address ([net.IP.String])
    is written out.  Deadlines show up as the reader's error; the listener and
    its accept loop are not modelled. *)
From S2P Require Import Prelude GoIO GoStrings Json GoText GoNet Codec Protocol.

(* ------------------------------------------------------------------ *)
(** ** The text of an IP address *)

Definition IPv4len : nat := 4.
Definition IPv6len : nat := 16.

(** [net.IP.To4]: four bytes, or sixteen that hold an IPv4-mapped address. *)
Definition To4 (ip : bytes) : option bytes :=
  if (length ip =? IPv4len)%nat then Some ip
  else if (length ip =? IPv6len)%nat && forallb (Byte.eqb x00) (take 10 ip) &&
          forallb (Byte.eqb xff) (take 2 (drop 10 ip))
  then Some (drop 12 ip) else None.

Definition v4_prefix : bytes := repeat x00 10 ++ [xff; xff].

Definition To16 (ip : bytes) : option bytes :=
  if (length ip =? IPv4len)%nat then Some (v4_prefix ++ ip)
  else if (length ip =? IPv6len)%nat then Some ip else None.

Fixpoint groups (ip : bytes) : list Z :=
  match ip with
  | a :: b :: r => (byte_to_Z a * 256 + byte_to_Z b) :: groups r
  | _ => []
  end.

Fixpoint zero_run (l : list Z) : nat :=
  match l with
  | z :: r => if z =? 0 then S (zero_run r) else O
  | [] => O
  end.

(** The first longest run of at least two zero groups, as start and length. *)
Fixpoint longest_run (i : nat) (l : list Z) (best : nat * nat) : nat * nat :=
  match l with
  | [] => best
  | _ :: r =>
      let n := zero_run l in
      longest_run (S i) r (if (2 <=? n)%nat && (best.2 <? n)%nat then (i, n) else best)
  end.

(** Hexadecimal without leading zeros, a group of sixteen bits. *)
Definition hex_group (g : Z) : bytes :=
  drop_while (Byte.eqb x30)
    [lower_hex (g / 4096); lower_hex (g / 256 mod 16); lower_hex (g / 16 mod 16)]
  ++ [lower_hex (g mod 16)].

Definition string6 (ip : bytes) : bytes :=
  let gs := groups ip in
  match longest_run 0 gs (0%nat, 0%nat) with
  | (_, O) => Join (map hex_group gs) [colon]
  | (start, n) =>
      Join (map hex_group (take start gs)) [colon] ++ [colon; colon] ++
      Join (map hex_group (drop (start + n) gs)) [colon]
  end.

Definition string4 (ip : bytes) : bytes := Join (map (fun b => utoa (byte_to_Z b)) ip) [x2e].

(** [net.IP.String] on four or sixteen bytes. *)
Definition IP_String (ip : bytes) : bytes :=
  match To4 ip with
  | Some ip => string4 ip
  | None => string6 ip
  end.

Example string6_loopback : IP_String (repeat x00 15 ++ [x01]) = bytes_of "::1".
Proof. reflexivity. Qed.
Example string6_documentation :
  IP_String ([x20; x01; x0d; xb8] ++ repeat x00 4 ++ [x00; x01] ++ repeat x00 5 ++ [x0a])
  = bytes_of "2001:db8::1:0:0:a".
Proof. reflexivity. Qed.
Example string6_mapped : IP_String (v4_prefix ++ [x7f; x00; x00; x01]) = bytes_of "127.0.0.1".
Proof. reflexivity. Qed.

(* ------------------------------------------------------------------ *)
(** ** The conversation *)

Definition version5 : byte := x05.
Definition methodNoAuth : byte := x00.
Definition methodNone : byte := xff.
Definition commandConnect : byte := x01.
Definition addressIPv4 : byte := x01.
Definition addressDomain : byte := x03.
Definition addressIPv6 : byte := x04.

(** Reading code: a result and what is left of the connection. *)
Definition ReadM (A : Type) : Type := Reader -> result A * Reader.
Definition ret {A} (x : A) : ReadM A := fun r => (Ok x, r).
Definition fail {A} (e : error) : ReadM A := fun r => (Err e, r).
Definition bind {A B} (m : ReadM A) (f : A -> ReadM B) : ReadM B := fun r =>
  match m r with
  | (Ok x, r) => f x r
  | (Err e, r) => (Err e, r)
  end.

Declare Scope socks_scope.
Notation "x <-- m ;; k" := (bind m (fun x => k))
  (at level 100, m at next level, right associativity) : socks_scope.
#[local] Open Scope socks_scope.

Definition negotiate (rw : ReadWriter) : option error * ReadWriter :=
  match ReadFull 2 rw.(rw_in) with
  | (Err e, r) => (Some e, mkRW r rw.(rw_out))
  | (Ok header, r) =>
      let count := nth 1 header x00 in
      if negb (nth 0 header x00 =b version5) || (count =b x00)
      then (Some (ENew "invalid SOCKS5 greeting"), mkRW r rw.(rw_out))
      else
        match ReadFull (Z.to_nat (byte_to_Z count)) r with
        | (Err e, r) => (Some e, mkRW r rw.(rw_out))
        | (Ok methods, r) =>
            if existsb (fun m => m =b methodNoAuth) methods
            then
              let '(e, w) := Sink_Write [version5; methodNoAuth] rw.(rw_out) in (e, mkRW r w)
            else
              let '(_, w) := Sink_Write [version5; methodNone] rw.(rw_out) in
              (Some (ENew "no supported SOCKS5 authentication method"), mkRW r w)
        end
  end.

Definition read_host (type : byte) : ReadM bytes :=
  if type =b addressIPv4 then
    value <-- ReadFull IPv4len ;; ret (IP_String value)
  else if type =b addressIPv6 then
    value <-- ReadFull IPv6len ;; ret (IP_String value)
  else if type =b addressDomain then
    len <-- ReadFull 1 ;;
    if nth 0 len x00 =b x00 then fail (ENew "empty SOCKS5 destination")
    else ReadFull (Z.to_nat (byte_to_Z (nth 0 len x00)))
  else fail (ENew "unsupported SOCKS5 address type").

Definition readRequest : ReadM (bytes * Z) :=
  header <-- ReadFull 4 ;;
  if negb (nth 0 header x00 =b version5) || negb (nth 1 header x00 =b commandConnect) ||
     negb (nth 2 header x00 =b x00)
  then fail (ENew "unsupported SOCKS5 request")
  else
    host <-- read_host (nth 3 header x00) ;;
    portBytes <-- ReadFull 2 ;;
    let port := be_decode portBytes in
    if port =? 0 then fail (ENew "invalid SOCKS5 destination port") else ret (host, port).

(** [writeReply]; [address] is the IP of a [*net.TCPAddr].  The port of the
    address is computed by the source and not used. *)
Definition writeReply (status : byte) (address : option bytes) (w : Sink) : option error * Sink :=
  let plain := [version5; status; x00; addressIPv4; x00; x00; x00; x00; x00; x00] in
  let response :=
    match address with
    | None => plain
    | Some ip =>
        match To4 ip with
        | Some ipv4 => take 4 plain ++ ipv4 ++ drop 8 plain
        | None =>
            match To16 ip with
            | Some ipv6 => [version5; status; x00; addressIPv6] ++ ipv6 ++ [x00; x00]
            | None => plain
            end
        end
    end in
  Sink_Write response w.

(** What became of a connection: the dial it led to, if any, and its end. *)
Inductive served (T : Type) : Type :=
  | NoGreeting (e : error)
  | BadRequest (e : error)
  | DialFailed (host : bytes) (port : Z) (e : error)
  | ReplyFailed (host : bytes) (port : Z) (target : T)
  | Relaying (host : bytes) (port : Z) (target : T).
Arguments NoGreeting {T}.
Arguments BadRequest {T}.
Arguments DialFailed {T}.
Arguments ReplyFailed {T}.
Arguments Relaying {T}.

Definition handle {T} (dial : bytes -> Z -> result T) (rw : ReadWriter) : served T * ReadWriter :=
  match negotiate rw with
  | (Some e, rw) => (NoGreeting e, rw)
  | (None, rw) =>
      match readRequest rw.(rw_in) with
      | (Err e, r) => (BadRequest e, mkRW r (writeReply x07 None rw.(rw_out)).2)
      | (Ok (host, port), r) =>
          match dial host port with
          | Err e => (DialFailed host port e, mkRW r (writeReply x05 None rw.(rw_out)).2)
          | Ok target =>
              match writeReply x00 None rw.(rw_out) with
              | (Some _, w) => (ReplyFailed host port target, mkRW r w)
              | (None, w) => (Relaying host port target, mkRW r w)
              end
          end
      end
  end.

(* ------------------------------------------------------------------ *)
(** ** The protocol as RFC 1928 writes it *)

Inductive address : Type := AddrV4 (ip : bytes) | AddrV6 (ip : bytes) | AddrDomain (name : bytes).

Definition address_ok (a : address) : Prop :=
  match a with
  | AddrV4 ip => length ip = 4%nat
  | AddrV6 ip => length ip = 16%nat
  | AddrDomain name => (1 <= length name <= 255)%nat
  end.
Definition address_bytes (a : address) : bytes :=
  match a with
  | AddrV4 ip => x01 :: ip
  | AddrV6 ip => x04 :: ip
  | AddrDomain name => x03 :: byte_of_Z (Z.of_nat (length name)) :: name
  end.
Definition address_host (a : address) : bytes :=
  match a with
  | AddrV4 ip | AddrV6 ip => IP_String ip
  | AddrDomain name => name
  end.
Definition request_bytes (a : address) (port : Z) : bytes :=
  [x05; x01; x00] ++ address_bytes a ++ be_encode 2 port.
Definition greeting_bytes (methods : bytes) : bytes :=
  x05 :: byte_of_Z (Z.of_nat (length methods)) :: methods.
Definition reply_bytes (status : byte) : bytes := [x05; status; x00; x01] ++ repeat x00 6.

(** [r'] is what is left of [r] once [p] has been read. *)
Definition consumed (p : bytes) (r r' : Reader) : Prop :=
  r.(rd_buf) = p ++ r'.(rd_buf) /\ r'.(rd_err) = r.(rd_err).

(* ------------------------------------------------------------------ *)
(** ** Lemmas *)

Lemma ReadFull_iff n r p r' : ReadFull n r = (Ok p, r') <-> length p = n /\ consumed p r r'.
Proof.
  unfold consumed. split; [intros H; apply ReadFull_Ok in H; naive_solver|].
  intros (Hn & Hb & He). destruct r as [buf e], r' as [buf' e']. cbn in *. subst.
  by apply ReadFull_app.
Qed.

Lemma bind_Ok {A B} (m : ReadM A) (f : A -> ReadM B) r y r' :
  bind m f r = (Ok y, r') <-> exists x r1, m r = (Ok x, r1) /\ f x r1 = (Ok y, r').
Proof.
  unfold bind. destruct (m r) as [[x|e] r1]; split.
  - eauto.
  - by intros (? & ? & [= -> ->] & ?).
  - done.
  - by intros (? & ? & ? & ?).
Qed.

Lemma consumed_app p q r r' :
  consumed (p ++ q) r r' <-> exists r1, consumed p r r1 /\ consumed q r1 r'.
Proof.
  unfold consumed. split.
  - intros [Hb He]. exists (mkReader (q ++ rd_buf r') (rd_err r)). cbn.
    by rewrite Hb, <-app_assoc.
  - intros (r1 & [-> ->] & [-> ->]). by rewrite app_assoc.
Qed.

Lemma byte_eqb_true a b : (a =b b) = true <-> a = b.
Proof. destruct (byte_eqb_spec a b); naive_solver. Qed.

Lemma length_byte n : (1 <= n <= 255)%nat -> byte_to_Z (byte_of_Z (Z.of_nat n)) = Z.of_nat n.
Proof. intros H. rewrite byte_to_of_Z. apply Z.mod_small. lia. Qed.

Lemma byte_length b n : b <> x00 -> Z.to_nat (byte_to_Z b) = n ->
  b = byte_of_Z (Z.of_nat n) /\ (1 <= n <= 255)%nat.
Proof.
  intros Hb <-. pose proof (byte_to_Z_range b). rewrite Z2Nat.id, byte_of_to_Z by lia.
  split; [done|]. enough (byte_to_Z b <> 0) by lia. intros E. apply Hb. by apply byte_to_Z_inj.
Qed.

Lemma length1 {A} (l : list A) (d : A) : length l = 1%nat -> l = [nth 0 l d].
Proof. by destruct l as [|? []]. Qed.

(** The bytes after the first four of a request are the rest of the address. *)
Lemma read_host_exact t r host r' :
  read_host t r = (Ok host, r') <->
  exists a rest, address_ok a /\ address_bytes a = t :: rest /\ host = address_host a /\
    consumed rest r r'.
Proof.
  unfold read_host. split.
  - destruct (byte_eqb_spec t addressIPv4) as [->|_];
      [|destruct (byte_eqb_spec t addressIPv6) as [->|_];
        [|destruct (byte_eqb_spec t addressDomain) as [->|_]; [|done]]].
    1,2: intros (ip & r1 & [Hl Hc]%ReadFull_iff & [= <- <-])%bind_Ok.
    + by exists (AddrV4 ip), ip.
    + by exists (AddrV6 ip), ip.
    + intros (len & r1 & [Hl Hc]%ReadFull_iff & H)%bind_Ok.
      rewrite (length1 len x00 Hl) in Hc. destruct (byte_eqb_spec (nth 0 len x00) x00) as [|Hn]; [done|].
      apply ReadFull_iff in H as [Hh Hc']. destruct (byte_length _ _ Hn (eq_sym Hh)) as [E ?].
      exists (AddrDomain host), (byte_of_Z (Z.of_nat (length host)) :: host).
      split_and!; try done. rewrite E in Hc. apply (consumed_app [_]). eauto.
  - intros (a & rest & Ha & Hb & -> & Hc). destruct a as [ip|ip|name]; cbn in *; injection Hb as <- <-.
    + change (x01 =b addressIPv4) with true. cbn iota. apply bind_Ok. exists ip, r'.
      by rewrite ReadFull_iff.
    + change (x04 =b addressIPv4) with false. change (x04 =b addressIPv6) with true. cbn iota.
      apply bind_Ok. exists ip, r'. by rewrite ReadFull_iff.
    + change (x03 =b addressIPv4) with false. change (x03 =b addressIPv6) with false.
      change (x03 =b addressDomain) with true. cbn iota. apply bind_Ok.
      apply (consumed_app [_]) in Hc as (r1 & H1 & H2). eexists [_], r1. rewrite ReadFull_iff.
      split; [done|]. cbn [nth]. destruct (byte_eqb_spec (byte_of_Z (Z.of_nat (length name))) x00) as [E|_].
      { apply (f_equal byte_to_Z) in E. rewrite length_byte in E by done. cbn in E. lia. }
      rewrite ReadFull_iff, length_byte by done. split; [lia|done].
Qed.

Lemma length4 (l : bytes) : length l = 4%nat ->
  l = [nth 0 l x00; nth 1 l x00; nth 2 l x00; nth 3 l x00].
Proof. by destruct l as [|? [|? [|? [|? []]]]]. Qed.

Lemma be_decode_port p port : length p = 2%nat ->
  be_decode p = port /\ port <> 0 <-> p = be_encode 2 port /\ 1 <= port <= 65535.
Proof.
  intros Hl. split.
  - intros [<- Hn]. pose proof (be_decode_range p) as Hr. rewrite Hl in Hr.
    change (256 ^ Z.of_nat 2) with 65536 in Hr. rewrite <-Hl, be_encode_decode.
    split; [done|lia].
  - intros [-> Hr]. rewrite be_decode_encode. change (256 ^ Z.of_nat 2) with 65536.
    rewrite Z.mod_small by lia. split; [done|lia].
Qed.

Lemma readRequest_exact r host port r' :
  readRequest r = (Ok (host, port), r') <->
  exists a, address_ok a /\ host = address_host a /\ 1 <= port <= 65535 /\
    consumed (request_bytes a port) r r'.
Proof.
  unfold readRequest. rewrite bind_Ok. split.
  - intros (h & r1 & [Hl Hc]%ReadFull_iff & H). rewrite (length4 h Hl) in Hc.
    destruct (byte_eqb_spec (nth 0 h x00) version5) as [E0|]; [|done].
    destruct (byte_eqb_spec (nth 1 h x00) commandConnect) as [E1|]; [|done].
    destruct (byte_eqb_spec (nth 2 h x00) x00) as [E2|]; [|done]. rewrite E0, E1, E2 in Hc.
    cbn [negb orb] in H.
    apply bind_Ok in H as (host' & r2 & (a & rest & Ha & Hb & -> & Hc2)%read_host_exact & H).
    apply bind_Ok in H as (p & r3 & [Hp Hc3]%ReadFull_iff & H).
    destruct (Z.eqb_spec (be_decode p) 0) as [|Hn]; [done|]. injection H as <- <- <-.
    destruct (proj1 (be_decode_port p _ Hp) (conj eq_refl Hn)) as [Ep Hr].
    exists a. refine (conj Ha (conj eq_refl (conj Hr _))). unfold request_bytes. rewrite Hb, <-Ep.
    apply (consumed_app [_; _; _; _]). eexists. split; [exact Hc|]. apply consumed_app. eauto.
  - intros (a & Ha & -> & Hr & Hc). unfold request_bytes in Hc.
    assert (exists t rest, address_bytes a = t :: rest) as (t & rest & Hb) by (destruct a; eauto).
    rewrite Hb in Hc. apply (consumed_app [_; _; _; _]) in Hc as (r1 & H1 & H2).
    apply consumed_app in H2 as (r2 & H2 & H3).
    exists [version5; commandConnect; x00; t], r1. rewrite ReadFull_iff. split; [done|]. cbn.
    apply bind_Ok. exists (address_host a), r2. rewrite read_host_exact. split; [by exists a, rest|].
    apply bind_Ok. exists (be_encode 2 port), r'. rewrite ReadFull_iff.
    split; [by rewrite length_be_encode|].
    destruct (proj2 (be_decode_port _ port (length_be_encode 2 port)) (conj eq_refl Hr)) as [-> Hn].
    by rewrite (proj2 (Z.eqb_neq _ _)).
Qed.

Lemma negotiate_exact rw rw' :
  negotiate rw = (None, rw') <->
  exists methods, (1 <= length methods <= 255)%nat /\ In x00 methods /\
    consumed (greeting_bytes methods) rw.(rw_in) rw'.(rw_in) /\
    Sink_Write [x05; x00] rw.(rw_out) = (None, rw'.(rw_out)).
Proof.
  unfold negotiate. split.
  - destruct (ReadFull 2 _) as [[h|] r1] eqn:E; [|done]. apply ReadFull_iff in E as [Hl Hc].
    destruct h as [|v [|n [|]]]; try done. cbn [nth].
    destruct (byte_eqb_spec v version5) as [->|]; [|done].
    destruct (byte_eqb_spec n x00) as [|Hn]; [done|]. cbn [negb orb].
    destruct (ReadFull _ r1) as [[ms|] r2] eqn:E; [|done]. apply ReadFull_iff in E as [Hm Hc2].
    destruct (byte_length _ _ Hn (eq_sym Hm)) as [-> Hlen].
    destruct (existsb _ ms) eqn:Ex; [|by destruct (Sink_Write _ _)].
    destruct (Sink_Write _ _) as [e w] eqn:Ew. intros [= -> <-]. exists ms.
    split; [lia|]. split; [|split; [|reflexivity]].
    + apply existsb_exists in Ex as (m & Hin & Hm'). by apply byte_eqb_true in Hm' as ->.
    + apply (consumed_app [_; _]). eauto.
  - intros (ms & Hlen & Hin & Hc & Hw). apply (consumed_app [_; _]) in Hc as (r1 & H1 & H2).
    rewrite (proj2 (ReadFull_iff 2 (rw_in rw) [x05; byte_of_Z (Z.of_nat (length ms))] r1)
      (conj eq_refl H1)). cbn [nth].
    change (x05 =b version5) with true. cbn [negb orb].
    destruct (byte_eqb_spec (byte_of_Z (Z.of_nat (length ms))) x00) as [E|_].
    { apply (f_equal byte_to_Z) in E. rewrite length_byte in E by done. cbn in E. lia. }
    rewrite length_byte, Nat2Z.id by done.
    rewrite (proj2 (ReadFull_iff _ r1 ms (rw_in rw')) (conj eq_refl H2)).
    rewrite (proj2 (existsb_exists _ _)) by (exists x00; split; [done|by apply byte_eqb_true]).
    change [version5; methodNoAuth] with [x05; x00]. rewrite Hw. by destruct rw'.
Qed.

(* ------------------------------------------------------------------ *)
(** ** Properties *)

(** The request parser is exact: [readRequest] succeeds on precisely the
    byte strings that RFC 1928 gives a CONNECT request (an IPv4 or IPv6 address
    or a name of 1 to 255 bytes, and a port between 1 and 65535), consumes that
    request and nothing more, and returns the host it names and its port. *)
Theorem socks_request_exact (r r' : Reader) (host : bytes) (port : Z) :
  readRequest r = (Ok (host, port), r') <->
  exists a, address_ok a /\ host = address_host a /\ 1 <= port <= 65535 /\
    consumed (request_bytes a port) r r'.
Proof. apply readRequest_exact. Qed.

(** The conversation of a client that offers no authentication and asks for
    a well-formed address: it is told method 0, the dialer is asked for exactly
    that host and port, and the client reads reply 0 and is relayed, with every
    byte it sent after the request still to come, or reads reply 5 when the
    dialer fails. *)
Theorem socks_conversation {T} (dial : bytes -> Z -> result T) (methods rest : bytes) (e : error)
  (a : address) (port : Z) (w : Sink)
  (Hm : (1 <= length methods <= 255)%nat) (Hin : In x00 methods)
  (Ha : address_ok a) (Hp : 1 <= port <= 65535) (Hroom : has_room w 12) :
  let rw := mkRW (mkReader (greeting_bytes methods ++ request_bytes a port ++ rest) e) w in
  handle dial rw =
    match dial (address_host a) port with
    | Ok target => (Relaying (address_host a) port target,
        mkRW (mkReader rest e) (sink_append w ([x05; x00] ++ reply_bytes x00)))
    | Err err => (DialFailed (address_host a) port err,
        mkRW (mkReader rest e) (sink_append w ([x05; x00] ++ reply_bytes x05)))
    end.
Proof.
  intros rw. unfold handle.
  destruct (has_room_app w [x05; x00] (reply_bytes x00) Hroom) as [Hr1 Hr2].
  rewrite (proj2 (negotiate_exact rw
    (mkRW (mkReader (request_bytes a port ++ rest) e) (sink_append w [x05; x00])))).
  2:{ exists methods. split_and!; try done; try lia. by apply Sink_Write_room. }
  cbn [rw_in rw_out].
  rewrite (proj2 (readRequest_exact _ (address_host a) port (mkReader rest e))) by (by exists a).
  rewrite <-!sink_append_app. destruct (dial _ _) as [target|err].
  - unfold writeReply. by rewrite (Sink_Write_room (reply_bytes x00)).
  - unfold writeReply. by rewrite (Sink_Write_room (reply_bytes x05)).
Qed.

Lemma socks_conversation_witness :
  handle (fun _ _ => Ok 7) (mkRW (mkReader
    ([x05; x02; x01; x00] ++ [x05; x01; x00; x03; x02; x68; x69; x01; xbb] ++ [x61]) EOF)
    (mkSink [] None EOF))
  = (Relaying [x68; x69] 443 7, mkRW (mkReader [x61] EOF)
      (mkSink [x05; x00; x05; x00; x00; x01; x00; x00; x00; x00; x00; x00] None EOF)).
Proof.
  apply (socks_conversation (fun _ _ => Ok 7) [x01; x00] [x61] EOF (AddrDomain [x68; x69]) 443
    (mkSink [] None EOF)); cbn; (lia || by auto).
Defined.

(** Whatever bytes a local client sends, the dialer is asked at most for
    the host and port of the request it sent after a greeting that offers no
    authentication; and a relay starts only for that dial, after the client has
    been sent method 0 and reply 0. *)
Theorem socks_dials_only_requested {T} (dial : bytes -> Z -> result T) (rw rw' : ReadWriter)
  (out : served T) (H : handle dial rw = (out, rw')) :
  match out with
  | NoGreeting _ | BadRequest _ => True
  | DialFailed host port _ | ReplyFailed host port _ | Relaying host port _ =>
      exists methods a, In x00 methods /\ address_ok a /\ host = address_host a /\
        1 <= port <= 65535 /\
        consumed (greeting_bytes methods ++ request_bytes a port) rw.(rw_in) rw'.(rw_in) /\
        match out with
        | Relaying _ _ target => dial host port = Ok target /\
            rw'.(rw_out) = sink_append rw.(rw_out) ([x05; x00] ++ reply_bytes x00)
        | _ => True
        end
  end.
Proof.
  unfold handle in H. destruct (negotiate rw) as [[e|] rw1] eqn:En; [by injection H as <- _|].
  apply negotiate_exact in En as (ms & _ & Hin & Hc1 & Hw1%Sink_Write_None).
  destruct (readRequest _) as [[[host port]|e] r] eqn:Er; [|by injection H as <- _].
  apply readRequest_exact in Er as (a & Ha & -> & Hp & Hc2).
  assert (consumed (greeting_bytes ms ++ request_bytes a port) (rw_in rw) r) as Hc
    by (apply consumed_app; eauto).
  destruct (dial _ _) as [target|e] eqn:Ed; [|injection H as <- <-; by exists ms, a].
  destruct (writeReply _ _ _) as [[e|] w] eqn:Ew; injection H as <- <-; exists ms, a; [done|].
  refine (conj Hin (conj Ha (conj eq_refl (conj Hp (conj Hc (conj Ed _)))))).

  rewrite <-sink_append_app, <-Hw1. by apply Sink_Write_None.
Qed.

Lemma socks_dials_only_requested_witness :
  exists methods a, In x00 methods /\ address_ok a /\ [x68] = address_host a /\
    1 <= 80 <= 65535 /\
    consumed (greeting_bytes methods ++ request_bytes a 80)
      (mkReader [x05; x01; x00; x05; x01; x00; x03; x01; x68; x00; x50] EOF) (mkReader [] EOF) /\
    (fun (_ : bytes) (_ : Z) => Ok 7) [x68] 80 = Ok 7 /\
    mkSink [x05; x00; x05; x00; x00; x01; x00; x00; x00; x00; x00; x00] None EOF =
      sink_append (mkSink [] None EOF) ([x05; x00] ++ reply_bytes x00).
Proof.
  apply (socks_dials_only_requested (fun _ _ => Ok 7)
    (mkRW (mkReader [x05; x01; x00; x05; x01; x00; x03; x01; x68; x00; x50] EOF) (mkSink [] None EOF))
    (mkRW (mkReader [] EOF)
      (mkSink [x05; x00; x05; x00; x00; x01; x00; x00; x00; x00; x00; x00] None EOF))
    (Relaying [x68] 80 7)).
  reflexivity.
Defined.
