(* ===== verification/HttpConnect.v ===== *)
(** * The HTTP proxy front end: [internal/proxy/httpconnect/httpconnect.go]

    Where a request goes ([splitHostPort], [defaultPort]), the answers of the
    proxy itself ([writeResponse]) and the two handlers.  What
    [http.ReadRequest] made of the connection, and whether [Request.Write] to
    the target succeeded, are arguments; a forwarded request is the record
    handed to [Request.Write].  Deadlines, the listener and its accept loop are
    not modelled. *)
From S2P Require Import Prelude GoIO GoStrings Json Codec GoText GoNet.

Record URL := mkURL { url_Scheme : bytes; url_Host : bytes; url_RequestURI : bytes }.
Record Request := mkRequest {
  rq_Method : bytes;
  rq_Host : bytes;
  rq_URL : option URL;
  rq_RequestURI : bytes;
  rq_Header : list (string * bytes)
}.

Definition MethodConnect : bytes := bytes_of "CONNECT".
Definition StatusBadRequest : Z := 400.
Definition StatusBadGateway : Z := 502.
Definition StatusText (status : Z) : bytes :=
  bytes_of (if status =? StatusBadRequest then "Bad Request"
            else if status =? StatusBadGateway then "Bad Gateway" else "").

Definition crlf : bytes := [x0d; x0a].

Definition writeResponse (status : Z) (message : bytes) (w : Sink) : option error * Sink :=
  let body := message ++ [x0a] in
  Sink_Write
    (bytes_of "HTTP/1.1 " ++ itoa status ++ [x20] ++ StatusText status ++ crlf ++
     bytes_of "Content-Type: text/plain; charset=utf-8" ++ crlf ++
     bytes_of "Content-Length: " ++ itoa (Z.of_nat (length body)) ++ crlf ++
     bytes_of "Connection: close" ++ crlf ++ crlf ++ body) w.

Definition writeError (status : Z) (message : bytes) (w : Sink) : Sink :=
  (writeResponse status message w).2.

Definition invalid_destination : error := ENew "invalid destination".
Definition invalid_port : error := ENew "invalid destination port".

Definition splitHostPort (value : bytes) (fallback : Z) : result (bytes * Z) :=
  let value := TrimSpace value in
  match value with
  | [] => Err (ENew "destination host is required")
  | _ =>
      let split :=
        match SplitHostPort value with
        | Ok (parsedHost, parsedPort) => Ok (parsedHost, parsedPort)
        | Err _ =>
            if (Count value colon =? 1)%nat then Err invalid_destination
            else Ok (value, itoa fallback)
        end in
      match split with
      | Err e => Err e
      | Ok (host, portText) =>
          match Atoi (string_of portText) with
          | Err _ => Err invalid_port
          | Ok port =>
              if (port <? 1) || (65535 <? port) then Err invalid_port
              else Ok (Trim host [lbracket; rbracket], wrap_u 16 port)
          end
      end
  end.

(** [strings.EqualFold] against lower-case ASCII text is equality of the
    folded texts. *)
Definition defaultPort (scheme : bytes) : Z :=
  if bool_decide (fold_name scheme = bytes_of "https") then 443 else 80.

(** What became of a request. *)
Inductive http_served (T : Type) : Type :=
  | Answered (status : Z) (message : bytes)
  | TargetLost (host : bytes) (port : Z) (target : T)
  | Tunnel (host : bytes) (port : Z) (target : T)
  | Forwarded (host : bytes) (port : Z) (target : T) (request : Request).
Arguments Answered {T}.
Arguments TargetLost {T}.
Arguments Tunnel {T}.
Arguments Forwarded {T}.

Definition refuse {T} (status : Z) (message : bytes) (w : Sink) : http_served T * Sink :=
  (Answered status message, writeError status message w).

Definition established : bytes := bytes_of "HTTP/1.1 200 Connection Established" ++ crlf ++ crlf.

Definition handleConnect {T} (dial : bytes -> Z -> result T) (request : Request) (w : Sink)
  : http_served T * Sink :=
  match splitHostPort request.(rq_Host) 443 with
  | Err e => refuse StatusBadRequest (bytes_of (Error e)) w
  | Ok (host, port) =>
      match dial host port with
      | Err _ => refuse StatusBadGateway (bytes_of "destination unavailable") w
      | Ok target =>
          match Sink_Write established w with
          | (Some _, w) => (TargetLost host port target, w)
          | (None, w) => (Tunnel host port target, w)
          end
      end
  end.

(** The request as it is handed to [Request.Write]: in origin form and without
    the header that is meant for the proxy. *)
Definition origin_form (request : Request) : Request :=
  mkRequest request.(rq_Method) request.(rq_Host)
    ((fun u => mkURL [] [] u.(url_RequestURI)) <$> request.(rq_URL)) []
    (List.filter (fun h => negb (bool_decide (h.1 = "Proxy-Connection"%string))) request.(rq_Header)).

Definition handleHTTP {T} (dial : bytes -> Z -> result T) (writeErr : option error)
  (request : Request) (w : Sink) : http_served T * Sink :=
  match request.(rq_URL) with
  | None => refuse StatusBadRequest (bytes_of "absolute URL required") w
  | Some u =>
      match u.(url_Host) with
      | [] => refuse StatusBadRequest (bytes_of "absolute URL required") w
      | _ =>
          match splitHostPort u.(url_Host) (defaultPort u.(url_Scheme)) with
          | Err e => refuse StatusBadRequest (bytes_of (Error e)) w
          | Ok (host, port) =>
              match dial host port with
              | Err _ => refuse StatusBadGateway (bytes_of "destination unavailable") w
              | Ok target =>
                  match writeErr with
                  | Some _ => (TargetLost host port target, w)
                  | None => (Forwarded host port target (origin_form request), w)
                  end
              end
          end
      end
  end.

Definition handle {T} (dial : bytes -> Z -> result T) (parsed : result Request)
  (writeErr : option error) (w : Sink) : http_served T * Sink :=
  match parsed with
  | Err _ => refuse StatusBadRequest (bytes_of "malformed HTTP proxy request") w
  | Ok request =>
      if bool_decide (request.(rq_Method) = MethodConnect) then handleConnect dial request w
      else handleHTTP dial writeErr request w
  end.

(* ------------------------------------------------------------------ *)
(** ** Lemmas *)

(** Text a host may be made of: printable ASCII without brackets. *)
Definition host_char (b : byte) : bool :=
  in_range 33 126 b && negb (b =b lbracket) && negb (b =b rbracket).
Definition host_text (s : bytes) : Prop := Forall (fun b => host_char b = true) s.

Lemma host_char_facts b : host_char b = true ->
  is_ascii b = true /\ ascii_space b = false /\ b <> lbracket /\ b <> rbracket /\
  in_cutset [lbracket; rbracket] b = false.
Proof.
  destruct b; vm_compute; (discriminate || (intros _; split_and!; first [reflexivity|discriminate])).
Qed.

Lemma host_text_plain s : host_text s -> plain s.
Proof.
  intros H. unfold host_text in H. rewrite List.Forall_forall in H.
  split; intros Hin; by destruct (host_char_facts _ (H _ Hin)) as (_ & _ & ? & ? & _).
Qed.

Lemma digit_host b : is_digit b = true -> host_char b = true /\ b <> colon.
Proof. destruct b; vm_compute; done. Qed.

Lemma utoa_host n : 0 <= n -> host_text (utoa n) /\ ~ In colon (utoa n).
Proof.
  intros Hn. pose proof (utoa_digits n Hn) as H. split.
  - eapply Forall_impl; [exact H|]. intros b Hb. by apply digit_host.
  - rewrite List.Forall_forall in H. intros Hin. by destruct (digit_host _ (H _ Hin)).
Qed.

Lemma TrimSpace_text s : Forall (fun b => is_ascii b = true /\ ascii_space b = false) s -> TrimSpace s = s.
Proof.
  intros H. apply TrimSpace_id; eapply Forall_impl; try exact H; naive_solver.
Qed.

Lemma host_text_printable s : host_text s ->
  Forall (fun b => is_ascii b = true /\ ascii_space b = false) s.
Proof. intros H. eapply Forall_impl; [exact H|]. intros b Hb. by destruct (host_char_facts b Hb) as (? & ? & _). Qed.

Lemma Trim_brackets s : host_text s -> Trim s [lbracket; rbracket] = s.
Proof.
  intros H. assert (Forall (fun b => in_cutset [lbracket; rbracket] b = false) s) as Hc.
  { eapply Forall_impl; [exact H|]. intros b Hb. by apply host_char_facts. }
  unfold Trim, TrimRight. rewrite (drop_while_none _ s) by done.
  rewrite drop_while_none; [apply rev_involutive|]. by apply Forall_rev.
Qed.

Lemma drop_while_app f (p s : bytes) : Forall (fun b => f b = true) p ->
  drop_while f (p ++ s) = drop_while f s.
Proof. induction 1 as [|b p Hb _ IH]; [done|]. cbn. by rewrite Hb. Qed.

Lemma Trim_bracketed s : host_text s -> Trim (lbracket :: s ++ [rbracket]) [lbracket; rbracket] = s.
Proof.
  intros H. assert (Forall (fun b => in_cutset [lbracket; rbracket] b = false) s) as Hc.
  { eapply Forall_impl; [exact H|]. intros b Hb. by apply host_char_facts. }
  destruct s as [|c s]; [done|].
  unfold Trim, TrimRight. change (lbracket :: (c :: s) ++ [rbracket]) with ([lbracket] ++ (c :: s) ++ [rbracket]).
  rewrite (drop_while_app _ [lbracket]) by (by apply Forall_singleton).
  assert (drop_while (in_cutset [lbracket; rbracket]) ((c :: s) ++ [rbracket]) = (c :: s) ++ [rbracket]) as ->.
  { apply Forall_cons in Hc as [Hc _]. cbn [app drop_while]. by rewrite Hc. }
  rewrite rev_app_distr, (drop_while_app _ (rev [rbracket])) by (by apply Forall_singleton).
  rewrite drop_while_none; [apply rev_involutive|]. by apply Forall_rev.
Qed.

Lemma Atoi_port port : 1 <= port <= 65535 -> Atoi (string_of (utoa port)) = Ok port.
Proof.
  intros H. rewrite <-(Atoi_Itoa port) by (unfold in_i64; lia). unfold Itoa, itoa.
  by rewrite (proj2 (Z.ltb_ge _ _)) by lia.
Qed.

Lemma SplitHostPort_no_colon s : ~ In colon s -> SplitHostPort s = Err missingPort.
Proof.
  intros H. unfold SplitHostPort. destruct (cut_last colon s) as [[p q]|] eqn:E; [|done].
  apply cut_last_Some in E as [-> _]. destruct H. apply in_app_iff. right. by left.
Qed.

Lemma Count_zero s b : ~ In b s -> Count s b = 0%nat.
Proof.
  intros H. unfold Count. induction s as [|c s IH]; [done|]. cbn.
  destruct (byte_eqb_spec b c) as [->|]; [destruct H; by left|]. apply IH. intros ?. apply H. by right.
Qed.

Lemma SplitHostPort_bracketed s : plain s -> SplitHostPort (lbracket :: s ++ [rbracket]) = Err missingPort.
Proof.
  intros [_ Hr]. unfold SplitHostPort. destruct (cut_last colon _) as [[p q]|]; [|done].
  change (lbracket =b lbracket) with true. cbn iota. by rewrite cut_first_app.
Qed.

Lemma splitHostPort_port value fallback host port :
  splitHostPort value fallback = Ok (host, port) -> 1 <= port <= 65535.
Proof.
  unfold splitHostPort. destruct (TrimSpace value) as [|b v]; [done|].
  destruct (match SplitHostPort _ with Ok _ => _ | Err _ => _ end) as [[h t]|]; [|done].
  destruct (Atoi _) as [p|]; [|done].
  destruct (Z.ltb_spec p 1); [done|]. destruct (Z.ltb_spec 65535 p); [done|]. cbn [orb].
  intros [= _ <-]. rewrite wrap_u_small by lia. lia.
Qed.

Lemma splitHostPort_split value fallback host portText port :
  Forall (fun b => is_ascii b = true /\ ascii_space b = false) value -> value <> [] ->
  match SplitHostPort value with
  | Ok hp => hp
  | Err _ => (value, itoa fallback)
  end = (host, portText) ->
  (Count value colon <> 1%nat \/ SplitHostPort value = Ok (host, portText)) ->
  portText = utoa port -> 1 <= port <= 65535 ->
  splitHostPort value fallback = Ok (Trim host [lbracket; rbracket], port).
Proof.
  intros Hv Hne Hsplit Hc -> Hp. unfold splitHostPort. rewrite TrimSpace_text by done.
  destruct value as [|b v]; [done|]. set (value := b :: v) in *.
  assert (match SplitHostPort value with
          | Ok (h, p) => Ok (h, p)
          | Err _ => if (Count value colon =? 1)%nat then Err invalid_destination
                     else Ok (value, itoa fallback)
          end = Ok (host, utoa port)) as ->.
  { destruct (SplitHostPort value) as [[h p]|e]; [by injection Hsplit as -> ->|].
    destruct Hc as [Hc|]; [|done]. rewrite (proj2 (Nat.eqb_neq _ _)) by done. by rewrite Hsplit. }
  rewrite Atoi_port by done. rewrite (proj2 (Z.ltb_ge port 1)), (proj2 (Z.ltb_ge 65535 port)) by lia.
  cbn [orb]. by rewrite wrap_u_small by lia.
Qed.

Lemma itoa_port port : 0 <= port -> itoa port = utoa port.
Proof. intros H. unfold itoa. by rewrite (proj2 (Z.ltb_ge _ _)) by lia. Qed.

Lemma JoinHostPort_printable host port : host_text host -> 0 <= port ->
  Forall (fun b => is_ascii b = true /\ ascii_space b = false) (JoinHostPort host (utoa port)).
Proof.
  intros Hh%host_text_printable Hp. destruct (utoa_host port Hp) as [Hu%host_text_printable _].
  unfold JoinHostPort. destruct (Contains host colon); rewrite ?Forall_app; split_and!; try done;
    rewrite ?Forall_cons; split_and!; done || apply Forall_nil_2.
Qed.

(* ------------------------------------------------------------------ *)
(** ** Properties *)

(** C27: where a proxied request goes: a host (a name, an IPv4 address or an IPv6
    address) joined with a port gives that host and that port; a name or
    IPv4 address alone, or an IPv6 address in brackets, gives that host and the
    scheme's port; and no request at all leads to a port outside 1..65535. *)
Theorem http_destination (host : bytes) (port fallback : Z)
  (Hhost : host_text host) (Hport : 1 <= port <= 65535) (Hfb : 1 <= fallback <= 65535) :
  splitHostPort (JoinHostPort host (utoa port)) fallback = Ok (host, port) /\
  (host <> [] -> ~ In colon host -> splitHostPort host fallback = Ok (host, fallback)) /\
  ((2 <= Count host colon)%nat ->
     splitHostPort ([lbracket] ++ host ++ [rbracket]) fallback = Ok (host, fallback)) /\
  forall value h p, splitHostPort value fallback = Ok (h, p) -> 1 <= p <= 65535.
Proof.
  destruct (utoa_host port ltac:(lia)) as [Hu Hc].
  pose proof (SplitHostPort_Join host (utoa port) (host_text_plain _ Hhost) (host_text_plain _ Hu) Hc) as Hj.
  split_and!.
  - rewrite (splitHostPort_split _ fallback host (utoa port) port); rewrite ?Hj; auto.
    + by rewrite Trim_brackets.
    + apply JoinHostPort_printable; [done|lia].
    + unfold JoinHostPort. destruct (Contains host colon); [done|]. by destruct host.
  - intros Hne Hn.
    rewrite (splitHostPort_split _ fallback host (itoa fallback) fallback);
      rewrite ?SplitHostPort_no_colon, ?Count_zero, ?itoa_port; auto using host_text_printable; try lia.
    by rewrite Trim_brackets.
  - intros Hcount. change ([lbracket] ++ host ++ [rbracket]) with (lbracket :: host ++ [rbracket]).
    rewrite (splitHostPort_split _ fallback (lbracket :: host ++ [rbracket]) (itoa fallback) fallback);
      rewrite ?SplitHostPort_bracketed by (by apply host_text_plain); rewrite ?itoa_port by lia; try done.
    + by rewrite Trim_bracketed.
    + apply Forall_cons. split; [done|]. apply Forall_app. split; [by apply host_text_printable|].
      by apply Forall_singleton.
    + left. unfold Count in *. cbn. rewrite List.filter_app, length_app. cbn. lia.
  - intros value h p. apply splitHostPort_port.
Qed.

Lemma http_destination_witness :
  splitHostPort (bytes_of "[2001:db8::1]:8443") 443 = Ok (bytes_of "2001:db8::1", 8443).
Proof.
  apply (http_destination (bytes_of "2001:db8::1") 8443 443); [|lia..].
  vm_compute. repeat (apply Forall_cons; split; [reflexivity|]). apply Forall_nil_2.
Defined.
