(* ===== verification/SystemProxy.v ===== *)
(** * System proxy settings: [internal/systemproxy]

    The journal file ([systemproxy.go]) and the desktop providers
    ([platform_linux.go], [unsupported.go]).  The commands [gsettings] and
    [kreadconfig]/[kwriteconfig] are not part of the program: [Commands] is
    what they do to the desktop's settings, a parameter, and [CommandLaws] what
    the program relies on.

    A process can die between any two of its actions on the machine, so the
    code is written in a monad in which a schedule decides, action by action,
    whether the action succeeds, fails or is the last one the process lives to
    see. *)
From S2P Require Import Prelude GoStrings Json Codec Protocol GoText GoFS GoNet Config.

(* ------------------------------------------------------------------ *)
(** ** Actions on the machine *)

Class Commands (D : Type) := {
  cmd_get : string -> D -> bytes;          (* the output of the reading command *)
  cmd_set : string -> bytes -> D -> D
}.

(** What a value reads as: without surrounding white space. *)
Definition setting {D} `{Commands D} (k : string) (d : D) : bytes := TrimSpace (cmd_get k d).

Class CommandLaws (D : Type) `{Commands D} := {
  set_same k v d : TrimSpace v = v -> setting k (cmd_set k v d) = v;
  set_other k k' v d : k <> k' -> setting k' (cmd_set k v d) = setting k' d
}.

Inductive event : Type :=
  | Go
  | CmdFault (e : error)
  | FileFault (e : error) (n : nat)
  | Crash (n : nat).

Record World (D : Type) := mkWorld { wo_desktop : D; wo_fs : FS }.
Arguments mkWorld {D}.
Arguments wo_desktop {D}.
Arguments wo_fs {D}.

Inductive outcome (A : Type) : Type := Val (a : A) | Fail (e : error) | Crashed.
Arguments Val {A}.
Arguments Fail {A}.
Arguments Crashed {A}.

Definition M (D A : Type) : Type := list event -> World D -> outcome A * list event * World D.

Definition mret {D A} (a : A) : M D A := fun sc w => (Val a, sc, w).
Definition mfail {D A} (e : error) : M D A := fun sc w => (Fail e, sc, w).
Definition mbind {D A B} (m : M D A) (f : A -> M D B) : M D B := fun sc w =>
  match m sc w with
  | (Val a, sc, w) => f a sc w
  | (Fail e, sc, w) => (Fail e, sc, w)
  | (Crashed, sc, w) => (Crashed, sc, w)
  end.
(** The error as a value, as in [if err := m(); err != nil]. *)
Definition mtry {D A} (m : M D A) : M D (result A) := fun sc w =>
  match m sc w with
  | (Val a, sc, w) => (Val (Ok a), sc, w)
  | (Fail e, sc, w) => (Val (Err e), sc, w)
  | (Crashed, sc, w) => (Crashed, sc, w)
  end.
(** [_ = m()]. *)
Definition mignore {D A} (m : M D A) : M D unit := mbind (mtry m) (fun _ => mret tt).

Declare Scope machine_scope.
Delimit Scope machine_scope with machine.
Notation "x <- m ;; k" := (mbind m (fun x => k))
  (at level 100, m at next level, right associativity) : machine_scope.
Notation "m ;;; k" := (mbind m (fun _ => k))
  (at level 100, right associativity) : machine_scope.
#[local] Open Scope machine_scope.

(** The next event of the schedule; an exhausted one lets everything succeed. *)
Definition next (sc : list event) : event * list event :=
  match sc with [] => (Go, []) | e :: sc => (e, sc) end.

Section Actions.
Context {D : Type} `{Commands D}.

Definition command_get (k : string) : M D bytes := fun sc w =>
  match next sc with
  | (Crash _, sc) => (Crashed, sc, w)
  | (CmdFault e, sc) => (Fail e, sc, w)
  | (_, sc) => (Val (cmd_get k w.(wo_desktop)), sc, w)
  end.

Definition command_set (k : string) (v : bytes) : M D unit := fun sc w =>
  match next sc with
  | (Crash _, sc) => (Crashed, sc, w)
  | (CmdFault e, sc) => (Fail e, sc, w)
  | (_, sc) => (Val tt, sc, mkWorld (cmd_set k v w.(wo_desktop)) w.(wo_fs))
  end.

Definition with_fs (fs : FS) (w : World D) : World D := mkWorld w.(wo_desktop) fs.

(** A system call on files; a crash in the middle of a write leaves a prefix. *)
Definition fs_action (op : option (error * nat) -> FS -> option error * FS) (cut : nat -> FS -> FS)
  : M D unit := fun sc w =>
  let done fault sc :=
    match op fault w.(wo_fs) with
    | (None, fs) => (Val tt, sc, with_fs fs w)
    | (Some e, fs) => (Fail e, sc, with_fs fs w)
    end in
  match next sc with
  | (Crash n, sc) => (Crashed, sc, with_fs (cut n w.(wo_fs)) w)
  | (FileFault e n, sc) => done (Some (e, n)) sc
  | (_, sc) => done None sc
  end.

Definition fs_MkdirAll : M D unit :=
  fs_action (fun fault fs => (fst <$> fault, fs)) (fun _ fs => fs).
Definition fs_WriteFile (path : string) (data : bytes) (mode : Z) : M D unit :=
  fs_action
    (fun fault => WriteFile ((fun f => WriteFails f.1 f.2) <$> fault) path data mode)
    (fun n fs => (WriteFile (Some (WriteFails EOF n)) path data mode fs).2).
Definition fs_Rename (old new : string) : M D unit :=
  fs_action (fun fault => Rename (fst <$> fault) old new) (fun _ fs => fs).
Definition fs_Remove (path : string) : M D unit :=
  fs_action
    (fun fault fs =>
       match fault, fs.(fs_files) !! path with
       | Some (e, _), _ => (Some e, fs)
       | None, None => (Some ErrNotExist, fs)
       | None, Some _ => (None, os_Remove path fs)
       end) (fun _ fs => fs).
Definition fs_ReadFile (path : string) : M D bytes := fun sc w =>
  let done fault sc :=
    match ReadFile fault path w.(wo_fs) with
    | Ok data => (Val data, sc, w)
    | Err e => (Fail e, sc, w)
    end in
  match next sc with
  | (Crash _, sc) => (Crashed, sc, w)
  | (FileFault e _, sc) => done (Some e) sc
  | (_, sc) => done None sc
  end.
End Actions.

(* ------------------------------------------------------------------ *)
(** ** Snapshots, endpoints and the journal *)

Record Endpoint := mkEndpoint { ep_HTTP : string; ep_HTTPS : string; ep_SOCKS : string }.

(** A [json.RawMessage] is the value its text denotes; [None] is a nil one. *)
Record Snapshot := mkSnapshot { sn_Version : Z; sn_Values : option json }.

(** The time of a journal is written and never used: it is its RFC 3339 text. *)
Record Journal := mkJournal {
  jn_Version : Z;
  jn_PID : Z;
  jn_Applied : Endpoint;
  jn_Before : Snapshot;
  jn_Time : string
}.

Definition HTTPSOrDefault (e : Endpoint) : string :=
  if empty_string e.(ep_HTTPS) then e.(ep_HTTP) else e.(ep_HTTPS).

#[export] Instance Endpoint_Json : Json Endpoint := {|
  to_json e := JObj (
    member "http" false (enc_string e.(ep_HTTP)) ++
    member "https" (empty_string e.(ep_HTTPS)) (enc_string e.(ep_HTTPS)) ++
    member "socks" (empty_string e.(ep_SOCKS)) (enc_string e.(ep_SOCKS)));
  json_zero := mkEndpoint "" "" "";
  json_dec := dec_struct [
    mkfield "http" dec_string ep_HTTP (fun v '(mkEndpoint _ b c) => mkEndpoint v b c);
    mkfield "https" dec_string ep_HTTPS (fun v '(mkEndpoint a _ c) => mkEndpoint a v c);
    mkfield "socks" dec_string ep_SOCKS (fun v '(mkEndpoint a b _) => mkEndpoint a b v)]
|}.

Definition dec_raw : decoder (option json) := fun j _ => (Some j, None).

#[export] Instance Snapshot_Json : Json Snapshot := {|
  to_json s := JObj (
    member "version" false (enc_int s.(sn_Version)) ++
    member "values" false (default JNull s.(sn_Values)));
  json_zero := mkSnapshot 0 None;
  json_dec := dec_struct [
    mkfield "version" dec_i64 sn_Version (fun v '(mkSnapshot _ b) => mkSnapshot v b);
    mkfield "values" dec_raw sn_Values (fun v '(mkSnapshot a _) => mkSnapshot a v)]
|}.

(** Two digits within bounds. *)
Definition two (lo hi : Z) (a b : byte) : bool :=
  is_digit a && is_digit b &&
  let n := digit_val a * 10 + digit_val b in (lo <=? n) && (n <=? hi).

Definition days_in (year month : Z) : Z :=
  if month =? 2 then
    if (year mod 4 =? 0) && (negb (year mod 100 =? 0) || (year mod 400 =? 0)) then 29 else 28
  else if existsb (Z.eqb month) [4; 6; 9; 11] then 30 else 31.

Fixpoint skip_digits (s : bytes) : bytes :=
  match s with b :: r => if is_digit b then skip_digits r else s | [] => [] end.

Definition zone_ok (s : bytes) : bool :=
  match s with
  | [x5a] => true
  | [sign; h1; h2; c; m1; m2] =>
      ((sign =b x2b) || (sign =b x2d)) && two 0 23 h1 h2 && (c =b colon) && two 0 59 m1 m2
  | _ => false
  end.

(** [time.Time.UnmarshalJSON] accepts RFC 3339 with its fields in range. *)
Definition rfc3339 (s : bytes) : bool :=
  match s with
  | y1 :: y2 :: y3 :: y4 :: d1 :: m1 :: m2 :: d2 :: a1 :: a2 :: t :: h1 :: h2 :: c1 :: n1 :: n2 ::
    c2 :: s1 :: s2 :: rest =>
      two 0 99 y1 y2 && two 0 99 y3 y4 && two 1 12 m1 m2 &&
      two 1 (days_in (digit_val y1 * 1000 + digit_val y2 * 100 + digit_val y3 * 10 + digit_val y4)
               (digit_val m1 * 10 + digit_val m2)) a1 a2 &&
      two 0 23 h1 h2 && two 0 59 n1 n2 && two 0 59 s1 s2 &&
      (d1 =b x2d) && (d2 =b x2d) && (t =b x54) && (c1 =b colon) && (c2 =b colon) &&
      match rest with
      | x2e :: b :: r => if is_digit b then zone_ok (skip_digits r) else false
      | _ => zone_ok rest
      end
  | _ => false
  end.

Definition time_error : error := EForeign 5 "parsing time".
Definition dec_time : decoder string := fun j cur =>
  match j with
  | JStr s => if rfc3339 s then (string_of s, None) else (cur, Some time_error)
  | JNull => (cur, None)
  | _ => (cur, Some time_error)
  end.

#[export] Instance Journal_Json : Json Journal := {|
  to_json j := JObj (
    member "version" false (enc_int j.(jn_Version)) ++
    member "pid" false (enc_int j.(jn_PID)) ++
    member "applied" false (to_json j.(jn_Applied)) ++
    member "before" false (to_json j.(jn_Before)) ++
    member "timestamp" false (enc_string j.(jn_Time)));
  json_zero := mkJournal 0 0 json_zero json_zero "0001-01-01T00:00:00Z";
  json_dec := dec_struct [
    mkfield "version" dec_i64 jn_Version
      (fun v '(mkJournal _ b c d e) => mkJournal v b c d e);
    mkfield "pid" dec_i64 jn_PID (fun v '(mkJournal a _ c d e) => mkJournal a v c d e);
    mkfield "applied" json_dec jn_Applied (fun v '(mkJournal a b _ d e) => mkJournal a b v d e);
    mkfield "before" json_dec jn_Before (fun v '(mkJournal a b c _ e) => mkJournal a b c v e);
    mkfield "timestamp" dec_time jn_Time (fun v '(mkJournal a b c d _) => mkJournal a b c d v)]
|}.

Definition JournalPath (dataDir : string) : string := filepath_Join dataDir "system-proxy-journal.json".

Section JournalFile.
Context {D : Type}.

Definition journal_bytes (j : Journal) : bytes := print_indent (to_json j) ++ [x0a].

Definition WriteJournal (path : string) (j : Journal) : M D unit :=
  fs_MkdirAll ;;;
  fs_WriteFile (temp_name path) (journal_bytes j) 0x180 ;;;
  r <- mtry (fs_Rename (temp_name path) path) ;;
  match r with
  | Ok _ => mret tt
  | Err e => mignore (fs_Remove (temp_name path)) ;;; mfail e
  end.

Definition decode_journal (data : bytes) : result Journal :=
  match Unmarshal data with
  | (_, Some e) => Err (EWrap "parse proxy journal: " e)
  | (j, None) =>
      if negb (j.(jn_Version) =? 1)
      then Err (ENew ("unsupported journal version " +:+ Itoa j.(jn_Version)))
      else Ok j
  end.

Definition ReadJournal (path : string) : M D Journal :=
  data <- fs_ReadFile path ;;
  match decode_journal data with Ok j => mret j | Err e => mfail e end.

Definition RemoveJournal (path : string) : M D unit :=
  r <- mtry (fs_Remove path) ;;
  match r with
  | Ok _ => mret tt
  | Err e => if errors_Is e ErrNotExist then mret tt else mfail e
  end.
End JournalFile.

(* ------------------------------------------------------------------ *)
(** ** Providers *)

Class SystemProxy (D : Type) := {
  sp_Snapshot : M D Snapshot;
  sp_Apply : Endpoint -> M D unit;
  sp_Restore : Snapshot -> M D unit;
  sp_Matches : Snapshot -> Endpoint -> M D bool
}.

Inductive linuxMode : Type := linuxUnsupported | linuxGSettings | linuxKDE.

(** What [New] looks at; the two flags are the results of [exec.LookPath]. *)
Record Environment := mkEnv {
  env_desktop : bytes;
  env_sessionType : bytes;
  env_display : bytes;
  env_gsettings : bool;
  env_kwriteconfig : bool
}.

Fixpoint contains (s sub : bytes) : bool :=
  HasPrefix s sub || match s with [] => false | _ :: r => contains r sub end.

(** [New]: [None] is [Unsupported]. *)
Definition New (upper lower : bytes -> bytes) (env : Environment) : option linuxMode :=
  let desktop := ToUpper upper env.(env_desktop) in
  let sessionType := ToLower lower env.(env_sessionType) in
  let display := negb (bool_decide (env.(env_display) = [])) in
  let odd := negb (bool_decide (sessionType = bytes_of "x11")) &&
    negb (bool_decide (sessionType = bytes_of "wayland")) && negb (bool_decide (sessionType = [])) in
  let kde :=
    if contains desktop (bytes_of "KDE") && display then
      if odd then None else if env.(env_kwriteconfig) then Some linuxKDE else None
    else None in
  if (contains desktop (bytes_of "GNOME") || contains desktop (bytes_of "UNITY")) && display then
    if odd then None else if env.(env_gsettings) then Some linuxGSettings else kde
  else kde.

Record gnomeSnapshot := mkGnome {
  gn_Mode : string; gn_HTTP : string; gn_HTTPS : string;
  gn_SOCKS : string; gn_Ignore : string; gn_Autoconf : string
}.
Record kdeSnapshot := mkKDE {
  kd_ProxyType : string; kd_HTTP : string; kd_HTTPS : string;
  kd_SOCKS : string; kd_NoProxy : string; kd_PAC : string
}.

#[export] Instance gnomeSnapshot_Json : Json gnomeSnapshot := {|
  to_json s := JObj (
    member "mode" false (enc_string s.(gn_Mode)) ++
    member "http" false (enc_string s.(gn_HTTP)) ++
    member "https" false (enc_string s.(gn_HTTPS)) ++
    member "socks" false (enc_string s.(gn_SOCKS)) ++
    member "ignore" false (enc_string s.(gn_Ignore)) ++
    member "autoconf" false (enc_string s.(gn_Autoconf)));
  json_zero := mkGnome "" "" "" "" "" "";
  json_dec := dec_struct [
    mkfield "mode" dec_string gn_Mode (fun v '(mkGnome _ b c d e f) => mkGnome v b c d e f);
    mkfield "http" dec_string gn_HTTP (fun v '(mkGnome a _ c d e f) => mkGnome a v c d e f);
    mkfield "https" dec_string gn_HTTPS (fun v '(mkGnome a b _ d e f) => mkGnome a b v d e f);
    mkfield "socks" dec_string gn_SOCKS (fun v '(mkGnome a b c _ e f) => mkGnome a b c v e f);
    mkfield "ignore" dec_string gn_Ignore (fun v '(mkGnome a b c d _ f) => mkGnome a b c d v f);
    mkfield "autoconf" dec_string gn_Autoconf (fun v '(mkGnome a b c d e _) => mkGnome a b c d e v)]
|}.

#[export] Instance kdeSnapshot_Json : Json kdeSnapshot := {|
  to_json s := JObj (
    member "proxy_type" false (enc_string s.(kd_ProxyType)) ++
    member "http" false (enc_string s.(kd_HTTP)) ++
    member "https" false (enc_string s.(kd_HTTPS)) ++
    member "socks" false (enc_string s.(kd_SOCKS)) ++
    member "no_proxy" false (enc_string s.(kd_NoProxy)) ++
    member "pac" false (enc_string s.(kd_PAC)));
  json_zero := mkKDE "" "" "" "" "" "";
  json_dec := dec_struct [
    mkfield "proxy_type" dec_string kd_ProxyType (fun v '(mkKDE _ b c d e f) => mkKDE v b c d e f);
    mkfield "http" dec_string kd_HTTP (fun v '(mkKDE a _ c d e f) => mkKDE a v c d e f);
    mkfield "https" dec_string kd_HTTPS (fun v '(mkKDE a b _ d e f) => mkKDE a b v d e f);
    mkfield "socks" dec_string kd_SOCKS (fun v '(mkKDE a b c _ e f) => mkKDE a b c v e f);
    mkfield "no_proxy" dec_string kd_NoProxy (fun v '(mkKDE a b c d _ f) => mkKDE a b c d v f);
    mkfield "pac" dec_string kd_PAC (fun v '(mkKDE a b c d e _) => mkKDE a b c d e v)]
|}.

Definition splitEndpoint (endpoint : string) : result (bytes * bytes) :=
  if empty_string endpoint then Ok ([], [x30])
  else match SplitHostPort (bytes_of endpoint) with
       | Ok hp => Ok hp
       | Err _ => Err (ENew "invalid proxy endpoint")
       end.

(** [host, port, _ := splitEndpoint(...)]. *)
Definition split_or_empty (endpoint : string) : bytes * bytes :=
  match splitEndpoint endpoint with Ok hp => hp | Err _ => ([], []) end.

Definition marshalSnapshot {A} `{Json A} (value : A) : Snapshot := mkSnapshot 1 (Some (to_json value)).

(** [json.Unmarshal(snapshot.Values, &values)]. *)
Definition unmarshalValues {A} `{Json A} (s : Snapshot) : result A :=
  match s.(sn_Values) with
  | None => Err json_syntax_error
  | Some j => match json_dec j json_zero with (v, None) => Ok v | (_, Some e) => Err e end
  end.

Definition quote : byte := x27.

Section Linux.
Context {D : Type} `{Commands D}.

Definition gsettingsGet (schema key : string) : M D string :=
  output <- command_get (schema +:+ " " +:+ key) ;;
  mret (string_of (Trim (TrimSpace output) [quote])).
Definition gsettingsSet (schema key : string) (value : bytes) : M D unit :=
  command_set (schema +:+ " " +:+ key) value.
Definition kread (key : string) : M D string :=
  output <- command_get key ;; mret (string_of (TrimSpace output)).
Definition kwrite (key : string) (value : string) : M D unit := command_set key (bytes_of value).

Definition of_result {A} (r : result A) : M D A :=
  match r with Ok a => mret a | Err e => mfail e end.

Definition gnome : string := "org.gnome.system.proxy".
Definition gnome_http : string := "org.gnome.system.proxy.http".
Definition gnome_https : string := "org.gnome.system.proxy.https".
Definition gnome_socks : string := "org.gnome.system.proxy.socks".

Definition Linux_Snapshot (mode : linuxMode) : M D Snapshot :=
  match mode with
  | linuxGSettings =>
      m <- gsettingsGet gnome "mode" ;;
      http <- gsettingsGet gnome_http "host" ;;
      https <- gsettingsGet gnome_https "host" ;;
      socks <- gsettingsGet gnome_socks "host" ;;
      ignore <- gsettingsGet gnome "ignore-hosts" ;;
      auto <- gsettingsGet gnome "autoconfig-url" ;;
      mret (marshalSnapshot (mkGnome m http https socks ignore auto))
  | linuxKDE =>
      t <- kread "ProxyType" ;;
      http <- kread "httpProxy" ;;
      https <- kread "httpsProxy" ;;
      socks <- kread "socksProxy" ;;
      no <- kread "NoProxyFor" ;;
      pac <- kread "Proxy Config Script" ;;
      mret (marshalSnapshot (mkKDE t http https socks no pac))
  | linuxUnsupported => mfail ErrUnsupported
  end.

Definition Linux_Apply (mode : linuxMode) (endpoint : Endpoint) : M D unit :=
  match mode with
  | linuxGSettings =>
      gsettingsSet gnome "mode" (bytes_of "manual") ;;;
      hp <- of_result (splitEndpoint endpoint.(ep_HTTP)) ;;
      gsettingsSet gnome_http "host" hp.1 ;;;
      gsettingsSet gnome_http "port" hp.2 ;;;
      let hp := match splitEndpoint endpoint.(ep_HTTPS) with Ok hp => hp | Err _ => hp end in
      gsettingsSet gnome_https "host" hp.1 ;;;
      gsettingsSet gnome_https "port" hp.2
  | linuxKDE =>
      of_result (splitEndpoint endpoint.(ep_HTTP)) ;;;
      kwrite "ProxyType" "1" ;;;
      kwrite "httpProxy" endpoint.(ep_HTTP) ;;;
      kwrite "httpsProxy" (HTTPSOrDefault endpoint) ;;;
      if empty_string endpoint.(ep_SOCKS) then mret tt
      else kwrite "socksProxy" endpoint.(ep_SOCKS)
  | linuxUnsupported => mfail ErrUnsupported
  end.

Definition Linux_Matches (mode : linuxMode) (snapshot : Snapshot) (endpoint : Endpoint) : M D bool :=
  match mode with
  | linuxGSettings =>
      v <- of_result (unmarshalValues snapshot) ;;
      http <- of_result (splitEndpoint endpoint.(ep_HTTP)) ;;
      https <- of_result (splitEndpoint (HTTPSOrDefault endpoint)) ;;
      mret (bool_decide (v.(gn_Mode) = "manual"%string) && bool_decide (bytes_of v.(gn_HTTP) = http.1) &&
            bool_decide (bytes_of v.(gn_HTTPS) = https.1) && empty_string v.(gn_Autoconf) &&
            bool_decide (http.2 = https.2))
  | linuxKDE =>
      v <- of_result (unmarshalValues snapshot) ;;
      mret (bool_decide (v.(kd_ProxyType) = "1"%string) && bool_decide (v.(kd_HTTP) = endpoint.(ep_HTTP)) &&
            bool_decide (v.(kd_HTTPS) = HTTPSOrDefault endpoint))
  | linuxUnsupported => mfail ErrUnsupported
  end.

Definition Linux_Restore (mode : linuxMode) (snapshot : Snapshot) : M D unit :=
  match mode with
  | linuxGSettings =>
      v <- of_result (unmarshalValues snapshot) ;;
      gsettingsSet gnome "mode" (bytes_of v.(gn_Mode)) ;;;
      let http := split_or_empty v.(gn_HTTP) in
      mignore (gsettingsSet gnome_http "host" http.1) ;;;
      mignore (gsettingsSet gnome_http "port" http.2) ;;;
      let https := split_or_empty v.(gn_HTTPS) in
      mignore (gsettingsSet gnome_https "host" https.1) ;;;
      mignore (gsettingsSet gnome_https "port" https.2) ;;;
      gsettingsSet gnome "autoconfig-url" (bytes_of v.(gn_Autoconf))
  | linuxKDE =>
      v <- of_result (unmarshalValues snapshot) ;;
      kwrite "ProxyType" v.(kd_ProxyType) ;;;
      mignore (kwrite "httpProxy" v.(kd_HTTP)) ;;;
      mignore (kwrite "httpsProxy" v.(kd_HTTPS)) ;;;
      mignore (kwrite "socksProxy" v.(kd_SOCKS)) ;;;
      mignore (kwrite "NoProxyFor" v.(kd_NoProxy)) ;;;
      mignore (kwrite "Proxy Config Script" v.(kd_PAC)) ;;;
      mret tt
  | linuxUnsupported => mfail ErrUnsupported
  end.

Definition Linux (mode : linuxMode) : SystemProxy D := {|
  sp_Snapshot := Linux_Snapshot mode;
  sp_Apply := Linux_Apply mode;
  sp_Restore := Linux_Restore mode;
  sp_Matches := Linux_Matches mode
|}.
End Linux.

Definition Unsupported (D : Type) : SystemProxy D := {|
  sp_Snapshot := mret (mkSnapshot 1 (Some (JObj [])));
  sp_Apply _ := mfail ErrUnsupported;
  sp_Restore _ := mret tt;
  sp_Matches _ _ := mfail ErrUnsupported
|}.
