(* ===== verification/SystemProxyProps.v ===== *)
(** * Properties of the system proxy providers

    A small program logic for code that can die at any moment, the laws the
    client runtime relies on ([SystemProxyLaws]), the proof that the KDE
    provider obeys them as long as its commands do not fail, and what the GNOME
    provider does instead. *)
From S2P Require Import Prelude GoStrings Json Codec Protocol GoText GoFS GoNet Config SystemProxy.

#[local] Open Scope machine_scope.

(* ------------------------------------------------------------------ *)
(** ** Reasoning about code that can crash *)

(** No desktop command fails; system calls may, and the process may die.  A
    system call says that a file does not exist only when it does not. *)
Definition steady (ev : event) : Prop :=
  match ev with
  | CmdFault _ => False
  | FileFault e _ => errors_Is e ErrNotExist = false
  | _ => True
  end.
Definition calm (sc : list event) : Prop := Forall steady sc.

(** Started in [pre], the code returns in [post], fails in [err] or dies in
    [crash]. *)
Definition spec {D A} (pre : World D -> Prop) (m : M D A) (post : A -> World D -> Prop)
  (err : error -> World D -> Prop) (crash : World D -> Prop) : Prop :=
  forall sc w, calm sc -> pre w ->
    let '(o, sc', w') := m sc w in
    calm sc' /\ match o with Val a => post a w' | Fail e => err e w' | Crashed => crash w' end.

Section Rules.
Context {D : Type}.
Implicit Types (P C : World D -> Prop) (E : error -> World D -> Prop).

Lemma spec_ret {A} (a : A) P (Q : A -> World D -> Prop) E C :
  (forall w, P w -> Q a w) -> spec P (mret a) Q E C.
Proof. intros HQ sc w Hs HP. split; [done|by apply HQ]. Qed.

Lemma spec_fail {A} e P (Q : A -> World D -> Prop) E C :
  (forall w, P w -> E e w) -> spec P (mfail e) Q E C.
Proof. intros HE sc w Hs HP. split; [done|by apply HE]. Qed.

Lemma spec_bind {A B} (m : M D A) (f : A -> M D B) P Q R E C :
  spec P m Q E C -> (forall a, spec (Q a) (f a) R E C) -> spec P (mbind m f) R E C.
Proof.
  intros Hm Hf sc w Hs HP. specialize (Hm sc w Hs HP). unfold mbind.
  destruct (m sc w) as [[[a|e|] sc1] w1]; [|done|done]. destruct Hm as [Hs1 HQ].
  by apply (Hf a sc1 w1).
Qed.

Lemma spec_try {A} (m : M D A) P Q E E' C :
  spec P m Q E C ->
  spec P (mtry m) (fun r w => match r with Ok a => Q a w | Err e => E e w end) E' C.
Proof.
  intros Hm sc w Hs HP. specialize (Hm sc w Hs HP). unfold mtry.
  by destruct (m sc w) as [[[a|e|] sc1] w1].
Qed.

Lemma spec_ignore {A} (m : M D A) P Q E E' C :
  spec P m (fun _ => Q) E C -> (forall e w, E e w -> Q w) ->
  spec P (mignore m) (fun _ => Q) E' C.
Proof.
  intros Hm HE. eapply spec_bind; [by apply (spec_try m P (fun _ => Q) E)|].
  intros r sc w Hs Hr. split; [done|]. destruct r; by eauto.
Qed.

Lemma spec_weaken {A} (m : M D A) P P' (Q Q' : A -> World D -> Prop) E E' C C' :
  spec P m Q E C -> (forall w, P' w -> P w) -> (forall a w, Q a w -> Q' a w) ->
  (forall e w, E e w -> E' e w) -> (forall w, C w -> C' w) -> spec P' m Q' E' C'.
Proof.
  intros Hm HP HQ HE HC sc w Hs Hw. specialize (Hm sc w Hs (HP _ Hw)).
  destruct (m sc w) as [[[a|e|] sc1] w1], Hm as [Hs1 Hm]; by auto.
Qed.

(** A precondition that does not depend on the state. *)
Lemma spec_pure {A} (m : M D A) (p : Prop) P Q E C :
  (p -> spec P m Q E C) -> spec (fun w => p /\ P w) m Q E C.
Proof. intros H sc w Hs [Hp HP]. by apply H. Qed.

Lemma spec_result {A} (r : result A) P C :
  spec P (of_result r) (fun a w => r = Ok a /\ P w) (fun _ => P) C.
Proof. intros sc w Hs HP. by destruct r. Qed.

Lemma next_calm sc : calm sc -> calm (next sc).2 /\ steady (next sc).1.
Proof. destruct sc as [|e sc]; [by split|]. by intros [? ?]%Forall_cons. Qed.

Lemma spec_action op cut (P : World D -> Prop) Q E C :
  (forall w fault, P w -> (forall e n, fault = Some (e, n) -> errors_Is e ErrNotExist = false) ->
     match op fault w.(wo_fs) with
     | (None, fs) => Q (with_fs fs w) | (Some e, fs) => E e (with_fs fs w) end) ->
  (forall w n, P w -> C (with_fs (cut n w.(wo_fs)) w)) ->
  spec P (fs_action op cut) (fun _ => Q) E C.
Proof.
  intros H1 H2 sc w Hs HP. unfold fs_action. destruct (next_calm sc Hs) as [Hs' He].
  destruct (next sc) as [[|e|e n|n] sc']; cbn in Hs', He; try done.
  - specialize (H1 w None HP ltac:(done)). destruct (op None (wo_fs w)) as [[?|] ?]; by split.
  - specialize (H1 w (Some (e, n)) HP ltac:(by intros ? ? [= -> ->])). destruct (op _ (wo_fs w)) as [[?|] ?]; by split.
  - split; [done|]. by apply H2.
Qed.

Context `{Commands D}.

Lemma spec_get k P E C : (forall w, P w -> C w) ->
  spec P (command_get k) (fun b w => b = cmd_get k w.(wo_desktop) /\ P w) E C.
Proof.
  intros HC sc w Hs HP. unfold command_get. destruct (next_calm sc Hs) as [Hs' He].
  destruct (next sc) as [[|e|e n|n] sc']; cbn in *; by auto.
Qed.

Lemma spec_set k v P Q E C :
  (forall w, P w -> C w) ->
  (forall w, P w -> Q (mkWorld (cmd_set k v w.(wo_desktop)) w.(wo_fs))) ->
  spec P (command_set k v) (fun _ => Q) E C.
Proof.
  intros HC HQ sc w Hs HP. unfold command_set. destruct (next_calm sc Hs) as [Hs' He].
  destruct (next sc) as [[|e|e n|n] sc']; cbn in *; by auto.
Qed.
End Rules.

(* ------------------------------------------------------------------ *)
(** ** What the runtime relies on *)

(** [settings d] is what the user sees of the desktop's proxy settings,
    [saved s v] that the snapshot [s] holds the settings [v]. *)
Class SystemProxyLaws (D V : Type) `{SystemProxy D} := {
  settings : D -> V;
  settings_ok : V -> Prop;
  saved : Snapshot -> V -> Prop;
  Snapshot_saves w0 :
    spec (fun w => w = w0) sp_Snapshot
      (fun s w => w = w0 /\ (settings_ok (settings w0.(wo_desktop)) -> saved s (settings w0.(wo_desktop))))
      (fun _ w => w = w0) (fun w => w = w0);
  Restore_restores s v fs : saved s v ->
    spec (fun w => w.(wo_fs) = fs) (sp_Restore s)
      (fun _ w => w.(wo_fs) = fs /\ settings w.(wo_desktop) = v)
      (fun _ w => w.(wo_fs) = fs) (fun w => w.(wo_fs) = fs);
  Restore_total s v w : saved s v -> exists w', sp_Restore s [] w = (Val tt, [], w');
  Apply_reverts e w0 :
    spec (fun w => w = w0) (sp_Apply e) (fun _ w => w.(wo_fs) = w0.(wo_fs))
      (fun _ w => w.(wo_fs) = w0.(wo_fs) /\ settings w.(wo_desktop) = settings w0.(wo_desktop))
      (fun w => w.(wo_fs) = w0.(wo_fs));
  Matches_reads s e w0 :
    spec (fun w => w = w0) (sp_Matches s e) (fun _ w => w = w0) (fun _ w => w = w0) (fun w => w = w0);
  saved_json s v : saved s v -> in_i64 s.(sn_Version) /\
    exists j, s.(sn_Values) = Some j /\ jwf j /\ jdepth j <= 2
}.

(* ------------------------------------------------------------------ *)
(** ** The KDE provider *)

Definition kde_keys : list string :=
  ["ProxyType"; "httpProxy"; "httpsProxy"; "socksProxy"; "NoProxyFor"; "Proxy Config Script"]%string.

Definition kde_value (v : list bytes) : kdeSnapshot :=
  match v with
  | [t; h; hs; so; no; pac] => mkKDE (string_of t) (string_of h) (string_of hs) (string_of so)
      (string_of no) (string_of pac)
  | _ => json_zero
  end.

Definition kde_ok (v : list bytes) : Prop :=
  length v = 6%nat /\ Forall (fun b => ascii_text b /\ TrimSpace b = b) v.

Lemma rune_ok_ascii s : ascii_text s -> utf8_valid s = true.
Proof.
  intros Hs. unfold utf8_valid. rewrite runes_ascii by done. clear Hs.
  by induction s.
Qed.

Lemma string_ok_ascii s : ascii_text s -> string_ok (string_of s).
Proof. intros Hs. unfold string_ok. rewrite bytes_of_string_of. by apply rune_ok_ascii. Qed.

Definition kde_json_ok (v : kdeSnapshot) : Prop :=
  string_ok v.(kd_ProxyType) /\ string_ok v.(kd_HTTP) /\ string_ok v.(kd_HTTPS) /\
  string_ok v.(kd_SOCKS) /\ string_ok v.(kd_NoProxy) /\ string_ok v.(kd_PAC).

#[export] Instance kdeSnapshot_laws : JsonLaws kdeSnapshot.
Proof. refine (Build_JsonLaws _ _ kde_json_ok _ _ _); [solve_jwf|solve_depth|solve_dec]. Defined.

Lemma kde_value_ok v : kde_ok v -> kde_json_ok (kde_value v).
Proof.
  intros [Hl Hv]. destruct v as [|a [|b [|c [|d [|e [|f [|]]]]]]]; try done.
  rewrite !Forall_cons in Hv. destruct_and!. unfold kde_json_ok. cbn.
  split_and!; by apply string_ok_ascii.
Qed.

Section KDE.
Context {D : Type} `{CommandLaws D}.
#[local] Instance KDE : SystemProxy D := Linux linuxKDE.

Definition kde_settings (d : D) : list bytes := map (fun k => setting k d) kde_keys.
Definition kde_saved (s : Snapshot) (v : list bytes) : Prop :=
  kde_ok v /\ s = marshalSnapshot (kde_value v).

Lemma spec_kread k (w0 : World D) :
  spec (fun w => w = w0) (kread k)
    (fun s w => s = string_of (setting k w0.(wo_desktop)) /\ w = w0)
    (fun _ w => w = w0) (fun w => w = w0).
Proof.
  eapply spec_bind; [by apply spec_get|]. intros b.
  apply spec_ret. by intros w (-> & ->).
Qed.

(** Writing a key keeps what was written under the others. *)
Lemma spec_kwrite k v (written : list (string * bytes)) fs E :
  TrimSpace v = v -> ~ In k written.*1 ->
  spec (D := D) (fun w => w.(wo_fs) = fs /\
         Forall (fun kv => setting kv.1 w.(wo_desktop) = kv.2) written)
    (kwrite k (string_of v))
    (fun _ w => w.(wo_fs) = fs /\
         Forall (fun kv => setting kv.1 w.(wo_desktop) = kv.2) (written ++ [(k, v)]))
    E (fun w => w.(wo_fs) = fs).
Proof.
  intros Hv Hk. apply spec_set; [by intros ? []|]. intros w [Hf Hw]. split; [done|].
  cbn [wo_desktop]. rewrite bytes_of_string_of. apply Forall_app. split.
  - rewrite Forall_forall in Hw |- *. intros [k' v'] Hin. rewrite set_other; [by apply Hw|].
    intros ->. apply Hk. apply list_elem_of_In. by apply (list_elem_of_fmap_2 fst _ (k', v')).
  - apply Forall_singleton. by apply set_same.
Qed.

Lemma kde_snapshot_saves (w0 : World D) :
  spec (fun w => w = w0) (Linux_Snapshot linuxKDE)
    (fun s w => w = w0 /\ (kde_ok (kde_settings w0.(wo_desktop)) -> kde_saved s (kde_settings w0.(wo_desktop))))
    (fun _ w => w = w0) (fun w => w = w0).
Proof.
  unfold Linux_Snapshot. do 6 (eapply spec_bind; [apply spec_kread|intros ?; apply spec_pure; intros ->]).
  apply spec_ret. intros w ->. by split.
Qed.

Lemma kde_restore_restores s v fs : kde_saved s v ->
  spec (fun w => w.(wo_fs) = fs) (Linux_Restore linuxKDE s)
    (fun _ w => w.(wo_fs) = fs /\ kde_settings w.(wo_desktop) = v)
    (fun _ w => w.(wo_fs) = fs) (fun w => w.(wo_fs) = fs).
Proof.
  intros [Hok ->]. pose proof (kde_value_ok v Hok) as Hj. destruct Hok as [Hl Hv].
  destruct v as [|v1 [|v2 [|v3 [|v4 [|v5 [|v6 [|]]]]]]]; try done.
  rewrite !Forall_cons in Hv. destruct_and!. unfold Linux_Restore.
  eapply spec_bind; [apply spec_result|]. intros s. apply spec_pure. intros Es.
  unfold unmarshalValues in Es. cbn [marshalSnapshot sn_Values] in Es.
  rewrite (@json_dec_to_json _ _ kdeSnapshot_laws _ Hj) in Es. injection Es as <-.
  cbn [kde_value kd_ProxyType kd_HTTP kd_HTTPS kd_SOCKS kd_NoProxy kd_PAC].
  eapply spec_bind.
  { eapply spec_weaken; [apply (spec_kwrite "ProxyType" v1 [] fs (fun _ _ => False))| |intros ? ? HQ; exact HQ|..];
      [done|by intros []|intros w HP; by split|done|done]. }
  intros ?.
  do 5 (eapply spec_bind;
    [eapply spec_ignore; [apply (spec_kwrite _ _ _ _ (fun _ _ => False));
       [done|cbn; intuition discriminate]|done]|intros ?; cbn [app]]).
  apply spec_ret. intros w (Hf & Hs). split; [done|]. rewrite !Forall_cons in Hs. cbn [fst snd] in Hs.
  destruct_and!. unfold kde_settings, kde_keys. cbn [map]. congruence.
Qed.

Lemma kde_restore_total s v (w : World D) : kde_saved s v ->
  exists w', Linux_Restore linuxKDE s [] w = (Val tt, [], w').
Proof.
  intros [Hok ->]. unfold Linux_Restore, mbind at 1, unmarshalValues.
  cbn [marshalSnapshot sn_Values].
  rewrite (@json_dec_to_json _ _ kdeSnapshot_laws _ (kde_value_ok v Hok)).
  eexists. reflexivity.
Qed.

Lemma kde_apply_reverts e (w0 : World D) :
  spec (fun w => w = w0) (Linux_Apply linuxKDE e) (fun _ w => w.(wo_fs) = w0.(wo_fs))
    (fun _ w => w.(wo_fs) = w0.(wo_fs) /\ kde_settings w.(wo_desktop) = kde_settings w0.(wo_desktop))
    (fun w => w.(wo_fs) = w0.(wo_fs)).
Proof.
  unfold Linux_Apply. eapply spec_bind.
  { eapply spec_weaken; [apply spec_result|intros w HP; exact HP|..];
      [intros ? ? HQ; exact HQ| |intros ? HC; exact HC].
    by intros ? ? ->. }
  intros hp. apply spec_pure. intros _.
  eapply spec_weaken with (P := fun w => w.(wo_fs) = w0.(wo_fs)) (E := fun _ _ => False)
    (C := fun w => w.(wo_fs) = w0.(wo_fs)); [|by intros ? ->|intros ? ? HQ; exact HQ|done|done].
  do 3 (eapply spec_bind; [apply (spec_set _ _ _ (fun w => w.(wo_fs) = w0.(wo_fs))); done|intros ?]).
  destruct (empty_string _); [|by apply spec_set].
  by apply spec_ret.
Qed.

Lemma kde_matches_reads s e (w0 : World D) :
  spec (fun w => w = w0) (Linux_Matches linuxKDE s e) (fun _ w => w = w0) (fun _ w => w = w0) (fun w => w = w0).
Proof.
  unfold Linux_Matches. eapply spec_bind; [apply spec_result|]. intros v. apply spec_pure. intros _.
  by apply spec_ret.
Qed.

Lemma kde_saved_json s v : kde_saved s v -> in_i64 s.(sn_Version) /\
  exists j, s.(sn_Values) = Some j /\ jwf j /\ jdepth j <= 2.
Proof.
  intros [Hok ->]. split; [done|]. eexists. split; [done|]. split.
  - apply (to_json_jwf (A := kdeSnapshot)). by apply kde_value_ok.
  - transitivity (1 + 1); [|done]. apply jdepth_obj; [done|].
    solve_members ltac:(apply member_depth; done).
Qed.

#[local] Instance KDE_laws : SystemProxyLaws D (list bytes) := {|
  settings := kde_settings;
  settings_ok := kde_ok;
  saved := kde_saved;
  Snapshot_saves := kde_snapshot_saves;
  Restore_restores := kde_restore_restores;
  Restore_total := kde_restore_total;
  Apply_reverts := kde_apply_reverts;
  Matches_reads := kde_matches_reads;
  saved_json := kde_saved_json
|}.
End KDE.

(* ------------------------------------------------------------------ *)
(** ** The journal file *)

Definition Endpoint_ok (e : Endpoint) : Prop :=
  string_ok e.(ep_HTTP) /\ string_ok e.(ep_HTTPS) /\ string_ok e.(ep_SOCKS).

#[export] Instance Endpoint_laws : JsonLaws Endpoint.
Proof. refine (Build_JsonLaws _ _ Endpoint_ok _ _ _); [solve_jwf|solve_depth|solve_dec]. Defined.

(** A journal this version writes. *)
Definition Journal_ok (j : Journal) : Prop :=
  j.(jn_Version) = 1 /\ in_i64 j.(jn_PID) /\ Endpoint_ok j.(jn_Applied) /\
  in_i64 j.(jn_Before).(sn_Version) /\
  (exists v, j.(jn_Before).(sn_Values) = Some v /\ jwf v /\ jdepth v <= 2) /\
  string_ok j.(jn_Time) /\ rfc3339 (bytes_of j.(jn_Time)) = true.

Lemma dec_enc_time t cur : rfc3339 (bytes_of t) = true -> dec_time (enc_string t) cur = (t, None).
Proof. intros H. unfold dec_time, enc_string. by rewrite H, string_of_bytes_of. Qed.

Lemma dec_Snapshot v values : in_i64 v ->
  json_dec (to_json (mkSnapshot v (Some values))) json_zero = (mkSnapshot v (Some values), None).
Proof.
  intros H. cbn [to_json json_dec json_zero Snapshot_Json sn_Version sn_Values default]. unfold member.
  solve_dec_struct ltac:(first [by apply dec_enc_i64|reflexivity]).
Qed.

Lemma dec_Journal j : Journal_ok j -> json_dec (to_json j) json_zero = (j, None).
Proof.
  destruct j as [ver pid ap [bv vals] t]. intros (Hv & Hp & He & Hb & (v & Hvals & _) & _ & Hr).
  cbn [jn_Version jn_PID jn_Applied jn_Before jn_Time sn_Version sn_Values] in *. subst ver vals.
  cbn [to_json json_dec json_zero Journal_Json jn_Version jn_PID jn_Applied jn_Before jn_Time].
  unfold member. solve_dec_struct ltac:(first [by apply dec_enc_i64|by apply dec_enc_time|by apply dec_Snapshot
    |exact (@json_dec_to_json _ _ Endpoint_laws _ He)]).
Qed.

Lemma jwf_Journal j : Journal_ok j -> jwf (to_json j) /\ jdepth (to_json j) <= max_depth.
Proof.
  intros (Hv & Hp & He & Hb & (v & Hvals & Hw & Hd) & Ht & _). split.
  - apply jwf_JObj. solve_members ltac:(apply member_jwf; [reflexivity|first [apply jwf_enc_int
      |by apply jwf_enc_string|exact (to_json_jwf (A := Endpoint) _ He)|idtac]]).
    apply jwf_JObj. rewrite Hvals.
    solve_members ltac:(apply member_jwf; [reflexivity|first [apply jwf_enc_int|done]]).
  - transitivity (1 + 4); [|done]. apply jdepth_obj; [done|].
    solve_members ltac:(apply member_depth; try done).
    + transitivity (1 + 1); [|done]. apply jdepth_obj; [done|].
      solve_members ltac:(apply member_depth; done).
    + transitivity (1 + 2); [|done]. apply jdepth_obj; [done|]. rewrite Hvals.
      solve_members ltac:(apply member_depth; done).
Qed.

Lemma decode_journal_bytes j : Journal_ok j -> decode_journal (journal_bytes j) = Ok j.
Proof.
  intros Hok. destruct (jwf_Journal j Hok) as [Hw Hd]. unfold decode_journal, journal_bytes, Unmarshal.
  rewrite parse_print_indent by (done || by repeat constructor).
  rewrite dec_Journal by done. destruct Hok as [-> _]. done.
Qed.

(* ------------------------------------------------------------------ *)
(** ** A concrete desktop *)

(** Settings as a map; an absent key reads as an empty line. *)
#[export] Instance store_Commands : Commands (gmap string bytes) := {|
  cmd_get k d := default [] (d !! k);
  cmd_set k v d := <[k := v]> d
|}.

#[export] Instance store_laws : CommandLaws (gmap string bytes).
Proof.
  split; intros; unfold setting; cbn.
  - by rewrite lookup_insert_eq.
  - by rewrite lookup_insert_ne.
Qed.

Definition store_world (l : list (string * bytes)) : World (gmap string bytes) :=
  mkWorld (list_to_map l) (mkFS ∅ 0).

(** The GNOME snapshot holds the host of a proxy without its port, and
    [Restore] looks for host and port in it: a user's proxy is not restored but
    erased, even when no command fails and nothing else happens. *)
Theorem gnome_restore_erases_proxy :
  let key := (gnome_http +:+ " host")%string in
  let w := store_world [(key, bytes_of "proxy.corp"); ((gnome_http +:+ " port")%string, bytes_of "3128")] in
  match mbind (Linux_Snapshot linuxGSettings) (Linux_Restore linuxGSettings) [] w with
  | (Val _, _, w') => setting key w.(wo_desktop) = bytes_of "proxy.corp" /\ setting key w'.(wo_desktop) = []
  | _ => False
  end.
Proof. vm_compute. split; reflexivity. Qed.
