(* ===== verification/Runtime.v ===== *)
(** * The client runtime: [internal/client/runtime.go]

    Starting and shutting down the client around the desktop's proxy settings:
    the journal that is written before the settings are changed and removed
    after they are restored.  The desktop is any provider ([SystemProxy]); the
    answers of the manager and of the two listeners, the process ID and the
    clock are arguments, and the calls made on the manager and the listeners
    are recorded in order.  The code runs in the monad of [SystemProxy.v], so
    that a process may die at any point. *)
From S2P Require Import Prelude GoStrings GoTime Json Codec Protocol GoText GoFS GoNet Config.
From S2P Require Import SystemProxy SystemProxyProps.

#[local] Open Scope machine_scope.

Record RuntimeConfig := mkRuntimeConfig {
  rc_DataDirectory : string;
  rc_SOCKS5 : bool;
  rc_IdleTimeout : Duration
}.

(** Calls on the other components. *)
Inductive call : Type := ConnectManager | CloseManager | CloseHTTP | CloseSOCKS.

Record Runtime := mkRuntime {
  rt_config : RuntimeConfig;
  rt_calls : list call;
  rt_httpServer : bool;
  rt_socksServer : bool;
  rt_journalPath : string;
  rt_journal : Journal;
  rt_hasJournal : bool;
  rt_httpAddr : string;
  rt_socksAddr : string;
  rt_exitID : string;
  rt_fallback : bool;
  rt_started : bool;
  rt_stopped : bool;
  rt_closed : bool
}.

Definition NewRuntime (config : RuntimeConfig) : Runtime :=
  let idle := if rc_IdleTimeout config <=? 0 then 5 * Minute else rc_IdleTimeout config in
  mkRuntime (mkRuntimeConfig config.(rc_DataDirectory) config.(rc_SOCKS5) idle) [] false false ""
    json_zero false "" "" "auto" false false false false.

Definition with_call (c : call) (r : Runtime) : Runtime :=
  mkRuntime r.(rt_config) (r.(rt_calls) ++ [c]) r.(rt_httpServer) r.(rt_socksServer)
    r.(rt_journalPath) r.(rt_journal) r.(rt_hasJournal) r.(rt_httpAddr) r.(rt_socksAddr)
    r.(rt_exitID) r.(rt_fallback) r.(rt_started) r.(rt_stopped) r.(rt_closed).
Definition with_started (r : Runtime) : Runtime :=
  mkRuntime r.(rt_config) r.(rt_calls) r.(rt_httpServer) r.(rt_socksServer)
    r.(rt_journalPath) r.(rt_journal) r.(rt_hasJournal) r.(rt_httpAddr) r.(rt_socksAddr)
    r.(rt_exitID) r.(rt_fallback) true r.(rt_stopped) r.(rt_closed).
Definition markStopped (r : Runtime) : Runtime :=
  mkRuntime r.(rt_config) r.(rt_calls) r.(rt_httpServer) r.(rt_socksServer)
    r.(rt_journalPath) r.(rt_journal) r.(rt_hasJournal) r.(rt_httpAddr) r.(rt_socksAddr)
    r.(rt_exitID) r.(rt_fallback) r.(rt_started) true r.(rt_closed).
Definition with_closed (r : Runtime) : Runtime :=
  mkRuntime r.(rt_config) r.(rt_calls) r.(rt_httpServer) r.(rt_socksServer)
    r.(rt_journalPath) r.(rt_journal) r.(rt_hasJournal) r.(rt_httpAddr) r.(rt_socksAddr)
    r.(rt_exitID) r.(rt_fallback) r.(rt_started) r.(rt_stopped) true.
Definition with_http (addr : string) (r : Runtime) : Runtime :=
  mkRuntime r.(rt_config) r.(rt_calls) true r.(rt_socksServer)
    r.(rt_journalPath) r.(rt_journal) r.(rt_hasJournal) addr r.(rt_socksAddr)
    r.(rt_exitID) r.(rt_fallback) r.(rt_started) r.(rt_stopped) r.(rt_closed).
Definition with_socks (addr : string) (r : Runtime) : Runtime :=
  mkRuntime r.(rt_config) r.(rt_calls) r.(rt_httpServer) true
    r.(rt_journalPath) r.(rt_journal) r.(rt_hasJournal) r.(rt_httpAddr) addr
    r.(rt_exitID) r.(rt_fallback) r.(rt_started) r.(rt_stopped) r.(rt_closed).
Definition with_journal (path : string) (j : Journal) (has : bool) (r : Runtime) : Runtime :=
  mkRuntime r.(rt_config) r.(rt_calls) r.(rt_httpServer) r.(rt_socksServer)
    path j has r.(rt_httpAddr) r.(rt_socksAddr)
    r.(rt_exitID) r.(rt_fallback) r.(rt_started) r.(rt_stopped) r.(rt_closed).
Definition with_exit (exitID : string) (fallback : bool) (r : Runtime) : Runtime :=
  mkRuntime r.(rt_config) r.(rt_calls) r.(rt_httpServer) r.(rt_socksServer)
    r.(rt_journalPath) r.(rt_journal) r.(rt_hasJournal) r.(rt_httpAddr) r.(rt_socksAddr)
    exitID fallback r.(rt_started) r.(rt_stopped) r.(rt_closed).

(** [SetExit], given the manager's catalog. *)
Definition SetExit (catalog : list ExitInfo) (exitID : string) (fallback : bool) (r : Runtime)
  : option error * Runtime :=
  let exitID := string_of (TrimSpace (bytes_of exitID)) in
  if empty_string exitID then (Some (ENew "exit ID is required"), r)
  else if negb (bool_decide (exitID = "auto"%string)) &&
          negb (existsb (fun e => bool_decide (e.(ei_ID) = exitID)) catalog)
  then (Some (ENew ("unknown exit " +:+ Quote exitID)), r)
  else (None, with_exit exitID fallback r).

(** What the rest of the system answers during [Start]. *)
Record start_env := mkStartEnv {
  se_connect : option error;       (* manager.Connect *)
  se_http : result string;         (* httpServer.Start *)
  se_socks : result string;        (* socksServer.Start *)
  se_pid : Z;
  se_now : string
}.

Section Client.
Context {D : Type} `{SystemProxy D}.

Definition recoverJournal (r : Runtime) : M D unit :=
  let path := JournalPath r.(rt_config).(rc_DataDirectory) in
  j <- mtry (ReadJournal path) ;;
  match j with
  | Err e => if errors_Is e ErrNotExist then mret tt else mfail e
  | Ok journal => sp_Restore journal.(jn_Before) ;;; RemoveJournal path
  end.

(** [return err] after [markStopped()]. *)
Definition stop (e : error) (r : Runtime) : M D (Runtime * option error) :=
  mret (markStopped r, Some e).

(** The last part of [Start]: snapshot, journal, then the settings. *)
Definition apply_proxy (env : start_env) (r : Runtime) : M D (Runtime * option error) :=
  let endpoint := mkEndpoint r.(rt_httpAddr) r.(rt_httpAddr) r.(rt_socksAddr) in
  snapshot <- mtry sp_Snapshot ;;
  match snapshot with
  | Err e => if errors_Is e ErrUnsupported then mret (r, None) else stop e r
  | Ok snapshot =>
      let journal := mkJournal 1 env.(se_pid) endpoint snapshot env.(se_now) in
      let path := JournalPath r.(rt_config).(rc_DataDirectory) in
      written <- mtry (WriteJournal path journal) ;;
      match written with
      | Err e => stop (EWrap "write proxy journal: " e) r
      | Ok _ =>
          applied <- mtry (sp_Apply endpoint) ;;
          match applied with
          | Err e =>
              mignore (RemoveJournal path) ;;;
              if errors_Is e ErrUnsupported then mret (r, None)
              else stop (EWrap "apply system proxy: " e) r
          | Ok _ => mret (with_journal path journal true r, None)
          end
      end
  end.

Definition Start (env : start_env) (r : Runtime) : M D (Runtime * option error) :=
  if r.(rt_closed) then mret (r, Some (ENew "client runtime is shut down"))
  else if r.(rt_started) then mret (r, Some (ENew "client runtime is already started"))
  else
    recovered <- mtry (recoverJournal r) ;;
    match recovered with
    | Err e => stop (EWrap "recover stale proxy journal: " e) r
    | Ok _ =>
        let r := with_call ConnectManager r in
        match env.(se_connect) with
        | Some e => stop e r
        | None =>
            let r := with_started r in
            match env.(se_http) with
            | Err e => stop e (with_call CloseManager r)
            | Ok addr =>
                let r := with_http addr r in
                if r.(rt_config).(rc_SOCKS5) then
                  match env.(se_socks) with
                  | Err e => stop e (with_call CloseManager (with_call CloseHTTP r))
                  | Ok addr => apply_proxy env (with_socks addr r)
                  end
                else apply_proxy env r
            end
        end
    end.

Definition restoreProxy (r : Runtime) : M D (Runtime * option error) :=
  if negb r.(rt_hasJournal) then mret (r, None)
  else
    current <- mtry sp_Snapshot ;;
    match current with
    | Err e => mret (r, Some (EWrap "snapshot current proxy settings: " e))
    | Ok current =>
        applied <- mtry (sp_Matches current r.(rt_journal).(jn_Applied)) ;;
        match applied with
        | Err e => mret (r, Some (EWrap "verify applied proxy settings: " e))
        | Ok false =>
            mret (r, Some (ENew "system proxy settings changed externally; journal preserved"))
        | Ok true =>
            restored <- mtry (sp_Restore r.(rt_journal).(jn_Before)) ;;
            match restored with
            | Err e => mret (r, Some (EWrap "restore system proxy settings: " e))
            | Ok _ =>
                removed <- mtry (RemoveJournal r.(rt_journalPath)) ;;
                match removed with
                | Err e => mret (r, Some e)
                | Ok _ => mret (with_journal r.(rt_journalPath) r.(rt_journal) false r, None)
                end
            end
        end
    end.

(** [Shutdown]; waiting for the connections to drain changes nothing here. *)
Definition Shutdown (r : Runtime) : M D (Runtime * option error) :=
  if r.(rt_closed) then mret (r, None)
  else
    let r := with_closed r in
    let r := if r.(rt_httpServer) then with_call CloseHTTP r else r in
    let r := if r.(rt_socksServer) then with_call CloseSOCKS r else r in
    restoreProxy (with_call CloseManager r).
End Client.

(* ------------------------------------------------------------------ *)
(** ** Lives of the client *)

(** A process: it starts, and either shuts down or just ends; [lf_schedule]
    says which of its actions fail and when it dies. *)
Record life := mkLife { lf_env : start_env; lf_shutdown : bool; lf_schedule : list event }.

Definition live {D} `{SystemProxy D} (cfg : RuntimeConfig) (l : life) (w : World D) : World D :=
  (mbind (Start l.(lf_env) (NewRuntime cfg)) (fun r =>
     if l.(lf_shutdown) then mbind (Shutdown r.1) (fun _ => mret tt) else mret tt)
   l.(lf_schedule) w).2.

Definition live_all {D} `{SystemProxy D} (cfg : RuntimeConfig) (ls : list life) (w : World D) : World D :=
  fold_left (fun w l => live cfg l w) ls w.

(** Addresses and times that are text, and no failing desktop command. *)
Definition life_ok (l : life) : Prop :=
  (forall a, l.(lf_env).(se_http) = Ok a -> string_ok a) /\
  (forall a, l.(lf_env).(se_socks) = Ok a -> string_ok a) /\
  in_i64 l.(lf_env).(se_pid) /\ string_ok l.(lf_env).(se_now) /\
  rfc3339 (bytes_of l.(lf_env).(se_now)) = true /\ calm l.(lf_schedule).

Section CrashSafety.
Context {D V : Type} `{SystemProxyLaws D V}.
Variables (path : string) (v0 : V).
Implicit Types (w : World D).

Definition absent w : Prop := w.(wo_fs).(fs_files) !! path = None.
Definition journalled w : Prop := exists f j, w.(wo_fs).(fs_files) !! path = Some f /\
  decode_journal f.(fl_data) = Ok j /\ saved j.(jn_Before) v0.
Definition original w : Prop := settings w.(wo_desktop) = v0.

(** The user's settings are in place, or the journal on disk holds them. *)
Definition safe w : Prop := (absent w /\ original w) \/ journalled w.

Lemma journalled_fs w w' : w'.(wo_fs) = w.(wo_fs) -> journalled w -> journalled w'.
Proof. unfold journalled. by intros ->. Qed.

Lemma RemoveJournal_spec :
  spec (fun w => original w /\ (absent w \/ journalled w)) (RemoveJournal path)
    (fun _ w => absent w /\ original w) (fun _ => safe) safe.
Proof.
  assert (forall w, original w /\ (absent w \/ journalled w) -> safe w) as Hsafe.
  { intros w [Ho [Ha|Hj]]; [by left|by right]. }
  eapply spec_bind.
  - eapply (spec_try _ _ (fun _ w => absent w /\ original w)
      (fun e w => (original w /\ (absent w \/ journalled w)) /\
                  (errors_Is e ErrNotExist = true -> absent w))).
    apply spec_action; [|by intros; apply Hsafe].
    intros w fault Hw Hf. destruct fault as [[e n]|].
    + split; [done|]. by rewrite (Hf e n eq_refl).
    + destruct Hw as [Ho Hj]. destruct (fs_files (wo_fs w) !! path) eqn:E; [|done].
      split; [|done]. unfold absent. cbn. apply lookup_delete_eq.
  - intros [[]|e]; [by apply spec_ret|]. destruct (errors_Is e ErrNotExist) eqn:E.
    + apply spec_ret. intros w [[Ho _] Ha]. by auto.
    + apply spec_fail. intros w [Hw _]. by apply Hsafe.
Qed.

Lemma ReadJournal_spec :
  spec safe (ReadJournal path) (fun j w => journalled w /\ saved j.(jn_Before) v0)
    (fun e w => safe w /\ (errors_Is e ErrNotExist = true -> absent w /\ original w)) safe.
Proof.
  eapply spec_bind with (Q := fun data w => exists j, decode_journal data = Ok j /\
    saved j.(jn_Before) v0 /\ journalled w).
  - intros sc w Hs Hw. unfold fs_ReadFile, ReadFile. destruct (next_calm sc Hs) as [Hs' He].
    destruct (next sc) as [[|e|e n|n] sc']; cbn in Hs', He; try done.
    + destruct Hw as [[Ha Ho]|(f & j & Hf & Hd & Hj)].
      * rewrite Ha. split; [done|]. split; [by left|done].
      * rewrite Hf. split; [done|]. exists j. split_and!; try done. by exists f, j.
    + split; [done|]. split; [done|]. by rewrite He.
  - intros data. intros sc w Hs (j & Hd & Hj & Hw). rewrite Hd. split; [done|]. by split.
Qed.

Lemma WriteJournal_spec j : Journal_ok j -> saved j.(jn_Before) v0 ->
  spec (fun w => absent w /\ original w) (WriteJournal path j)
    (fun _ w => journalled w /\ original w) (fun _ w => absent w /\ original w)
    (fun w => absent w /\ original w).
Proof.
  intros Hok Hj. pose proof (temp_name_ne path) as Hne.
  set (pre := fun w => absent w /\ original w).
  assert (forall w fs, pre w -> fs.(fs_files) !! path = w.(wo_fs).(fs_files) !! path ->
    pre (with_fs fs w)) as Hpre.
  { intros w fs [Ha Ho] E. split; [|done]. unfold absent in *. cbn. by rewrite E. }
  eapply spec_bind with (Q := fun _ => pre).
  { apply spec_action; [|by intros; apply Hpre]. intros w [[e n]|] Hw _; by apply Hpre. }
  intros _. eapply spec_bind with (Q := fun _ w => pre w /\
    exists m, w.(wo_fs).(fs_files) !! temp_name path = Some (mkFile (journal_bytes j) m)).
  { apply spec_action.
    - intros w fault Hw _.
      pose proof (WriteFile_other ((fun f => WriteFails f.1 f.2) <$> fault) (temp_name path)
        (journal_bytes j) 0x180 (wo_fs w) path ltac:(done)) as Ho.
      destruct (WriteFile _ _ _ _ _) as [[e|] fs] eqn:E; [by apply Hpre|].
      split; [by apply Hpre|]. apply WriteFile_ok in E as (m & Hm & _). exists m. cbn.
      rewrite Hm. apply lookup_insert_eq.
    - intros w n Hw. apply Hpre; [done|]. by apply WriteFile_other. }
  intros _. eapply spec_bind.
  - eapply (spec_try _ _ (fun _ w => journalled w /\ original w) (fun _ => pre)).
    apply spec_action; [|intros w n [Hw _]; by destruct w].
    intros w fault [Hw (m & Hm)] _. unfold Rename. destruct fault as [[e n]|]; [by apply Hpre|].
    cbn [fmap option_fmap option_map]. rewrite Hm. split; [|by destruct Hw].
    exists (mkFile (journal_bytes j) m), j. cbn. rewrite lookup_insert_eq.
    split_and!; try done. by apply decode_journal_bytes.
  - intros [[]|e]; [by apply spec_ret|]. eapply spec_bind with (Q := fun _ => pre).
    + eapply spec_ignore with (E := fun _ => pre); [|done].
      apply spec_action; [|by intros; apply Hpre]. intros w fault Hw _.
      destruct fault as [[? ?]|]; [by apply Hpre|].
      destruct (fs_files (wo_fs w) !! temp_name path); [|by apply Hpre].
      apply Hpre; [done|]. cbn. by rewrite lookup_delete_ne.
    + intros _. by apply spec_fail.
Qed.

Lemma spec_from {A} (m : M D A) (P : World D -> Prop) Q E C :
  (forall w0, P w0 -> spec (fun w => w = w0) m Q E C) -> spec P m Q E C.
Proof. intros Hm sc w Hs HP. by apply (Hm w HP). Qed.

(** Restoring from the journal: until it is done the journal stays. *)
Lemma Restore_spec s : saved s v0 ->
  spec journalled (sp_Restore s) (fun _ w => original w /\ journalled w) (fun _ => safe) safe.
Proof.
  intros Hs. apply spec_from. intros w0 Hw.
  eapply spec_weaken; [by apply (Restore_restores s v0 (wo_fs w0))|..]; cbn.
  - by intros w ->.
  - intros _ w [Hf Ho]. split; [done|]. by apply (journalled_fs w0).
  - intros _ w Hf. right. by apply (journalled_fs w0).
  - intros w Hf. right. by apply (journalled_fs w0).
Qed.

Lemma recoverJournal_spec r : JournalPath r.(rt_config).(rc_DataDirectory) = path ->
  spec safe (recoverJournal r) (fun _ w => absent w /\ original w) (fun _ => safe) safe.
Proof.
  intros Hp. unfold recoverJournal. rewrite Hp. eapply spec_bind; [apply spec_try, ReadJournal_spec|].
  intros [j|e]; cbn.
  - apply spec_from. intros w0 [Hw Hj]. eapply spec_bind.
    + eapply spec_weaken; [by apply Restore_spec|by intros w ->|intros ? ? HQ; exact HQ|done|done].
    + intros ?. eapply spec_weaken; [apply RemoveJournal_spec|naive_solver|done|done|done].
  - destruct (errors_Is e ErrNotExist); [apply spec_ret|apply spec_fail]; naive_solver.
Qed.

Definition rt_inv (r : Runtime) w : Prop :=
  safe w /\ (r.(rt_hasJournal) = true ->
    saved r.(rt_journal).(jn_Before) v0 /\ r.(rt_journalPath) = path /\ journalled w).

Definition text_env (env : start_env) : Prop :=
  in_i64 env.(se_pid) /\ string_ok env.(se_now) /\ rfc3339 (bytes_of env.(se_now)) = true.

Lemma apply_proxy_spec env r :
  JournalPath r.(rt_config).(rc_DataDirectory) = path -> settings_ok v0 -> text_env env ->
  string_ok r.(rt_httpAddr) -> string_ok r.(rt_socksAddr) -> r.(rt_hasJournal) = false ->
  spec (fun w => absent w /\ original w) (apply_proxy env r) (fun x w => rt_inv x.1 w)
    (fun _ => safe) safe.
Proof.
  intros Hp Hok (He1 & He2 & He3) Hh Hs Hn. unfold apply_proxy. rewrite Hp.
  assert (forall w : World D, absent w /\ original w -> safe w) as Hsafe by (by left).
  assert (forall r' w, r'.(rt_hasJournal) = false -> safe w -> rt_inv r' w) as Hinv.
  { intros r' w E Hw. split; [done|]. by rewrite E. }
  eapply spec_bind with (Q := fun s w => match s with
    | Ok s => saved s v0 /\ absent w /\ original w | Err _ => absent w /\ original w end).
  { apply spec_from. intros w0 [Ha Ho]. eapply spec_weaken with (E' := fun _ => safe);
      [apply spec_try, (Snapshot_saves w0)|by intros w ->|..]; cbn.
    - intros [s|e] w; [intros [-> Hs']; rewrite Ho in Hs'; by auto|by intros ->].
    - intros e w Hw. exact Hw.
    - intros w ->. by left. }
  intros [s|e]; cbn.
  2:{ destruct (errors_Is e ErrUnsupported); apply spec_ret; intros w Hw; by apply Hinv, Hsafe. }
  apply spec_pure. intros Hsv. set (j := mkJournal _ _ _ _ _).
  assert (Journal_ok j) as Hj.
  { destruct (saved_json s v0 Hsv) as [Hv Hvals]. unfold Journal_ok. cbn. by split_and!. }
  eapply spec_bind; [eapply spec_try, (spec_weaken _ _ _ _ _ _ _ _ safe (WriteJournal_spec j Hj Hsv));
    [intros w Hw; exact Hw|intros ? ? HQ; exact HQ|intros ? ? HE; exact HE|exact Hsafe]|].
  intros [[]|e]; cbn.
  2:{ apply spec_ret. intros w Hw. by apply Hinv, Hsafe. }
  eapply spec_bind with (Q := fun x w => journalled w /\ match x with Ok _ => True | Err _ => original w end).
  { apply spec_from. intros w0 [Hw Ho]. eapply spec_weaken with (E' := fun _ => safe);
      [apply spec_try, (Apply_reverts _ w0)|by intros w ->|..]; cbn.
    - intros [[]|e] w; [intros Hf|intros [Hf Hs']]; (split; [by apply (journalled_fs w0)|]); [done|].
      unfold original. by rewrite Hs'.
    - intros e w Hf. exact Hf.
    - intros w Hf. right. by apply (journalled_fs w0). }
  intros [[]|e]; cbn.
  - apply spec_ret. intros w [Hw _]. split; [by right|]. by intros _.
  - eapply spec_bind with (Q := fun _ => safe).
    + eapply spec_ignore with (E := fun _ => safe); [|done].
      eapply spec_weaken; [apply RemoveJournal_spec|naive_solver|intros ? w; apply Hsafe|done|done].
    + intros _. destruct (errors_Is e ErrUnsupported); apply spec_ret; intros w Hw; by apply Hinv.
Qed.

Lemma Start_spec env cfg :
  JournalPath cfg.(rc_DataDirectory) = path -> settings_ok v0 -> text_env env ->
  (forall a, env.(se_http) = Ok a -> string_ok a) ->
  (forall a, env.(se_socks) = Ok a -> string_ok a) ->
  spec safe (Start env (NewRuntime cfg)) (fun x w => rt_inv x.1 w) (fun _ => safe) safe.
Proof.
  intros Hp Hok He Hh Hs. unfold Start. cbn [NewRuntime rt_closed rt_started].
  assert (forall r e (P : World D -> Prop), r.(rt_hasJournal) = false -> (forall w, P w -> safe w) ->
    spec P (stop e r) (fun x w => rt_inv x.1 w) (fun _ => safe) safe) as Hstop.
  { intros r e P E HP. apply spec_ret. intros w Hw. split; [by apply HP|]. cbn. by rewrite E. }
  eapply spec_bind; [by apply spec_try, recoverJournal_spec|]. intros [[]|e]; [|by apply Hstop].
  assert (forall w : World D, absent w /\ original w -> safe w) as Hsafe by (by left).
  destruct (se_connect env); [by apply Hstop|].
  destruct (se_http env) as [addr|]; [|by apply Hstop].
  cbn [with_http with_started with_call NewRuntime rt_config rc_SOCKS5].
  destruct (rc_SOCKS5 cfg); [destruct (se_socks env) as [socks|]; [|by apply Hstop]|];
    apply apply_proxy_spec; cbn; auto; done.
Qed.

Lemma restoreProxy_spec r :
  settings_ok v0 ->
  spec (rt_inv r) (restoreProxy r) (fun _ => safe) (fun _ => safe) safe.
Proof.
  intros Hok. unfold restoreProxy. destruct (rt_hasJournal r) eqn:Hj; cbn [negb].
  2:{ apply spec_ret. by intros w []. }
  eapply spec_weaken with (P := fun w => (saved r.(rt_journal).(jn_Before) v0 /\
    r.(rt_journalPath) = path) /\ journalled w) (E := fun _ => safe) (C := safe);
    [|intros w [_ Hr]; naive_solver|intros ? ? HQ; exact HQ|done|done].
  apply spec_pure. intros [Hs Hp]. rewrite Hp.
  assert (forall w : World D, journalled w -> safe w) as Hsafe by (by right).
  eapply spec_bind with (Q := fun _ => journalled).
  { apply spec_from. intros w0 Hw. eapply spec_weaken with (E' := fun _ => safe) (C' := safe);
      [apply spec_try, (Snapshot_saves w0)|by intros w ->|..]; cbn.
    - intros [? | ?] w; naive_solver.
    - intros e w HE. exact HE.
    - intros w ->. by apply Hsafe. }
  intros [cur|e]; [|by apply spec_ret].
  eapply spec_bind with (Q := fun _ => journalled).
  { apply spec_from. intros w0 Hw. eapply spec_weaken with (E' := fun _ => safe) (C' := safe);
      [apply spec_try, (Matches_reads cur _ w0)|by intros w ->|..]; cbn.
    - intros [? | ?] w; by intros ->.
    - intros e w HE. exact HE.
    - intros w ->. by apply Hsafe. }
  intros [[]|e]; [|by apply spec_ret..].
  eapply spec_bind; [eapply spec_try; by apply Restore_spec|].
  intros [[]|e]; [|by apply spec_ret].
  eapply spec_bind; [eapply spec_try, spec_weaken;
    [apply RemoveJournal_spec|naive_solver|intros ? ? HQ; exact HQ|intros ? ? HE; exact HE|done]|].
  intros [[]|e]; apply spec_ret; cbn; [|done]. intros w Hw. by left.
Qed.

Lemma live_safe cfg l w :
  JournalPath cfg.(rc_DataDirectory) = path -> settings_ok v0 -> life_ok l -> safe w -> safe (live cfg l w).
Proof.
  intros Hp Hok (Hh & Hs & H1 & H2 & H3 & Hc) Hw. unfold live.
  assert (spec safe (mbind (Start l.(lf_env) (NewRuntime cfg)) (fun r =>
    if l.(lf_shutdown) then mbind (Shutdown r.1) (fun _ => mret tt) else mret tt))
    (fun _ => safe) (fun _ => safe) safe) as Hspec.
  { eapply spec_bind; [by apply Start_spec|]. intros [r e]. cbn [fst].
    destruct (lf_shutdown l); [|by apply spec_ret; intros ? []].
    eapply spec_bind with (Q := fun _ => safe); [|by intros; apply spec_ret].
    unfold Shutdown. destruct (rt_closed r); [by apply spec_ret; intros ? []|].
    eapply spec_weaken; [by apply restoreProxy_spec| |intros ? ? HQ; exact HQ|done|done].
    intros w' Hr. unfold with_closed, with_call. by destruct (rt_httpServer r), (rt_socksServer r). }
  specialize (Hspec (lf_schedule l) w Hc Hw).
  destruct (mbind _ _ (lf_schedule l) w) as [[o sc] w']. cbn. by destruct Hspec as [_ Hs'], o.
Qed.

Lemma live_all_safe cfg ls w :
  JournalPath cfg.(rc_DataDirectory) = path -> settings_ok v0 -> Forall life_ok ls -> safe w ->
  safe (live_all cfg ls w).
Proof.
  intros Hp Hok Hls. revert w. induction Hls as [|l ls Hl _ IH]; intros w Hw; [done|]. cbn.
  apply IH. by apply live_safe.
Qed.

(** With nothing in its way, recovery finishes. *)
Lemma recoverJournal_total r w :
  JournalPath r.(rt_config).(rc_DataDirectory) = path -> safe w ->
  exists w', recoverJournal r [] w = (Val tt, [], w') /\ absent w' /\ original w'.
Proof.
  intros Hp Hw. pose proof (recoverJournal_spec r Hp [] w (Forall_nil_2 _) Hw) as Hs.
  enough (exists w', recoverJournal r [] w = (Val tt, [], w')) as (w' & E).
  { rewrite E in Hs. exists w'. by destruct Hs. }
  clear Hs. unfold recoverJournal, mbind at 1, mtry, ReadJournal, mbind at 1, fs_ReadFile, ReadFile.
  rewrite Hp. cbn [next]. destruct Hw as [[Ha Ho]|(f & j & Hf & Hd & Hj)].
  - rewrite Ha. by eexists.
  - rewrite Hf, Hd. cbn. unfold mbind at 1. destruct (Restore_total _ _ w Hj) as [w1 E]. rewrite E.
    unfold RemoveJournal, mbind, mtry, fs_Remove, fs_action. cbn [next].
    destruct (fs_files (wo_fs w1) !! path); by eexists.
Qed.
End CrashSafety.

(* ------------------------------------------------------------------ *)
(** ** Properties *)

(** C9: the user's proxy settings survive the client, under three assumptions.
    The desktop's provider obeys [SystemProxyLaws]: the KDE and Windows providers
    do, GNOME's does not ([gnome_restore_erases_proxy]).  No command of the desktop
    fails; [failed_apply_keeps_changes] below shows that this is needed.  And
    nobody else changes the settings meanwhile: recovery puts back what the
    journal holds without looking at the current settings.  Then, from a machine
    without a journal, let the client be started any number of times, one after
    the other, with any listener addresses and any failures of the manager, the
    listeners and the file system, each process shutting down properly or dying
    between any two of its actions: the next start's recovery succeeds when
    nothing is in its way, and leaves the settings as the user had them and no
    journal. *)
Theorem crash_safe_settings {D V : Type} `{SystemProxyLaws D V} (cfg : RuntimeConfig)
  (ls : list life) (w : World D)
  (Hlives : Forall life_ok ls)
  (Hnone : w.(wo_fs).(fs_files) !! JournalPath cfg.(rc_DataDirectory) = None)
  (Hok : settings_ok (settings w.(wo_desktop))) :
  exists w',
    recoverJournal (NewRuntime cfg) [] (live_all cfg ls w) = (Val tt, [], w') /\
    w'.(wo_fs).(fs_files) !! JournalPath cfg.(rc_DataDirectory) = None /\
    settings w'.(wo_desktop) = settings w.(wo_desktop).
Proof.
  apply (recoverJournal_total _ (settings (wo_desktop w)) (NewRuntime cfg)); [done|].
  apply (live_all_safe _ _ cfg ls); [done|done|done|by left].
Qed.

(** KDE settings of a user behind a proxy, and a client that is killed while
    it is applying its own. *)
#[local] Existing Instance KDE.
#[local] Existing Instance KDE_laws.
Definition demo_user : World (gmap string bytes) :=
  store_world [("ProxyType", bytes_of "1"); ("httpProxy", bytes_of "proxy.corp:3128")]%string.
Definition demo_config : RuntimeConfig := mkRuntimeConfig "/home/u/.lnproxy" false 0.
Definition demo_start : start_env :=
  mkStartEnv None (Ok "127.0.0.1:4000"%string) (Err EOF) 77 "2024-05-01T10:00:00Z".
Definition demo_killed : life := mkLife demo_start false (repeat Go 12 ++ [Crash 0]).

Lemma crash_safe_settings_witness :
  setting "httpProxy" (live_all demo_config [demo_killed] demo_user).(wo_desktop) <> bytes_of "proxy.corp:3128" /\
  exists w', recoverJournal (NewRuntime demo_config) [] (live_all demo_config [demo_killed] demo_user)
      = (Val tt, [], w') /\
    w'.(wo_fs).(fs_files) !! JournalPath demo_config.(rc_DataDirectory) = None /\
    settings w'.(wo_desktop) = settings demo_user.(wo_desktop).
Proof.
  split; [vm_compute; discriminate|].
  apply (crash_safe_settings demo_config [demo_killed] demo_user).
  - apply Forall_singleton. split_and!; try (vm_compute; done).
    + intros a [= <-]. reflexivity.
    + unfold calm. cbn. repeat (apply Forall_cons; split; [done|]). apply Forall_nil_2.
  - reflexivity.
  - split; [reflexivity|]. vm_compute kde_settings.
    repeat (apply Forall_cons; split;
      [split; [unfold ascii_text; repeat (apply Forall_cons; split; [reflexivity|]); apply Forall_nil_2
              |reflexivity]|]).
    apply Forall_nil_2.
Defined.

(** When applying the settings fails half-way, the journal is removed although
    some settings have been changed already: they are not put back, now or at
    the next start. *)
Theorem failed_apply_keeps_changes :
  let l := mkLife demo_start true (repeat Go 11 ++ [CmdFault (EForeign 1 "exit status 1")]) in
  let user := store_world [("ProxyType", bytes_of "0")]%string in
  let w := live demo_config l user in
  setting "ProxyType" w.(wo_desktop) = bytes_of "1" /\
  w.(wo_fs).(fs_files) !! JournalPath "/home/u/.lnproxy" = None.
Proof. vm_compute. split; reflexivity. Qed.
