(* ===== verification/Exit.v ===== *)
(** * The exit node: [internal/node/exit.go]

    How an exit keeps itself connected ([Run], [connectOnce], [trustConfig]),
    what it says on a connection ([runConnection], [heartbeatLoop]) and how it
    serves a stream.  The results of dialling over QUIC and TLS, of dialling a
    destination and the cancellation of contexts are arguments. *)
From S2P Require Import Prelude GoIO GoStrings GoTime Json Codec Protocol Registry RateLimiter Session.
From S2P Require Import Auth AuthProps GoText GoFS GoNet Config Trust Server.

Record Exit (T : Type) := mkExit {
  ex_config : Node;
  ex_passphrase : bytes;
  ex_active : Z;
  ex_forceTCP : bool;
  ex_trust : option T
}.
Arguments mkExit {T}.
Arguments ex_config {T}.
Arguments ex_passphrase {T}.
Arguments ex_active {T}.
Arguments ex_forceTCP {T}.
Arguments ex_trust {T}.

(** What dialling gives: QUIC, the control stream over it, TLS over TCP. *)
Record dialled (C : Type) := mkDialled {
  dl_quic : option error;
  dl_stream : result C;
  dl_tls : result C
}.
Arguments mkDialled {C}.
Arguments dl_quic {C}.
Arguments dl_stream {C}.
Arguments dl_tls {C}.

Definition addressHost (address : bytes) : bytes :=
  match SplitHostPort address with Err _ => address | Ok (host, _) => host end.

Section ExitNode.
Context {T : Type}.
Implicit Types (e : Exit T).

Definition NewExit (cfg : Node) (passphrase : bytes) : Exit T := mkExit cfg passphrase 0 false None.
Definition UseTCP e : Exit T := mkExit e.(ex_config) e.(ex_passphrase) e.(ex_active) true e.(ex_trust).
Definition UseTrust (trust : T) e : Exit T :=
  mkExit e.(ex_config) e.(ex_passphrase) e.(ex_active) e.(ex_forceTCP) (Some trust).

(** The fingerprint to expect and the store to ask; [get] is [trust.Get]. *)
Definition trustConfig (get : string -> T -> string) (host : string) e : string * option T :=
  if negb (empty_string e.(ex_config).(nd_ServerFingerprint))
  then (e.(ex_config).(nd_ServerFingerprint), None)
  else match e.(ex_trust) with
       | Some trust => (get host trust, Some trust)
       | None => (""%string, None)
       end.

(** [connectOnce]; [run] is [runConnection]. *)
Definition connectOnce {C} (d : dialled C) (run : C -> option error) e : option error :=
  if negb e.(ex_forceTCP) then
    match d.(dl_quic) with
    | None => match d.(dl_stream) with Ok c => run c | Err err => Some err end
    | Some err =>
        if IsTrustError err then Some err
        else
          match d.(dl_tls) with
          | Err tcpErr =>
              if IsTrustError tcpErr then Some tcpErr
              else Some (EWrap ("connect to S over QUIC: " +:+ Error err +:+ "; over TLS: ") tcpErr)
          | Ok c => run c
          end
    end
  else match d.(dl_tls) with Err err => Some err | Ok c => run c end.

(** One turn of [Run]: the result of [connectOnce], and whether the context was
    found cancelled after it or while waiting. *)
Record turn := mkTurn {
  tn_result : option error;
  tn_cancelled : option error;
  tn_interrupted : option error
}.

(** [if delay < 30*time.Second { delay *= 2 }] *)
Definition next_delay (delay : Duration) : Duration :=
  if delay <? 30 * Second then delay * 2 else delay.

(** The loop of [Run]: what it returns, if it does, and how long it waited
    between its attempts. *)
Fixpoint run_loop (delay : Duration) (turns : list turn) : option (option error) * list Duration :=
  match turns with
  | [] => (None, [])
  | t :: rest =>
      match t.(tn_cancelled) with
      | Some err => (Some (Some err), [])
      | None =>
          if match t.(tn_result) with Some err => IsTrustError err | None => false end
          then (Some t.(tn_result), [])
          else
            match t.(tn_interrupted) with
            | Some err => (Some (Some err), [])
            | None =>
                let '(r, waits) := run_loop (next_delay delay) rest in (r, delay :: waits)
            end
      end
  end.

Definition Run (turns : list turn) e : option (option error) * list Duration :=
  match NormalizeServerAddress (bytes_of e.(ex_config).(nd_ServerAddress)) with
  | Err err => (Some (Some err), [])
  | Ok _ => run_loop Second turns
  end.

Definition registration e : ExitRegistration :=
  mkExitRegistration e.(ex_config).(nd_ExitID) e.(ex_config).(nd_ExitName)
    e.(ex_config).(nd_Capacity) ["tcp"%string].

(** [runConnection] until it waits for the session to end: the handshake, the
    session and the registration. *)
Definition runConnection (IDKey : bytes -> bytes -> Z -> Z -> Z -> Z -> bytes) (rw : ReadWriter) e
  : result Session * ReadWriter :=
  match ClientHandshakePassword IDKey e.(ex_passphrase) Auth.RoleExit rw with
  | (Some err, rw) => (Err err, rw)
  | (None, rw) =>
      match Start (Ok rw.(rw_out)) true (New (mkConfig e.(ex_config).(nd_IdleTimeout) 0)) with
      | (Some err, _) => (Err err, rw)
      | (None, sess) =>
          match writeFrameJSON FrameRegister 0 (registration e) sess with
          | (Some err, _) => (Err err, rw)
          | (None, sess) => (Ok sess, rw)
          end
      end
  end.

(** What it returns once the session has ended. *)
Definition runConnection_end (sess : Session) : option error :=
  match sess.(ss_err) with
  | Some err => if errors_Is err ErrClosed then None else Some err
  | None => None
  end.

(** A tick of [heartbeatLoop]; an error ends the loop. *)
Definition heartbeat_tick (now : Time) (sess : Session) e : option error * Session :=
  writeFrameJSON FrameHeartbeat 0
    (mkHeartbeat e.(ex_config).(nd_ExitID) (wrap_i64 e.(ex_active)) e.(ex_config).(nd_Capacity)
       (UnixMilli now)) sess.

(** [serve] on the stream [p]; [dial] is the result of dialling.  [true] when
    the relay starts, with one more active stream. *)
Definition serve {C} (dial : bytes -> result C) (p : ptr) (sess : Session) e
  : bool * Session * Exit T :=
  match stream_at p sess with
  | None => (false, sess, e)
  | Some st =>
      let request := st.(st_request) in
      match (let? address := DialDestination request.(or_Destination) request.(or_Port) in
             dial address)%go with
      | Err err =>
          (false, (Stream_Reject p ("destination unavailable: " +:+ Error err) sess).2, e)
      | Ok _ =>
          match Stream_Accept p sess with
          | (Some _, sess) => (false, sess, e)
          | (None, sess) =>
              (true, sess, mkExit e.(ex_config) e.(ex_passphrase) (wrap_i64 (e.(ex_active) + 1))
                 e.(ex_forceTCP) e.(ex_trust))
          end
      end
  end.

(** The deferred [e.active.Add(-1)] when the relay ends. *)
Definition serve_end e : Exit T :=
  mkExit e.(ex_config) e.(ex_passphrase) (wrap_i64 (e.(ex_active) - 1)) e.(ex_forceTCP) e.(ex_trust).
End ExitNode.

(* ------------------------------------------------------------------ *)
(** ** Lemmas *)

(** A turn after which [Run] waits and tries again. *)
Definition goes_on (t : turn) : Prop :=
  t.(tn_cancelled) = None /\ t.(tn_interrupted) = None /\
  (forall err, t.(tn_result) = Some err -> IsTrustError err = false).

(** What [Run] returns at a turn that ends it. *)
Definition ends_with (t : turn) (r : option error) : Prop :=
  t.(tn_cancelled) = r /\ r <> None \/
  t.(tn_cancelled) = None /\ (exists err, t.(tn_result) = Some err /\ IsTrustError err = true) /\
    r = t.(tn_result) \/
  t.(tn_cancelled) = None /\ (forall err, t.(tn_result) = Some err -> IsTrustError err = false) /\
    t.(tn_interrupted) = r /\ r <> None.

(** The delay before attempt number [k + 1]. *)
Definition backoff (k : nat) : Duration := 2 ^ Z.of_nat (Nat.min k 5) * Second.

Lemma next_backoff k : next_delay (backoff k) = backoff (S k).
Proof.
  unfold next_delay, backoff. destruct (Nat.le_gt_cases 5 k) as [Hk|Hk].
  - by rewrite !Nat.min_r by lia.
  - by do 5 (destruct k as [|k]; [reflexivity|]); lia.
Qed.

Lemma run_loop_spec turns : forall k r waits,
  run_loop (backoff k) turns = (r, waits) ->
  (forall i d, waits !! i = Some d -> d = backoff (k + i)) /\
  match r with
  | None => Forall goes_on turns /\ length waits = length turns
  | Some r => exists before t after, turns = before ++ t :: after /\ Forall goes_on before /\
      length waits = length before /\ ends_with t r
  end.
Proof.
  induction turns as [|t turns IH]; intros k r waits; cbn [run_loop].
  { by intros [= <- <-]. }
  destruct (tn_cancelled t) as [err|] eqn:Ec.
  { intros [= <- <-]. split; [done|]. exists [], t, turns. split_and!; try done. by left. }
  destruct (match tn_result t with Some err => IsTrustError err | None => false end) eqn:Et.
  { intros [= <- <-]. split; [done|]. exists [], t, turns. split_and!; try done. right. left.
    destruct (tn_result t) as [err|]; [|done]. split_and!; try done. by exists err. }
  assert (forall err, tn_result t = Some err -> IsTrustError err = false) as Hnt
    by (intros err E; by rewrite E in Et).
  destruct (tn_interrupted t) as [err|] eqn:Ei.
  { intros [= <- <-]. split; [done|]. exists [], t, turns. split_and!; try done. by right; right. }
  rewrite next_backoff. destruct (run_loop (backoff (S k)) turns) as [r' waits'] eqn:E.
  intros [= <- <-]. destruct (IH (S k) r' waits' E) as [Hw Hr].
  assert (goes_on t) as Hg by done. split.
  - intros [|i] d; cbn; [intros [= <-]; by rewrite Nat.add_0_r|].
    intros Hi. rewrite (Hw i d Hi). f_equal. lia.
  - destruct r' as [r'|].
    + destruct Hr as (before & t' & after & -> & Hb & Hl & He). exists (t :: before), t', after.
      split_and!; try done; [apply Forall_cons; by split|cbn; lia].
    + destruct Hr as [Hf Hl]. split; [apply Forall_cons; by split|cbn; lia].
Qed.

(* ------------------------------------------------------------------ *)
(** ** Properties *)

(** C28: an exit keeps trying: [Run] comes back only when its context is
    cancelled or the server's certificate is not trusted, with exactly that
    error; after any other end of a connection it waits and connects again, the
    waits being 1, 2, 4, 8, 16 and from then on 32 seconds. *)
Theorem exit_keeps_trying {T} (e : Exit T) (turns : list turn) (r : option (option error))
  (waits : list Duration)
  (Haddr : is_ok (NormalizeServerAddress (bytes_of e.(ex_config).(nd_ServerAddress))) = true)
  (Hrun : Run turns e = (r, waits)) :
  (forall i d, waits !! i = Some d -> d = 2 ^ Z.of_nat (Nat.min i 5) * Second) /\
  match r with
  | None => Forall goes_on turns /\ length waits = length turns
  | Some r => exists before t after, turns = before ++ t :: after /\ Forall goes_on before /\
      length waits = length before /\ ends_with t r
  end.
Proof.
  unfold Run in Hrun. destruct (NormalizeServerAddress _); [|done].
  exact (run_loop_spec turns 0 r waits Hrun).
Qed.

Definition demo_exit : Exit unit :=
  NewExit (mkNode "exit" "" "/srv" "" "" "" "10.0.0.1" "" "" 8 0 "Paris" "paris" 4 false) (bytes_of "pw").
Definition demo_turns : list turn :=
  [mkTurn (Some EOF) None None; mkTurn None None None; mkTurn (Some (ETrust EOF)) None None].

Lemma exit_keeps_trying_witness :
  exists before t after, demo_turns = before ++ t :: after /\ Forall goes_on before /\
    length [Second; 2 * Second] = length before /\ ends_with t (Some (ETrust EOF)).
Proof.
  apply (exit_keeps_trying demo_exit demo_turns (Some (Some (ETrust EOF))) [Second; 2 * Second]).
  - vm_compute. reflexivity.
  - vm_compute. reflexivity.
Defined.

(** C29: the registration of an exit reaches the server: when [runConnection]
    has a session, what it wrote after the handshake is one frame from which
    the server's handler reads exactly the exit's registration, and the server
    then lists the exit under its ID, healthy, with its name and capacity. *)
Theorem exit_registration_arrives {T} (IDKey : bytes -> bytes -> Z -> Z -> Z -> Z -> bytes)
  (e : Exit T) (rw rw' : ReadWriter) (sess : Session) (s : Server) (i : sid) (now : Time) (ord : order)
  (Hok : ExitRegistration_ok (registration e))
  (Hid : e.(ex_config).(nd_ExitID) <> ""%string) (Hname : e.(ex_config).(nd_ExitName) <> ""%string)
  (Hcap : 0 < e.(ex_config).(nd_Capacity))
  (Hrun : runConnection IDKey rw e = (Ok sess, rw')) :
  exists f,
    sess.(ss_writer) = Some (sink_append rw'.(rw_out) (frame_bytes f)) /\
    registration_frame f (mkWait None None) = mkWait (Some (registration e)) None /\
    exists s' entry, handleExit_register now (registration e) i ord s = (Ok e.(ex_config).(nd_ExitID), s') /\
      s'.(sv_registry).(rg_exits) !! e.(ex_config).(nd_ExitID) = Some entry /\
      entry.(ee_info).(ei_Name) = e.(ex_config).(nd_ExitName) /\
      entry.(ee_info).(ei_Health) = "healthy"%string /\
      entry.(ee_info).(ei_Capacity) = e.(ex_config).(nd_Capacity).
Proof.
  unfold runConnection in Hrun. destruct (ClientHandshakePassword _ _ _ _) as [[|] rw1]; [done|].
  cbn [Start New ss_closed] in Hrun.
  destruct (writeFrameJSON _ _ _ _) as [[|] sess1] eqn:Ew; [done|]. injection Hrun as -> ->.
  apply writeFrameJSON_None in Ew as (w & Hw & Hs). injection Hw as <-.
  eexists. split; [exact Hs|]. split.
  - unfold registration_frame. cbn [fr_Type]. rewrite bool_decide_true by done.
    unfold DecodeJSON. cbn [fr_Payload].
    by rewrite (@Unmarshal_Marshal _ _ ExitRegistration_laws (registration e) _ Hok eq_refl).
  - unfold handleExit_register, registration, complete_registration.
    assert (forall a, a <> ""%string -> empty_string a = false) as Hne by (intros; by apply bool_decide_eq_false).
    rewrite (Hne _ Hid). cbn iota. rewrite (Hne _ Hid), (Hne _ Hname), (proj2 (Z.leb_gt _ _)) by done.
    cbn [er_ID er_Name er_Capacity er_Features].
    eexists _, _. split; [reflexivity|].
    destruct (sv_exitConns s !! _); cbn; rewrite lookup_insert_eq; by split.
Qed.

Definition demo_conn : ReadWriter :=
  mkRW (mkReader (frame_bytes (hs_challenge (repeat x4e 32) demo_client) ++ frame_bytes (hs_result true)) EOF)
    (mkSink [] None EOF).
Definition demo_session : Session :=
  match (runConnection demo_IDKey demo_conn demo_exit).1 with Ok sess => sess | Err _ => New (mkConfig 0 0) end.

Lemma exit_registration_arrives_witness :
  exists f,
    demo_session.(ss_writer) =
      Some (sink_append (runConnection demo_IDKey demo_conn demo_exit).2.(rw_out) (frame_bytes f)) /\
    registration_frame f (mkWait None None) = mkWait (Some (registration demo_exit)) None.
Proof.
  destruct (exit_registration_arrives demo_IDKey demo_exit demo_conn
    (runConnection demo_IDKey demo_conn demo_exit).2 demo_session
    (NewServer 1 demo_node demo_client) 0 5 []) as (f & H1 & H2 & _).
  - split_and!; try (vm_compute; done). apply Forall_singleton. reflexivity.
  - discriminate.
  - discriminate.
  - reflexivity.
  - vm_compute. reflexivity.
  - exists f. split; [exact H1|exact H2].
Defined.
