(* ===== verification/Manager.v ===== *)
(** * The client's connection manager: [internal/client/manager.go]

    The manager's fields and the critical sections of its methods; a method
    that works outside the lock in between ([Reconnect], [sessionLoop]) is cut
    there, and [ManagerProps.v] interleaves the pieces.  A [*session.Session] is
    an index.  Dialling (with the trust store) and the handshake are arguments.
    Of a callback the manager keeps whether there is one; it is read under the
    lock and called after it is released, with the notice its section gives. *)
From S2P Require Import Prelude GoIO GoStrings GoTime Json Codec Protocol Session GoText GoNet Config.
From S2P Require Import Trust Server Exit.

Inductive State : Type := StateDisconnected | StateConnecting | StateConnected.
#[export] Instance State_eq_dec : EqDecision State.
Proof. solve_decision. Defined.

Record Manager := mkManager {
  mg_address : bytes;
  mg_passphrase : bytes;
  mg_forceTCP : bool;
  mg_transport : string;
  mg_session : option sid;
  mg_state : State;
  mg_lastError : option error;
  mg_onState : bool;
  mg_onCatalog : bool;
  mg_catalog : list ExitInfo;
  mg_reconnect : bool;
  mg_closed : bool
}.

Definition NewManager : Manager :=
  mkManager [] [] false "" None StateDisconnected None false false [] true false.

Definition SetReconnect (enabled : bool) (m : Manager) : Manager :=
  mkManager m.(mg_address) m.(mg_passphrase) m.(mg_forceTCP) m.(mg_transport) m.(mg_session)
    m.(mg_state) m.(mg_lastError) m.(mg_onState) m.(mg_onCatalog) m.(mg_catalog) enabled m.(mg_closed).

Definition SetStateCallback (callback : bool) (m : Manager) : Manager :=
  mkManager m.(mg_address) m.(mg_passphrase) m.(mg_forceTCP) m.(mg_transport) m.(mg_session)
    m.(mg_state) m.(mg_lastError) callback m.(mg_onCatalog) m.(mg_catalog) m.(mg_reconnect) m.(mg_closed).

(** The catalogue a catalogue callback is called with, if it is: the copy of
    an empty catalogue is [nil]. *)
Definition SetCatalogCallback (callback : bool) (m : Manager) : option (list ExitInfo) * Manager :=
  (match callback, m.(mg_catalog) with true, _ :: _ => Some m.(mg_catalog) | _, _ => None end,
   mkManager m.(mg_address) m.(mg_passphrase) m.(mg_forceTCP) m.(mg_transport) m.(mg_session)
     m.(mg_state) m.(mg_lastError) m.(mg_onState) callback m.(mg_catalog) m.(mg_reconnect) m.(mg_closed)).

(** What [State] and [Catalog] report. *)
Definition Manager_State (m : Manager) : State * string * option error :=
  (m.(mg_state), m.(mg_transport), m.(mg_lastError)).
Definition Manager_Catalog (m : Manager) : list ExitInfo := m.(mg_catalog).

(** A call of the state callback, when there is one. *)
Definition notice : Type := State * option error.
Definition notify (st : State) (e : option error) (m : Manager) : list notice :=
  if m.(mg_onState) then [(st, e)] else [].

(** [session], [state] and [lastError], which change together. *)
Definition with_status (s : option sid) (st : State) (e : option error) (m : Manager) : Manager :=
  mkManager m.(mg_address) m.(mg_passphrase) m.(mg_forceTCP) m.(mg_transport) s
    st e m.(mg_onState) m.(mg_onCatalog) m.(mg_catalog) m.(mg_reconnect) m.(mg_closed).

(** [Connect] and [ConnectTCP] before they call [Reconnect]. *)
Definition configure (forceTCP : bool) (address passphrase : bytes) (m : Manager)
  : option error * Manager :=
  match NormalizeServerAddress address with
  | Err e => (Some e, m)
  | Ok normalized =>
      match passphrase with
      | [] => (Some (ENew "passphrase cannot be empty"), m)
      | _ => (None, mkManager normalized passphrase forceTCP m.(mg_transport) m.(mg_session)
                m.(mg_state) m.(mg_lastError) m.(mg_onState) m.(mg_onCatalog) m.(mg_catalog)
                m.(mg_reconnect) m.(mg_closed))
      end
  end.

Definition setError (e : error) (m : Manager) : Manager :=
  with_status m.(mg_session) StateDisconnected (Some e) m.

(** The first critical section of [Reconnect]: the session to close and what to
    connect to. *)
Definition Reconnect_begin (m : Manager)
  : result (option sid * (bytes * bytes * bool)) * Manager :=
  if m.(mg_closed) then (Err (ENew "client manager is closed"), m)
  else (Ok (m.(mg_session), (m.(mg_address), m.(mg_passphrase), m.(mg_forceTCP))),
        with_status None StateConnecting None m).

Definition not_configured (p : bytes * bytes * bool) : bool :=
  match p with ([], _, _) | (_, [], _) => true | _ => false end.

(** [connectTransport] on the results of dialling. *)
Definition connectTransport {C} (d : dialled C) (forceTCP : bool) : result (string * C) :=
  let tls (quicErr : string) :=
    match d.(dl_tls) with
    | Ok c => Ok (ProtocolTLS, c)
    | Err e => Err (EWrap ("QUIC failed: " +:+ quicErr +:+ "; TLS failed: ") e)
    end in
  if negb forceTCP then
    match d.(dl_quic) with
    | None => match d.(dl_stream) with Ok c => Ok (ProtocolQUIC, c) | Err e => Err e end
    | Some e => tls (Error e)
    end
  else tls "<nil>"%string.

(** The last critical section of a successful [Reconnect]. *)
Definition Reconnect_finish (transport : string) (sess : sid) (m : Manager) : Manager :=
  mkManager m.(mg_address) m.(mg_passphrase) m.(mg_forceTCP) transport (Some sess)
    StateConnected None m.(mg_onState) m.(mg_onCatalog) m.(mg_catalog) m.(mg_reconnect) m.(mg_closed).

(** The first critical section of [sessionLoop] once the session is done;
    [true] when the session was still the manager's own. *)
Definition sessionLoop_end (sess : sid) (err : option error) (m : Manager) : bool * Manager :=
  if bool_decide (m.(mg_session) = Some sess)
  then (true, with_status None StateDisconnected err m)
  else (false, m).

(** The second one: whether [sessionLoop] goes on to [reconnectLoop]. *)
Definition sessionLoop_reconnects (m : Manager) : bool := m.(mg_reconnect) && negb m.(mg_closed).

(** [startSession]: a session with a handler of control frames, without one of
    streams, on the connection. *)
Definition startSession (conn : Sink) : result Session :=
  let sess := SetControlHandler true (New (Session.mkConfig (5 * Minute) 0)) in
  match Start (Ok conn) false sess with
  | (Some e, _) => Err e
  | (None, sess) => Ok sess
  end.

(** The handler of control frames that [startSession] installs. *)
Definition catalog_frame (f : Frame) (m : Manager) : Manager :=
  if negb (bool_decide (f.(fr_Type) = FrameCatalog)) then m
  else
    match DecodeJSON f with
    | (_, Some _) => m
    | (c, None) =>
        mkManager m.(mg_address) m.(mg_passphrase) m.(mg_forceTCP) m.(mg_transport) m.(mg_session)
          m.(mg_state) m.(mg_lastError) m.(mg_onState) m.(mg_onCatalog) c.(cat_Exits)
          m.(mg_reconnect) m.(mg_closed)
    end.

(** The call of the catalogue callback that follows. *)
Definition catalog_notice (f : Frame) (m : Manager) : option (list ExitInfo) :=
  if bool_decide (f.(fr_Type) = FrameCatalog) && m.(mg_onCatalog)
  then match DecodeJSON f with (c, None) => Some c.(cat_Exits) | (_, Some _) => None end
  else None.

(** [Close]: the session it closes. *)
Definition Manager_Close (m : Manager) : option sid * Manager :=
  (m.(mg_session),
   mkManager m.(mg_address) m.(mg_passphrase) m.(mg_forceTCP) m.(mg_transport) None
     StateDisconnected m.(mg_lastError) m.(mg_onState) m.(mg_onCatalog) m.(mg_catalog)
     m.(mg_reconnect) true).

Definition Manager_Dial (m : Manager) : result sid :=
  match m.(mg_session) with None => Err (ENew "not connected to S") | Some s => Ok s end.

(** [reconnectLoop]: the waits before its attempts, given for each attempt
    whether the manager was found closed and whether [Reconnect] succeeded. *)
Fixpoint reconnect_loop (fuel : nat) (delay : Duration) (attempts : list (bool * bool))
  : list Duration :=
  match fuel, attempts with
  | S k, (closed, ok) :: rest =>
      delay :: if closed || ok then [] else reconnect_loop k (next_delay delay) rest
  | _, _ => []
  end.
Definition reconnectLoop (attempts : list (bool * bool)) : list Duration :=
  reconnect_loop 6 Second attempts.
