(* ===== verification/ManagerProps.v ===== *)
(** * The connection manager under way

    The critical sections of [Manager.v] interleaved: [Reconnect] calls and
    session loops run at the same time, and a state callback is called some
    time after the section that read it.  What holds of the manager, and of
    what the callback is told, when calls do not overlap; and what happens when
    they do. *)
From S2P Require Import Prelude GoIO GoStrings GoTime Json Codec Protocol Session GoText GoNet Config.
From S2P Require Import Trust Server Exit Manager.

(* ------------------------------------------------------------------ *)
(** ** Interleavings *)

#[local] Arguments not_configured : simpl never.

(** A [Reconnect] under way: what it connects to, and the calls of the state
    callback it has still to make before it goes on. *)
Record attempt := mkAttempt {
  at_params : bytes * bytes * bool;
  at_calling : list notice
}.

(** The manager, its [Reconnect] calls under way, the sessions that are open,
    the session loops that run, the last calls of the callback that are still
    to be made (with the session whose loop starts after them), and the calls
    made. *)
Record MWorld := mkMWorld {
  mw_manager : Manager;
  mw_pending : list attempt;
  mw_open : gset sid;
  mw_next : sid;
  mw_loops : gset sid;
  mw_calls : list (notice * option sid);
  mw_told : list notice
}.

Definition close_opt (s : option sid) (open : gset sid) : gset sid :=
  match s with None => open | Some s => open ∖ {[s]} end.
Definition start_loop (s : option sid) (loops : gset sid) : gset sid :=
  match s with None => loops | Some s => {[s]} ∪ loops end.

(** Where no callback is set the loop of a session starts at once. *)
Definition finish_calls (s : sid) (m : Manager) : list (notice * option sid) :=
  map (fun n => (n, Some s)) (notify StateConnected None m).
Definition finish_loops (s : sid) (m : Manager) (loops : gset sid) : gset sid :=
  if m.(mg_onState) then loops else {[s]} ∪ loops.

Definition plain_calls (l : list notice) : list (notice * option sid) := map (fun n => (n, None)) l.

Inductive mstep (w : MWorld) : MWorld -> Prop :=
  | m_configure tcp address passphrase m' :
      configure tcp address passphrase w.(mw_manager) = (None, m') ->
      mstep w (mkMWorld m' w.(mw_pending) w.(mw_open) w.(mw_next) w.(mw_loops) w.(mw_calls) w.(mw_told))
  | m_watch callback :
      mstep w (mkMWorld (SetStateCallback callback w.(mw_manager)) w.(mw_pending) w.(mw_open) w.(mw_next)
        w.(mw_loops) w.(mw_calls) w.(mw_told))
  | m_begin old p m' :
      Reconnect_begin w.(mw_manager) = (Ok (old, p), m') ->
      mstep w (mkMWorld m'
        (mkAttempt p (if not_configured p then [] else notify StateConnecting None w.(mw_manager)) :: w.(mw_pending))
        (close_opt old w.(mw_open)) w.(mw_next) w.(mw_loops) w.(mw_calls) w.(mw_told))
  | m_connecting l1 p n ns l2 :
      w.(mw_pending) = l1 ++ mkAttempt p (n :: ns) :: l2 ->
      mstep w (mkMWorld w.(mw_manager) (l1 ++ mkAttempt p ns :: l2) w.(mw_open) w.(mw_next) w.(mw_loops)
        w.(mw_calls) (w.(mw_told) ++ [n]))
  | m_fail l1 p l2 e :
      w.(mw_pending) = l1 ++ mkAttempt p [] :: l2 ->
      mstep w (mkMWorld (setError e w.(mw_manager)) (l1 ++ l2) w.(mw_open) w.(mw_next) w.(mw_loops)
        (w.(mw_calls) ++ plain_calls (notify StateDisconnected (Some e) w.(mw_manager))) w.(mw_told))
  | m_finish l1 p l2 transport :
      w.(mw_pending) = l1 ++ mkAttempt p [] :: l2 -> not_configured p = false ->
      mstep w (mkMWorld (Reconnect_finish transport w.(mw_next) w.(mw_manager)) (l1 ++ l2)
        ({[w.(mw_next)]} ∪ w.(mw_open)) (S w.(mw_next)) (finish_loops w.(mw_next) w.(mw_manager) w.(mw_loops))
        (w.(mw_calls) ++ finish_calls w.(mw_next) w.(mw_manager)) w.(mw_told))
  | m_session_end s err :
      s ∈ w.(mw_loops) ->
      mstep w (mkMWorld (sessionLoop_end s err w.(mw_manager)).2 w.(mw_pending)
        (w.(mw_open) ∖ {[s]}) w.(mw_next) (w.(mw_loops) ∖ {[s]})
        (w.(mw_calls) ++ (if (sessionLoop_end s err w.(mw_manager)).1
                          then plain_calls (notify StateDisconnected err w.(mw_manager)) else [])) w.(mw_told))
  | m_told l1 n o l2 :
      w.(mw_calls) = l1 ++ (n, o) :: l2 ->
      mstep w (mkMWorld w.(mw_manager) w.(mw_pending) w.(mw_open) w.(mw_next) (start_loop o w.(mw_loops))
        (l1 ++ l2) (w.(mw_told) ++ [n]))
  | m_catalog f :
      mstep w (mkMWorld (catalog_frame f w.(mw_manager)) w.(mw_pending) w.(mw_open) w.(mw_next) w.(mw_loops)
        w.(mw_calls) w.(mw_told))
  | m_close :
      mstep w (mkMWorld (Manager_Close w.(mw_manager)).2 w.(mw_pending)
        (close_opt (Manager_Close w.(mw_manager)).1 w.(mw_open)) w.(mw_next) w.(mw_loops) w.(mw_calls) w.(mw_told)).

Definition minit : MWorld := mkMWorld NewManager [] ∅ 0 ∅ [] [].
(** A manager whose callback was set before anything else. *)
Definition winit : MWorld := mkMWorld (SetStateCallback true NewManager) [] ∅ 0 ∅ [] [].

(** A step that begins a [Reconnect], and one that closes the manager. *)
Definition starts (w w' : MWorld) : Prop := (length w.(mw_pending) < length w'.(mw_pending))%nat.
Definition closes (w w' : MWorld) : Prop :=
  w.(mw_manager).(mg_closed) = false /\ w'.(mw_manager).(mg_closed) = true.

(** One call at a time: no [Reconnect] and no [Close] while one is under way. *)
Definition calm (w w' : MWorld) : Prop := starts w w' \/ closes w w' -> w.(mw_pending) = [].
(** And none before the callback has heard of the last one; the callback
    stays. *)
Definition heard (w w' : MWorld) : Prop :=
  calm w w' /\ (starts w w' \/ closes w w' -> w.(mw_calls) = []) /\ w'.(mw_manager).(mg_onState) = true.

Inductive mrun (ok : MWorld -> MWorld -> Prop) (w0 : MWorld) : MWorld -> Prop :=
  | mrun_init : mrun ok w0 w0
  | mrun_step w w' : mrun ok w0 w -> mstep w w' -> ok w w' -> mrun ok w0 w'.
Definition mrun_any : MWorld -> Prop := mrun (fun _ _ => True) minit.
Definition mrun_single : MWorld -> Prop := mrun calm minit.
Definition mrun_heard : MWorld -> Prop := mrun heard winit.

(* ------------------------------------------------------------------ *)
(** ** Invariants *)

Record single_ok (w : MWorld) : Prop := mk_single_ok {
  so_one : (length w.(mw_pending) <= 1)%nat;
  so_pending : w.(mw_pending) <> [] ->
    w.(mw_manager).(mg_session) = None /\ w.(mw_manager).(mg_closed) = false /\
    w.(mw_manager).(mg_state) = StateConnecting;
  so_idle : w.(mw_pending) = [] -> w.(mw_manager).(mg_state) <> StateConnecting /\
    (w.(mw_manager).(mg_state) = StateConnected <-> w.(mw_manager).(mg_session) <> None);
  so_open : forall s, s ∈ w.(mw_open) -> w.(mw_manager).(mg_session) = Some s;
  so_closed : w.(mw_manager).(mg_closed) = true -> w.(mw_manager).(mg_session) = None
}.

Lemma single_pending w l1 p l2 : single_ok w -> w.(mw_pending) = l1 ++ p :: l2 -> l1 = [] /\ l2 = [].
Proof.
  intros H E. pose proof (so_one w H) as Hl. rewrite E, length_app in Hl. cbn in Hl.
  split; apply nil_length_inv; lia.
Qed.

(** The manager of a world with one session has no other one open. *)
Lemma no_other_open m open s : (forall s, s ∈ open -> m.(mg_session) = Some s) ->
  s ∈ close_opt m.(mg_session) open -> False.
Proof.
  intros H Hs. destruct (mg_session m) as [s0|] eqn:E; cbn in Hs; [|by specialize (H s Hs)].
  apply elem_of_difference in Hs as [Ho Hn]. apply Hn. specialize (H s Ho). injection H as ->.
  by apply elem_of_singleton.
Qed.

Lemma mstep_single w w' : single_ok w -> mstep w w' -> calm w w' -> single_ok w'.
Proof.
  intros Hok Hstep Hcalm. pose proof Hok as [H1 H2 H3 H4 H5].
  destruct Hstep as [tcp a pw m' E|b|old p m' E|l1 p n ns l2 E|l1 p l2 e E|l1 p l2 tr E Hp|s err Hs|l1 n o l2 E|f|].
  - unfold configure in E. destruct (NormalizeServerAddress a); [|done]. destruct pw; [done|].
    injection E as <-. by split.
  - by split.
  - unfold calm in Hcalm. rewrite Hcalm in * by (left; unfold starts; cbn; lia).
    unfold Reconnect_begin in E. destruct (mg_closed (mw_manager w)) eqn:Ec; [done|]. injection E as <- <- <-.
    split; cbn; try done; try lia; try congruence.
    intros s Hs. by destruct (no_other_open _ _ _ H4 Hs).
  - destruct (single_pending w l1 _ l2 Hok E) as [-> ->]. specialize (H2 ltac:(by rewrite E)).
    by split; cbn; try lia.
  - destruct (single_pending w l1 _ l2 Hok E) as [-> ->]. destruct (H2 ltac:(by rewrite E)) as (Es & Ec & _).
    split; cbn; try done; try lia; try congruence.
  - destruct (single_pending w l1 _ l2 Hok E) as [-> ->]. destruct (H2 ltac:(by rewrite E)) as (Es & Ec & _).
    split; cbn; try done; try lia; try congruence. intros s [Hs|Hs]%elem_of_union.
    + by apply elem_of_singleton in Hs as ->.
    + specialize (H4 s Hs). congruence.
  - unfold sessionLoop_end. case_bool_decide as Es; cbn.
    + assert (mw_pending w = []) as En.
      { destruct (mw_pending w) eqn:Ep; [done|]. destruct (H2 ltac:(done)) as [? _]. congruence. }
      split; cbn; try done; try (by rewrite En).
      intros s' [Ho Hn]%elem_of_difference. specialize (H4 s' Ho). rewrite Es in H4. injection H4 as ->.
      destruct Hn. by apply elem_of_singleton.
    + split; cbn; try done. intros s' [Ho _]%elem_of_difference. by apply H4.
  - by split.
  - unfold catalog_frame. destruct (negb _); [by split|]. destruct (DecodeJSON f) as [c [e|]]; by split.
  - assert (mw_pending w = []) as En.
    { destruct (mg_closed (mw_manager w)) eqn:Ec; [|by apply Hcalm; right].
      destruct (mw_pending w) eqn:Ep; [done|]. destruct (H2 ltac:(done)) as (_ & ? & _). congruence. }
    split; cbn; try done; try (by rewrite En). intros s Hs. by destruct (no_other_open _ _ _ H4 Hs).
Qed.

Lemma single_ok_start m : m.(mg_session) = None -> m.(mg_state) = StateDisconnected ->
  single_ok (mkMWorld m [] ∅ 0 ∅ [] []).
Proof. intros Hs Ht. split; cbn; try done; try lia. intros _. by rewrite Ht, Hs. Qed.

Lemma mrun_single_ok w : mrun_single w -> single_ok w.
Proof.
  induction 1 as [|w w' _ IH Hs Hc]; [by apply single_ok_start|by apply (mstep_single w)].
Qed.

(* ------------------------------------------------------------------ *)
(** ** What the callback is told *)

(** The last notice of a list; before any the manager is as it was made. *)
Definition report_from (prev : notice) (l : list notice) : notice := default prev (last l).
Definition report : list notice -> notice := report_from (StateDisconnected, None).

#[local] Arguments report_from : simpl never.
#[local] Arguments report : simpl never.

(** Which state can be announced after which. *)
Definition follows (prev st : State) : bool :=
  match prev, st with
  | StateConnecting, StateConnecting | StateConnected, StateConnected | StateDisconnected, StateConnected => false
  | _, _ => true
  end.
Fixpoint path (prev : notice) (l : list notice) : Prop :=
  match l with
  | [] => True
  | n :: l => follows prev.1 n.1 = true /\ path n l
  end.

Lemma report_from_cons prev n l : report_from prev (n :: l) = report_from n l.
Proof. unfold report_from. rewrite last_cons. by destruct (last l). Qed.

Lemma report_snoc l n : report (l ++ [n]) = n.
Proof. unfold report, report_from. by rewrite last_snoc. Qed.

Lemma path_snoc l n : forall prev, path prev l -> follows (report_from prev l).1 n.1 = true -> path prev (l ++ [n]).
Proof.
  induction l as [|a l IH]; intros prev H Hn; [by split|]. destruct H as [Ha H].
  split; [done|]. apply IH; [done|]. by rewrite report_from_cons in Hn.
Qed.

Lemma path_prefix l l' : forall prev, path prev (l ++ l') -> path prev l.
Proof. induction l as [|a l IH]; intros prev H; [done|]. destruct H as [Ha H]. split; [done|by apply IH]. Qed.

(** The calls made and those still to be made. *)
Definition known (w : MWorld) : list notice :=
  w.(mw_told) ++ concat (map at_calling w.(mw_pending)) ++ map fst w.(mw_calls).

Record heard_ok (w : MWorld) : Prop := mk_heard_ok {
  ho_single : single_ok w;
  ho_watch : w.(mw_manager).(mg_onState) = true;
  ho_loops : forall s, s ∈ w.(mw_loops) \/ w.(mw_manager).(mg_session) = Some s \/ Some s ∈ w.(mw_calls).*2 ->
    (s < w.(mw_next))%nat;
  ho_calls : w.(mw_calls) <> [] -> length w.(mw_calls) = 1%nat /\ w.(mw_pending) = [] /\
    w.(mw_manager).(mg_closed) = false /\ forall s, w.(mw_manager).(mg_session) = Some s -> s ∉ w.(mw_loops);
  ho_path : path (StateDisconnected, None) (known w);
  ho_report : w.(mw_manager).(mg_closed) = false -> w.(mw_pending) = [] ->
    report (known w) = (w.(mw_manager).(mg_state), w.(mw_manager).(mg_lastError));
  ho_connecting : forall a, a ∈ w.(mw_pending) -> not_configured a.(at_params) = false ->
    report (known w) = (StateConnecting, None)
}.

(** While a [Reconnect] is under way no call waits outside it. *)
Lemma heard_calls w : heard_ok w -> w.(mw_pending) <> [] -> w.(mw_calls) = [].
Proof.
  intros H Hp. destruct (mw_calls w) eqn:E; [done|]. by destruct (ho_calls w H ltac:(by rewrite E)) as (_ & ? & _).
Qed.

Lemma heard_pending w l1 a l2 : heard_ok w -> w.(mw_pending) = l1 ++ a :: l2 ->
  l1 = [] /\ l2 = [] /\ w.(mw_pending) = [a] /\ w.(mw_calls) = [] /\
  w.(mw_manager).(mg_session) = None /\ w.(mw_manager).(mg_closed) = false.
Proof.
  intros H E. destruct (single_pending w l1 a l2 (ho_single w H) E) as [-> ->].
  destruct (so_pending w (ho_single w H) ltac:(by rewrite E)) as (? & ? & _).
  split_and!; try done. apply heard_calls; [done|by rewrite E].
Qed.

(** A closed manager has nothing to do and nothing to say. *)
Lemma heard_closed w : heard_ok w -> w.(mw_manager).(mg_closed) = true ->
  w.(mw_pending) = [] /\ w.(mw_calls) = [] /\ w.(mw_manager).(mg_session) = None.
Proof.
  intros H Hc. split_and!.
  - destruct (mw_pending w) eqn:E; [done|].
    destruct (so_pending w (ho_single w H) ltac:(by rewrite E)) as (_ & ? & _). congruence.
  - destruct (mw_calls w) eqn:E; [done|].
    destruct (ho_calls w H ltac:(by rewrite E)) as (_ & _ & ? & _). congruence.
  - by apply (so_closed w (ho_single w H)).
Qed.

(** A step that tells nothing new and changes neither state nor error. *)
Lemma heard_same w w' : heard_ok w -> single_ok w' -> w'.(mw_manager).(mg_onState) = true ->
  w'.(mw_pending) = w.(mw_pending) -> w'.(mw_calls) = w.(mw_calls) -> w'.(mw_told) = w.(mw_told) ->
  w'.(mw_next) = w.(mw_next) -> w'.(mw_loops) ⊆ w.(mw_loops) ->
  w'.(mw_manager).(mg_session) = w.(mw_manager).(mg_session) ->
  w'.(mw_manager).(mg_closed) = w.(mw_manager).(mg_closed) ->
  w'.(mw_manager).(mg_state) = w.(mw_manager).(mg_state) ->
  w'.(mw_manager).(mg_lastError) = w.(mw_manager).(mg_lastError) -> heard_ok w'.
Proof.
  intros [H1 H2 H3 H4 H5 H6 H7] Hs Ho Ep Ec Et En El Ess Ecl Est Ee.
  assert (known w' = known w) as Ek by (unfold known; by rewrite Ep, Ec, Et).
  split; rewrite ?Ek, ?Ep, ?Ec, ?En, ?Ess, ?Ecl, ?Est, ?Ee; try done.
  - intros s [Hl|Hl]; apply H3; [left; by apply El|by right].
  - intros Hc. destruct (H4 Hc) as (? & ? & ? & Hn). split_and!; try done. intros s Hss Hl. by apply (Hn s Hss), El.
Qed.

Lemma heard_begin w old p m' : heard_ok w -> Reconnect_begin w.(mw_manager) = (Ok (old, p), m') ->
  w.(mw_pending) = [] -> w.(mw_calls) = [] ->
  let w' := mkMWorld m'
    [mkAttempt p (if not_configured p then [] else notify StateConnecting None w.(mw_manager))]
    (close_opt old w.(mw_open)) w.(mw_next) w.(mw_loops) [] w.(mw_told) in
  single_ok w' -> heard_ok w'.
Proof.
  intros [H1 H2 H3 H4 H5 H6 H7] E Hp Hc w' Hs. subst w'. unfold Reconnect_begin in E.
  destruct (mg_closed (mw_manager w)) eqn:Ecl; [done|]. injection E as <- <- <-.
  unfold known in *. rewrite Hp, Hc in *. cbn in *. rewrite app_nil_r in *.
  specialize (H6 eq_refl eq_refl). unfold notify in *. rewrite H2 in *.
  destruct (so_idle w H1 Hp) as [Hst _].
  split; unfold known; cbn; try done.
  - intros s [Hl|[Hl|Hl]]; [by apply H3; left|done|by apply elem_of_nil in Hl].
  - destruct (not_configured _); cbn; rewrite ?app_nil_r; [done|]. apply path_snoc; [done|].
    change (report_from (StateDisconnected, None)) with report. rewrite H6. cbn. by destruct (mg_state (mw_manager w)).
  - intros a ->%list_elem_of_singleton. cbn. intros ->. cbn. by rewrite report_snoc.
Qed.

Lemma heard_connecting w p n ns : heard_ok w -> w.(mw_pending) = [mkAttempt p (n :: ns)] ->
  let w' := mkMWorld w.(mw_manager) [mkAttempt p ns] w.(mw_open) w.(mw_next) w.(mw_loops)
    w.(mw_calls) (w.(mw_told) ++ [n]) in
  single_ok w' -> heard_ok w'.
Proof.
  intros H Hp w' Hs. destruct (heard_pending w [] _ [] H Hp) as (_ & _ & _ & Hc & _ & _).
  destruct H as [H1 H2 H3 H4 H5 H6 H7].
  assert (known w' = known w) as Ek by (unfold known, w'; rewrite Hp; cbn; by rewrite <-!app_assoc).
  split; rewrite ?Ek; subst w'; cbn; try done.
  intros a ->%list_elem_of_singleton Ha. apply (H7 (mkAttempt p (n :: ns))); [rewrite Hp; by left|done].
Qed.

(** The end of an attempt, with what its caller then announces. *)
Lemma heard_end w p n o m' next loops open :
  heard_ok w -> w.(mw_pending) = [mkAttempt p []] ->
  n = (m'.(mg_state), m'.(mg_lastError)) -> m'.(mg_onState) = true ->
  (n.1 = StateDisconnected \/ not_configured p = false) ->
  (forall s, s ∈ loops -> (s < next)%nat) ->
  (forall s, m'.(mg_session) = Some s -> (s < next)%nat /\ s ∉ loops) ->
  (forall s, o = Some s -> (s < next)%nat) -> m'.(mg_closed) = false ->
  let w' := mkMWorld m' [] open next loops [(n, o)] w.(mw_told) in
  single_ok w' -> heard_ok w'.
Proof.
  intros H Hp Hn Hw Hf Hl Hs Ho Hcl w' Hok. destruct (heard_pending w [] _ [] H Hp) as (_ & _ & _ & Hc & _ & _).
  destruct H as [H1 H2 H3 H4 H5 H6 H7]. subst w'. unfold known in *. rewrite Hp, Hc in *. cbn in *.
  rewrite !app_nil_r in *.
  split; unfold known; cbn; try done.
  - intros s [Hx|[Hx|Hx]]; [by apply Hl|by apply Hs|]. apply list_elem_of_singleton in Hx. by apply Ho.
  - intros _. split_and!; try done. intros s Hx. by apply Hs.
  - apply path_snoc; [done|]. destruct Hf as [-> | Hf].
    + by destruct (report_from _ _).1.
    + change (report_from (StateDisconnected, None)) with report. rewrite (H7 (mkAttempt p [])); [|by left|done]. rewrite Hn. cbn.
      destruct (so_idle _ Hok eq_refl) as [Hne _]. cbn in Hne. by destruct (mg_state m').
  - intros _ _. by rewrite report_snoc.
  - by intros a ?%elem_of_nil.
Qed.

Lemma heard_fail w p e : heard_ok w -> w.(mw_pending) = [mkAttempt p []] ->
  let w' := mkMWorld (setError e w.(mw_manager)) [] w.(mw_open) w.(mw_next) w.(mw_loops)
    (w.(mw_calls) ++ plain_calls (notify StateDisconnected (Some e) w.(mw_manager))) w.(mw_told) in
  single_ok w' -> heard_ok w'.
Proof.
  intros H Hp w' Hs. destruct (heard_pending w [] _ [] H Hp) as (_ & _ & _ & Hc & Hss & Hcl).
  subst w'. unfold notify in *. rewrite (ho_watch w H), Hc in *. cbn in *.
  eapply heard_end; eauto; cbn; try done; [apply (ho_watch w H)| |by rewrite Hss].
  intros s Hl. by apply (ho_loops w H s); left.
Qed.

Lemma heard_finish w p tr : heard_ok w -> w.(mw_pending) = [mkAttempt p []] -> not_configured p = false ->
  let w' := mkMWorld (Reconnect_finish tr w.(mw_next) w.(mw_manager)) [] ({[w.(mw_next)]} ∪ w.(mw_open))
    (S w.(mw_next)) (finish_loops w.(mw_next) w.(mw_manager) w.(mw_loops))
    (w.(mw_calls) ++ finish_calls w.(mw_next) w.(mw_manager)) w.(mw_told) in
  single_ok w' -> heard_ok w'.
Proof.
  intros H Hp Hn w' Hs. destruct (heard_pending w [] _ [] H Hp) as (_ & _ & _ & Hc & Hss & Hcl).
  subst w'. unfold finish_calls, finish_loops, notify in *. rewrite (ho_watch w H), Hc in *. cbn in *.
  assert (forall s, s ∈ w.(mw_loops) -> (s < w.(mw_next))%nat) as Hl by (intros s Hx; by apply (ho_loops w H s); left).
  eapply heard_end; eauto; cbn; try done; [apply (ho_watch w H)| | |].
  - intros s Hx. specialize (Hl s Hx). lia.
  - intros s [= <-]. split; [lia|]. intros Hx. specialize (Hl _ Hx). lia.
  - intros s [= <-]. lia.
Qed.

Lemma heard_session_end w s err : heard_ok w -> s ∈ w.(mw_loops) ->
  let w' := mkMWorld (sessionLoop_end s err w.(mw_manager)).2 w.(mw_pending)
    (w.(mw_open) ∖ {[s]}) w.(mw_next) (w.(mw_loops) ∖ {[s]})
    (w.(mw_calls) ++ (if (sessionLoop_end s err w.(mw_manager)).1
                      then plain_calls (notify StateDisconnected err w.(mw_manager)) else [])) w.(mw_told) in
  single_ok w' -> heard_ok w'.
Proof.
  intros H Hs w' Hok. subst w'. unfold sessionLoop_end in *. case_bool_decide as Es; cbn [fst snd] in *.
  - assert (w.(mw_calls) = []) as Hc.
    { destruct (mw_calls w) eqn:E; [done|]. destruct (ho_calls w H ltac:(by rewrite E)) as (_ & _ & _ & Hn).
      by destruct (Hn s Es). }
    assert (w.(mw_pending) = []) as Hp.
    { destruct (mw_pending w) eqn:E; [done|].
      destruct (so_pending w (ho_single w H) ltac:(by rewrite E)) as (? & _). congruence. }
    assert (w.(mw_manager).(mg_closed) = false) as Hcl.
    { destruct (mg_closed (mw_manager w)) eqn:E; [|done]. apply (so_closed w (ho_single w H)) in E. congruence. }
    pose proof (ho_watch w H) as Hw. destruct H as [H1 H2 H3 H4 H5 H6 H7]. unfold notify in *.
    unfold known in *. rewrite Hw, Hc, Hp in *. cbn in *. rewrite !app_nil_r in *.
    split; unfold known; cbn; try done.
    + intros s' [Hx|[Hx|Hx]]; [|done|by apply list_elem_of_singleton in Hx].
      apply H3. left. by apply elem_of_difference in Hx as [].
    + apply path_snoc; [done|]. by destruct (report_from _ _).1.
    + intros _ _. by rewrite report_snoc.
    + by intros a ?%elem_of_nil.
  - rewrite app_nil_r in *. eapply (heard_same w); try done; cbn; [apply (ho_watch w H)|set_solver].
Qed.

Lemma heard_told w n o : heard_ok w -> w.(mw_calls) = [(n, o)] ->
  let w' := mkMWorld w.(mw_manager) w.(mw_pending) w.(mw_open) w.(mw_next) (start_loop o w.(mw_loops))
    [] (w.(mw_told) ++ [n]) in
  single_ok w' -> heard_ok w'.
Proof.
  intros H Hc w' Hs. assert (forall s, o = Some s -> (s < w.(mw_next))%nat) as Ho.
  { intros s ->. apply (ho_loops w H s). right. right. rewrite Hc. by left. }
  destruct (ho_calls w H ltac:(by rewrite Hc)) as (_ & Hp & _ & _).
  destruct H as [H1 H2 H3 H4 H5 H6 H7].
  assert (known w' = known w) as Ek by (unfold known, w'; rewrite Hp, Hc; cbn; by rewrite app_nil_r).
  split; rewrite ?Ek; subst w'; cbn; try done.
  intros s [Hl|[Hl|Hl]]; [|by apply H3; right; left|by apply elem_of_nil in Hl]. destruct o as [s'|]; cbn in Hl; [|by apply H3; left].
  apply elem_of_union in Hl as [->%elem_of_singleton|Hl]; [by apply Ho|by apply H3; left].
Qed.

Lemma heard_close w : heard_ok w -> w.(mw_pending) = [] -> w.(mw_calls) = [] ->
  let w' := mkMWorld (Manager_Close w.(mw_manager)).2 w.(mw_pending)
    (close_opt (Manager_Close w.(mw_manager)).1 w.(mw_open)) w.(mw_next) w.(mw_loops) w.(mw_calls) w.(mw_told) in
  single_ok w' -> heard_ok w'.
Proof.
  intros [H1 H2 H3 H4 H5 H6 H7] Hp Hc w' Hs. subst w'. rewrite Hp, Hc in *.
  split; cbn in *; try done.
  - intros s [Hl|[Hl|Hl]]; [by apply H3; left|done|by apply elem_of_nil in Hl].
  - unfold known in *. cbn. by rewrite Hp, Hc in H5.
  - by intros a ?%elem_of_nil.
Qed.

Lemma mstep_heard w w' : heard_ok w -> mstep w w' -> heard w w' -> heard_ok w'.
Proof.
  intros H Hstep (Hcalm & Hcall & Hw). pose proof (mstep_single w w' (ho_single w H) Hstep Hcalm) as Hs.
  assert (forall l1 a l2, w.(mw_pending) = l1 ++ a :: l2 -> l1 = [] /\ l2 = [] /\ w.(mw_pending) = [a]) as Hone.
  { intros l1 a l2 E. by destruct (heard_pending w l1 a l2 H E) as (? & ? & ? & _). }
  destruct Hstep as [tcp a pw m' E|b|old p m' E|l1 p n ns l2 E|l1 p l2 e E|l1 p l2 tr E Hp|s err Hl|l1 n o l2 E|f|].
  - unfold configure in E. destruct (NormalizeServerAddress a); [|done]. destruct pw; [done|].
    injection E as <-. by apply (heard_same w).
  - cbn in Hw. subst b. by apply (heard_same w); try done; rewrite (ho_watch w H).
  - assert (w.(mw_pending) = []) as Hp by (apply Hcalm; left; unfold starts; cbn; lia).
    assert (w.(mw_calls) = []) as Hc by (apply Hcall; left; unfold starts; cbn; lia).
    rewrite Hp, Hc in *. by apply (heard_begin w old p m').
  - destruct (Hone _ _ _ E) as (-> & -> & Hp). by apply heard_connecting.
  - destruct (Hone _ _ _ E) as (-> & -> & Hp). by eapply heard_fail.
  - destruct (Hone _ _ _ E) as (-> & -> & Hp'). by eapply heard_finish.
  - by apply heard_session_end.
  - destruct (ho_calls w H ltac:(rewrite E; by destruct l1)) as (Hlen & _).
    rewrite E, length_app in Hlen. cbn in Hlen.
    assert (l1 = [] /\ l2 = []) as [-> ->] by (split; apply nil_length_inv; lia). by apply heard_told.
  - unfold catalog_frame in *. destruct (negb _); [by apply (heard_same w)|].
    by destruct (DecodeJSON f) as [c [e|]]; apply (heard_same w).
  - assert (w.(mw_pending) = [] /\ w.(mw_calls) = []) as [Hp Hc].
    { destruct (mg_closed (mw_manager w)) eqn:E; [by destruct (heard_closed w H E) as (? & ? & _)|].
      split; [apply Hcalm|apply Hcall]; by right. }
    by apply heard_close.
Qed.

Lemma mrun_heard_ok w : mrun_heard w -> heard_ok w.
Proof.
  induction 1 as [|w w' _ IH Hs Hc]; [|by apply (mstep_heard w)].
  split; cbn; try done; [by apply single_ok_start| |by intros a ?%elem_of_nil].
  intros s [Hl|[Hl|Hl]]; [by apply elem_of_empty in Hl|done|by apply elem_of_nil in Hl].
Qed.

(* ------------------------------------------------------------------ *)
(** ** Properties *)

(** C16: the manager's state tells the truth, as long as its calls do not
    overlap (no [Reconnect] and no [Close] while a [Reconnect] is under way),
    whatever sessions end and frames arrive in between: it is connecting
    exactly while a [Reconnect] is under way and connected exactly while it has
    a session; no session but that one is open, so none leaks; and once closed
    it has no session, none is open, and [Reconnect] refuses. *)
Theorem manager_state_truthful (w : MWorld) (Hrun : mrun_single w) :
  let m := w.(mw_manager) in
  (m.(mg_state) = StateConnecting <-> w.(mw_pending) <> []) /\
  (m.(mg_state) = StateConnected <-> m.(mg_session) <> None) /\
  (forall s, s ∈ w.(mw_open) -> m.(mg_session) = Some s) /\
  (m.(mg_closed) = true -> m.(mg_session) = None /\ w.(mw_open) = ∅ /\
     is_ok (Reconnect_begin m).1 = false).
Proof.
  destruct (mrun_single_ok w Hrun) as [H1 H2 H3 H4 H5]. cbn zeta.
  split_and!.
  - destruct (mw_pending w); split; try done; [|by intros _; apply H2].
    by destruct (H3 eq_refl) as [? _].
  - destruct (mw_pending w); [by destruct (H3 eq_refl)|]. destruct (H2 ltac:(done)) as (-> & _ & ->). done.
  - done.
  - intros Hc. split_and!; [by auto| |unfold Reconnect_begin; by rewrite Hc].
    apply set_eq. intros s. split; [|by intros ?%elem_of_empty]. intros Hs.
    specialize (H4 s Hs). rewrite H5 in H4 by done. done.
Qed.

(** C17: a state callback follows the manager: it is set at the start, calls do
    not overlap and none begins before the callback has heard of the last one.
    Then what it is told is a path of the connection's states (connected only
    after connecting, no state but disconnected twice in a row); whenever
    nothing is under way and nothing remains to be told, the last it was told
    is the state and the error that [State] reports; and after [Close] it is
    told nothing more. *)
Theorem callback_follows_manager (w : MWorld) (Hrun : mrun_heard w) :
  let m := w.(mw_manager) in
  path (StateDisconnected, None) w.(mw_told) /\
  (m.(mg_closed) = false -> w.(mw_pending) = [] -> w.(mw_calls) = [] ->
   exists transport, Manager_State m = ((report w.(mw_told)).1, transport, (report w.(mw_told)).2)) /\
  (m.(mg_closed) = true -> forall w', mstep w w' -> w'.(mw_told) = w.(mw_told)).
Proof.
  pose proof (mrun_heard_ok w Hrun) as H. split_and!.
  - eapply path_prefix, (ho_path w H).
  - intros Hcl Hp Hc. pose proof (ho_report w H Hcl Hp) as Hr. unfold known in Hr. rewrite Hp, Hc in Hr.
    cbn in Hr. rewrite app_nil_r in Hr. exists (mw_manager w).(mg_transport). by rewrite Hr.
  - intros Hcl w' Hs. destruct (heard_closed w H Hcl) as (Hp & Hc & _).
    destruct Hs; try done.
    + rewrite Hp in *. by destruct l1.
    + rewrite Hc in *. by destruct l1.
Qed.

(* ------------------------------------------------------------------ *)
(** ** Runs *)

Definition demo_params : bytes * bytes * bool := (bytes_of "10.0.0.1:443", bytes_of "pw", true).
Definition demo_set (watched : bool) : Manager :=
  (configure true (bytes_of "10.0.0.1") (bytes_of "pw") (SetStateCallback watched NewManager)).2.
Definition demo_begun (watched : bool) : MWorld :=
  mkMWorld (Reconnect_begin (demo_set watched)).2
    [mkAttempt demo_params (notify StateConnecting None (demo_set watched))] ∅ 0 ∅ [] [].
Definition demo_connected (watched : bool) : MWorld :=
  let m := (Reconnect_begin (demo_set watched)).2 in
  mkMWorld (Reconnect_finish "tls" 0 m) [] ({[0%nat]} ∪ ∅) 1 (finish_loops 0 m ∅) (finish_calls 0 m)
    (notify StateConnecting None m).
(** The callback has been told of the connection. *)
Definition demo_heard : MWorld :=
  let w := demo_connected true in
  mkMWorld w.(mw_manager) [] w.(mw_open) 1 ({[0%nat]} ∪ ∅) [] [(StateConnecting, None); (StateConnected, None)].

Ltac not_started := let H := fresh in first [by intros [?|[]] | intros [H|[_ H]]; [unfold starts in H; cbn in H; lia|discriminate]].

(** The runs satisfy any discipline that these steps do. *)
Lemma demo_begun_run ok watched w0 : w0 = mkMWorld (SetStateCallback watched NewManager) [] ∅ 0 ∅ [] [] ->
  (forall w w', w.(mw_pending) = [] -> w.(mw_calls) = [] -> w'.(mw_manager).(mg_onState) = watched -> ok w w') ->
  mrun ok w0 (demo_begun watched).
Proof.
  intros -> Hok. eapply (mrun_step _ _ (mkMWorld (demo_set watched) [] ∅ 0 ∅ [] [])).
  - eapply mrun_step; [apply mrun_init| |by apply Hok].
    by apply (m_configure (mkMWorld _ [] ∅ 0 ∅ [] []) true (bytes_of "10.0.0.1") (bytes_of "pw")).
  - refine (m_begin (mkMWorld (demo_set watched) [] ∅ 0 ∅ [] []) None _ _ _). vm_compute. reflexivity.
  - by apply Hok.
Qed.

Lemma calm_idle w w' : w.(mw_pending) = [] -> w.(mw_calls) = [] -> w'.(mw_manager).(mg_onState) = false -> calm w w'.
Proof. intros Hp _ _ _. exact Hp. Qed.
Lemma heard_idle w w' : w.(mw_pending) = [] -> w.(mw_calls) = [] -> w'.(mw_manager).(mg_onState) = true -> heard w w'.
Proof. intros Hp Hc Hw. split; [by intros _|split; [by intros _|done]]. Qed.

Lemma demo_connected_single : mrun_single (demo_connected false).
Proof.
  eapply mrun_step; [apply (demo_begun_run _ false _ eq_refl calm_idle)| |].
  - refine (m_finish (demo_begun false) [] demo_params [] "tls" eq_refl _). reflexivity.
  - not_started.
Qed.

Lemma manager_state_truthful_witness :
  (demo_connected false).(mw_manager).(mg_state) = StateConnected <->
  (demo_connected false).(mw_manager).(mg_session) <> None.
Proof. apply (manager_state_truthful (demo_connected false)). apply demo_connected_single. Defined.

Lemma demo_heard_run : mrun_heard demo_heard.
Proof.
  eapply (mrun_step _ _ (demo_connected true)).
  - eapply (mrun_step _ _ (mkMWorld (Reconnect_begin (demo_set true)).2 [mkAttempt demo_params []] ∅ 0 ∅ []
      [(StateConnecting, None)])).
    + eapply mrun_step; [apply (demo_begun_run _ true _ eq_refl heard_idle)| |].
      * exact (m_connecting (demo_begun true) [] demo_params (StateConnecting, None) [] [] eq_refl).
      * split_and!; [not_started|not_started|reflexivity].
    + refine (m_finish (mkMWorld _ [mkAttempt demo_params []] ∅ 0 ∅ [] [(StateConnecting, None)])
        [] demo_params [] "tls" eq_refl _). reflexivity.
    + split_and!; [not_started|not_started|reflexivity].
  - exact (m_told (demo_connected true) [] (StateConnected, None) (Some 0%nat) [] eq_refl).
  - split_and!; [not_started|not_started|reflexivity].
Qed.

Lemma callback_follows_manager_witness :
  exists transport, Manager_State demo_heard.(mw_manager) = (StateConnected, transport, None).
Proof.
  destruct (callback_follows_manager demo_heard demo_heard_run) as (_ & H & _).
  destruct (H eq_refl eq_refl eq_refl) as [transport Ht]. exists transport. exact Ht.
Defined.

(** A [Close] during a [Reconnect] is undone by it: the manager ends up closed
    and connected, with an open session that nothing closes. *)
Theorem close_during_reconnect_undone :
  exists w, mrun_any w /\ w.(mw_manager).(mg_closed) = true /\
    w.(mw_manager).(mg_state) = StateConnected /\ 0%nat ∈ w.(mw_open).
Proof.
  eexists. split; [|split].
  - eapply mrun_step; [eapply mrun_step; [by apply (demo_begun_run _ false)|apply m_close|done]| |done].
    refine (m_finish (mkMWorld _ [mkAttempt demo_params []] ∅ 0 ∅ [] []) [] demo_params [] "tls" eq_refl _). reflexivity.
  - reflexivity.
  - split; [reflexivity|set_solver].
Qed.

(** The callback is not told of [Close]: for it the client stays connected. *)
Theorem close_not_told :
  exists w, mrun_heard w /\ w.(mw_manager).(mg_closed) = true /\ w.(mw_manager).(mg_state) = StateDisconnected /\
    w.(mw_pending) = [] /\ w.(mw_calls) = [] /\ report w.(mw_told) = (StateConnected, None).
Proof.
  eexists. split.
  - eapply mrun_step; [apply demo_heard_run|apply m_close|]. split_and!; [done|done|reflexivity].
  - split_and!; reflexivity.
Qed.

(** The worlds of a run in which a callback is late: the session has ended; the
    next [Reconnect] has begun; it is told; it is through; and its callback has
    been called before that of the end. *)
Definition late_manager (n : nat) : Manager :=
  let ended := (sessionLoop_end 0 (Some EOF) demo_heard.(mw_manager)).2 in
  match n with
  | 0%nat => ended
  | 1%nat => (Reconnect_begin ended).2
  | _ => Reconnect_finish "tls" 1 (Reconnect_begin ended).2
  end.
Definition late_end : notice := (StateDisconnected, Some EOF).
Definition late_told : list notice := [(StateConnecting, None); (StateConnected, None)].
Definition late_world (n : nat) (pending : list attempt) (open loops : gset sid) (next : sid)
  (calls : list (notice * option sid)) (told : list notice) : MWorld :=
  mkMWorld (late_manager n) pending open next loops calls told.

Lemma mrun_to ok w0 w w1 w2 : mrun ok w0 w -> mstep w w1 -> w1 = w2 -> ok w w2 -> mrun ok w0 w2.
Proof. intros Hrun Hstep -> Hok. by eapply mrun_step. Qed.

(** Calls that overlap with a late callback are told in the wrong order: the
    session ends, the next [Reconnect] is through before the callback is
    called for that end, and what it hears last is that the client is
    disconnected, while it is connected. *)
Theorem late_notice_misleads :
  exists w, mrun calm winit w /\ w.(mw_pending) = [] /\ w.(mw_calls) = [] /\
    w.(mw_manager).(mg_state) = StateConnected /\ report w.(mw_told) = (StateDisconnected, Some EOF).
Proof.
  assert (forall w, mrun_heard w -> mrun calm winit w) as Hcalm.
  { induction 1 as [|w w' ? IH Hs [Hc _]]; [apply mrun_init|by eapply mrun_step]. }
  exists (late_world 2 [] {[1%nat]} {[1%nat]} 2 [] (late_told ++ late_told ++ [late_end])). split.
  - eapply (mrun_to _ _ (late_world 2 [] {[1%nat]} {[1%nat]} 2 [(late_end, None)] (late_told ++ late_told)));
      [|by apply (m_told _ [])|reflexivity|not_started].
    eapply (mrun_to _ _ (late_world 2 [] {[1%nat]} ∅ 2 [(late_end, None); ((StateConnected, None), Some 1%nat)]
      (late_told ++ [(StateConnecting, None)]))); [|by apply (m_told _ [(late_end, None)])|reflexivity|not_started].
    eapply (mrun_to _ _ (late_world 1 [mkAttempt demo_params []] ∅ ∅ 1 [(late_end, None)]
      (late_told ++ [(StateConnecting, None)]))); [|by apply (m_finish _ [] demo_params [] "tls")|reflexivity|not_started].
    eapply (mrun_to _ _ (late_world 1 [mkAttempt demo_params [(StateConnecting, None)]] ∅ ∅ 1 [(late_end, None)] late_told));
      [|by apply (m_connecting _ [])|reflexivity|not_started].
    eapply (mrun_to _ _ (late_world 0 [] ∅ ∅ 1 [(late_end, None)] late_told));
      [|by apply (m_begin _ None demo_params)|reflexivity|done].
    eapply (mrun_to _ _ demo_heard); [apply Hcalm, demo_heard_run
      |apply (m_session_end demo_heard 0 (Some EOF)); set_solver|reflexivity|not_started].
  - split_and!; reflexivity.
Qed.
