(* ===== verification/Relay.v ===== *)
(** * Relays: [internal/session/relay.go] and [Relay] of [internal/proxy/dialer.go]

    Both functions copy each of two connections to the other in a goroutine of
    its own, half-close a destination when its source has ended, and close both
    connections once both copies are done; they differ only in how they wait
    (a [WaitGroup] or two receives from a channel).  The goroutines are the
    steps of [rstep]; how much one [Read] of [io.Copy] returns is arbitrary.  What
    the other sides of the two connections do is [estep]: a [Read] waits while
    nothing has arrived, a [Write] while the connection takes nothing. *)
From S2P Require Import Prelude GoIO.

(** A connection: what has arrived and was not read yet (with the error that
    ends it), what its other side has still to send, whether its end has been
    signalled, which is seen once everything has been read; what was written to
    it, and whether it takes nothing at the moment; whether it is a
    [CloseWriter], and how far it has been closed. *)
Record endpoint := mkEnd {
  en_in : Reader;
  en_later : bytes;
  en_ended : bool;
  en_out : Sink;
  en_stalled : bool;
  en_closeWriter : bool;
  en_wclosed : bool;
  en_closed : bool
}.

Definition with_in (i : Reader) (later : bytes) (ended : bool) (e : endpoint) : endpoint :=
  mkEnd i later ended e.(en_out) e.(en_stalled) e.(en_closeWriter) e.(en_wclosed) e.(en_closed).
Definition with_out (w : Sink) (stalled : bool) (e : endpoint) : endpoint :=
  mkEnd e.(en_in) e.(en_later) e.(en_ended) w stalled e.(en_closeWriter) e.(en_wclosed) e.(en_closed).
Definition with_closed (wclosed closed : bool) (e : endpoint) : endpoint :=
  mkEnd e.(en_in) e.(en_later) e.(en_ended) e.(en_out) e.(en_stalled) e.(en_closeWriter) wclosed closed.

Definition CloseWrite (e : endpoint) : endpoint := with_closed true e.(en_closed) e.
Definition Close (e : endpoint) : endpoint := with_closed e.(en_wclosed) true e.

(** [if closer, ok := dst.(CloseWriter); ok { closer.CloseWrite() } else { dst.Close() }] *)
Definition finish_dst (dst : endpoint) : endpoint :=
  if dst.(en_closeWriter) then CloseWrite dst else Close dst.

(** [dst.Write(p)]. *)
Definition end_Write (p : bytes) (e : endpoint) : option error * endpoint :=
  if e.(en_closed) || e.(en_wclosed) then (Some ErrClosed, e)
  else let '(err, w) := Sink_Write p e.(en_out) in (err, with_out w e.(en_stalled) e).

(** Whether a [Write] waits. *)
Definition write_waits (e : endpoint) : bool := e.(en_stalled) && negb (e.(en_closed) || e.(en_wclosed)).

(** One [Read] of [io.Copy] takes some of the bytes, as many as the transport
    and the buffer of that copy happen to allow. *)
Definition skip (n : nat) (e : endpoint) : endpoint :=
  with_in (mkReader (drop n e.(en_in).(rd_buf)) e.(en_in).(rd_err)) e.(en_later) e.(en_ended) e.

(** Where a copy is: before a [Read], inside a [Write], after [io.Copy], done. *)
Inductive phase : Type := Copying | Writing (p : bytes) | Copied | Finished.

(** One action of [io.Copy(dst, src)]: the phases before and after, the source
    and the destination after. *)
Inductive copy_turn (src dst : endpoint) : phase -> phase -> endpoint -> endpoint -> Prop :=
  | turn_closed :
      src.(en_closed) = true -> copy_turn src dst Copying Copied src dst
  | turn_end :
      src.(en_closed) = false -> src.(en_in).(rd_buf) = [] -> src.(en_later) = [] -> src.(en_ended) = true ->
      copy_turn src dst Copying Copied src dst
  | turn_read n :
      src.(en_closed) = false -> (1 <= n <= length src.(en_in).(rd_buf))%nat ->
      copy_turn src dst Copying (Writing (take n src.(en_in).(rd_buf))) (skip n src) dst
  | turn_write p err dst' :
      write_waits dst = false -> end_Write p dst = (err, dst') ->
      copy_turn src dst (Writing p) (match err with None => Copying | Some _ => Copied end) src dst'.

(** [Relay(a, b)]: [toA] copies [b] to [a], [toB] copies [a] to [b]. *)
Record relay := mkRelay {
  rl_a : endpoint;
  rl_b : endpoint;
  rl_toA : phase;
  rl_toB : phase;
  rl_returned : bool
}.

Definition Relay (a b : endpoint) : relay := mkRelay a b Copying Copying false.

Inductive rstep (r : relay) : relay -> Prop :=
  | step_copyA p b a :
      copy_turn r.(rl_b) r.(rl_a) r.(rl_toA) p b a ->
      rstep r (mkRelay a b p r.(rl_toB) r.(rl_returned))
  | step_copyB p a b :
      copy_turn r.(rl_a) r.(rl_b) r.(rl_toB) p a b ->
      rstep r (mkRelay a b r.(rl_toA) p r.(rl_returned))
  | step_finishA :
      r.(rl_toA) = Copied ->
      rstep r (mkRelay (finish_dst r.(rl_a)) r.(rl_b) Finished r.(rl_toB) r.(rl_returned))
  | step_finishB :
      r.(rl_toB) = Copied ->
      rstep r (mkRelay r.(rl_a) (finish_dst r.(rl_b)) r.(rl_toA) Finished r.(rl_returned))
  | step_return :
      r.(rl_toA) = Finished -> r.(rl_toB) = Finished -> r.(rl_returned) = false ->
      rstep r (mkRelay (Close r.(rl_a)) (Close r.(rl_b)) Finished Finished true).

(** What happens on a connection by itself: more arrives, its end is signalled,
    it takes bytes again or stops to. *)
Inductive estep (e : endpoint) : endpoint -> Prop :=
  | end_arrives p q : e.(en_later) = p ++ q ->
      estep e (with_in (mkReader (e.(en_in).(rd_buf) ++ p) e.(en_in).(rd_err)) q e.(en_ended) e)
  | end_ends : estep e (with_in e.(en_in) e.(en_later) true e)
  | end_stalls b : estep e (with_out e.(en_out) b e).

(** The relay and its connections, with the number of the relay's own steps. *)
Inductive rruns (r0 : relay) : nat -> relay -> Prop :=
  | rruns_nil : rruns r0 0 r0
  | rruns_own n r r' : rruns r0 n r -> rstep r r' -> rruns r0 (S n) r'
  | rruns_a n r a : rruns r0 n r -> estep r.(rl_a) a ->
      rruns r0 n (mkRelay a r.(rl_b) r.(rl_toA) r.(rl_toB) r.(rl_returned))
  | rruns_b n r b : rruns r0 n r -> estep r.(rl_b) b ->
      rruns r0 n (mkRelay r.(rl_a) b r.(rl_toA) r.(rl_toB) r.(rl_returned)).

(** Everything the other side sends that has not been read. *)
Definition sends (e : endpoint) : bytes := e.(en_in).(rd_buf) ++ e.(en_later).

(* ------------------------------------------------------------------ *)
(** ** What the steps leave alone *)

Lemma end_Write_in p e err e' : end_Write p e = (err, e') ->
  e'.(en_in) = e.(en_in) /\ e'.(en_later) = e.(en_later) /\ e'.(en_closeWriter) = e.(en_closeWriter) /\
  e'.(en_wclosed) = e.(en_wclosed) /\ e'.(en_closed) = e.(en_closed).
Proof.
  unfold end_Write. destruct (_ || _); [by intros [= <- <-]|].
  destruct (Sink_Write _ _). by intros [= <- <-].
Qed.

Lemma finish_dst_in e : (finish_dst e).(en_in) = e.(en_in) /\ (finish_dst e).(en_later) = e.(en_later) /\
  (finish_dst e).(en_out) = e.(en_out).
Proof. unfold finish_dst. by destruct (en_closeWriter e). Qed.

Lemma copy_turn_other src dst p p' src' dst' : copy_turn src dst p p' src' dst' ->
  src'.(en_out) = src.(en_out) /\ sends dst' = sends dst.
Proof. unfold sends. intros [| |? ? ?|? ? ? ? Hw]; try done. by apply end_Write_in in Hw as (-> & -> & _). Qed.

Lemma copy_turn_source src dst p p' src' dst' : copy_turn src dst p p' src' dst' ->
  src'.(en_out) = src.(en_out) /\ src'.(en_wclosed) = src.(en_wclosed) /\
  src'.(en_closeWriter) = src.(en_closeWriter) /\ src'.(en_closed) = src.(en_closed).
Proof. by intros []. Qed.

Lemma estep_keeps e e' : estep e e' ->
  sends e' = sends e /\ e'.(en_out) = e.(en_out) /\ e'.(en_closeWriter) = e.(en_closeWriter) /\
  e'.(en_wclosed) = e.(en_wclosed) /\ e'.(en_closed) = e.(en_closed).
Proof. unfold sends. intros [p q E| |b]; cbn; [by rewrite E, <-app_assoc|done..]. Qed.

(** [finish_dst] has been called on the destination. *)
Definition told (dst : endpoint) : Prop :=
  if dst.(en_closeWriter) then dst.(en_wclosed) = true else dst.(en_closed) = true.

Lemma finish_dst_told e : told (finish_dst e).
Proof. unfold told, finish_dst. by destruct (en_closeWriter e) eqn:E; cbn; rewrite E. Qed.

Lemma told_keeps e e' : e'.(en_closeWriter) = e.(en_closeWriter) ->
  (e.(en_wclosed) = true -> e'.(en_wclosed) = true) -> (e.(en_closed) = true -> e'.(en_closed) = true) ->
  told e -> told e'.
Proof. unfold told. intros ->. destruct (en_closeWriter e); auto. Qed.

(* ------------------------------------------------------------------ *)
(** ** Termination *)

Definition weight (p : phase) : nat :=
  match p with Writing _ => 3 | Copying => 2 | Copied => 1 | Finished => 0 end.
Definition unread (e : endpoint) : nat := length e.(en_in).(rd_buf).
Definition fuel (r : relay) : nat :=
  2 * unread r.(rl_a) + 2 * unread r.(rl_b) + weight r.(rl_toA) + weight r.(rl_toB) +
  (if r.(rl_returned) then 0 else 1).

Lemma copy_turn_fuel src dst p p' src' dst' : copy_turn src dst p p' src' dst' ->
  (2 * unread src' + 2 * unread dst' + weight p' < 2 * unread src + 2 * unread dst + weight p)%nat.
Proof.
  intros [|? ? ? ?|n H1 H2|d e dst1 H1 Hw]; cbn [weight]; try lia.
  - unfold unread in *. cbn. rewrite length_drop. lia.
  - apply end_Write_in in Hw as [Hu _]. unfold unread. rewrite Hu. destruct e; cbn; lia.
Qed.

Lemma rstep_fuel r r' : rstep r r' -> (fuel r' < fuel r)%nat.
Proof.
  unfold fuel. intros [p b a H|p a b H|E|E|E1 E2 E3]; cbn [rl_a rl_b rl_toA rl_toB rl_returned].
  - apply copy_turn_fuel in H. lia.
  - apply copy_turn_fuel in H. lia.
  - rewrite E. unfold unread. rewrite (proj1 (finish_dst_in _)). cbn [weight]. lia.
  - rewrite E. unfold unread. rewrite (proj1 (finish_dst_in _)). cbn [weight]. lia.
  - rewrite E1, E2, E3. unfold unread. cbn [weight Close with_closed en_in]. lia.
Qed.

(** What has arrived on a connection since [e0], with what was there. *)
Definition arrived (e0 e : endpoint) : nat := length (sends e0) - length e.(en_later).

Lemma copy_turn_later src dst p p' src' dst' : copy_turn src dst p p' src' dst' ->
  src'.(en_later) = src.(en_later) /\ dst'.(en_later) = dst.(en_later).
Proof. intros [| |? ? ?|? ? ? ? Hw]; try done. by apply end_Write_in in Hw as (_ & -> & _). Qed.

Lemma rstep_later r r' : rstep r r' ->
  r'.(rl_a).(en_later) = r.(rl_a).(en_later) /\ r'.(rl_b).(en_later) = r.(rl_b).(en_later).
Proof.
  intros [p b a H|p a b H|E|E|E1 E2 E3]; cbn; try done.
  - by apply copy_turn_later in H as [-> ->].
  - by apply copy_turn_later in H as [-> ->].
  - by rewrite (proj1 (proj2 (finish_dst_in _))).
  - by rewrite (proj1 (proj2 (finish_dst_in _))).
Qed.

Lemma estep_fuel e e' : estep e e' ->
  (unread e' + length e'.(en_later) = unread e + length e.(en_later))%nat /\
  (length e'.(en_later) <= length e.(en_later))%nat.
Proof. unfold unread. intros [p q E| |b]; cbn; [|done..]. rewrite E, !length_app. lia. Qed.

Lemma rruns_bounded a b n r : rruns (Relay a b) n r ->
  (n + fuel r + 2 * length r.(rl_a).(en_later) + 2 * length r.(rl_b).(en_later) <=
     2 * length (sends a) + 2 * length (sends b) + 5)%nat /\
  (length r.(rl_a).(en_later) <= length (sends a))%nat /\ (length r.(rl_b).(en_later) <= length (sends b))%nat.
Proof.
  induction 1 as [|n r r' _ (IH & Ha & Hb) H|n r e _ (IH & Ha & Hb) H|n r e _ (IH & Ha & Hb) H].
  - unfold fuel, unread, sends. cbn. rewrite !length_app. lia.
  - pose proof (rstep_fuel _ _ H). apply rstep_later in H as [-> ->]. lia.
  - apply estep_fuel in H. unfold fuel in *. cbn in *. lia.
  - apply estep_fuel in H. unfold fuel in *. cbn in *. lia.
Qed.

(** A direction that can do nothing by itself: its source is open and nothing
    has arrived, or its destination takes nothing. *)
Definition waits (src dst : endpoint) (p : phase) : Prop :=
  match p with
  | Copying => src.(en_closed) = false /\ src.(en_in).(rd_buf) = [] /\ (src.(en_later) <> [] \/ src.(en_ended) = false)
  | Writing _ => write_waits dst = true
  | _ => False
  end.

Lemma copy_turn_progress src dst p : (forall p' s d, ~ copy_turn src dst p p' s d) ->
  waits src dst p \/ p = Copied \/ p = Finished.
Proof.
  intros Hno. destruct p as [|d| |]; [| |by right; left|by right; right].
  - left. destruct (en_closed src) eqn:Ec; [by destruct (Hno Copied src dst); apply turn_closed|].
    destruct (rd_buf (en_in src)) as [|x l] eqn:Eb.
    + split_and!; try done. destruct (en_later src) eqn:El; [|by left]. right.
      destruct (en_ended src) eqn:Ee; [|done]. by destruct (Hno Copied src dst); apply turn_end.
    + destruct (Hno (Writing (take 1 (rd_buf (en_in src)))) (skip 1 src) dst). apply turn_read; [done|]. rewrite Eb. cbn. lia.
  - left. cbn. destruct (write_waits dst) eqn:E; [done|]. destruct (end_Write d dst) as [err dst'] eqn:Ew.
    edestruct Hno. by eapply turn_write.
Qed.

(** A direction that has finished has told its destination; a returned relay
    has closed both connections. *)
Definition relay_wf (r : relay) : Prop :=
  (r.(rl_toA) = Finished -> told r.(rl_a)) /\ (r.(rl_toB) = Finished -> told r.(rl_b)) /\
  (r.(rl_returned) = true ->
   r.(rl_toA) = Finished /\ r.(rl_toB) = Finished /\
   r.(rl_a).(en_closed) = true /\ r.(rl_b).(en_closed) = true).

Lemma turn_told src dst p p' src' dst' : copy_turn src dst p p' src' dst' ->
  p' <> Finished /\ p <> Finished /\ (told src -> told src').
Proof. intros [| |? ? ?|? e ? ? ?]; try done. by destruct e. Qed.

Lemma rstep_wf r r' : relay_wf r -> rstep r r' -> relay_wf r'.
Proof.
  intros (HA & HB & HR) Hs. destruct Hs as [p b a H|p a b H|E|E|E1 E2 E3]; unfold relay_wf; cbn.
  - apply turn_told in H as (H1 & H2 & H3). split_and!; [done|auto|]. intros Hr. by destruct (HR Hr).
  - apply turn_told in H as (H1 & H2 & H3). split_and!; [auto|done|]. intros Hr. by destruct (HR Hr) as (_ & ? & _).
  - split_and!; [intros _; apply finish_dst_told|done|]. intros Hr. destruct (HR Hr). congruence.
  - split_and!; [done|intros _; apply finish_dst_told|]. intros Hr. destruct (HR Hr) as (_ & ? & _). congruence.
  - split; [|split; [|done]]; intros _; [apply (told_keeps (rl_a r))|apply (told_keeps (rl_b r))]; auto.
Qed.

Lemma estep_wf_told e e' : estep e e' -> told e -> told e'.
Proof. intros (_ & _ & E1 & E2 & E3)%estep_keeps. by apply told_keeps; rewrite ?E1, ?E2, ?E3. Qed.

Lemma rruns_wf a b n r : rruns (Relay a b) n r -> relay_wf r.
Proof.
  induction 1 as [|n r r' _ IH H|n r e _ (HA & HB & HR) H|n r e _ (HA & HB & HR) H]; [done|by eapply rstep_wf|..].
  - pose proof (estep_wf_told _ _ H). apply estep_keeps in H as (_ & _ & _ & _ & E).
    split_and!; cbn; [auto|done|]. by rewrite E.
  - pose proof (estep_wf_told _ _ H). apply estep_keeps in H as (_ & _ & _ & _ & E).
    split_and!; cbn; [done|auto|]. by rewrite E.
Qed.

(** Everything has arrived on a connection, its end too, and it takes what is
    written. *)
Definition over (e : endpoint) : Prop :=
  e.(en_later) = [] /\ e.(en_ended) = true /\ e.(en_stalled) = false.

(** C30: the relay does nothing but pass on what arrives: in a run in which the
    two connections do whatever they like, and may stay idle for ever, its own
    steps are at most five and two for each byte that has arrived.  When it can
    make no step, then either it has returned with both connections closed; or it
    has not, and each direction either waits, for more from a source that is
    open and has not ended or for a destination that takes nothing, or is done and has told
    its destination, by half-closing it if it can be and by closing it otherwise;
    it then returns once both connections have ended and take what is written. *)
Theorem relay_terminates a b n r : rruns (Relay a b) n r ->
  (n <= 2 * (arrived a r.(rl_a) + arrived b r.(rl_b)) + 5)%nat /\
  ((forall r', ~ rstep r r') ->
   (r.(rl_returned) = true /\ r.(rl_a).(en_closed) = true /\ r.(rl_b).(en_closed) = true /\
      told r.(rl_a) /\ told r.(rl_b)) \/
   (r.(rl_returned) = false /\
    (waits r.(rl_b) r.(rl_a) r.(rl_toA) \/ r.(rl_toA) = Finished /\ told r.(rl_a)) /\
    (waits r.(rl_a) r.(rl_b) r.(rl_toB) \/ r.(rl_toB) = Finished /\ told r.(rl_b)) /\
    ~ (over r.(rl_a) /\ over r.(rl_b)))).
Proof.
  intros H. split.
  { apply rruns_bounded in H as (H & Ha & Hb). unfold arrived. lia. }
  intros Hno. destruct (rruns_wf _ _ _ _ H) as (HA & HB & HR).
  destruct (rl_returned r) eqn:Er.
  { destruct (HR eq_refl) as (E1 & E2 & ? & ?). left. split_and!; auto. }
  right. split; [done|].
  destruct (copy_turn_progress r.(rl_b) r.(rl_a) r.(rl_toA)) as [Wa|[E|Ea]];
    [intros p s d Ht; by eapply Hno, step_copyA| |by edestruct Hno; apply step_finishA|];
    (destruct (copy_turn_progress r.(rl_a) r.(rl_b) r.(rl_toB)) as [Wb|[E|Eb]];
      [intros p s d Ht; by eapply Hno, step_copyB| |by edestruct Hno; apply step_finishB|]);
    try (by edestruct Hno; apply step_return); (split_and!; [by auto|by auto|]);
    intros [(La & Na & Sa) (Lb & Nb & Sb)]; unfold waits, write_waits in *;
    rewrite ?La, ?Na, ?Sa, ?Lb, ?Nb, ?Sb in *;
    repeat match goal with H : match ?p with _ => _ end |- _ => destruct p end; naive_solver.
Qed.

(* ------------------------------------------------------------------ *)
(** ** Delivery *)

(** What a copy has still to deliver. *)
Definition pending (p : phase) (src : endpoint) : bytes :=
  match p with Writing d => d ++ sends src | _ => sends src end.

(** What one direction has delivered: [src0] and [dst0] are the two
    connections before the relay started. *)
Definition delivered (src0 dst0 : endpoint) (src dst : endpoint) (p : phase) : Prop :=
  exists sent rest, dst.(en_out).(sk_out) = dst0.(en_out).(sk_out) ++ sent /\
    sends src0 = sent ++ rest /\ (p <> Copied -> p <> Finished -> rest = pending p src).

Lemma Sink_Write_prefix p w err w' : Sink_Write p w = (err, w') ->
  exists q rest, w'.(sk_out) = w.(sk_out) ++ q /\ p = q ++ rest /\ (err = None -> rest = []).
Proof.
  unfold Sink_Write. destruct (sk_room w) as [k|]; [destruct (_ <=? _)%nat|]; intros [= <- <-]; cbn.
  - exists p, []. by rewrite app_nil_r.
  - exists (take k p), (drop k p). by rewrite take_drop.
  - exists p, []. by rewrite app_nil_r.
Qed.

Lemma end_Write_prefix p e err e' : end_Write p e = (err, e') ->
  exists q rest, e'.(en_out).(sk_out) = e.(en_out).(sk_out) ++ q /\ p = q ++ rest /\ (err = None -> rest = []).
Proof.
  unfold end_Write. destruct (_ || _).
  - intros [= <- <-]. exists [], p. by rewrite app_nil_r.
  - destruct (Sink_Write p (en_out e)) as [er w] eqn:E. intros [= <- <-]. cbn. by eapply Sink_Write_prefix.
Qed.

Lemma skip_sends n e : take n e.(en_in).(rd_buf) ++ sends (skip n e) = sends e.
Proof. unfold sends. cbn. by rewrite app_assoc, take_drop. Qed.

(** A turn of this direction's own copy keeps it a prefix. *)
Lemma delivered_turn src0 dst0 src dst p p' src' dst' :
  delivered src0 dst0 src dst p -> copy_turn src dst p p' src' dst' ->
  delivered src0 dst0 src' dst' p'.
Proof.
  intros (sent & rest & Ho & Hi & Hr) Ht. destruct Ht as [|? ? ? ?|n H1 H2|d e dst1 H1 Hw]; try by exists sent, rest.
  - exists sent, rest. split_and!; [done..|]. intros _ _. rewrite (Hr ltac:(done) ltac:(done)). cbn. by rewrite skip_sends.
  - specialize (Hr ltac:(done) ltac:(done)). subst rest. cbn in Hi.
    apply end_Write_prefix in Hw as (q & r & Hq & -> & Hn).
    exists (sent ++ q), (r ++ sends src). rewrite Hq, Ho, Hi, <-!app_assoc. split_and!; [done..|].
    destruct e; [done|]. intros _ _. by rewrite (Hn eq_refl).
Qed.

(** Everything else leaves the direction alone. *)
Lemma delivered_frame src0 dst0 src dst src' dst' p p' :
  delivered src0 dst0 src dst p -> dst'.(en_out) = dst.(en_out) ->
  (p' <> Finished -> p' = p /\ sends src' = sends src) -> delivered src0 dst0 src' dst' p'.
Proof.
  intros (sent & rest & Ho & Hi & Hr) He Hf. exists sent, rest. rewrite He. split_and!; [done..|].
  intros H1 H2. destruct (Hf H2) as [-> Hs]. rewrite (Hr H1 H2). unfold pending. by rewrite Hs.
Qed.

Definition both_delivered (a0 b0 : endpoint) (r : relay) : Prop :=
  delivered b0 a0 r.(rl_b) r.(rl_a) r.(rl_toA) /\ delivered a0 b0 r.(rl_a) r.(rl_b) r.(rl_toB).

Lemma finish_dst_sends e : sends (finish_dst e) = sends e.
Proof. unfold sends. by destruct (finish_dst_in e) as (-> & -> & _). Qed.

Lemma rstep_delivered a0 b0 r r' : both_delivered a0 b0 r -> rstep r r' -> both_delivered a0 b0 r'.
Proof.
  unfold both_delivered. intros [HA HB] Hs.
  destruct Hs as [p b a H|p a b H|E|E|E1 E2 E3]; cbn.
  - split; [by eapply delivered_turn|]. apply copy_turn_other in H as [Ho Hi]. by eapply delivered_frame.
  - split; [|by eapply delivered_turn]. apply copy_turn_other in H as [Ho Hi]. by eapply delivered_frame.
  - destruct (finish_dst_in (rl_a r)) as (_ & _ & Ho). pose proof (finish_dst_sends (rl_a r)).
    split; by eapply delivered_frame.
  - destruct (finish_dst_in (rl_b r)) as (_ & _ & Ho). pose proof (finish_dst_sends (rl_b r)).
    split; by eapply delivered_frame.
  - split; by eapply delivered_frame.
Qed.

Lemma rruns_delivered a b n r : rruns (Relay a b) n r -> both_delivered a b r.
Proof.
  induction 1 as [|n r r' _ IH H|n r e _ [HA HB] H|n r e _ [HA HB] H]; [|by eapply rstep_delivered| |].
  - by split; [exists [], (sends b)|exists [], (sends a)]; rewrite app_nil_r.
  - apply estep_keeps in H as (Es & Eo & _). split; by eapply delivered_frame.
  - apply estep_keeps in H as (Es & Eo & _). split; by eapply delivered_frame.
Qed.

(** A connection in good order: it can half-close, nothing is closed yet and
    the transport has room for [n] more bytes. *)
Definition healthy (e : endpoint) (n : nat) : Prop :=
  e.(en_closeWriter) = true /\ e.(en_closed) = false /\ has_room e.(en_out) n.

(** One direction while both connections are in good order: the destination
    is open for writing until the direction has finished, the transport has
    room for what is left, nothing is left once the copy is over, and what
    was delivered and what is left make up [total]. *)
Definition flowing (total : bytes) (src dst : endpoint) (p : phase) : Prop :=
  healthy dst (length (pending p src)) /\ dst.(en_wclosed) = (if p is Finished then true else false) /\
  (p = Copied \/ p = Finished -> sends src = []) /\
  dst.(en_out).(sk_out) ++ pending p src = total.

Lemma end_Write_healthy p e n : e.(en_closed) = false -> e.(en_wclosed) = false ->
  has_room e.(en_out) (length p + n) ->
  end_Write p e = (None, with_out (sink_append e.(en_out) p) e.(en_stalled) e) /\
  has_room (sink_append e.(en_out) p) n.
Proof.
  intros Hc Hw Hr. unfold end_Write. rewrite Hc, Hw. cbn.
  assert (has_room e.(en_out) (length p) /\ has_room (sink_append e.(en_out) p) n) as [Hp Hn].
  { revert Hr. unfold has_room, sink_append. destruct (sk_room (en_out e)); cbn; lia. }
  by rewrite (Sink_Write_room _ _ Hp).
Qed.

Lemma flowing_turn t src dst p p' src' dst' : src.(en_closed) = false ->
  flowing t src dst p -> copy_turn src dst p p' src' dst' -> flowing t src' dst' p'.
Proof.
  intros Hc ((Hcw & Hdc & Hroom) & Hdw & Hover & Ht0) Ht.
  destruct Ht as [H|H H1 H2 H3|n H1 H2|d e dst1 H1 Hw]; [congruence|..].
  - unfold flowing, healthy in *. cbn in *. split_and!; try done. intros _. unfold sends. by rewrite H1, H2.
  - unfold flowing, healthy in *. cbn in *. rewrite skip_sends. split_and!; try done. by intros [].
  - cbn in *. rewrite length_app in Hroom.
    destruct (end_Write_healthy d dst (length (sends src)) Hdc Hdw Hroom) as [He Hr].
    rewrite Hw in He. injection He as -> ->. unfold flowing, healthy. cbn. split_and!; try done.
    + by intros [].
    + by rewrite <-app_assoc.
Qed.

(** A relay that loses nothing: both directions flow until it returns, and
    then each side was sent its total and told that this was all. *)
Definition lossless (ta tb : bytes) (r : relay) : Prop :=
  if r.(rl_returned) then
    r.(rl_toA) = Finished /\ r.(rl_toB) = Finished /\
    r.(rl_a).(en_out).(sk_out) = ta /\ r.(rl_b).(en_out).(sk_out) = tb /\
    r.(rl_a).(en_wclosed) = true /\ r.(rl_b).(en_wclosed) = true
  else flowing ta r.(rl_b) r.(rl_a) r.(rl_toA) /\ flowing tb r.(rl_a) r.(rl_b) r.(rl_toB).

Lemma flowing_frame t src dst src' dst' p :
  flowing t src dst p -> sends src' = sends src ->
  dst'.(en_out) = dst.(en_out) -> dst'.(en_wclosed) = dst.(en_wclosed) ->
  dst'.(en_closeWriter) = dst.(en_closeWriter) -> dst'.(en_closed) = dst.(en_closed) ->
  flowing t src' dst' p.
Proof. unfold flowing, healthy, pending. by intros ? -> -> -> -> ->. Qed.

Lemma finish_flowing t src dst : flowing t src dst Copied -> flowing t src (finish_dst dst) Finished.
Proof.
  unfold flowing, healthy, finish_dst. intros ((Hcw & Hc & Hr) & _ & Hn & Ht). rewrite Hcw. cbn in *.
  split_and!; auto.
Qed.

Lemma finish_dst_flowing t src dst p : flowing t src dst p -> (finish_dst dst).(en_closed) = dst.(en_closed).
Proof. unfold finish_dst. intros ((-> & _) & _). done. Qed.

Lemma rstep_lossless ta tb r r' : lossless ta tb r -> rstep r r' -> lossless ta tb r'.
Proof.
  unfold lossless. intros HL Hs.
  destruct Hs as [p b a H|p a b H|E|E|E1 E2 E3]; cbn.
  - destruct (rl_returned r).
    { destruct HL as (E & _). pose proof (turn_told _ _ _ _ _ _ H) as (_ & ? & _). congruence. }
    destruct HL as [HA HB]. pose proof (copy_turn_source _ _ _ _ _ _ H) as (? & ? & ? & ?).
    pose proof (copy_turn_other _ _ _ _ _ _ H) as [_ ?].
    split; [eapply flowing_turn; eauto; apply HB|]. by eapply flowing_frame.
  - destruct (rl_returned r).
    { destruct HL as (_ & E & _). pose proof (turn_told _ _ _ _ _ _ H) as (_ & ? & _). congruence. }
    destruct HL as [HA HB]. pose proof (copy_turn_source _ _ _ _ _ _ H) as (? & ? & ? & ?).
    pose proof (copy_turn_other _ _ _ _ _ _ H) as [_ ?].
    split; [|eapply flowing_turn; eauto; apply HA]. by eapply flowing_frame.
  - destruct (rl_returned r); [destruct HL as (? & _); congruence|]. destruct HL as [HA HB]. rewrite E in HA.
    split; [by apply finish_flowing|]. apply (flowing_frame _ (rl_a r) (rl_b r)); [done|apply finish_dst_sends|done..].
  - destruct (rl_returned r); [destruct HL as (_ & ? & _); congruence|]. destruct HL as [HA HB]. rewrite E in HB.
    split; [|by apply finish_flowing]. apply (flowing_frame _ (rl_b r) (rl_a r)); [done|apply finish_dst_sends|done..].
  - rewrite E1, E2, E3 in HL. destruct HL as [((_ & _ & _) & HwA & HeA & HtA) ((_ & _ & _) & HwB & HeB & HtB)].
    cbn in *. rewrite HeA, app_nil_r in HtA by auto. rewrite HeB, app_nil_r in HtB by auto. by split_and!.
Qed.

Lemma rruns_lossless ta tb r0 n r : lossless ta tb r0 -> rruns r0 n r -> lossless ta tb r.
Proof.
  intros HL. induction 1 as [|n r r' _ IH H|n r e _ IH H|n r e _ IH H]; [done|by eapply rstep_lossless| |];
    apply estep_keeps in H as (E1 & E2 & E3 & E4 & E5); revert IH; unfold lossless; cbn;
    (destruct (rl_returned r); [by rewrite ?E2, ?E4|]); intros [HA HB]; split; by eapply flowing_frame.
Qed.

(** C31: at every moment each side has received, in order and unaltered, a
    beginning of what the other side sent; and when both sides are in good
    order (each can half-close and accepts what the other has to say), a relay
    that has returned delivered everything, in both directions, and
    half-closed both sides before closing them. *)
Theorem relay_delivers a b n r : rruns (Relay a b) n r ->
  (exists sent, sent `prefix_of` sends b /\ r.(rl_a).(en_out).(sk_out) = a.(en_out).(sk_out) ++ sent) /\
  (exists sent, sent `prefix_of` sends a /\ r.(rl_b).(en_out).(sk_out) = b.(en_out).(sk_out) ++ sent) /\
  (healthy a (length (sends b)) -> healthy b (length (sends a)) -> a.(en_wclosed) = false -> b.(en_wclosed) = false ->
   r.(rl_returned) = true ->
   r.(rl_a).(en_out).(sk_out) = a.(en_out).(sk_out) ++ sends b /\
   r.(rl_b).(en_out).(sk_out) = b.(en_out).(sk_out) ++ sends a /\
   r.(rl_a).(en_wclosed) = true /\ r.(rl_b).(en_wclosed) = true).
Proof.
  intros H. destruct (rruns_delivered a b n r H) as [(sA & qA & HA & HpA & _) (sB & qB & HB & HpB & _)].
  split_and!; [exists sA; by split; [exists qA|]|exists sB; by split; [exists qB|]|].
  intros Hha Hhb Hwa Hwb Hr.
  assert (lossless (a.(en_out).(sk_out) ++ sends b) (b.(en_out).(sk_out) ++ sends a) (Relay a b)) as HL.
  { split; (split_and!; [apply Hha || apply Hhb..|done| |done]); by intros []. }
  pose proof (rruns_lossless _ _ _ _ _ HL H) as HL'. unfold lossless in HL'. rewrite Hr in HL'.
  destruct HL' as (_ & _ & HL'). exact HL'.
Qed.

(** Why a source ended is not passed on: [io.Copy]'s error is dropped, and the
    destination is closed as after a complete transfer.  Whatever the error with
    which reading from [a] ends, the relay has the same runs, and the other
    connection is given the same bytes and closed in the same way: a transfer cut
    short by a reset looks complete. *)
Definition failing (x : error) (e : endpoint) : endpoint :=
  with_in (mkReader e.(en_in).(rd_buf) x) e.(en_later) e.(en_ended) e.

Lemma finish_failing x e : finish_dst (failing x e) = failing x (finish_dst e).
Proof. by destruct e as [? ? ? ? ? [] ? ?]. Qed.

Lemma end_Write_failing x p e err e' : end_Write p e = (err, e') -> end_Write p (failing x e) = (err, failing x e').
Proof.
  unfold end_Write. cbn. destruct (_ || _); [by intros [= <- <-]|].
  destruct (Sink_Write p (en_out e)). by intros [= <- <-].
Qed.

Lemma turn_failing_src x src dst p p' s d : copy_turn src dst p p' s d ->
  copy_turn (failing x src) dst p p' (failing x s) d.
Proof.
  intros [H|H1 H2 H3 H4|n H1 H2|q e d' H1 Hw]; [by apply turn_closed|by apply turn_end| |by apply turn_write].
  by apply (turn_read (failing x src)).
Qed.

Lemma turn_failing_dst x src dst p p' s d : copy_turn src dst p p' s d ->
  copy_turn src (failing x dst) p p' s (failing x d).
Proof.
  intros [H|H1 H2 H3 H4|n H1 H2|q e d' H1 Hw]; [by apply turn_closed|by apply turn_end|by apply turn_read|].
  apply turn_write; [done|]. by apply end_Write_failing.
Qed.

Lemma estep_failing x e e' : estep e e' -> estep (failing x e) (failing x e').
Proof. intros [p q E| |b]; [by apply (end_arrives (failing x e))|apply (end_ends (failing x e))|apply (end_stalls (failing x e))]. Qed.

Theorem relay_hides_failure (x : error) (a b : endpoint) (n : nat) (r : relay) : rruns (Relay a b) n r ->
  rruns (Relay (failing x a) b) n
    (mkRelay (failing x r.(rl_a)) r.(rl_b) r.(rl_toA) r.(rl_toB) r.(rl_returned)).
Proof.
  set (bad r := mkRelay (failing x r.(rl_a)) r.(rl_b) r.(rl_toA) r.(rl_toB) r.(rl_returned)).
  change (rruns (Relay a b) n r -> rruns (bad (Relay a b)) n (bad r)).
  induction 1 as [|n r1 r2 _ IH H|n r1 e _ IH H|n r1 e _ IH H].
  - constructor.
  - apply (rruns_own _ n (bad r1)); [done|]. destruct H as [p b' a' Ht|p a' b' Ht|E|E|E1 E2 E3].
    + apply (step_copyA (bad r1)). by apply turn_failing_dst.
    + apply (step_copyB (bad r1)). by apply turn_failing_src.
    + unfold bad at 2. cbn. rewrite <-finish_failing. by apply (step_finishA (bad r1)).
    + by apply (step_finishB (bad r1)).
    + by apply (step_return (bad r1)).
  - apply (rruns_a _ n (bad r1)); [done|]. by apply estep_failing.
  - by apply (rruns_b _ n (bad r1)).
Qed.

(** A terminal talking to a connection: three bytes each way, the terminal's
    third one late. *)
Definition demo_end (here later : bytes) (ended : bool) : endpoint :=
  mkEnd (mkReader here EOF) later ended (mkSink [] (Some 3%nat) ErrClosed) false true false false.
Definition demo_a : endpoint := demo_end (bytes_of "ab") (bytes_of "c") false.
Definition demo_b : endpoint := demo_end (bytes_of "xyz") [] true.

(** One of its runs: after six steps the one direction is done, and the other
    waits for the terminal; then the terminal goes on, and the relay returns. *)
Definition demo_out (out : bytes) (room : nat) (stalled closed : bool) (later : bytes) (ended : bool) : endpoint :=
  mkEnd (mkReader [] EOF) later ended (mkSink out (Some room) ErrClosed) stalled true closed false.
Definition demo_idle : relay :=
  mkRelay (demo_out (bytes_of "xyz") 0 false true (bytes_of "c") false)
          (demo_out (bytes_of "ab") 1 false false [] true) Finished Copying false.
Definition demo_ret : relay :=
  mkRelay (Close (demo_out (bytes_of "xyz") 0 false true [] true))
          (Close (demo_out (bytes_of "abc") 0 false true [] true)) Finished Finished true.

#[local] Ltac own prev last := eapply rruns_own; [prev|last].

Lemma demo_to_idle : rruns (Relay demo_a demo_b) 6 demo_idle.
Proof.
  own ltac:(own ltac:(own ltac:(own ltac:(own ltac:(own ltac:(constructor)
    ltac:(apply step_copyA; apply (turn_read _ _ 3); [done|cbn; lia]))
    ltac:(apply step_copyB; apply (turn_read _ _ 2); [done|cbn; lia]))
    ltac:(apply step_copyB; by eapply turn_write))
    ltac:(apply step_copyA; by eapply turn_write))
    ltac:(apply step_copyA; by apply turn_end))
    ltac:(by refine (step_finishA _ _)).
Qed.

Lemma demo_run : rruns (Relay demo_a demo_b) 11 demo_ret.
Proof.
  own ltac:(own ltac:(own ltac:(own ltac:(own
    ltac:(eapply rruns_a; [eapply rruns_a; [apply demo_to_idle|by apply (end_arrives _ (bytes_of "c") [])]|apply end_ends])
    ltac:(apply step_copyB; apply (turn_read _ _ 1); [done|cbn; lia]))
    ltac:(apply step_copyB; by eapply turn_write))
    ltac:(apply step_copyB; by apply turn_end))
    ltac:(by refine (step_finishB _ _)))
    ltac:(by refine (step_return _ _ _ _)).
Qed.

Lemma no_step_idle r' : ~ rstep demo_idle r'.
Proof.
  intros H. inversion H; subst; try discriminate; match goal with H : copy_turn _ _ _ _ _ _ |- _ => inversion H; subst end;
    try discriminate; cbn in *; lia.
Qed.

Lemma no_step_ret r' : ~ rstep demo_ret r'.
Proof.
  intros H. inversion H; subst; try discriminate; match goal with H : copy_turn _ _ _ _ _ _ |- _ => inversion H end.
Qed.

(** While the terminal is idle its direction waits, and the other is
    half-closed; then the relay returns. *)
Lemma relay_terminates_witness :
  (waits demo_idle.(rl_a) demo_idle.(rl_b) demo_idle.(rl_toB) /\ told demo_idle.(rl_a)) /\
  (11 <= 17)%nat /\ demo_ret.(rl_returned) = true.
Proof.
  destruct (relay_terminates demo_a demo_b 6 demo_idle demo_to_idle) as [_ Hn].
  destruct (relay_terminates demo_a demo_b 11 demo_ret demo_run) as [Hk Hn']. split_and!.
  - destruct (Hn no_step_idle) as [[H _]|(_ & _ & [H|[H _]] & _)]; [discriminate H|exact H|discriminate H].
  - destruct (Hn no_step_idle) as [[H _]|(_ & [H|[_ H]] & _)]; [discriminate H|destruct H|exact H].
  - exact Hk.
  - destruct (Hn' no_step_ret) as [[H _]|[H _]]; [exact H|discriminate H].
Defined.

Lemma relay_delivers_witness :
  demo_ret.(rl_a).(en_out).(sk_out) = bytes_of "xyz" /\ demo_ret.(rl_b).(en_out).(sk_out) = bytes_of "abc".
Proof.
  destruct (relay_delivers demo_a demo_b 11 demo_ret demo_run) as (_ & _ & H).
  destruct H as (HA & HB & _); [repeat split; cbn; lia..|done|done|done|].
  split; [exact HA|exact HB].
Defined.
