(* ===== verification/Logging.v ===== *)
(** * Logging: the rotating log file of [internal/logging/logging.go]

    A [rotatingWriter] appends to [path] until a write would exceed
    [maxBytes]; then the numbered files move up by one, the current one
    becomes [path.1] and a new one is started.  Every system call may fail:
    the faults are arguments. *)
From S2P Require Import Prelude GoIO GoStrings GoFS Config.

(** The open file is [None] for [nil] and otherwise tells whether it is still
    open; an [os.File] of this writer always refers to [path]. *)
Record rotatingWriter := mkRot {
  lw_path : string;
  lw_maxBytes : Z;
  lw_keep : Z;
  lw_file : option bool;
  lw_size : Z
}.

Definition ErrInvalid : error := ENew "invalid argument".

Definition with_file (f : option bool) (w : rotatingWriter) : rotatingWriter :=
  mkRot w.(lw_path) w.(lw_maxBytes) w.(lw_keep) f w.(lw_size).

Record open_faults := mkOpenFaults {
  of_mkdir : option error;
  of_open : option error;
  of_stat : option error
}.

(** [os.OpenFile] with [O_CREATE|O_APPEND|O_WRONLY] and mode 0600. *)
Definition OpenAppend (path : string) (fs : FS) : FS :=
  match fs.(fs_files) !! path with
  | Some _ => fs
  | None => with_files (<[path := mkFile [] (Z.ldiff 0x180 fs.(fs_umask))]> fs.(fs_files)) fs
  end.

Definition file_size (path : string) (fs : FS) : Z :=
  match fs.(fs_files) !! path with Some f => Z.of_nat (length f.(fl_data)) | None => 0 end.

Definition open (ft : open_faults) (w : rotatingWriter) (fs : FS)
  : option error * rotatingWriter * FS :=
  match ft.(of_mkdir) with
  | Some e => (Some e, w, fs)
  | None =>
      match ft.(of_open) with
      | Some e => (Some e, w, fs)
      | None =>
          let fs := OpenAppend w.(lw_path) fs in
          match ft.(of_stat) with
          | Some e => (Some e, w, fs)
          | None =>
              (None, mkRot w.(lw_path) w.(lw_maxBytes) w.(lw_keep) (Some true)
                       (file_size w.(lw_path) fs), fs)
          end
      end
  end.

Definition newRotatingWriter (ft : open_faults) (path : string) (maxBytes keep : Z) (fs : FS)
  : result rotatingWriter * FS :=
  match open ft (mkRot path maxBytes keep None 0) fs with
  | (Some e, _, fs) => (Err e, fs)
  | (None, w, fs) => (Ok w, fs)
  end.

(** [w.file.Close()]. *)
Definition file_Close (fault : option error) (w : rotatingWriter) : option error * rotatingWriter :=
  match w.(lw_file) with
  | None => (Some ErrInvalid, w)
  | Some false => (Some ErrClosed, w)
  | Some true => (fault, with_file (Some false) w)
  end.

(** [w.file.Write(p)]: a fault is the error and how much was written. *)
Definition file_Write (fault : option (error * nat)) (p : bytes) (w : rotatingWriter) (fs : FS)
  : Z * option error * FS :=
  match w.(lw_file) with
  | None => (0, Some ErrInvalid, fs)
  | Some false => (0, Some ErrClosed, fs)
  | Some true =>
      let '(err, q) := match fault with Some (e, n) => (Some e, take n p) | None => (None, p) end in
      (Z.of_nat (length q), err,
       match fs.(fs_files) !! w.(lw_path) with
       | Some f => with_files (<[w.(lw_path) := mkFile (f.(fl_data) ++ q) f.(fl_mode)]> fs.(fs_files)) fs
       | None => fs
       end)
  end.

Record rotate_faults := mkRotFaults {
  rf_close : option error;
  rf_rename : nat -> option error;
  rf_open : open_faults
}.

(** [fmt.Sprintf("%s.%d", path, i)]. *)
Definition numbered (path : string) (i : nat) : string := path +:+ "." +:+ Itoa (Z.of_nat i).

(** [if err := os.Rename(old, new); err != nil && !os.IsNotExist(err) { return err }] *)
Definition rename_existing (fault : option error) (old new : string) (fs : FS) : option error * FS :=
  match Rename fault old new fs with
  | (Some e, fs) => (if bool_decide (e = ErrNotExist) then None else Some e, fs)
  | (None, fs) => (None, fs)
  end.

(** [for i := w.keep - 1; i >= 1; i--], entered with [i = n]. *)
Fixpoint shift_numbered (fault : nat -> option error) (path : string) (n : nat) (fs : FS)
  : option error * FS :=
  match n with
  | O => (None, fs)
  | S k =>
      match rename_existing (fault n) (numbered path n) (numbered path (S n)) fs with
      | (Some e, fs) => (Some e, fs)
      | (None, fs) => shift_numbered fault path k fs
      end
  end.

Definition rotate (ft : rotate_faults) (w : rotatingWriter) (fs : FS)
  : option error * rotatingWriter * FS :=
  match file_Close ft.(rf_close) w with
  | (Some e, w) => (Some e, w, fs)
  | (None, w) =>
      match shift_numbered ft.(rf_rename) w.(lw_path) (Z.to_nat (w.(lw_keep) - 1)) fs with
      | (Some e, fs) => (Some e, w, fs)
      | (None, fs) =>
          match rename_existing (ft.(rf_rename) 0%nat) w.(lw_path) (numbered w.(lw_path) 1) fs with
          | (Some e, fs) => (Some e, w, fs)
          | (None, fs) => open ft.(rf_open) w fs
          end
      end
  end.

Record log_faults := mkLogFaults {
  lf_rotate : rotate_faults;
  lf_write : option (error * nat)
}.

Definition Write (ft : log_faults) (p : bytes) (w : rotatingWriter) (fs : FS)
  : Z * option error * rotatingWriter * FS :=
  let '(err, w, fs) :=
    if wrap_i64 (w.(lw_size) + Z.of_nat (length p)) >? w.(lw_maxBytes)
    then rotate ft.(lf_rotate) w fs else (None, w, fs) in
  match err with
  | Some e => (0, Some e, w, fs)
  | None =>
      let '(n, err, fs) := file_Write ft.(lf_write) p w fs in
      (n, err, mkRot w.(lw_path) w.(lw_maxBytes) w.(lw_keep) w.(lw_file) (wrap_i64 (w.(lw_size) + n)), fs)
  end.

Definition Close (fault : option error) (w : rotatingWriter) : option error * rotatingWriter :=
  match w.(lw_file) with
  | None => (None, w)
  | Some _ => file_Close fault w
  end.

(** [Logger]: where a record goes, in order, and the file behind [closer]. *)
Inductive log_writer : Type := Stderr | LogFile | Discard.
Record Logger := mkLogger { lg_writers : list log_writer; lg_file : option rotatingWriter }.

Definition New (ft : open_faults) (goos dataDir : string) (console : bool) (fs : FS)
  : result Logger * FS :=
  let writers := if console || negb (bool_decide (goos = "windows"%string)) then [Stderr] else [] in
  let finish writers file :=
    mkLogger (match writers with [] => [Discard] | _ => writers end) file in
  if bool_decide (dataDir = ""%string) then (Ok (finish writers None), fs)
  else
    match newRotatingWriter ft (filepath_Join dataDir "lnproxy.log") (Z.shiftl 5 20) 3 fs with
    | (Err e, fs) => (Err e, fs)
    | (Ok w, fs) => (Ok (finish (writers ++ [LogFile]) (Some w)), fs)
    end.

Definition Logger_Close (fault : option error) (l : option Logger) : option error * option Logger :=
  match l with
  | None => (None, None)
  | Some l =>
      match l.(lg_file) with
      | None => (None, Some l)
      | Some w => let '(err, w) := Close fault w in (err, Some (mkLogger l.(lg_writers) (Some w)))
      end
  end.

(* ------------------------------------------------------------------ *)
(** ** File names *)

(** The file that holds the [i]-th newest segment. *)
Definition slot (path : string) (i : nat) : string :=
  match i with O => path | S _ => numbered path i end.

Lemma numbered_inj path i j : numbered path i = numbered path j -> i = j.
Proof.
  unfold numbered. intros H. apply (inj (String.append path)), (inj (String.append ".")) in H.
  apply (f_equal bytes_of) in H. unfold Itoa in H. rewrite !bytes_of_string_of in H.
  apply (f_equal signed_value) in H. rewrite !signed_value_itoa in H. injection H. lia.
Qed.

Lemma numbered_ne path i : numbered path i <> path.
Proof.
  intros H. apply (f_equal String.length) in H. unfold numbered in H. revert H.
  induction path as [|a path IH]; [done|]. cbn. intros [= H]. by apply IH.
Qed.

Lemma slot_inj path i j : slot path i = slot path j -> i = j.
Proof.
  destruct i, j; cbn; intros H; [done|by apply symmetry, numbered_ne in H|by apply numbered_ne in H|].
  by apply numbered_inj in H.
Qed.

Lemma slot_ne path i j : i <> j -> slot path i <> slot path j.
Proof. by intros H H'%slot_inj. Qed.

(* ------------------------------------------------------------------ *)
(** ** Rotation *)

Lemma union_Some {A} (x : A) (o : option A) : union (Some x) o = Some x.
Proof. by destruct o. Qed.
Lemma union_nothing {A} (o : option A) : union o None = o.
Proof. by destruct o. Qed.

Lemma rename_existing_spec old new fs : old <> new ->
  exists fs', rename_existing None old new fs = (None, fs') /\ fs'.(fs_umask) = fs.(fs_umask) /\
    fs'.(fs_files) !! new = union (fs.(fs_files) !! old) (fs.(fs_files) !! new) /\
    fs'.(fs_files) !! old = None /\
    forall q, q <> old -> q <> new -> fs'.(fs_files) !! q = fs.(fs_files) !! q.
Proof.
  intros Hne. unfold rename_existing, Rename. destruct (fs_files fs !! old) as [f|] eqn:E; cbn.
  - eexists. split; [done|]. cbn. split_and!; [done|by rewrite lookup_insert_eq, union_Some|..].
    + by rewrite lookup_insert_ne, lookup_delete_eq.
    + intros q ? ?. by rewrite lookup_insert_ne, lookup_delete_ne.
  - exists fs. split_and!; try done. by destruct (_ !! new).
Qed.

(** Moving up: every numbered file below [n] replaces the next one. *)
Lemma shift_numbered_spec path n : forall fs,
  exists fs', shift_numbered (fun _ => None) path n fs = (None, fs') /\ fs'.(fs_umask) = fs.(fs_umask) /\
    (forall i, (1 <= i < n)%nat -> fs'.(fs_files) !! slot path (S i) = fs.(fs_files) !! slot path i) /\
    ((1 <= n)%nat -> fs'.(fs_files) !! slot path (S n) =
       union (fs.(fs_files) !! slot path n) (fs.(fs_files) !! slot path (S n)) /\
       fs'.(fs_files) !! slot path 1 = None) /\
    forall q, (forall i, (0 < n)%nat -> (1 <= i <= S n)%nat -> q <> slot path i) -> fs'.(fs_files) !! q = fs.(fs_files) !! q.
Proof.
  induction n as [|k IH]; intros fs.
  { exists fs. split_and!; try done; intros; lia. }
  cbn [shift_numbered].
  destruct (rename_existing_spec (numbered path (S k)) (numbered path (S (S k))) fs) as (fs1 & -> & Hu & Hn & Ho & Hf).
  { intros H%numbered_inj. lia. }
  destruct (IH fs1) as (fs2 & -> & Hu2 & Hlow & Htop & Hf2).
  change (numbered path (S k)) with (slot path (S k)) in *.
  change (numbered path (S (S k))) with (slot path (S (S k))) in *.
  assert (forall i, (i < S k)%nat -> fs_files fs1 !! slot path i = fs_files fs !! slot path i) as Hi.
  { intros i Hik. apply Hf; apply slot_ne; lia. }
  exists fs2. split_and!; [done|congruence|..].
  - intros i Hik. destruct (decide (i = k)) as [->|]; [|rewrite Hlow by lia; apply Hi; lia].
    rewrite (proj1 (Htop ltac:(lia))), Ho, Hi by lia. apply union_nothing.
  - intros _. split.
    + rewrite Hf2; [done|]. intros i ? ?. apply slot_ne. lia.
    + destruct k as [|k]; [|apply Htop; lia]. rewrite Hf2; [done|]. intros; lia.
  - intros q Hq. rewrite Hf2 by (intros i ? ?; apply Hq; lia). apply Hf; apply Hq; lia.
Qed.

Definition no_open_faults : open_faults := mkOpenFaults None None None.
Definition no_log_faults : log_faults :=
  mkLogFaults (mkRotFaults None (fun _ => None) no_open_faults) None.

(** The segments of the log, newest first, each the list of the records that
    were written to it. *)
Abbreviation segments := (list (list bytes)).

Definition seg_bytes (seg : list bytes) : Z := Z.of_nat (length (concat seg)).

(** What a rotating log promises: a record is appended to the current
    segment when it fits, and starts a new one otherwise; only the [keep]
    previous segments are kept. *)
Definition spec_write (maxBytes : Z) (keep : nat) (p : bytes) (segs : segments) : segments :=
  match segs with
  | [] => [[p]]
  | cur :: old =>
      if seg_bytes cur + Z.of_nat (length p) >? maxBytes
      then [p] :: take keep segs
      else (cur ++ [p]) :: old
  end.

Definition holds (fs : FS) (name : string) (seg : option (list bytes)) : Prop :=
  match seg with
  | Some seg => exists f, fs.(fs_files) !! name = Some f /\ f.(fl_data) = concat seg
  | None => fs.(fs_files) !! name = None
  end.

(** The files and the writer stand for the segments: the current one is the
    file [path], the previous ones the files [path.1] to [path.keep], and no
    numbered file is there for a segment that does not exist. *)
Record represents (w : rotatingWriter) (fs : FS) (segs : segments) : Prop := mkRep {
  rep_keep : 1 <= w.(lw_keep);
  rep_open : w.(lw_file) = Some true;
  rep_nonempty : segs <> [];
  rep_length : (length segs <= S (Z.to_nat w.(lw_keep)))%nat;
  rep_slots : forall i, (i <= Z.to_nat w.(lw_keep))%nat -> holds fs (slot w.(lw_path) i) (segs !! i);
  rep_size : forall cur, head segs = Some cur -> w.(lw_size) = seg_bytes cur
}.

Lemma holds_eq fs fs' q q' seg : fs'.(fs_files) !! q' = fs.(fs_files) !! q -> holds fs q seg -> holds fs' q' seg.
Proof. unfold holds. intros ->. done. Qed.

(** Without faults a rotation shifts all slots by one and starts an empty
    segment; what was in the last slot is gone. *)
Lemma rotate_represents w fs segs :
  represents w fs segs ->
  exists w' fs', rotate (mkRotFaults None (fun _ => None) no_open_faults) w fs = (None, w', fs') /\
    represents w' fs' ([] :: take (Z.to_nat w.(lw_keep)) segs) /\
    w'.(lw_path) = w.(lw_path) /\ w'.(lw_maxBytes) = w.(lw_maxBytes) /\ w'.(lw_keep) = w.(lw_keep).
Proof.
  intros [Hk Ho Hne Hlen Hs Hsz]. destruct segs as [|cur old]; [done|].
  unfold rotate, file_Close. rewrite Ho. cbn [with_file rf_close rf_rename rf_open lw_path lw_keep lw_file].
  set (path := lw_path w) in *. set (keep := Z.to_nat (lw_keep w)) in *.
  replace (Z.to_nat (lw_keep w - 1)) with (pred keep) by lia.
  destruct (shift_numbered_spec path (pred keep) fs) as (fs1 & -> & Hu & Hlow & Htop & Hf).
  destruct (rename_existing_spec (slot path 0) (slot path 1) fs1) as (fs2 & E2 & Hu2 & Hn2 & Ho2 & Hf2).
  { by apply slot_ne. }
  cbn [slot] in E2. rewrite E2. unfold open; cbn [of_mkdir of_open of_stat no_open_faults].
  unfold OpenAppend. cbn [lw_path with_file]. cbn [slot] in Ho2. fold path. rewrite Ho2.
  eexists _, _. split; [done|]. cbn [lw_path lw_maxBytes lw_keep]. split; [|done].
  assert (forall i, (i < keep)%nat -> fs2.(fs_files) !! slot path (S i) = fs.(fs_files) !! slot path i) as Hmove.
  { intros i Hi. assert (fs1.(fs_files) !! slot path 0 = fs.(fs_files) !! slot path 0) as H0.
    { apply Hf. intros j _ Hj. by apply slot_ne; lia. }
    destruct i as [|i].
    - rewrite Hn2, H0. destruct (Hs 0%nat) as (f & -> & _); [lia|]. apply union_Some.
    - rewrite Hf2 by (apply slot_ne; lia). destruct (decide (S i < pred keep)%nat); [by apply Hlow; lia|].
      replace (S i) with (pred keep) by lia. rewrite (proj1 (Htop ltac:(lia))).
      pose proof (Hs (pred keep) ltac:(lia)) as Hp.
      match type of Hp with holds _ _ ?o => destruct o as [seg|] eqn:El end.
      + destruct Hp as (f & -> & _). apply union_Some.
      + pose proof (Hs (S (pred keep)) ltac:(lia)) as Hq.
        rewrite lookup_ge_None_2 in Hq by (apply lookup_ge_None in El; lia).
        unfold holds in Hp, Hq. by rewrite Hp, Hq. }
  split; cbn [lw_keep lw_file lw_size lw_path]; [done..| | |].
  - change (S (length (take keep (cur :: old))) <= S keep)%nat. rewrite length_take. lia.
  - intros [|i] Hi.
    + eexists. split; [apply lookup_insert_eq|done].
    + change (Z.to_nat (lw_keep (with_file (Some false) w))) with keep in Hi.
      eapply holds_eq with (q := slot path i).
      { cbn [with_files fs_files]. rewrite lookup_insert_ne by (by apply (slot_ne path 0)). apply Hmove. lia. }
     
      change (holds fs (slot path i) (take keep (cur :: old) !! i)). rewrite lookup_take_lt by lia. apply Hs. lia.
  - intros ? [= <-]. unfold file_size. cbn. by rewrite lookup_insert_eq.
Qed.

Lemma append_represents w fs cur old p :
  represents w fs (cur :: old) -> seg_bytes cur + Z.of_nat (length p) < 2 ^ 63 ->
  exists w' fs', file_Write None p w fs = (Z.of_nat (length p), None, fs') /\
    w' = mkRot w.(lw_path) w.(lw_maxBytes) w.(lw_keep) w.(lw_file)
           (wrap_i64 (w.(lw_size) + Z.of_nat (length p))) /\
    represents w' fs' ((cur ++ [p]) :: old).
Proof.
  intros [Hk Ho Hne Hlen Hs Hsz] Hb. unfold file_Write. rewrite Ho.
  destruct (Hs 0%nat) as (f & Ef & Ed); [lia|]. cbn [slot] in Ef. rewrite Ef.
  eexists _, _. split; [done|]. split; [done|].
  split; cbn [lw_keep lw_file lw_size lw_path length]; [done..|done| |].
  - intros [|i] Hi; cbn [lookup list_lookup].
    + eexists. split; [apply lookup_insert_eq|]. cbn. by rewrite Ed, concat_app; cbn; rewrite app_nil_r.
    + eapply holds_eq; [|apply (Hs (S i) Hi)]. cbn [with_files fs_files].
      rewrite lookup_insert_ne; [done|]. apply (slot_ne _ 0 (S i)). lia.
  - intros ? [= <-]. rewrite (Hsz cur eq_refl). unfold seg_bytes in *.
    rewrite wrap_i64_small by (unfold in_i64; lia). rewrite concat_app, length_app. cbn. rewrite app_nil_r. lia.
Qed.

(** The detailed writer implements the specification: without faults, and as
    long as the sizes fit 64 bits, a write succeeds in full and the files
    afterwards stand for the specified segments. *)
Lemma write_step w fs cur old p :
  represents w fs (cur :: old) -> seg_bytes cur + Z.of_nat (length p) < 2 ^ 63 ->
  exists w' fs', Write no_log_faults p w fs = (Z.of_nat (length p), None, w', fs') /\
    represents w' fs' (spec_write w.(lw_maxBytes) (Z.to_nat w.(lw_keep)) p (cur :: old)) /\
    w'.(lw_path) = w.(lw_path) /\ w'.(lw_maxBytes) = w.(lw_maxBytes) /\ w'.(lw_keep) = w.(lw_keep).
Proof.
  intros Hrep Hbound. unfold Write. rewrite (rep_size _ _ _ Hrep cur eq_refl).
  assert (0 <= seg_bytes cur) as Hpos by (unfold seg_bytes; lia).
  rewrite wrap_i64_small by (unfold in_i64; lia). unfold spec_write. cbn [lf_rotate lf_write no_log_faults].
  destruct (seg_bytes cur + Z.of_nat (length p) >? lw_maxBytes w).
  - destruct (rotate_represents w fs _ Hrep) as (w1 & fs1 & -> & Hrep1 & Hp & Hm & Hk).
    destruct (append_represents w1 fs1 [] (take (Z.to_nat (lw_keep w)) (cur :: old)) p Hrep1)
      as (w' & fs' & -> & -> & Hrep'); [unfold seg_bytes; cbn; lia|].
    eexists _, _. split; [done|]. cbn. split; [exact Hrep'|auto].
  - destruct (append_represents w fs cur old p Hrep) as (w' & fs' & -> & -> & Hrep'); [done|].
    eexists _, _. split; [done|]. auto.
Qed.

(* ------------------------------------------------------------------ *)
(** ** Whole runs *)

(** The records still in the files, oldest first. *)
Definition kept (segs : segments) : list bytes := concat (rev segs).

Lemma kept_rotate keep p segs : kept ([p] :: take keep segs) = kept (take keep segs) ++ [p].
Proof. unfold kept. cbn. by rewrite concat_app. Qed.

Lemma kept_append cur old p : kept ((cur ++ [p]) :: old) = kept (cur :: old) ++ [p].
Proof. unfold kept. cbn. rewrite !concat_app. cbn. by rewrite !app_nil_r, app_assoc. Qed.

Lemma kept_take keep segs : kept (take keep segs) `suffix_of` kept segs.
Proof.
  unfold kept. rewrite <- (take_drop keep segs) at 2. rewrite rev_app_distr, concat_app. by eexists.
Qed.

(** What the specification keeps of the records [done] written so far. *)
Record log_inv (maxBytes : Z) (keep : nat) (written : list bytes) (segs : segments) : Prop := mkLogInv {
  li_suffix : kept segs `suffix_of` written;
  li_lost : kept segs = written \/ length segs = S keep;
  li_size : Forall (fun seg => seg_bytes seg <= maxBytes) segs;
  li_nonempty : segs <> []
}.

Lemma spec_write_inv maxBytes keep written segs p :
  Z.of_nat (length p) <= maxBytes -> log_inv maxBytes keep written segs ->
  log_inv maxBytes keep (written ++ [p]) (spec_write maxBytes keep p segs).
Proof.
  intros Hp [Hs Hl Hz Hn]. destruct segs as [|cur old]; [done|]. unfold spec_write.
  assert (forall l, l `suffix_of` written -> l ++ [p] `suffix_of` written ++ [p]) as Hsnoc.
  { intros l [k ->]. exists k. by rewrite app_assoc. }
  apply Forall_cons in Hz as [Hc Ho].
  destruct (seg_bytes cur + Z.of_nat (length p) >? maxBytes) eqn:E; split; try done.
  - rewrite kept_rotate. apply Hsnoc. etrans; [apply kept_take|done].
  - rewrite kept_rotate. cbn [length]. destruct (decide (length (cur :: old) <= keep)%nat) as [Hle|].
    + rewrite take_ge by done. destruct Hl as [->|Hl]; [by left|]. lia.
    + right. rewrite length_take. lia.
  - apply Forall_cons; split; [unfold seg_bytes; cbn; rewrite app_nil_r; lia|].
    apply Forall_take. by apply Forall_cons.
  - rewrite kept_append. auto.
  - rewrite kept_append. destruct Hl as [->|Hl]; [by left|by right].
  - apply Forall_cons; split; [|done]. unfold seg_bytes in *. rewrite concat_app, length_app. cbn.
    rewrite app_nil_r. lia.
Qed.

(** A sequence of writes, each with the faults it meets, and their results. *)
Fixpoint write_all (ps : list (log_faults * bytes)) (w : rotatingWriter) (fs : FS)
  : list (Z * option error) * rotatingWriter * FS :=
  match ps with
  | [] => ([], w, fs)
  | (ft, p) :: ps =>
      let '(n, err, w, fs) := Write ft p w fs in
      let '(rs, w, fs) := write_all ps w fs in ((n, err) :: rs, w, fs)
  end.

Lemma write_all_inv ps : forall w fs segs written,
  Forall (fun p => Z.of_nat (length p) <= w.(lw_maxBytes)) ps -> w.(lw_maxBytes) < 2 ^ 62 ->
  represents w fs segs -> log_inv w.(lw_maxBytes) (Z.to_nat w.(lw_keep)) written segs ->
  exists w' fs' segs',
    write_all (pair no_log_faults <$> ps) w fs = ((fun p => (Z.of_nat (length p), None)) <$> ps, w', fs') /\
    represents w' fs' segs' /\ log_inv w.(lw_maxBytes) (Z.to_nat w.(lw_keep)) (written ++ ps) segs' /\
    w'.(lw_path) = w.(lw_path) /\ w'.(lw_keep) = w.(lw_keep).
Proof.
  induction ps as [|p ps IH]; intros w fs segs written Hps Hmax Hrep Hinv.
  { eexists _, _, _. split; [done|]. rewrite app_nil_r. by split_and!; try apply Hrep. }
  apply Forall_cons in Hps as [Hp Hps]. destruct segs as [|cur old]; [by destruct Hinv|].
  pose proof (Forall_inv (li_size _ _ _ _ Hinv)) as Hcur. cbn in Hcur.
  destruct (write_step w fs cur old p Hrep) as (w1 & fs1 & E & Hrep1 & Hpath & Hm & Hk); [lia|].
  cbn [write_all fmap list_fmap]. rewrite E.
  pose proof (spec_write_inv _ _ _ _ p Hp Hinv) as Hinv1. rewrite <- Hm, <- Hk in Hinv1, Hrep1.
  rewrite <- Hm in Hps, Hmax.
  destruct (IH w1 fs1 _ (written ++ [p]) Hps Hmax Hrep1 Hinv1) as (w' & fs' & segs' & -> & Hrep' & Hinv' & Hp' & Hk').
  eexists _, _, _. split; [done|]. rewrite <- app_assoc, Hm, Hk in Hinv'. cbn in Hinv'.
  split; [exact Hrep'|]. split; [exact Hinv'|]. split; congruence.
Qed.

Lemma new_represents path maxBytes keep fs : 1 <= keep ->
  (forall i, fs.(fs_files) !! slot path i = None) ->
  exists w fs', newRotatingWriter no_open_faults path maxBytes keep fs = (Ok w, fs') /\
    represents w fs' [[]] /\ w.(lw_path) = path /\ w.(lw_maxBytes) = maxBytes /\ w.(lw_keep) = keep.
Proof.
  intros Hk Hnone. unfold newRotatingWriter, open. cbn [no_open_faults of_mkdir of_open of_stat lw_path].
  unfold OpenAppend. rewrite (Hnone 0%nat : fs_files fs !! path = None).
  eexists _, _. split; [done|]. split; [|done].
  split; cbn [lw_keep lw_file lw_size lw_path]; [done..|cbn; lia| |].
  - intros [|i] _; [eexists; split; [apply lookup_insert_eq|done]|].
    change (fs_files (with_files (<[path := mkFile [] (Z.ldiff 0x180 (fs_umask fs))]> (fs_files fs)) fs)
              !! slot path (S i) = None).
    cbn [with_files fs_files]. rewrite lookup_insert_ne by (by apply (slot_ne path 0)). apply Hnone.
  - intros ? [= <-]. unfold file_size. cbn [with_files fs_files]. by rewrite lookup_insert_eq.
Qed.

(** C32: a log that starts in a directory without log files and whose system calls
    succeed accepts every record; the files then hold whole records in order,
    the newest ones of all that were written, no file exceeds the limit, and a
    record was dropped only when [keep] older files are full of newer ones. *)
Theorem log_keeps_newest path maxBytes keep fs ps :
  1 <= keep -> 0 <= maxBytes < 2 ^ 62 ->
  (forall i, fs.(fs_files) !! slot path i = None) ->
  Forall (fun p => Z.of_nat (length p) <= maxBytes) ps ->
  exists w0 fs0 w fs' segs,
    newRotatingWriter no_open_faults path maxBytes keep fs = (Ok w0, fs0) /\
    write_all (pair no_log_faults <$> ps) w0 fs0 = ((fun p => (Z.of_nat (length p), None)) <$> ps, w, fs') /\
    (forall i seg, segs !! i = Some seg -> exists f,
       fs'.(fs_files) !! slot path i = Some f /\ f.(fl_data) = concat seg /\
       Z.of_nat (length f.(fl_data)) <= maxBytes) /\
    concat (rev segs) `suffix_of` ps /\
    (concat (rev segs) = ps \/ length segs = S (Z.to_nat keep)).
Proof.
  intros Hk Hmax Hnone Hps.
  destruct (new_represents path maxBytes keep fs Hk Hnone) as (w0 & fs0 & -> & Hrep & <- & <- & <-).
  assert (log_inv w0.(lw_maxBytes) (Z.to_nat w0.(lw_keep)) [] [[]]) as Hinv0.
  { split; [by exists []|by left| |done]. apply Forall_singleton. cbn.
    unfold seg_bytes. cbn. lia. }
  destruct (write_all_inv ps w0 fs0 [[]] [] Hps (proj2 Hmax) Hrep Hinv0)
    as (w & fs' & segs & E & [_ _ _ Hlen Hslot _] & [Hs Hl Hz _] & Hp & Hk').
  exists w0, fs0, w, fs', segs. split; [done|]. split; [exact E|]. split; [|by split].
  intros i seg Hi. rewrite <- Hp.
  assert (i <= Z.to_nat w.(lw_keep))%nat as Hik by (apply lookup_lt_Some in Hi; lia).
  specialize (Hslot i Hik). rewrite Hi in Hslot. destruct Hslot as (f & Ef & Ed).
  exists f. split; [done|]. split; [done|]. rewrite Ed. by eapply (Forall_lookup_1 _ _ i seg) in Hz.
Qed.

(* ------------------------------------------------------------------ *)
(** ** A failed rotation *)

Lemma Write_closed ft p w fs : w.(lw_file) <> Some true ->
  exists e w', Write ft p w fs = (0, Some e, w', fs) /\ w'.(lw_file) = w.(lw_file).
Proof.
  intros H. unfold Write, rotate, file_Close, file_Write.
  destruct (_ >? _); destruct (lw_file w) as [[]|] eqn:E; try done; rewrite ?E; eexists _, _; (split; [reflexivity|]); cbn; congruence.
Qed.

Lemma file_Close_file fault w err w' : file_Close fault w = (err, w') -> w'.(lw_file) <> Some true.
Proof.
  unfold file_Close. destruct (lw_file w) as [[]|] eqn:E; intros [= <- <-]; cbn; congruence.
Qed.

Lemma open_error ft w fs e w' fs' : open ft w fs = (Some e, w', fs') -> w' = w.
Proof. unfold open. destruct (of_mkdir ft), (of_open ft), (of_stat ft); by intros [= _ <- _]. Qed.

Lemma rotate_error ft w fs e w' fs' : rotate ft w fs = (Some e, w', fs') -> w'.(lw_file) <> Some true.
Proof.
  unfold rotate. destruct (file_Close _ w) as [[?|] w1] eqn:Ec; apply file_Close_file in Ec.
  { by intros [= _ <- _]. }
  destruct (shift_numbered _ _ _ _) as [[?|] fs1]; [by intros [= _ <- _]|].
  destruct (rename_existing _ _ _ _) as [[?|] fs2]; [by intros [= _ <- _]|].
  by intros ->%open_error.
Qed.

(** C33: after one failed rotation (the file could not be closed, renamed or
    opened again) the writer is dead: however the system behaves afterwards,
    every later write fails and changes no file. *)
Theorem failed_rotation_is_final ft w fs e w1 fs1 later results w2 fs2 :
  rotate ft w fs = (Some e, w1, fs1) -> write_all later w1 fs1 = (results, w2, fs2) ->
  fs2 = fs1 /\ Forall (fun r => r.1 = 0 /\ r.2 <> None) results.
Proof.
  intros H%rotate_error. revert w1 H w2 fs2 results.
  induction later as [|[ft' p] later IH]; intros w1 H w2 fs2 results; cbn [write_all].
  { intros [= <- _ <-]. split; [done|apply Forall_nil_2]. }
  destruct (Write_closed ft' p w1 fs1 H) as (e' & w' & -> & Hf).
  destruct (write_all later w' fs1) as [[rs w3] fs3] eqn:E. intros [= <- _ <-].
  apply IH in E as [-> Hrs]; [|congruence]. split; [done|]. by apply Forall_cons.
Qed.

(** A demonstration: ten bytes per file, two old files, three records. *)
Definition demo_fs : FS := mkFS ∅ 0x12.
Definition demo_records : list bytes := bytes_of <$> ["first."; "second."; "third."; "4th"; "fifth.."; "the-end"]%string.

Lemma log_keeps_newest_witness :
  exists w0 fs0 w fs' segs,
    newRotatingWriter no_open_faults "d/lnproxy.log" 10 2 demo_fs = (Ok w0, fs0) /\
    write_all (pair no_log_faults <$> demo_records) w0 fs0
      = ((fun p => (Z.of_nat (length p), None)) <$> demo_records, w, fs') /\
    (forall i seg, segs !! i = Some seg -> exists f,
       fs'.(fs_files) !! slot "d/lnproxy.log" i = Some f /\ f.(fl_data) = concat seg /\
       Z.of_nat (length f.(fl_data)) <= 10) /\
    concat (rev segs) `suffix_of` demo_records /\
    (concat (rev segs) = demo_records \/ length segs = 3%nat).
Proof.
  apply (log_keeps_newest "d/lnproxy.log" 10 2 demo_fs demo_records);
    [lia|lia|intros i; apply lookup_empty|repeat constructor; cbn; lia].
Defined.

(** The two old files and the current one after that run. *)
Example demo_log_files :
  match newRotatingWriter no_open_faults "d/lnproxy.log" 10 2 demo_fs with
  | (Ok w, fs) =>
      let '(_, _, fs) := write_all (pair no_log_faults <$> demo_records) w fs in
      (fun name => string_of ∘ fl_data <$> fs.(fs_files) !! name) <$>
        ["d/lnproxy.log"; "d/lnproxy.log.1"; "d/lnproxy.log.2"; "d/lnproxy.log.3"]%string
  | _ => []
  end = [Some "the-end"; Some "fifth.."; Some "third.4th"; None]%string.
Proof. vm_compute. reflexivity. Qed.

(** A rename that is refused once. *)
Definition demo_writer : rotatingWriter := mkRot "d/lnproxy.log" 10 2 (Some true) 9.
Definition demo_refused : rotate_faults :=
  mkRotFaults None (fun i => match i with O => Some (EForeign 13 "permission denied") | _ => None end) no_open_faults.

Lemma failed_rotation_is_final_witness :
  Forall (fun r : Z * option error => r.1 = 0 /\ r.2 <> None)
    (write_all (pair no_log_faults <$> demo_records) (with_file (Some false) demo_writer)
       (mkFS {[ "d/lnproxy.log" := mkFile (bytes_of "third.4th") 0x180 ]} 0x12)).1.1.
Proof.
  destruct (write_all _ _ _) as [[rs w2] fs2] eqn:E. cbn [fst].
  eapply (failed_rotation_is_final demo_refused demo_writer
    (mkFS {[ "d/lnproxy.log" := mkFile (bytes_of "third.4th") 0x180 ]} 0x12)); [|exact E].
  vm_compute. reflexivity.
Defined.
