(* ===== verification/WindowsProxy.v ===== *)
(** * The Windows provider: [internal/systemproxy/platform_windows.go]

    The registry package is not part of the program: [RegistryKey] is what its
    calls do to the values of the [Internet Settings] key, a parameter, and
    [RegistryLaws] what the provider relies on.  Each call is an action of the
    machine, so it can fail or be the last one before the process dies.  The
    provider obeys [SystemProxyLaws], the laws the client runtime is verified
    against. *)
From S2P Require Import Prelude GoStrings Json Codec Protocol GoText GoFS SystemProxy SystemProxyProps.

#[local] Open Scope machine_scope.

(** [None] is the error of a value that is absent or of another type, and of a
    text that the registry refuses. *)
Class RegistryKey (D : Type) := {
  reg_int : string -> D -> option Z;
  reg_string : string -> D -> option string;
  reg_set_dword : string -> Z -> D -> D;
  reg_set_string : string -> string -> D -> option D;
  reg_delete : string -> D -> D
}.

(** The names of values are not case-sensitive. *)
Definition fold_name (k : string) : string := string_of (ToLower (fun b => b) (bytes_of k)).
Definition differ (k k' : string) : Prop := fold_name k <> fold_name k'.

(** A text that can be stored and read back: valid, and without a zero byte. *)
Definition text_ok (v : string) : Prop := string_ok v /\ Contains (bytes_of v) x00 = false.

Class RegistryLaws (D : Type) `{RegistryKey D} := {
  int_of_dword k v d : 0 <= v < 2 ^ 32 -> reg_int k (reg_set_dword k v d) = Some v;
  int_other_dword k k' v d : differ k k' -> reg_int k' (reg_set_dword k v d) = reg_int k' d;
  int_other_string k k' v d d' : reg_set_string k v d = Some d' -> differ k k' -> reg_int k' d' = reg_int k' d;
  int_other_delete k k' d : differ k k' -> reg_int k' (reg_delete k d) = reg_int k' d;
  string_accepted k v d : text_ok v -> exists d', reg_set_string k v d = Some d';
  string_of_string k v d d' : reg_set_string k v d = Some d' -> text_ok v -> reg_string k d' = Some v;
  string_other_string k k' v d d' : reg_set_string k v d = Some d' -> differ k k' -> reg_string k' d' = reg_string k' d;
  string_other_dword k k' v d : differ k k' -> reg_string k' (reg_set_dword k v d) = reg_string k' d;
  string_deleted k d : reg_string k (reg_delete k d) = None;
  string_other_delete k k' d : differ k k' -> reg_string k' (reg_delete k d) = reg_string k' d
}.

Record windowsSnapshot := mkWindows {
  wi_ProxyEnable : Z;
  wi_ProxyServer : string;
  wi_ProxyOverride : string;
  wi_AutoConfigURL : string
}.

#[export] Instance windowsSnapshot_Json : Json windowsSnapshot := {|
  to_json s := JObj (
    member "proxy_enable" false (enc_int s.(wi_ProxyEnable)) ++
    member "proxy_server" false (enc_string s.(wi_ProxyServer)) ++
    member "proxy_override" false (enc_string s.(wi_ProxyOverride)) ++
    member "auto_config_url" false (enc_string s.(wi_AutoConfigURL)));
  json_zero := mkWindows 0 "" "" "";
  json_dec := dec_struct [
    mkfield "proxy_enable" (dec_uint 32) wi_ProxyEnable (fun v '(mkWindows _ b c d) => mkWindows v b c d);
    mkfield "proxy_server" dec_string wi_ProxyServer (fun v '(mkWindows a _ c d) => mkWindows a v c d);
    mkfield "proxy_override" dec_string wi_ProxyOverride (fun v '(mkWindows a b _ d) => mkWindows a b v d);
    mkfield "auto_config_url" dec_string wi_AutoConfigURL (fun v '(mkWindows a b c _) => mkWindows a b c v)]
|}.

Section Windows.
Context {D : Type} `{RegistryKey D}.

(** A call into the system that may fail or not return. *)
Definition system_call {A} (f : D -> result A * D) : M D A := fun sc w =>
  match next sc with
  | (Crash _, sc) => (Crashed, sc, w)
  | (CmdFault e, sc) => (Fail e, sc, w)
  | (_, sc) =>
      match f w.(wo_desktop) with
      | (Ok a, d) => (Val a, sc, mkWorld d w.(wo_fs))
      | (Err e, d) => (Fail e, sc, mkWorld d w.(wo_fs))
      end
  end.

Definition or_missing {A} (o : option A) : result A :=
  match o with Some a => Ok a | None => Err ErrNotExist end.

(** [registry.OpenKey] and [registry.CreateKey]. *)
Definition OpenKey : M D unit := system_call (fun d => (Ok tt, d)).
Definition GetIntegerValue (k : string) : M D Z := system_call (fun d => (or_missing (reg_int k d), d)).
Definition GetStringValue (k : string) : M D string := system_call (fun d => (or_missing (reg_string k d), d)).
Definition SetDWordValue (k : string) (v : Z) : M D unit := system_call (fun d => (Ok tt, reg_set_dword k v d)).
Definition SetStringValue (k v : string) : M D unit :=
  system_call (fun d =>
    match reg_set_string k v d with Some d => (Ok tt, d) | None => (Err (EForeign 22 "invalid argument"), d) end).
Definition DeleteValue (k : string) : M D unit :=
  system_call (fun d =>
    match reg_string k d, reg_int k d with
    | None, None => (Err ErrNotExist, d)
    | _, _ => (Ok tt, reg_delete k d)
    end).

(** The two calls of [InternetSetOptionW]; their results are dropped. *)
Definition notifyProxyChange : M D unit :=
  mignore (system_call (fun d => (Ok tt, d))) ;;; mignore (system_call (fun d => (Ok tt, d))).

(** [v, _, _ = key.GetStringValue(k)]. *)
Definition string_or_empty (k : string) : M D string :=
  r <- mtry (GetStringValue k) ;;
  mret (match r with Ok s => s | Err _ => ""%string end).

Definition Windows_Snapshot : M D Snapshot :=
  OpenKey ;;;
  r <- mtry (GetIntegerValue "ProxyEnable") ;;
  let enable := match r with Ok n => wrap_u 32 n | Err _ => 0 end in
  server <- string_or_empty "ProxyServer" ;;
  override <- string_or_empty "ProxyOverride" ;;
  auto <- string_or_empty "AutoConfigURL" ;;
  mret (marshalSnapshot (mkWindows enable server override auto)).

Definition Windows_Apply (endpoint : Endpoint) : M D unit :=
  OpenKey ;;;
  let server := "http=" +:+ endpoint.(ep_HTTP) in
  let server := if empty_string endpoint.(ep_HTTPS) then server else server +:+ ";https=" +:+ endpoint.(ep_HTTPS) in
  let server := if empty_string endpoint.(ep_SOCKS) then server else server +:+ ";socks=" +:+ endpoint.(ep_SOCKS) in
  SetStringValue "ProxyServer" server ;;;
  SetDWordValue "ProxyEnable" 1 ;;;
  mignore (DeleteValue "AutoConfigURL") ;;;
  notifyProxyChange.

Definition Windows_Matches (snapshot : Snapshot) (endpoint : Endpoint) : M D bool :=
  of_result (unmarshalValues (A := windowsSnapshot) snapshot) ;;;
  current <- Windows_Snapshot ;;
  v <- of_result (unmarshalValues (A := windowsSnapshot) current) ;;
  let expected := "http=" +:+ endpoint.(ep_HTTP) in
  let expected :=
    if empty_string endpoint.(ep_HTTPS) then expected else expected +:+ ";https=" +:+ endpoint.(ep_HTTPS) in
  let expected :=
    if empty_string endpoint.(ep_SOCKS) then expected else expected +:+ ";socks=" +:+ endpoint.(ep_SOCKS) in
  mret ((v.(wi_ProxyEnable) =? 1) && bool_decide (v.(wi_ProxyServer) = expected) &&
        empty_string v.(wi_AutoConfigURL)).

Definition Windows_Restore (snapshot : Snapshot) : M D unit :=
  v <- of_result (unmarshalValues (A := windowsSnapshot) snapshot) ;;
  OpenKey ;;;
  (if v.(wi_ProxyEnable) =? 0 then SetDWordValue "ProxyEnable" 0
   else SetDWordValue "ProxyEnable" v.(wi_ProxyEnable)) ;;;
  SetStringValue "ProxyServer" v.(wi_ProxyServer) ;;;
  SetStringValue "ProxyOverride" v.(wi_ProxyOverride) ;;;
  (if empty_string v.(wi_AutoConfigURL) then mignore (DeleteValue "AutoConfigURL")
   else SetStringValue "AutoConfigURL" v.(wi_AutoConfigURL)) ;;;
  notifyProxyChange.

Definition Windows : SystemProxy D := {|
  sp_Snapshot := Windows_Snapshot;
  sp_Apply := Windows_Apply;
  sp_Restore := Windows_Restore;
  sp_Matches := Windows_Matches
|}.
End Windows.

(* ------------------------------------------------------------------ *)
(** ** The laws of a provider *)

(** What the JSON of a snapshot keeps. *)
Definition windows_json (v : windowsSnapshot) : Prop :=
  0 <= v.(wi_ProxyEnable) < 2 ^ 32 /\ string_ok v.(wi_ProxyServer) /\
  string_ok v.(wi_ProxyOverride) /\ string_ok v.(wi_AutoConfigURL).
Definition windows_ok (v : windowsSnapshot) : Prop :=
  0 <= v.(wi_ProxyEnable) < 2 ^ 32 /\ text_ok v.(wi_ProxyServer) /\
  text_ok v.(wi_ProxyOverride) /\ text_ok v.(wi_AutoConfigURL).

Lemma windows_ok_json v : windows_ok v -> windows_json v.
Proof. by intros (? & [? _] & [? _] & [? _]). Qed.

#[export] Instance windowsSnapshot_laws : JsonLaws windowsSnapshot.
Proof. refine (Build_JsonLaws _ _ windows_json _ _ _); [solve_jwf|solve_depth|solve_dec]. Defined.

Section WindowsLaws.
Context {D : Type} `{RegistryLaws D}.
#[local] Existing Instance Windows.

Definition win_settings (d : D) : windowsSnapshot :=
  mkWindows (match reg_int "ProxyEnable" d with Some n => wrap_u 32 n | None => 0 end)
    (default ""%string (reg_string "ProxyServer" d))
    (default ""%string (reg_string "ProxyOverride" d))
    (default ""%string (reg_string "AutoConfigURL" d)).

Definition win_saved (s : Snapshot) (v : windowsSnapshot) : Prop :=
  windows_ok v /\ s = marshalSnapshot v.

Lemma spec_call {A} (f : D -> result A * D) P Q E C :
  (forall w, P w -> C w) ->
  (forall w, P w -> match f w.(wo_desktop) with
     | (Ok a, d) => Q a (mkWorld d w.(wo_fs)) | (Err e, d) => E e (mkWorld d w.(wo_fs)) end) ->
  spec P (system_call f) Q E C.
Proof.
  intros HC HQ sc w Hs HP. unfold system_call. destruct (next_calm sc Hs) as [Hs' He].
  destruct (next sc) as [[|e|e n|n] sc']; cbn in Hs', He; try done; [..|by auto];
    specialize (HQ w HP); by destruct (f (wo_desktop w)) as [[a|?] d].
Qed.

Lemma spec_unchanged P E C : (forall w, P w -> C w) ->
  spec P (D := D) (system_call (fun d => (Ok tt, d))) (fun _ => P) E C.
Proof. intros HC. apply spec_call; [done|]. intros [d fs] HP. done. Qed.

Lemma spec_notify P E C : (forall w, P w -> C w) -> spec P (D := D) notifyProxyChange (fun _ => P) E C.
Proof.
  intros HC. eapply (spec_bind _ _ P (fun _ => P)); [|intros ?];
    (eapply spec_ignore; [apply (spec_unchanged P (fun _ _ => False)); done|done]).
Qed.

(** The change a write makes, and that it leaves the files alone. *)
Lemma spec_write (f : D -> D) (P Q : World D -> Prop) E C :
  (forall w, P w -> C w) -> (forall d fs, P (mkWorld d fs) -> Q (mkWorld (f d) fs)) ->
  spec P (system_call (fun d => (Ok tt, f d))) (fun _ => Q) E C.
Proof. intros HC HQ. apply spec_call; [done|]. intros [d fs] HP. by apply HQ. Qed.

Lemma spec_string_or_empty k (w0 : World D) E :
  spec (fun w => w = w0) (string_or_empty k)
    (fun s w => s = default ""%string (reg_string k w0.(wo_desktop)) /\ w = w0) E (fun w => w = w0).
Proof.
  eapply spec_bind.
  { apply (spec_try _ _ (fun s w => reg_string k w0.(wo_desktop) = Some s /\ w = w0)
      (fun _ w => reg_string k w0.(wo_desktop) = None /\ w = w0)).
    apply spec_call; [done|]. intros [d fs] <-. cbn. by destruct (reg_string k d). }
  intros [s|e]; apply spec_ret; intros w [-> ->]; done.
Qed.

Lemma spec_enable (w0 : World D) E :
  spec (fun w => w = w0) (mtry (GetIntegerValue "ProxyEnable"))
    (fun r w => match r with Ok n => wrap_u 32 n | Err _ => 0 end = wi_ProxyEnable (win_settings w0.(wo_desktop)) /\ w = w0)
    E (fun w => w = w0).
Proof.
  eapply spec_weaken; [apply (spec_try _ (fun w => w = w0)
      (fun n w => reg_int "ProxyEnable" w0.(wo_desktop) = Some n /\ w = w0)
      (fun _ w => reg_int "ProxyEnable" w0.(wo_desktop) = None /\ w = w0) E (fun w => w = w0))|done| |done|done].
  - apply spec_call; [done|]. intros [d fs] <-. cbn. by destruct (reg_int _ d).
  - intros [n|e] w [Hn ->]; cbn; by rewrite Hn.
Qed.

Lemma win_snapshot (w0 : World D) E :
  spec (fun w => w = w0) Windows_Snapshot
    (fun s w => s = marshalSnapshot (win_settings w0.(wo_desktop)) /\ w = w0) E (fun w => w = w0).
Proof.
  unfold Windows_Snapshot. eapply spec_bind; [by apply (spec_unchanged (fun w => w = w0))|intros ?].
  eapply spec_bind; [apply spec_enable|intros r; apply spec_pure; intros Hr].
  do 3 (eapply spec_bind; [apply spec_string_or_empty|intros ?; apply spec_pure; intros ->]).
  apply spec_ret. intros w ->. by rewrite Hr.
Qed.

Lemma spec_set_string k v (P Q : World D -> Prop) (E : error -> World D -> Prop) C :
  (forall w, P w -> C w) ->
  (forall d d' fs, P (mkWorld d fs) -> reg_set_string k v d = Some d' -> Q (mkWorld d' fs)) ->
  text_ok v \/ (forall e w, P w -> E e w) ->
  spec P (SetStringValue k v) (fun _ => Q) E C.
Proof.
  intros HC HQ HE. apply spec_call; [done|]. intros [d fs] HP. cbn.
  destruct (reg_set_string k v d) as [d'|] eqn:Es; [by eapply HQ|].
  destruct HE as [Hv|HE]; [|by apply HE]. destruct (string_accepted k v d Hv) as [d' Ed]. congruence.
Qed.

Ltac names := vm_compute; discriminate.
Ltac reg_simpl :=
  repeat match goal with
    | H : reg_set_string ?k _ _ = Some ?d |- context [reg_string ?k ?d] => rewrite (string_of_string _ _ _ _ H) by done
    | H : reg_set_string ?k _ _ = Some ?d |- context [reg_string ?k' ?d] =>
        rewrite (string_other_string k k' _ _ _ H) by names
    | H : reg_set_string ?k _ _ = Some ?d |- context [reg_int ?k' ?d] =>
        rewrite (int_other_string k k' _ _ _ H) by names
    | |- context [reg_string ?k (reg_delete ?k _)] => rewrite string_deleted
    | |- context [reg_int _ (reg_set_dword _ _ _)] =>
        first [rewrite int_of_dword by (assumption || lia) | rewrite int_other_dword by names]
    | |- context [reg_int _ (reg_delete _ _)] => rewrite int_other_delete by names
    | |- context [reg_string _ (reg_set_dword _ _ _)] => rewrite string_other_dword by names
    | |- context [reg_string _ (reg_delete _ _)] => rewrite string_other_delete by names
    end.

(** Deleting the automatic configuration, whether it was there or not. *)
Lemma spec_delete_auto (R : D -> Prop) fs E C :
  (forall w, w.(wo_fs) = fs -> C w) -> (forall d, R d -> R (reg_delete "AutoConfigURL" d)) ->
  spec (fun w => w.(wo_fs) = fs /\ R w.(wo_desktop)) (mignore (DeleteValue "AutoConfigURL"))
    (fun _ w => w.(wo_fs) = fs /\ R w.(wo_desktop) /\ reg_string "AutoConfigURL" w.(wo_desktop) = None) E C.
Proof.
  intros HC HR.
  eapply (spec_ignore _ _ (fun w => w.(wo_fs) = fs /\ R w.(wo_desktop) /\ reg_string "AutoConfigURL" w.(wo_desktop) = None)
    (fun _ w => w.(wo_fs) = fs /\ R w.(wo_desktop) /\ reg_string "AutoConfigURL" w.(wo_desktop) = None)); [|done].
  apply spec_call; [by intros w [? _]; apply HC|]. intros [d fs'] [Hf HRd]. cbn in *.
  destruct (reg_string "AutoConfigURL" d) eqn:E1; [by reg_simpl; auto|].
  destruct (reg_int "AutoConfigURL" d); [by reg_simpl; auto|]. cbn. auto.
Qed.

Lemma win_restore_restores s v fs : win_saved s v ->
  spec (fun w => w.(wo_fs) = fs) (Windows_Restore s)
    (fun _ w => w.(wo_fs) = fs /\ win_settings w.(wo_desktop) = v)
    (fun _ w => w.(wo_fs) = fs) (fun w => w.(wo_fs) = fs).
Proof.
  intros [Hok ->]. unfold Windows_Restore.
  eapply spec_bind; [apply spec_result|]. intros s. apply spec_pure. intros Es.
  unfold unmarshalValues in Es. cbn [marshalSnapshot sn_Values] in Es.
  rewrite (@json_dec_to_json _ _ windowsSnapshot_laws _ (windows_ok_json _ Hok)) in Es. injection Es as <-.
  destruct v as [en se ov au], Hok as (Hen & Hse & Hov & Hau). cbn [wi_ProxyEnable wi_ProxyServer wi_ProxyOverride wi_AutoConfigURL] in *.
  eapply spec_bind; [by apply (spec_unchanged (fun w => w.(wo_fs) = fs))|intros ?].
  eapply (spec_bind _ _ _ (fun _ w => w.(wo_fs) = fs /\ reg_int "ProxyEnable" w.(wo_desktop) = Some en)).
  { destruct (Z.eqb_spec en 0) as [->|]; apply spec_write; try done; cbn; intros d fs' ->; by reg_simpl. }
  intros ?. eapply (spec_bind _ _ _ (fun _ w => w.(wo_fs) = fs /\ reg_int "ProxyEnable" w.(wo_desktop) = Some en /\
    reg_string "ProxyServer" w.(wo_desktop) = Some se)).
  { apply spec_set_string; [by intros ? []| |by left]. cbn. intros d d' fs' (-> & ?) Hd. by reg_simpl. }
  intros ?. set (R := fun d : D => reg_int "ProxyEnable" d = Some en /\ reg_string "ProxyServer" d = Some se /\
    reg_string "ProxyOverride" d = Some ov).
  eapply (spec_bind _ _ _ (fun _ w => w.(wo_fs) = fs /\ R w.(wo_desktop))).
  { apply spec_set_string; [by intros ? []| |by left]. cbn. intros d d' fs' (-> & ? & ?) Hd. unfold R. by reg_simpl. }
  intros ?. eapply (spec_bind _ _ _ (fun _ w => w.(wo_fs) = fs /\ win_settings w.(wo_desktop) = mkWindows en se ov au)).
  - assert (forall d, R d -> default ""%string (reg_string "AutoConfigURL" d) = au ->
      win_settings d = mkWindows en se ov au) as Hfin.
    { intros d (H1 & H2 & H3) H4. unfold win_settings. rewrite H1, H2, H3, H4. cbn. by rewrite wrap_u_small. }
    destruct (empty_string au) eqn:Eau.
    + eapply spec_weaken; [apply (spec_delete_auto R fs (fun _ _ => False) (fun w => w.(wo_fs) = fs))
        |done| |done|done]; [done|unfold R; intros d (? & ? & ?); by reg_simpl|].
      intros ? w (Hf & HR & Ha). split; [done|]. apply Hfin; [done|]. rewrite Ha. by destruct au.
    + apply spec_set_string; [by intros ? []| |by left]. cbn. intros d d' fs' (-> & HR) Hd. split; [done|].
      apply Hfin; [|by reg_simpl]. destruct HR as (? & ? & ?). unfold R. by reg_simpl.
  - intros ?. apply spec_notify. by intros ? [].
Qed.

(** Code that always succeeds when nothing goes wrong. *)
Definition total {A} (m : M D A) : Prop := forall w, exists a w', m [] w = (Val a, [], w').

Lemma total_bind {A B} (m : M D A) (f : A -> M D B) : total m -> (forall a, total (f a)) -> total (mbind m f).
Proof. intros Hm Hf w. unfold mbind. destruct (Hm w) as (a & w' & ->). apply Hf. Qed.

Lemma total_ok {A B} (a : A) (f : A -> M D B) : total (f a) -> total (mbind (of_result (Ok a)) f).
Proof. intros Hf w. apply Hf. Qed.

Lemma total_write (f : D -> D) : total (system_call (fun d => (Ok tt, f d))).
Proof. intros w. by eexists _, _. Qed.

Lemma total_set k v : text_ok v -> total (SetStringValue k v).
Proof.
  intros Hv w. unfold SetStringValue, system_call. cbn. destruct (string_accepted k v (wo_desktop w) Hv) as [d ->].
  by eexists _, _.
Qed.

Lemma total_ignore {A} (f : D -> result A * D) : total (mignore (system_call f)).
Proof.
  intros w. unfold mignore, mbind, mtry, system_call. cbn. destruct (f (wo_desktop w)) as [[] ?]; by eexists _, _.
Qed.

Lemma total_notify : total notifyProxyChange.
Proof. apply total_bind; [|intros ?]; apply total_ignore. Qed.

Lemma win_restore_total s v (w : World D) : win_saved s v ->
  exists w', Windows_Restore s [] w = (Val tt, [], w').
Proof.
  intros [Hok ->].
  assert (total (Windows_Restore (marshalSnapshot v))) as Ht; [|by destruct (Ht w) as ([] & w' & ->); eauto].
  unfold Windows_Restore, unmarshalValues. cbn [marshalSnapshot sn_Values].
  rewrite (@json_dec_to_json _ _ windowsSnapshot_laws _ (windows_ok_json _ Hok)).
  apply (total_ok v).
  destruct Hok as (_ & Hs & Ho & Ha).
  repeat first [apply total_notify | apply total_ignore | apply (total_write (fun d => d)) | apply total_write
    | apply total_set; done | case_match | apply total_bind; [|intros ?]].
Qed.

(** The text [Apply] writes and [Matches] expects. *)
Definition server_text (e : Endpoint) : string :=
  "http=" +:+ e.(ep_HTTP) +:+
  (if empty_string e.(ep_HTTPS) then "" else ";https=" +:+ e.(ep_HTTPS)) +:+
  (if empty_string e.(ep_SOCKS) then "" else ";socks=" +:+ e.(ep_SOCKS)).

Lemma append_assoc (a b c : string) : (a +:+ b) +:+ c = a +:+ b +:+ c.
Proof. induction a as [|x a IH]; [done|]. exact (f_equal (String.String x) IH). Qed.

Lemma append_nil (a : string) : a +:+ "" = a.
Proof. induction a as [|x a IH]; [done|]. exact (f_equal (String.String x) IH). Qed.

Lemma server_built e :
  (let server := "http=" +:+ e.(ep_HTTP) in
   let server := if empty_string e.(ep_HTTPS) then server else server +:+ ";https=" +:+ e.(ep_HTTPS) in
   if empty_string e.(ep_SOCKS) then server else server +:+ ";socks=" +:+ e.(ep_SOCKS)) = server_text e.
Proof.
  unfold server_text. cbn zeta. destruct (empty_string (ep_HTTPS e)), (empty_string (ep_SOCKS e));
    rewrite ?append_nil; try done; by rewrite !append_assoc.
Qed.

Lemma win_apply (e : Endpoint) (w0 : World D) :
  spec (fun w => w = w0) (Windows_Apply e)
    (fun _ w => w.(wo_fs) = w0.(wo_fs) /\ reg_int "ProxyEnable" w.(wo_desktop) = Some 1 /\
       (text_ok (server_text e) -> reg_string "ProxyServer" w.(wo_desktop) = Some (server_text e)) /\
       reg_string "AutoConfigURL" w.(wo_desktop) = None /\
       reg_string "ProxyOverride" w.(wo_desktop) = reg_string "ProxyOverride" w0.(wo_desktop))
    (fun _ w => w = w0) (fun w => w.(wo_fs) = w0.(wo_fs)).
Proof.
  unfold Windows_Apply. set (fs := w0.(wo_fs)). set (ov := reg_string "ProxyOverride" w0.(wo_desktop)).
  eapply (spec_bind _ _ _ (fun _ w => w = w0)); [by apply spec_unchanged; intros ? ->|intros ?].
  pose proof (server_built e) as Hb. cbn zeta in Hb |- *. rewrite Hb. clear Hb.
  set (S := fun d : D => text_ok (server_text e) -> reg_string "ProxyServer" d = Some (server_text e)).
  eapply (spec_bind _ _ _ (fun _ w => w.(wo_fs) = fs /\ S w.(wo_desktop) /\ reg_string "ProxyOverride" w.(wo_desktop) = ov)).
  { apply spec_set_string; [by intros ? ->| |by right]. cbn. intros d d' fs' <- Hd. unfold S. cbn.
    split; [done|]. split; [intros Ht; by reg_simpl|by reg_simpl]. }
  set (R := fun d : D => reg_int "ProxyEnable" d = Some 1 /\ S d /\ reg_string "ProxyOverride" d = ov).
  intros ?. eapply (spec_bind _ _ _ (fun _ w => w.(wo_fs) = fs /\ R w.(wo_desktop))).
  { apply spec_write; [by intros ? []|]. cbn. intros d fs' (-> & ? & ?). unfold R, S. by reg_simpl. }
  intros ?. eapply spec_bind; [apply (spec_delete_auto R fs); [done|unfold R, S; intros d (? & ? & ?); by reg_simpl]|].
  intros ?. eapply spec_weaken; [apply (spec_notify
      (fun w => w.(wo_fs) = fs /\ R w.(wo_desktop) /\ reg_string "AutoConfigURL" w.(wo_desktop) = None)
      (fun _ _ => False) (fun w => w.(wo_fs) = fs))|done| |done|done].
  { by intros ? []. }
  intros ? w (Hf & (H1 & H2 & H3) & H4). by split_and!.
Qed.

Lemma win_apply_reverts e (w0 : World D) :
  spec (fun w => w = w0) (Windows_Apply e) (fun _ w => w.(wo_fs) = w0.(wo_fs))
    (fun _ w => w.(wo_fs) = w0.(wo_fs) /\ win_settings w.(wo_desktop) = win_settings w0.(wo_desktop))
    (fun w => w.(wo_fs) = w0.(wo_fs)).
Proof. eapply spec_weaken; [apply (win_apply e w0)|done|by intros ? ? []|by intros ? ? ->|done]. Qed.

Lemma win_matches s e (w0 : World D) :
  spec (fun w => w = w0) (Windows_Matches s e)
    (fun b w => w = w0 /\ (windows_ok (win_settings w0.(wo_desktop)) ->
       let v := win_settings w0.(wo_desktop) in
       b = (v.(wi_ProxyEnable) =? 1) && bool_decide (v.(wi_ProxyServer) = server_text e) &&
           empty_string v.(wi_AutoConfigURL)))
    (fun _ w => w = w0) (fun w => w = w0).
Proof.
  unfold Windows_Matches. eapply spec_bind; [apply spec_result|]. intros v0. apply spec_pure. intros _.
  eapply spec_bind; [apply win_snapshot|]. intros cur. apply spec_pure. intros ->.
  eapply spec_bind; [apply spec_result|]. intros v. apply spec_pure. intros Ev.
  pose proof (server_built e) as Hb. cbn zeta in Hb |- *. rewrite Hb. clear Hb.
  apply spec_ret. intros w ->. split; [done|]. intros Hok.
  unfold unmarshalValues in Ev. cbn [marshalSnapshot sn_Values] in Ev.
  rewrite (@json_dec_to_json _ _ windowsSnapshot_laws _ (windows_ok_json _ Hok)) in Ev. by injection Ev as <-.
Qed.

Lemma win_saved_json s v : win_saved s v -> in_i64 s.(sn_Version) /\
  exists j, s.(sn_Values) = Some j /\ jwf j /\ jdepth j <= 2.
Proof.
  intros [Hok ->]. split; [done|]. eexists. split; [done|]. split.
  - by apply (to_json_jwf (A := windowsSnapshot)), windows_ok_json.
  - transitivity (1 + 1); [|done]. apply jdepth_obj; [done|].
    solve_members ltac:(apply member_depth; done).
Qed.

Lemma win_snapshot_saves (w0 : World D) :
  spec (fun w => w = w0) Windows_Snapshot
    (fun s w => w = w0 /\ (windows_ok (win_settings w0.(wo_desktop)) -> win_saved s (win_settings w0.(wo_desktop))))
    (fun _ w => w = w0) (fun w => w = w0).
Proof.
  eapply spec_weaken; [apply (win_snapshot w0 (fun _ _ => False))|done| |done|done].
  intros s w [-> ->]. by split.
Qed.

Lemma win_matches_reads s e (w0 : World D) :
  spec (fun w => w = w0) (Windows_Matches s e) (fun _ w => w = w0) (fun _ w => w = w0) (fun w => w = w0).
Proof. eapply spec_weaken; [apply (win_matches s e w0)|done|by intros ? ? []|done|done]. Qed.

#[local] Instance Windows_laws : SystemProxyLaws D windowsSnapshot := {|
  settings := win_settings;
  settings_ok := windows_ok;
  saved := win_saved;
  Snapshot_saves := win_snapshot_saves;
  Restore_restores := win_restore_restores;
  Restore_total := win_restore_total;
  Apply_reverts := win_apply_reverts;
  Matches_reads := win_matches_reads;
  saved_json := win_saved_json
|}.
End WindowsLaws.

(* ------------------------------------------------------------------ *)
(** ** A session of the provider *)

Section Runs.
Context {D : Type} `{RegistryLaws D}.

Lemma total_spec {A} (m : M D A) P Q E C w : total m -> spec P m Q E C -> P w ->
  exists a w', m [] w = (Val a, [], w') /\ Q a w'.
Proof.
  intros Hm Hs HP. specialize (Hs [] w ltac:(constructor) HP). destruct (Hm w) as (a & w' & E1).
  rewrite E1 in Hs. destruct Hs as [_ HQ]. eauto.
Qed.

Lemma total_string_or_empty k : total (D := D) (string_or_empty k).
Proof.
  intros w. unfold string_or_empty, mbind, mtry, GetStringValue, system_call. cbn.
  destruct (reg_string k (wo_desktop w)); by eexists _, _.
Qed.

Lemma total_snapshot : total (D := D) Windows_Snapshot.
Proof.
  apply total_bind; [apply (total_write (fun d => d))|intros ?]. apply total_bind.
  { intros w. unfold mtry, GetIntegerValue, system_call. cbn. destruct (reg_int _ _); by eexists _, _. }
  intros ?. repeat (apply total_bind; [apply total_string_or_empty|intros ?]). intros w. by eexists _, _.
Qed.

Lemma total_apply e : text_ok (server_text e) -> total (D := D) (Windows_Apply e).
Proof.
  intros He. unfold Windows_Apply. pose proof (server_built e) as Hb. cbn zeta in Hb |- *. rewrite Hb. clear Hb.
  repeat first [apply total_notify | apply total_ignore | apply (total_write (fun d => d)) | apply total_write
    | by apply total_set | apply total_bind; [|intros ?]].
Qed.

Lemma Matches_runs v e (w : World D) : windows_ok v -> windows_ok (win_settings w.(wo_desktop)) ->
  exists m, Windows_Matches (marshalSnapshot v) e [] w = (Val m, [], w).
Proof.
  intros Hv Hw. destruct (total_spec _ _ _ _ _ w total_snapshot (win_snapshot w (fun _ _ => False)) eq_refl)
    as (s & w0 & Es & -> & ->).
  unfold Windows_Matches, mbind, unmarshalValues. cbn [marshalSnapshot sn_Values].
  rewrite (@json_dec_to_json _ _ windowsSnapshot_laws _ (windows_ok_json _ Hv)). cbn [of_result mret]. unfold mret at 1.
  rewrite Es. cbn [marshalSnapshot sn_Values].
  rewrite (@json_dec_to_json _ _ windowsSnapshot_laws _ (windows_ok_json _ Hw)). eexists. reflexivity.
Qed.
End Runs.

(** C34: switching the proxy on and putting the settings back, with nothing going
    wrong, on any registry whose value names are not case-sensitive and which
    may refuse texts that it cannot hold.  After [Apply] the proxy is enabled, the
    value [ProxyServer] is [http=HTTP;https=HTTPS;socks=SOCKS] with the endpoint's
    addresses, less the parts it has no address for, no automatic configuration is
    left, the user's exceptions are kept, and [Matches] says that the settings are
    the endpoint's.  After [Restore] of the snapshot taken before, the settings
    are exactly what the user had, the automatic configuration included. *)
Theorem windows_apply_restore {D} `{RegistryLaws D} (e : Endpoint) (w : World D) :
  let v := win_settings w.(wo_desktop) in
  let server := "http=" +:+ e.(ep_HTTP) +:+
    (if empty_string e.(ep_HTTPS) then "" else ";https=" +:+ e.(ep_HTTPS)) +:+
    (if empty_string e.(ep_SOCKS) then "" else ";socks=" +:+ e.(ep_SOCKS)) in
  windows_ok v -> text_ok server ->
  exists w1 w2,
    (s <- Windows_Snapshot ;; Windows_Apply e ;;; m <- Windows_Matches s e ;; mret (s, m)) [] w
      = (Val (marshalSnapshot v, true), [], w1) /\
    reg_int "ProxyEnable" w1.(wo_desktop) = Some 1 /\
    reg_string "ProxyServer" w1.(wo_desktop) = Some server /\
    reg_string "AutoConfigURL" w1.(wo_desktop) = None /\
    reg_string "ProxyOverride" w1.(wo_desktop) = reg_string "ProxyOverride" w.(wo_desktop) /\
    Windows_Restore (marshalSnapshot v) [] w1 = (Val tt, [], w2) /\
    win_settings w2.(wo_desktop) = v /\ w2.(wo_fs) = w.(wo_fs).
Proof.
  intros v server Hok He. change (text_ok (server_text e)) in He.
  destruct (total_spec _ _ _ _ _ w total_snapshot (win_snapshot w (fun _ _ => False)) eq_refl) as (s & w0 & Es & -> & ->).
  destruct (total_spec _ _ _ _ _ w (total_apply e He) (win_apply e w) eq_refl) as ([] & w1 & Ea & Hf & H1 & H2 & H3 & H4).
  specialize (H2 He).
  assert (win_settings w1.(wo_desktop) = mkWindows 1 (server_text e) (wi_ProxyOverride v) "") as Hw1.
  { unfold win_settings. by rewrite H1, H2, H3, H4. }
  assert (windows_ok (win_settings w1.(wo_desktop))) as Hok1.
  { destruct Hok as (_ & _ & Ho & _). rewrite Hw1. by split_and!. }
  destruct (Matches_runs v e w1 Hok Hok1) as (m & Em).
  pose proof (win_matches (marshalSnapshot v) e w1 [] w1 ltac:(constructor) eq_refl) as Hm.
  rewrite Em in Hm. destruct Hm as (_ & _ & Hm).
  destruct (win_restore_total (marshalSnapshot v) v w1) as (w2 & Er); [by split|].
  exists w1, w2. split.
  { unfold mbind. rewrite Es, Ea. fold v. rewrite Em. unfold mret. rewrite Hm by done. rewrite Hw1. cbn. by rewrite bool_decide_true. }
  pose proof (win_restore_restores _ _ w1.(wo_fs) (conj Hok eq_refl) [] w1 ltac:(constructor) eq_refl) as Hr.
  rewrite Er in Hr. destruct Hr as (_ & Hfs & Hs). split_and!; [exact H1|exact H2|done..|by rewrite Hfs, Hf].
Qed.

(** A registry key as a map of values, each a number or a text, under their
    names in lower case; a text with a zero byte is refused. *)
#[export] Instance map_RegistryKey : RegistryKey (gmap string (Z + string)) := {|
  reg_int k d := match d !! fold_name k with Some (inl n) => Some n | _ => None end;
  reg_string k d := match d !! fold_name k with Some (inr s) => Some s | _ => None end;
  reg_set_dword k v d := <[fold_name k := inl v]> d;
  reg_set_string k v d := if Contains (bytes_of v) x00 then None else Some (<[fold_name k := inr v]> d);
  reg_delete k d := delete (fold_name k) d
|}.

#[export] Instance map_RegistryLaws : RegistryLaws (gmap string (Z + string)).
Proof.
  assert (forall k v (d d' : gmap string (Z + string)),
    (if Contains (bytes_of v) x00 then None else Some (<[fold_name k := inr v]> d)) = Some d' ->
    d' = <[fold_name k := inr v]> d) as Hset by (intros * ; destruct (Contains _ _); congruence).
  unfold differ. split; cbn; intros;
    repeat match goal with H : _ = Some _ |- _ => apply Hset in H as -> end;
    try (by rewrite ?lookup_insert_eq, ?lookup_delete_eq, ?lookup_insert_ne, ?lookup_delete_ne by done).
  destruct H as [_ ->]. eauto.
Qed.

Definition demo_registry : World (gmap string (Z + string)) :=
  mkWorld {[ fold_name "ProxyOverride" := inr "*.corp"%string;
             fold_name "AutoConfigURL" := inr "http://wpad/p.pac"%string ]}
    (mkFS ∅ 0).
Definition demo_endpoint : Endpoint := mkEndpoint "127.0.0.1:8080" "127.0.0.1:8080" "127.0.0.1:1080".

Lemma windows_apply_restore_witness : exists w1 w2,
  reg_int "proxyenable" w1.(wo_desktop) = Some 1 /\
  reg_string "ProxyServer" w1.(wo_desktop) =
    Some "http=127.0.0.1:8080;https=127.0.0.1:8080;socks=127.0.0.1:1080"%string /\
  Windows_Restore (marshalSnapshot (win_settings demo_registry.(wo_desktop))) [] w1 = (Val tt, [], w2) /\
  win_settings w2.(wo_desktop) = win_settings demo_registry.(wo_desktop).
Proof.
  destruct (windows_apply_restore demo_endpoint demo_registry) as (w1 & w2 & _ & H1 & H2 & _ & _ & H3 & H4 & _).
  - vm_compute. intuition congruence.
  - vm_compute. split; reflexivity.
  - exists w1, w2. split; [exact H1|]. split; [exact H2|]. split; [exact H3|exact H4].
Defined.

(** Read errors are taken for absent values: when reading [AutoConfigURL]
    fails once, the snapshot holds an empty address, and restoring it deletes
    the user's automatic configuration. *)
Theorem snapshot_read_error_erases :
  let flaky := [Go; Go; Go; Go; CmdFault (EForeign 5 "access denied")] in
  match mbind Windows_Snapshot Windows_Restore flaky demo_registry with
  | (Val _, _, w') =>
      wi_AutoConfigURL (win_settings demo_registry.(wo_desktop)) = "http://wpad/p.pac"%string /\
      wi_AutoConfigURL (win_settings w'.(wo_desktop)) = ""%string
  | _ => False
  end.
Proof. vm_compute. split; reflexivity. Qed.
