(* ===== verification/Transport.v ===== *)
(** * Transport: [internal/transport/conn.go]

    The configurations handed to TLS and QUIC, the dialers and listeners with
    the sockets they open and close, and the readiness frame that opens the
    control stream of a QUIC connection.  TLS, QUIC and the sockets are not
    part of the program: their results are arguments. *)
From S2P Require Import Prelude GoIO GoStrings Json Codec Protocol Crypto GoText GoTime GoFS Trust.

(* ------------------------------------------------------------------ *)
(** ** Configurations *)

Definition VersionTLS13 : Z := 0x0304.

(** [tls.Config]: [cf_Verify] is the [VerifyConnection] callback, on the
    peer's certificates and the trust store. *)
Record Config (T : Type) := mkConfig {
  cf_MinVersion : Z;
  cf_NextProtos : list string;
  cf_InsecureSkipVerify : bool;
  cf_Certificates : list bytes;
  cf_Verify : option (list bytes -> option T -> option error * option T)
}.
Arguments mkConfig {T}.
Arguments cf_MinVersion {T}.
Arguments cf_NextProtos {T}.
Arguments cf_InsecureSkipVerify {T}.
Arguments cf_Certificates {T}.
Arguments cf_Verify {T}.

Definition BaseTLSConfig {T} (certificate : option bytes) : Config T :=
  mkConfig VersionTLS13 [ALPN] false (match certificate with Some c => [c] | None => [] end) None.

Definition ClientTLSConfig {T} `{Trust T} (upper : bytes -> bytes) (expectedFingerprint host : string)
  : Config T :=
  mkConfig VersionTLS13 [ALPN] true [] (Some (VerifyConnection upper expectedFingerprint host)).

Record QuicConfig := mkQuic {
  qc_MaxIdleTimeout : Duration;
  qc_KeepAlivePeriod : Duration;
  qc_MaxIncomingStreams : Z;
  qc_MaxIncomingUniStreams : Z;
  qc_Allow0RTT : bool
}.

Definition ListenQUIC_config : QuicConfig := mkQuic (30 * Second) (10 * Second) 1024 16 false.
Definition DialQUIC_config : QuicConfig := mkQuic (30 * Second) (10 * Second) 1024 16 false.

(** [FingerprintBytes]: [hex.EncodeToString] in upper case. *)
Definition FingerprintBytes (raw : bytes) : string := string_of (concat (map hex2 (sha256 raw))).

(* ------------------------------------------------------------------ *)
(** ** Sockets *)

(** The sockets the process holds; opening one gives it a fresh number. *)
Record Sockets := mkSockets { so_next : Z; so_open : gset Z }.

Definition socket_open (s : Sockets) : Z * Sockets :=
  (s.(so_next), mkSockets (s.(so_next) + 1) ({[ s.(so_next) ]} ∪ s.(so_open))).
Definition socket_close (n : Z) (s : Sockets) : Sockets :=
  mkSockets s.(so_next) (s.(so_open) ∖ {[ n ]}).

(** An argument [Err e] is the failure of that call. *)
Definition DialTLS (dial handshake : result unit) (s : Sockets) : result Z * Sockets :=
  match dial with
  | Err e => (Err e, s)
  | Ok _ =>
      let '(conn, s) := socket_open s in
      match handshake with
      | Err e => (Err e, socket_close conn s)
      | Ok _ => (Ok conn, s)
      end
  end.

Definition ListenQUIC (resolve listen quic : result unit) (s : Sockets) : result Z * Sockets :=
  match resolve with
  | Err e => (Err e, s)
  | Ok _ =>
      match listen with
      | Err e => (Err e, s)
      | Ok _ =>
          let '(conn, s) := socket_open s in
          match quic with
          | Err e => (Err e, socket_close conn s)
          | Ok _ => (Ok conn, s)
          end
      end
  end.

Definition ListenTLS (listen : result unit) (s : Sockets) : result Z * Sockets :=
  match listen with
  | Err e => (Err e, s)
  | Ok _ => let '(l, s) := socket_open s in (Ok l, s)
  end.

(* ------------------------------------------------------------------ *)
(** ** The control stream *)

(** A QUIC stream: its two directions, the deadlines in force ([None] for the
    zero time) and whether the sending side was closed. *)
Record qstream := mkStream {
  qs_rw : ReadWriter;
  qs_readDeadline : option Time;
  qs_writeDeadline : option Time;
  qs_closed : bool
}.

Definition SetReadDeadline (t : option Time) (s : qstream) : qstream :=
  mkStream s.(qs_rw) t s.(qs_writeDeadline) s.(qs_closed).
Definition SetWriteDeadline (t : option Time) (s : qstream) : qstream :=
  mkStream s.(qs_rw) s.(qs_readDeadline) t s.(qs_closed).

(** [streamConn]: every call is one on the stream. *)
Definition SetDeadline (t : option Time) (s : qstream) : qstream :=
  SetWriteDeadline t (SetReadDeadline t s).
Definition streamConn_Write (p : bytes) (s : qstream) : option error * qstream :=
  let '(e, w) := Sink_Write p s.(qs_rw).(rw_out) in
  (e, mkStream (mkRW s.(qs_rw).(rw_in) w) s.(qs_readDeadline) s.(qs_writeDeadline) s.(qs_closed)).

(** [Close] and [CloseRead] both close the stream, that is its
    sending side. *)
Definition stream_Close (s : qstream) : qstream :=
  mkStream s.(qs_rw) s.(qs_readDeadline) s.(qs_writeDeadline) true.
Definition streamConn_CloseRead (s : qstream) : qstream := stream_Close s.

Definition with_rw (rw : ReadWriter) (s : qstream) : qstream :=
  mkStream rw s.(qs_readDeadline) s.(qs_writeDeadline) s.(qs_closed).

Definition ready_frame : Frame := mkFrame FrameStreamReady 0 [].

(** [deadline] is that of the context; [opened] the result of
    [OpenStreamSync].  The second result is the stream as it is left behind,
    also when an error is returned. *)
Definition OpenControlStream (deadline : option Time) (opened : result qstream)
  : result unit * option qstream :=
  match opened with
  | Err e => (Err e, None)
  | Ok s =>
      let s := match deadline with Some t => SetWriteDeadline (Some t) s | None => s end in
      let '(err, out) := WriteFrame s.(qs_rw).(rw_out) ready_frame in
      let s := with_rw (mkRW s.(qs_rw).(rw_in) out) s in
      let reset s := match deadline with Some _ => SetWriteDeadline None s | None => s end in
      match err with
      | Some e => (Err (EWrap "write QUIC control readiness: " e), Some (reset (stream_Close s)))
      | None => (Ok tt, Some (reset s))
      end
  end.

Definition readiness_error (f : Frame) : error :=
  ENew ("invalid QUIC control readiness frame: type=" +:+ Itoa (byte_to_Z f.(fr_Type)) +:+
        " id=" +:+ Itoa f.(fr_ID) +:+ " payload=" +:+ Itoa (Z.of_nat (length f.(fr_Payload)))).

Definition AcceptControlStream (deadline : option Time) (accepted : result qstream)
  : result unit * option qstream :=
  match accepted with
  | Err e => (Err e, None)
  | Ok s =>
      let s := match deadline with Some t => SetReadDeadline (Some t) s | None => s end in
      let '(frame, rest) := ReadFrame s.(qs_rw).(rw_in) in
      let s := with_rw (mkRW rest s.(qs_rw).(rw_out)) s in
      let reset s := match deadline with Some _ => SetReadDeadline None s | None => s end in
      match frame with
      | Err e => (Err (EWrap "read QUIC control readiness: " e), Some (reset s))
      | Ok f =>
          if negb (bool_decide (f.(fr_Type) = FrameStreamReady)) || negb (f.(fr_ID) =? 0) ||
             negb (Z.of_nat (length f.(fr_Payload)) =? 0)
          then (Err (readiness_error f), Some (reset s))
          else (Ok tt, Some (reset s))
      end
  end.

(* ------------------------------------------------------------------ *)
(** ** Properties *)

(** A call that fails holds no socket it opened. *)
Lemma failed_calls_leak_nothing (s : Sockets) :
  (forall n, n ∈ s.(so_open) -> n < s.(so_next)) ->
  (forall d h e s', DialTLS d h s = (Err e, s') -> s'.(so_open) = s.(so_open)) /\
  (forall r l q e s', ListenQUIC r l q s = (Err e, s') -> s'.(so_open) = s.(so_open)) /\
  (forall l e s', ListenTLS l s = (Err e, s') -> s'.(so_open) = s.(so_open)).
Proof.
  intros Hfresh.
  assert (({[ s.(so_next) ]} ∪ s.(so_open)) ∖ {[ s.(so_next) ]} = s.(so_open)) as Hclose.
  { assert (s.(so_next) ∉ s.(so_open)) by (intros ?%Hfresh; lia). set_solver. }
  split_and!.
  - intros [d|d] [h|h] err s'; unfold DialTLS; cbn; by intros [= _ <-].
  - intros [r|r] [l|l] [q|q] err s'; unfold ListenQUIC; cbn; by intros [= _ <-].
  - intros [l|l] err s'; unfold ListenTLS; cbn; by intros [= _ <-].
Qed.

Lemma not_ready f : f <> ready_frame ->
  negb (bool_decide (f.(fr_Type) = FrameStreamReady)) || negb (f.(fr_ID) =? 0) ||
  negb (Z.of_nat (length f.(fr_Payload)) =? 0) = true.
Proof.
  intros Hne. destruct f as [t i p]; cbn. destruct (decide (t = FrameStreamReady)) as [->|]; [|by rewrite bool_decide_false].
  destruct (Z.eqb_spec i 0) as [->|]; [|by rewrite orb_true_r]. destruct p; [done|]. apply orb_true_r.
Qed.

(** The readiness frame is what the accepting side waits for: the stream that
    [OpenControlStream] leaves behind is ready, without deadlines, and from its
    bytes [AcceptControlStream] takes exactly that frame, whatever follows; it
    refuses every other first frame. *)
Theorem control_stream_ready (d d' : option Time) (o a : qstream) (later : bytes) (e : error) :
  o.(qs_writeDeadline) = None -> a.(qs_readDeadline) = None ->
  has_room o.(qs_rw).(rw_out) headerSize ->
  exists o' sent,
    OpenControlStream d (Ok o) = (Ok tt, Some o') /\
    o' = with_rw (mkRW o.(qs_rw).(rw_in) (sink_append o.(qs_rw).(rw_out) sent)) o /\
    (a.(qs_rw).(rw_in) = mkReader (sent ++ later) e ->
     AcceptControlStream d' (Ok a) =
       (Ok tt, Some (with_rw (mkRW (mkReader later e) a.(qs_rw).(rw_out)) a))) /\
    (forall f a', frame_ok f -> f <> ready_frame -> a.(qs_rw).(rw_in) = mkReader (frame_bytes f ++ later) e ->
     AcceptControlStream d' (Ok a) <> (Ok tt, a')).
Proof.
  intros Hw Hr Hroom. unfold OpenControlStream.
  assert (frame_ok ready_frame) as Hok by (split; vm_compute; intuition congruence).
  exists (with_rw (mkRW o.(qs_rw).(rw_in) (sink_append o.(qs_rw).(rw_out) (frame_bytes ready_frame))) o),
    (frame_bytes ready_frame).
  split_and!.
  - destruct d as [t|]; cbn [SetWriteDeadline qs_rw]; rewrite WriteFrame_room; try done; destruct o; cbn in *; by subst.
  - done.
  - intros Ha. unfold AcceptControlStream.
    destruct d' as [t|]; cbn [SetReadDeadline qs_rw]; rewrite Ha, ReadFrame_frame_bytes by done;
      destruct a; cbn in *; by subst.
  - intros f a' Hf Hne Ha. unfold AcceptControlStream.
    destruct d' as [t|]; cbn [SetReadDeadline qs_rw]; rewrite Ha, ReadFrame_frame_bytes by done;
      rewrite not_ready by done; discriminate.
Qed.

Definition demo_stream (buf : bytes) : qstream :=
  mkStream (mkRW (mkReader buf EOF) (mkSink [] (Some 64%nat) ErrClosed)) None None false.

Lemma control_stream_ready_witness : exists o' sent,
  OpenControlStream (Some 7) (Ok (demo_stream [])) = (Ok tt, Some o') /\
  o' = with_rw (mkRW (demo_stream []).(qs_rw).(rw_in) (sink_append (demo_stream []).(qs_rw).(rw_out) sent)) (demo_stream []).
Proof.
  destruct (control_stream_ready (Some 7) None (demo_stream []) (demo_stream []) [x01] EOF)
    as (o' & sent & H1 & H2 & _); [reflexivity|reflexivity|cbn; unfold headerSize; lia|].
  exists o', sent. split; [exact H1|exact H2].
Defined.

(** The bytes of that run are accepted by the other side. *)
Example demo_accept :
  AcceptControlStream None (Ok (demo_stream (frame_bytes ready_frame ++ bytes_of "xyz"))) =
  (Ok tt, Some (with_rw (mkRW (mkReader (bytes_of "xyz") EOF) (mkSink [] (Some 64%nat) ErrClosed)) (demo_stream []))).
Proof. vm_compute. reflexivity. Qed.
