(* ===== verification/Setup.v ===== *)
(** * Setting up a node: [GenerateCertificate] of [internal/config/config.go],
    [internal/initnode/initnode.go] and [internal/silentserver/silentserver.go]

    [Initialize] writes a bundle of four files; [LoadConfig] and [Run] of the
    silent server read one, from wherever it was copied to.  The key and the
    certificate come from [crypto/ecdsa] and [crypto/x509]: what those return
    is an argument. *)
From S2P Require Import Prelude GoIO GoStrings Json Codec Protocol GoTime Base64 Crypto GoText GoFS.
From S2P Require Import Auth AuthProps Config.

(* ------------------------------------------------------------------ *)
(** ** Paths in a directory *)

(** A file name: one element that [Clean] keeps. *)
Definition file_name (name : bytes) : Prop :=
  ~ In slash name /\ name <> [] /\ name <> [x2e] /\ name <> [x2e; x2e].

Lemma split_on_plain b s : forall cur, ~ In b s -> split_on b cur s = [rev cur ++ s].
Proof.
  induction s as [|c s IH]; intros cur Hs; cbn; [by rewrite app_nil_r|].
  destruct (Byte.eqb c b) eqn:E; [apply Byte.byte_dec_bl in E; subst; by destruct Hs; left|].
  rewrite IH by (intros ?; apply Hs; by right). cbn. by rewrite <- app_assoc.
Qed.

Lemma split_on_app b d s : forall cur, ~ In b s -> split_on b cur (d ++ b :: s) = split_on b cur d ++ [s].
Proof.
  induction d as [|c d IH]; intros cur Hs; cbn.
  - rewrite (Byte.byte_dec_lb (eq_refl b)). by rewrite split_on_plain.
  - destruct (c =b b); cbn; by rewrite IH.
Qed.

Lemma clean_step_name rooted stack name : file_name name -> clean_step rooted stack name = name :: stack.
Proof. intros (_ & H1 & H2 & H3). unfold clean_step. by rewrite !bool_decide_false. Qed.

Lemma Join_snoc parts name sep : parts <> [] -> Join (parts ++ [name]) sep = Join parts sep ++ sep ++ name.
Proof.
  induction parts as [|p [|q parts] IH]; intros Hne; [done|done|].
  change (Join (p :: q :: parts ++ [name]) sep = Join (p :: q :: parts) sep ++ sep ++ name).
  cbn [Join app] in *. rewrite IH by done. by rewrite !app_assoc.
Qed.

(** The paths of the files of one directory differ in the file name only. *)
Lemma filepath_Join_prefix dir : exists prefix, forall name, file_name (bytes_of name) ->
  bytes_of (filepath_Join dir name) = prefix ++ bytes_of name.
Proof.
  unfold filepath_Join. destruct (bytes_of dir) as [|c d].
  - exists []. intros name Hn. rewrite bytes_of_string_of. unfold Clean.
    destruct Hn as (Hs & H0 & H1 & H2). pose proof (conj Hs (conj H0 (conj H1 H2)) : file_name _) as Hn.
    destruct (bytes_of name) as [|b r] eqn:E; [done|].
    assert ((b =b slash) = false) as ->.
    { destruct (b =b slash) eqn:Eb; [|done]. apply Byte.byte_dec_bl in Eb as ->. by destruct Hs; left. }
    rewrite split_on_plain by done. cbn [rev app fold_left]. by rewrite clean_step_name.
  - set (rooted := c =b slash). set (stack := fold_left (clean_step rooted) (split_on slash [] (c :: d)) []).
    exists ((if rooted then [slash] else []) ++ match stack with [] => [] | _ => Join (rev stack) [slash] ++ [slash] end).
    intros name Hn. rewrite bytes_of_string_of. unfold Clean.
    change ((c :: d) ++ [slash] ++ bytes_of name) with ((c :: d) ++ slash :: bytes_of name).
    rewrite split_on_app by apply Hn. rewrite fold_left_app. cbn [app fold_left]. fold rooted. fold stack.
    rewrite clean_step_name by done. cbn [rev].
    assert (Join (rev stack ++ [bytes_of name]) [slash] =
      match stack with [] => [] | _ => Join (rev stack) [slash] ++ [slash] end ++ bytes_of name) as ->.
    { destruct stack as [|p stack]; [done|]. rewrite Join_snoc, <- app_assoc; [done|].
      cbn. by destruct (rev stack). }
    rewrite app_assoc. destruct (_ ++ bytes_of name) eqn:E; [|done].
    apply app_eq_nil in E as [_ E]. by destruct Hn as (_ & ? & _).
Qed.

Lemma bytes_of_inj s t : bytes_of s = bytes_of t -> s = t.
Proof. intros H. by rewrite <- (string_of_bytes_of s), H, string_of_bytes_of. Qed.

Lemma bytes_of_app s t : bytes_of (s +:+ t) = bytes_of s ++ bytes_of t.
Proof.
  unfold bytes_of, String.list_byte_of_string. rewrite <- map_app. f_equal.
  induction s as [|a s IH]; [done|].
  change (String a s +:+ t) with (String a (s +:+ t)). cbn. f_equal. exact IH.
Qed.

Lemma filepath_Join_inj dir m n : file_name (bytes_of m) -> file_name (bytes_of n) ->
  filepath_Join dir m = filepath_Join dir n -> m = n.
Proof.
  destruct (filepath_Join_prefix dir) as [p Hp]. intros Hm Hn H. apply (f_equal bytes_of) in H.
  rewrite !Hp in H by done. apply (inj (app p)) in H. by apply bytes_of_inj.
Qed.

Lemma temp_name_Join dir name : file_name (bytes_of name) -> file_name (bytes_of (name +:+ ".tmp")) ->
  temp_name (filepath_Join dir name) = filepath_Join dir (name +:+ ".tmp").
Proof.
  destruct (filepath_Join_prefix dir) as [p Hp]. intros Hm Hn. apply bytes_of_inj.
  unfold temp_name. by rewrite bytes_of_app, !Hp, bytes_of_app, app_assoc.
Qed.

(* ------------------------------------------------------------------ *)
(** ** The certificate *)

(** [x509.Certificate] as far as the template sets it; key usages are Go's
    bit masks and numbers. *)
Record template := mkTemplate {
  ct_SerialNumber : Z;
  ct_CommonName : string;
  ct_Organization : list string;
  ct_NotBefore : Time;
  ct_NotAfter : Time;
  ct_KeyUsage : Z;
  ct_ExtKeyUsage : list Z;
  ct_BasicConstraintsValid : bool;
  ct_DNSNames : list string;
  ct_IPAddresses : list string
}.

(** What the cryptographic packages and the clock answer. *)
Record CertSource := mkCertSource {
  cs_hostname : string;
  cs_key : option error;
  cs_serial : result Z;
  cs_now : Time;
  cs_tenYearsLater : Time;
  cs_create : template -> result bytes;
  cs_marshalKey : result bytes
}.

Definition cert_template (c : CertSource) (serial : Z) (hostname : string) : template :=
  mkTemplate serial "lnproxy" ["lnproxy"]%string (TAdd c.(cs_now) (- (60 * Minute))) c.(cs_tenYearsLater)
    (Z.lor 1 4) [1] true [hostname; "localhost"]%string ["127.0.0.1"; "::1"]%string.

(** [pem.EncodeToMemory]: the base64 text in lines of 64 characters. *)
Fixpoint pem_lines (fuel : nat) (s : bytes) : bytes :=
  match fuel with
  | O => []
  | S n => match s with [] => [] | _ => take 64 s ++ [x0a] ++ pem_lines n (drop 64 s) end
  end.
Definition EncodeToMemory (kind : string) (der : bytes) : bytes :=
  let text := b64_encode true der in
  bytes_of ("-----BEGIN " +:+ kind +:+ "-----") ++ [x0a] ++
  pem_lines (length text) text ++ bytes_of ("-----END " +:+ kind +:+ "-----") ++ [x0a].

(** [writeFile]: [ft_mkdir] is not used here. *)
Definition writeFile (goos : string) (ft : save_faults) (path : string) (data : bytes) (mode : Z) (fs : FS)
  : option error * FS :=
  let temp := temp_name path in
  match WriteFile ft.(ft_write) temp data mode fs with
  | (Some e, fs) => (Some e, fs)
  | (None, fs) =>
      let '(cerr, fs) := Chmod ft.(ft_chmod) temp mode fs in
      match cerr, bool_decide (goos = "windows"%string) with
      | Some e, false => (Some e, os_Remove temp fs)
      | _, _ =>
          match Rename ft.(ft_rename) temp path fs with
          | (Some e, fs) => (Some e, os_Remove temp fs)
          | (None, fs) => (None, fs)
          end
      end
  end.

(** The two [save_faults] are those of the certificate and of the key file;
    their [ft_mkdir] are the directories'. *)
Definition GenerateCertificate (goos : string) (c : CertSource) (ftc ftk : save_faults)
  (certPath keyPath hostname : string) (fs : FS) : option error * FS :=
  let hostname := if empty_string hostname then c.(cs_hostname) else hostname in
  match c.(cs_key) with
  | Some e => (Some e, fs)
  | None =>
      match c.(cs_serial) with
      | Err e => (Some e, fs)
      | Ok serial =>
          match c.(cs_create) (cert_template c serial hostname) with
          | Err e => (Some e, fs)
          | Ok certificateDER =>
              match c.(cs_marshalKey) with
              | Err e => (Some e, fs)
              | Ok keyDER =>
                  match ftc.(ft_mkdir), ftk.(ft_mkdir) with
                  | Some e, _ => (Some e, fs)
                  | None, Some e => (Some e, fs)
                  | None, None =>
                      match writeFile goos ftc certPath (EncodeToMemory "CERTIFICATE" certificateDER) 0x1a4 fs with
                      | (Some e, fs) => (Some e, fs)
                      | (None, fs) => writeFile goos ftk keyPath (EncodeToMemory "PRIVATE KEY" keyDER) 0x180 fs
                      end
                  end
              end
          end
      end
  end.

(* ------------------------------------------------------------------ *)
(** ** Initialize *)

Record init_env := mkInitEnv {
  ie_os : OS;
  ie_goos : string;
  ie_mkdir : option error;
  ie_stat : option error;
  ie_terminal : Terminal;
  ie_salt : result bytes;
  ie_cert : CertSource;
  ie_saveVerifier : save_faults;
  ie_saveCert : save_faults;
  ie_saveKey : save_faults;
  ie_saveConfig : save_faults
}.

(** [os.Stat(path)]: a fault, a missing file, or the file. *)
Definition Stat (fault : option error) (path : string) (fs : FS) : option error :=
  match fault, fs.(fs_files) !! path with
  | Some e, _ => Some e
  | None, None => Some ErrNotExist
  | None, Some _ => None
  end.

Section Initialize.
Variable IDKey : bytes -> bytes -> Z -> Z -> Z -> Z -> bytes.

Definition Initialize (env : init_env) (cfg : Node) (configPath : string) (fs : FS)
  : option error * FS :=
  match env.(ie_mkdir) with
  | Some e => (Some e, fs)
  | None =>
      match Stat env.(ie_stat) cfg.(nd_VerifierFile) fs with
      | None => (Some (ENew (cfg.(nd_VerifierFile) +:+ " already exists; refusing to overwrite")), fs)
      | Some _ =>
          match PromptPassphrase env.(ie_terminal) true with
          | Err e => (Some e, fs)
          | Ok passphrase =>
              match NewVerifier IDKey env.(ie_salt) passphrase with
              | Err e => (Some e, fs)
              | Ok verifier =>
                  match Verifier_Save verifier env.(ie_saveVerifier) cfg.(nd_VerifierFile) fs with
                  | (Some e, fs) => (Some e, fs)
                  | (None, fs) =>
                      let '(err, fs) :=
                        if is_role cfg Config.RoleExit then (None, fs)
                        else GenerateCertificate env.(ie_goos) env.(ie_cert) env.(ie_saveCert) env.(ie_saveKey)
                               cfg.(nd_CertificateFile) cfg.(nd_KeyFile) "" fs in
                      match err with
                      | Some e => (Some e, fs)
                      | None =>
                          let path := if empty_string configPath
                            then filepath_Join cfg.(nd_DataDirectory) "node.json" else configPath in
                          SaveNode env.(ie_os) env.(ie_saveConfig) path cfg fs
                      end
                  end
              end
          end
      end
  end.
End Initialize.

(* ------------------------------------------------------------------ *)
(** ** The silent server *)

(** [isDir] tells which paths are directories. *)
Fixpoint check_files (fault : string -> option error) (isDir : string -> bool)
  (required : list (string * string)) (fs : FS) : option error :=
  match required with
  | [] => None
  | (name, path) :: rest =>
      match (if isDir path then fault path else Stat (fault path) path fs) with
      | Some e => Some (EWrap (name +:+ " " +:+ path +:+ " is required: ") e)
      | None =>
          if isDir path then Some (ENew (name +:+ " " +:+ path +:+ " is a directory"))
          else check_files fault isDir rest fs
      end
  end.

(** The role and the paths [LoadConfig] forces. *)
Definition bundle_config (dataDir : string) (n : Node) : Node :=
  mkNode RoleServerExit n.(nd_ListenAddress) dataDir
    (filepath_Join dataDir "server.crt") (filepath_Join dataDir "server.key")
    (filepath_Join dataDir "passphrase.json") n.(nd_ServerAddress) n.(nd_ServerFingerprint)
    n.(nd_PassphraseSource) n.(nd_ConnectionLimit) n.(nd_IdleTimeout) n.(nd_ExitName)
    n.(nd_ExitID) n.(nd_Capacity) false.

Definition LoadConfig (os : OS) (readFault : option error) (statFault : string -> option error)
  (isDir : string -> bool) (dataDir : string) (fs : FS) : result Node :=
  if empty_string dataDir then Err (ENew "data directory is required")
  else
    let configPath := filepath_Join dataDir "node.json" in
    match LoadNode os readFault configPath fs with
    | (_, Some e) => Err (EWrap ("load " +:+ configPath +:+ ": ") e)
    | (n, None) =>
        let cfg := bundle_config dataDir n in
        match Validate cfg with
        | Some e => Err e
        | None =>
            match check_files statFault isDir
                    [("passphrase verifier", cfg.(nd_VerifierFile)); ("TLS certificate", cfg.(nd_CertificateFile));
                     ("TLS private key", cfg.(nd_KeyFile))]%string fs with
            | Some e => Err e
            | None => Ok cfg
            end
        end
    end.

(** [Run] up to the start of the server: the configuration, the verifier and
    the certificate it starts with.  [keyPair] is [tls.X509KeyPair]. *)
Definition Run (os : OS) (readFault : option error) (statFault : string -> option error)
  (isDir : string -> bool) (keyPair : bytes -> bytes -> result bytes)
  (dataDir : string) (fs : FS) : result (Node * Verifier * bytes) :=
  match LoadConfig os readFault statFault isDir dataDir fs with
  | Err e => Err e
  | Ok cfg =>
      match LoadVerifier readFault cfg.(nd_VerifierFile) fs with
      | Err e => Err (EWrap "load passphrase verifier: " e)
      | Ok verifier =>
          let pair :=
            let? cert := ReadFile readFault cfg.(nd_CertificateFile) fs in
            let? key := ReadFile readFault cfg.(nd_KeyFile) fs in keyPair cert key in
          match pair with
          | Err e => Err (EWrap "load TLS certificate: " e)
          | Ok certificate => Ok (cfg, verifier, certificate)
          end
      end
  end.

(* ------------------------------------------------------------------ *)
(** ** What the writes leave behind *)

Lemma writeFile_spec goos ft path data mode fs :
  let r := writeFile goos ft path data mode fs in
  match r.1 with
  | None => exists m, r.2.(fs_files) !! path = Some (mkFile data m)
  | Some _ => r.2.(fs_files) !! path = fs.(fs_files) !! path
  end /\
  forall q, q <> path -> q <> temp_name path -> r.2.(fs_files) !! q = fs.(fs_files) !! q.
Proof.
  pose proof (temp_name_ne path) as Hne. unfold writeFile.
  pose proof (WriteFile_other (ft_write ft) (temp_name path) data mode fs) as Ho.
  destruct (WriteFile _ _ _ _ fs) as [[e|] fs1] eqn:Ew; cbn in *; [by auto|].
  apply WriteFile_ok in Ew as (m & Hm & _).
  assert (exists cerr fs2 m2, Chmod (ft_chmod ft) (temp_name path) mode fs1 = (cerr, fs2) /\
    fs_files fs2 = <[temp_name path := mkFile data m2]> (fs_files fs)) as (cerr & fs2 & m2 & -> & Hm2).
  { unfold Chmod. rewrite Hm, lookup_insert_eq. destruct (ft_chmod ft) as [e|]; eexists _, _, _; (split; [done|]).
    - exact Hm.
    - cbn. by rewrite insert_insert_eq. }
  assert (let r := match Rename (ft_rename ft) (temp_name path) path fs2 with
      | (Some e, fs) => (Some e, os_Remove (temp_name path) fs) | (None, fs) => (None, fs) end in
    match r.1 with
    | None => exists m, r.2.(fs_files) !! path = Some (mkFile data m)
    | Some _ => r.2.(fs_files) !! path = fs.(fs_files) !! path
    end /\ forall q, q <> path -> q <> temp_name path -> r.2.(fs_files) !! q = fs.(fs_files) !! q) as Hr.
  { unfold Rename. rewrite Hm2, lookup_insert_eq. destruct (ft_rename ft) as [e|]; cbn.
    - rewrite Hm2. split; [|intros q ? ?]; by rewrite lookup_delete_ne, lookup_insert_ne by done.
    - split; [by rewrite lookup_insert_eq; eauto|]. intros q ? ?.
      by rewrite lookup_insert_ne, lookup_delete_ne, lookup_insert_ne by done. }
  destruct cerr as [e|]; [|exact Hr]. destruct (bool_decide _); [exact Hr|]. cbn.
  rewrite Hm2. split; [|intros q ? ?]; by rewrite lookup_delete_ne, lookup_insert_ne by done.
Qed.

(** One file was written, and no other file but the temporary one touched. *)
Definition wrote (path : string) (data : bytes) (fs fs' : FS) : Prop :=
  (exists f, fs'.(fs_files) !! path = Some f /\ f.(fl_data) = data) /\
  forall q, q <> path -> q <> temp_name path -> fs'.(fs_files) !! q = fs.(fs_files) !! q.

Lemma writeFile_writes goos path data mode fs :
  exists fs', writeFile goos no_faults path data mode fs = (None, fs') /\ wrote path data fs fs'.
Proof.
  pose proof (writeFile_spec goos no_faults path data mode fs) as [H Hf].
  assert ((writeFile goos no_faults path data mode fs).1 = None) as E.
  { unfold writeFile. cbn. unfold Chmod. cbn. rewrite lookup_insert_eq. unfold Rename. cbn. by rewrite lookup_insert_eq. }
  destruct (writeFile _ _ _ _ _ fs) as [err fs']. cbn in *. subst err. destruct H as [m H].
  exists fs'. split; [done|]. split; [by eexists|done].
Qed.

Lemma writePrivateFile_writes path data fs :
  exists fs', writePrivateFile no_faults path data fs = (None, fs') /\ wrote path data fs fs'.
Proof.
  pose proof (writePrivateFile_spec no_faults path data fs) as [H Hf].
  assert ((writePrivateFile no_faults path data fs).1 = None) as E.
  { unfold writePrivateFile. cbn. unfold Chmod. cbn. rewrite lookup_insert_eq. unfold Rename. cbn. by rewrite lookup_insert_eq. }
  destruct (writePrivateFile _ _ _ fs) as [err fs']. cbn in *. subst err.
  exists fs'. split; [done|]. split; [by eexists|done].
Qed.

Lemma save_rename_writes path data fs :
  exists fs', save_rename no_faults path data fs = (None, fs') /\ wrote path data fs fs'.
Proof.
  destruct (save_rename_atomic no_faults path data fs) as [H Hf].
  assert ((save_rename no_faults path data fs).1 = None) as E.
  { unfold save_rename. cbn. unfold Rename. cbn. by rewrite lookup_insert_eq. }
  destruct (save_rename _ _ _ fs) as [err fs']. cbn in *. subst err. by exists fs'.
Qed.

(** A configuration with a data directory has no defaults left to fill in, on
    whatever machine it is loaded. *)
Lemma FillPaths_moved os os' n : n.(nd_DataDirectory) <> ""%string ->
  FillPaths os' (FillPaths os n) = FillPaths os n.
Proof.
  intros Hd. rewrite <- (FillPaths_idem os n) at 2. unfold FillPaths.
  cbn [nd_Role nd_ListenAddress nd_DataDirectory nd_CertificateFile nd_KeyFile
    nd_VerifierFile nd_ServerAddress nd_ServerFingerprint nd_PassphraseSource nd_ConnectionLimit
    nd_IdleTimeout nd_ExitName nd_ExitID nd_Capacity nd_Console].
  assert (empty_string (nd_DataDirectory n) = false) as Ed by (by apply bool_decide_eq_false).
  rewrite ?Ed. cbv iota. rewrite ?Ed. cbv iota.
  f_equal. rewrite !or_else_nonempty; [done|unfold or_else; by destruct (empty_string (os_Hostname os)) eqn:E; [|apply bool_decide_eq_false in E]..].
Qed.

Definition config_bytes (os : OS) (n : Node) : bytes := print_indent (to_json (FillPaths os n)) ++ [x0a].

Lemma LoadNode_bytes os os' n path fs f : n.(nd_DataDirectory) <> ""%string -> Node_ok (FillPaths os n) ->
  fs.(fs_files) !! path = Some f -> f.(fl_data) = config_bytes os n ->
  LoadNode os' None path fs = (FillPaths os n, Validate (FillPaths os n)).
Proof.
  intros Hd Hok Hf Hb. unfold LoadNode, ReadFile. rewrite Hf, Hb. unfold Unmarshal, config_bytes.
  rewrite parse_print_indent; [|exact (to_json_jwf (A := Node) _ Hok)
    |exact (to_json_depth (A := Node) _)|by repeat constructor].
  rewrite (@json_dec_to_json _ _ Node_laws _ Hok). by rewrite FillPaths_moved.
Qed.

(** The four files of a bundle. *)
Definition bundle_files : list string := ["node.json"; "passphrase.json"; "server.crt"; "server.key"]%string.

Lemma bundle_paths dir m n : In m bundle_files -> In n bundle_files -> m <> n ->
  filepath_Join dir m <> filepath_Join dir n /\ filepath_Join dir m <> temp_name (filepath_Join dir n).
Proof.
  assert (forall m, In m (bundle_files ++ map (fun m => m +:+ ".tmp") bundle_files) -> file_name (bytes_of m)) as Hfile.
  { intros x Hx. cbn in Hx.
    repeat (destruct Hx as [<-|Hx]; [split_and!; vm_compute; intuition congruence|]). done. }
  assert (forall m n, In m bundle_files -> In n bundle_files -> m <> n +:+ ".tmp") as Htmp.
  { intros x y Hx Hy. cbn in Hx, Hy.
    repeat (destruct Hx as [<-|Hx]; [repeat (destruct Hy as [<-|Hy]; [vm_compute; congruence|]); done|]). done. }
  assert (forall m, In m bundle_files -> file_name (bytes_of m) /\ file_name (bytes_of (m +:+ ".tmp"))) as Hb.
  { intros x Hx. split; apply Hfile; apply in_app_iff; [by left|right]. by apply (in_map (fun m => m +:+ ".tmp")). }
  intros Hm Hn Hne. destruct (Hb m Hm), (Hb n Hn). split; [intros E; apply Hne; by apply filepath_Join_inj in E|].
  rewrite temp_name_Join by done. intros E. apply filepath_Join_inj in E; [|done|done]. by apply (Htmp m n).
Qed.

(** Everything works: the operator types the passphrase twice and no call
    fails. *)
Definition fresh_env (os : OS) (goos : string) (passphrase salt : bytes) (cert : CertSource) : init_env :=
  mkInitEnv os goos None None (mkTerminal true (Ok passphrase) (Ok passphrase)) (Ok salt) cert
    no_faults no_faults no_faults no_faults.

Definition cert_works (c : CertSource) (certDER keyDER : bytes) : Prop :=
  c.(cs_key) = None /\ c.(cs_marshalKey) = Ok keyDER /\
  exists serial, c.(cs_serial) = Ok serial /\ c.(cs_create) (cert_template c serial c.(cs_hostname)) = Ok certDER.

(** The configuration of a server with exit in the directory [dir]. *)
Definition bundle_node (os : OS) (dir : string) (cfg : Node) : Prop :=
  dir <> ""%string /\ cfg.(nd_DataDirectory) = dir /\ cfg.(nd_Role) = RoleServerExit /\
  cfg.(nd_VerifierFile) = filepath_Join dir "passphrase.json" /\
  cfg.(nd_CertificateFile) = filepath_Join dir "server.crt" /\
  cfg.(nd_KeyFile) = filepath_Join dir "server.key" /\
  Node_ok (FillPaths os cfg) /\ Validate (FillPaths os cfg) = None.

Section Bundle.
Variable IDKey : bytes -> bytes -> Z -> Z -> Z -> Z -> bytes.
Variables (os : OS) (goos : string) (passphrase salt : bytes) (cert : CertSource) (certDER keyDER : bytes).
Variables (dir : string) (cfg : Node) (fs : FS).
Hypothesis Hcfg : bundle_node os dir cfg.
Hypothesis Hpass : passphrase <> [].
Hypothesis Hcert : cert_works cert certDER keyDER.
Hypothesis Hfresh : fs.(fs_files) !! filepath_Join dir "passphrase.json" = None.

Definition bundle_verifier : Verifier :=
  mkVerifier salt (Derive IDKey passphrase salt DefaultParameters) DefaultParameters.

Definition has_data (fs : FS) (name : string) (data : bytes) : Prop :=
  exists f, fs.(fs_files) !! filepath_Join dir name = Some f /\ f.(fl_data) = data.

Definition verifier_bytes (v : Verifier) : bytes :=
  print_indent (to_json (mkVerifierFile 1 (string_of (b64_encode false v.(ve_Salt)))
    (string_of (b64_encode false v.(ve_Hash))) v.(ve_Params))) ++ [x0a].

Lemma has_data_wrote fs1 fs2 m n d d' : has_data fs1 m d -> wrote (filepath_Join dir n) d' fs1 fs2 ->
  In m bundle_files -> In n bundle_files -> m <> n -> has_data fs2 m d.
Proof.
  intros (f & Hf & Hd) [_ Hw] Hm Hn Hne. destruct (bundle_paths dir m n Hm Hn Hne).
  exists f. by rewrite Hw.
Qed.

Lemma Prompt_typed p : p <> [] -> PromptPassphrase (mkTerminal true (Ok p) (Ok p)) true = Ok p.
Proof. intros Hp. unfold PromptPassphrase. cbn. rewrite bool_decide_true by done. by destruct p. Qed.

(** Key and certificate files of a generation in which nothing fails. *)
Lemma GenerateCertificate_writes certPath keyPath fs1 :
  exists fs2 fs3, GenerateCertificate goos cert no_faults no_faults certPath keyPath "" fs1 = (None, fs3) /\
    wrote certPath (EncodeToMemory "CERTIFICATE" certDER) fs1 fs2 /\
    wrote keyPath (EncodeToMemory "PRIVATE KEY" keyDER) fs2 fs3.
Proof.
  destruct Hcert as (Hk & Hmk & serial & Hser & Hcr). unfold GenerateCertificate. rewrite Hk, Hser.
  change (empty_string "") with true. cbn iota. rewrite Hcr, Hmk. cbn [no_faults ft_mkdir].
  change (mkFaults None None None None) with no_faults.
  destruct (writeFile_writes goos certPath (EncodeToMemory "CERTIFICATE" certDER) 0x1a4 fs1) as (fs2 & -> & H2).
  destruct (writeFile_writes goos keyPath (EncodeToMemory "PRIVATE KEY" keyDER) 0x180 fs2) as (fs3 & -> & H3).
  eauto 10.
Qed.

(** [Initialize] writes the four files. *)
Lemma Initialize_writes :
  exists fs1, Initialize IDKey (fresh_env os goos passphrase salt cert) cfg "" fs = (None, fs1) /\
    has_data fs1 "passphrase.json" (verifier_bytes bundle_verifier) /\
    has_data fs1 "server.crt" (EncodeToMemory "CERTIFICATE" certDER) /\
    has_data fs1 "server.key" (EncodeToMemory "PRIVATE KEY" keyDER) /\
    has_data fs1 "node.json" (config_bytes os cfg).
Proof.
  destruct Hcfg as (Hd & Edir & Erole & Ev & Ec & Ek & Hok & Hval).
  unfold Initialize, fresh_env. cbn [ie_mkdir ie_stat ie_terminal ie_salt ie_saveVerifier ie_goos ie_cert ie_saveCert
    ie_saveKey ie_os ie_saveConfig]. unfold Stat. rewrite Ev, Hfresh, Prompt_typed by done.
  cbn [NewVerifier result_bind]. fold bundle_verifier. unfold Verifier_Save. fold (verifier_bytes bundle_verifier).
  destruct (writePrivateFile_writes (filepath_Join dir "passphrase.json") (verifier_bytes bundle_verifier) fs) as (fs1 & -> & H1).
  unfold is_role. rewrite Erole, bool_decide_false, Ec, Ek by done.
  destruct (GenerateCertificate_writes (filepath_Join dir "server.crt") (filepath_Join dir "server.key") fs1)
    as (fs2 & fs3 & -> & H2 & H3).
  rewrite Edir. unfold SaveNode. fold (config_bytes os cfg).
  change (if empty_string "" then filepath_Join dir "node.json" else ""%string) with (filepath_Join dir "node.json").
  destruct (save_rename_writes (filepath_Join dir "node.json") (config_bytes os cfg) fs3) as (fs4 & -> & H4).
  exists fs4. split; [done|]. pose proof (proj1 H1 : has_data _ _ _) as D1. pose proof (proj1 H2 : has_data _ _ _) as D2.
  pose proof (proj1 H3 : has_data _ _ _) as D3. pose proof (proj1 H4 : has_data _ _ _) as D4.
  split_and!; [..|exact D4];
    repeat first [eassumption | eapply has_data_wrote; [|first [exact H4|exact H3|exact H2]|by cbn; auto 10|by cbn; auto 10|done]].
Qed.
End Bundle.

Lemma bundle_config_valid dir n : dir <> ""%string -> n.(nd_Role) = RoleServerExit ->
  Validate n = None -> Validate (bundle_config dir n) = None.
Proof.
  intros Hd Hr. unfold Validate, is_role, bundle_config. cbn. rewrite Hr.
  assert (empty_string dir = false) as -> by (by apply bool_decide_eq_false).
  destruct (empty_string (nd_DataDirectory n)); [done|]. done.
Qed.

Lemma check_files_present required fs :
  Forall (fun r : string * string => exists f, fs.(fs_files) !! r.2 = Some f) required ->
  check_files (fun _ => None) (fun _ => false) required fs = None.
Proof.
  induction 1 as [|[name path] rest [f Hf] _ IH]; [done|]. cbn in Hf |- *. unfold Stat. by rewrite Hf.
Qed.

(** C35: an initialised bundle starts wherever it is copied to: after [Initialize]
    the four files, found under any directory of any machine, give [Run] a
    configuration with the role and the paths of that directory, the verifier
    of the passphrase that was typed and the generated certificate. *)
Theorem bundle_runs_anywhere (IDKey : bytes -> bytes -> Z -> Z -> Z -> Z -> bytes)
  (IDKey_length : forall p s t m th k, 0 <= k -> Z.of_nat (length (IDKey p s t m th k)) = k)
  (keyPair : bytes -> bytes -> result bytes)
  (os : OS) (goos : string) (passphrase salt : bytes) (cert : CertSource) (certDER keyDER certificate : bytes)
  (dir : string) (cfg : Node) (fs : FS)
  (Hcfg : bundle_node os dir cfg) (Hpass : passphrase <> []) (Hsalt : length salt = saltLength)
  (Hcert : cert_works cert certDER keyDER)
  (Hfresh : fs.(fs_files) !! filepath_Join dir "passphrase.json" = None)
  (Hpair : keyPair (EncodeToMemory "CERTIFICATE" certDER) (EncodeToMemory "PRIVATE KEY" keyDER) = Ok certificate) :
  exists fs1 v, Initialize IDKey (fresh_env os goos passphrase salt cert) cfg "" fs = (None, fs1) /\
    Verify IDKey v passphrase = true /\
    forall os' dir' fs', dir' <> ""%string ->
      (forall name, In name bundle_files ->
         fs'.(fs_files) !! filepath_Join dir' name = fs1.(fs_files) !! filepath_Join dir name) ->
      Run os' None (fun _ => None) (fun _ => false) keyPair dir' fs'
        = Ok (bundle_config dir' (FillPaths os cfg), v, certificate).
Proof.
  destruct (Initialize_writes IDKey os goos passphrase salt cert certDER keyDER dir cfg fs Hcfg Hpass Hcert Hfresh)
    as (fs1 & HI & (fv & Hv & Dv) & (fc & Hc & Dc) & (fk & Hk & Dk) & (fn & Hn & Dn)).
  exists fs1, (bundle_verifier IDKey passphrase salt). split; [done|]. split.
  { unfold Verify. by apply Z.eqb_eq, ConstantTimeCompare_spec. }
  intros os' dir' fs' Hd' Hcopy. destruct Hcfg as (Hd & Edir & Erole & _ & _ & _ & Hok & Hval).
  assert (forall name f, In name bundle_files -> fs1.(fs_files) !! filepath_Join dir name = Some f ->
    fs'.(fs_files) !! filepath_Join dir' name = Some f) as Hget by (intros name f Hin <-; by apply Hcopy).
  apply Hget in Hv, Hc, Hk, Hn; try by cbn; auto 10.
  unfold Run, LoadConfig. assert (empty_string dir' = false) as -> by (by apply bool_decide_eq_false).
  rewrite (LoadNode_bytes os os' cfg _ fs' fn) by (congruence || done). rewrite Hval.
  rewrite (bundle_config_valid dir' (FillPaths os cfg) Hd' Erole Hval).
  cbn [bundle_config nd_VerifierFile nd_CertificateFile nd_KeyFile].
  rewrite check_files_present by (apply Forall_cons; split; [by eexists|]; apply Forall_cons; split; [by eexists|];
    apply Forall_singleton; by eexists).
  cbn [nd_VerifierFile nd_CertificateFile nd_KeyFile].
  rewrite (LoadVerifier_saved (bundle_verifier IDKey passphrase salt) _ fs' fv.(fl_mode)).
  - cbn [bundle_config nd_CertificateFile nd_KeyFile]. unfold ReadFile. rewrite Hc, Hk. cbn [result_bind]. by rewrite Dc, Dk, Hpair.
  - unfold verifier_ok, saltLength in *. split_and!; cbn; [lia|apply Nat2Z.inj; by apply IDKey_length|].
    repeat split; vm_compute; congruence.
  - cbn [bundle_config nd_VerifierFile]. rewrite Hv. by destruct fv; cbn in Dv; subst.
Qed.

Definition demo_cert_source : CertSource :=
  mkCertSource "host" None (Ok 42) 1000 2000 (fun t => Ok (bytes_of t.(ct_CommonName))) (Ok (bytes_of "key")).
Definition demo_bundle_node : Node :=
  mkNode "server-exit" ":443" "/srv/ln" "/srv/ln/server.crt" "/srv/ln/server.key" "/srv/ln/passphrase.json"
    "" "" "prompt" 256 DefaultIdle "host" "host" 128 false.

Lemma bundle_runs_anywhere_witness :
  exists fs1 v, Initialize demo_IDKey (fresh_env demo_os "linux" (bytes_of "secret") (repeat x53 16) demo_cert_source)
      demo_bundle_node "" (mkFS ∅ 0) = (None, fs1) /\
    Verify demo_IDKey v (bytes_of "secret") = true /\
    forall os' dir' fs', dir' <> ""%string ->
      (forall name, In name bundle_files ->
         fs'.(fs_files) !! filepath_Join dir' name = fs1.(fs_files) !! filepath_Join "/srv/ln" name) ->
      Run os' None (fun _ => None) (fun _ => false) (fun c _ => Ok c) dir' fs'
        = Ok (bundle_config dir' (FillPaths demo_os demo_bundle_node), v, EncodeToMemory "CERTIFICATE" (bytes_of "lnproxy")).
Proof.
  apply (bundle_runs_anywhere demo_IDKey) with (certDER := bytes_of "lnproxy") (keyDER := bytes_of "key").
  - intros p s t m th k Hk. unfold demo_IDKey.
    rewrite length_take, length_app, repeat_length, Nat.min_l by lia. lia.
  - repeat split; vm_compute; congruence.
  - vm_compute. congruence.
  - reflexivity.
  - repeat split. by exists 42.
  - apply lookup_empty.
  - reflexivity.
Defined.

(** [Initialize] never overwrites a verifier that it can see, and a bundle
    that was left half done by a failing certificate stays so: the verifier is
    already there, and every later [Initialize] refuses. *)
Theorem half_done_bundle_is_stuck IDKey env cfg path fs fs1 v passphrase e :
  env.(ie_mkdir) = None -> Stat env.(ie_stat) cfg.(nd_VerifierFile) fs <> None ->
  PromptPassphrase env.(ie_terminal) true = Ok passphrase ->
  NewVerifier IDKey env.(ie_salt) passphrase = Ok v ->
  Verifier_Save v env.(ie_saveVerifier) cfg.(nd_VerifierFile) fs = (None, fs1) ->
  is_role cfg Config.RoleExit = false -> env.(ie_cert).(cs_key) = Some e ->
  Initialize IDKey env cfg path fs = (Some e, fs1) /\
  forall env', env'.(ie_mkdir) = None -> env'.(ie_stat) = None ->
    Initialize IDKey env' cfg path fs1 =
      (Some (ENew (cfg.(nd_VerifierFile) +:+ " already exists; refusing to overwrite")), fs1).
Proof.
  intros Hm Hs Hp Hv Hsave Hr He. split.
  - unfold Initialize. rewrite Hm. destruct (Stat _ _ fs); [|done]. rewrite Hp, Hv, Hsave, Hr.
    unfold GenerateCertificate. by rewrite He.
  - intros env' Hm' Hs'. unfold Initialize. rewrite Hm', Hs'. unfold Stat.
    destruct (writePrivateFile_spec env.(ie_saveVerifier) cfg.(nd_VerifierFile) (verifier_bytes v) fs) as [Hf _].
    unfold Verifier_Save in Hsave. fold (verifier_bytes v) in Hsave. rewrite Hsave in Hf. cbn in Hf. by rewrite Hf.
Qed.
