(* ===== verification/GoFlag.v ===== *)
(** * [flag]: command line options

    A [flag.FlagSet] whose options are the fields of a record: [Parse] walks
    the arguments as the package does.  Reading a number or a duration is an
    argument ([parsers]); everything else is written out. *)
From S2P Require Import Prelude GoStrings Json Codec Protocol GoText GoNet.

(** [flags.BoolVar], [StringVar], [IntVar], [DurationVar]: where the value
    goes. *)
Inductive flag (A : Type) : Type :=
  | BoolVar (set : bool -> A -> A)
  | StringVar (set : string -> A -> A)
  | IntVar (set : Z -> A -> A)
  | DurationVar (set : Z -> A -> A).
Arguments BoolVar {A}.
Arguments StringVar {A}.
Arguments IntVar {A}.
Arguments DurationVar {A}.

Definition FlagSet (A : Type) : Type := list (string * flag A).

(** [strconv.ParseInt(s, 0, 64)] and [time.ParseDuration(s)]. *)
Record parsers := mkParsers {
  parse_int : string -> option Z;
  parse_duration : string -> option Z
}.

Definition ParseBool (s : string) : option bool :=
  if existsb (String.eqb s) ["1"; "t"; "T"; "TRUE"; "true"; "True"]%string then Some true
  else if existsb (String.eqb s) ["0"; "f"; "F"; "FALSE"; "false"; "False"]%string then Some false
  else None.

Definition ErrHelp : error := ENew "flag: help requested".
Definition invalid_value (value name : string) : error :=
  ENew ("invalid value " +:+ Quote value +:+ " for flag -" +:+ name).

Fixpoint formal {A} (fs : FlagSet A) (name : string) : option (flag A) :=
  match fs with
  | [] => None
  | (n, f) :: fs => if bool_decide (n = name) then Some f else formal fs name
  end.

(** What the first argument is: not a flag, the terminator, malformed, or a
    flag with the value after its equals sign. *)
Inductive arg_form : Type := Plain | Terminator | Malformed | Named (name : string) (value : option string).

Definition arg_name (name : bytes) : arg_form :=
  match name with
  | [] => Malformed
  | c :: r =>
      if (c =b x2d) || (c =b x3d) then Malformed
      else match cut_first x3d r with
           | Some (n, v) => Named (string_of (c :: n)) (Some (string_of v))
           | None => Named (string_of name) None
           end
  end.

Definition classify (arg : string) : arg_form :=
  match bytes_of arg with
  | [] | [_] => Plain
  | a :: b :: r =>
      if negb (a =b x2d) then Plain
      else if b =b x2d then match r with [] => Terminator | _ => arg_name r end
      else arg_name (b :: r)
  end.

(** [flag.Value.Set] of an option that takes an argument. *)
Definition set_value {A} (ps : parsers) (f : flag A) (name value : string) (opts : A) : result A :=
  match f with
  | BoolVar set =>
      match ParseBool value with
      | Some b => Ok (set b opts)
      | None => Err (ENew ("invalid boolean value " +:+ Quote value +:+ " for -" +:+ name))
      end
  | StringVar set => Ok (set value opts)
  | IntVar set =>
      match ps.(parse_int) value with Some n => Ok (set n opts) | None => Err (invalid_value value name) end
  | DurationVar set =>
      match ps.(parse_duration) value with Some n => Ok (set n opts) | None => Err (invalid_value value name) end
  end.

(** [flags.Parse(args)]: the options and the arguments left over. *)
Fixpoint Parse {A} (ps : parsers) (fs : FlagSet A) (opts : A) (args : list string)
  : result (A * list string) :=
  match args with
  | [] => Ok (opts, [])
  | arg :: rest =>
      match classify arg with
      | Plain => Ok (opts, args)
      | Terminator => Ok (opts, rest)
      | Malformed => Err (ENew ("bad flag syntax: " +:+ arg))
      | Named name value =>
          match formal fs name with
          | None =>
              if bool_decide (name = "help"%string) || bool_decide (name = "h"%string) then Err ErrHelp
              else Err (ENew ("flag provided but not defined: -" +:+ name))
          | Some f =>
              match f, value with
              | BoolVar _, _ =>
                  match set_value ps f name (default "true"%string value) opts with
                  | Err e => Err e
                  | Ok opts => Parse ps fs opts rest
                  end
              | _, Some v =>
                  match set_value ps f name v opts with
                  | Err e => Err e
                  | Ok opts => Parse ps fs opts rest
                  end
              | _, None =>
                  match rest with
                  | [] => Err (ENew ("flag needs an argument: -" +:+ name))
                  | v :: rest =>
                      match set_value ps f name v opts with
                      | Err e => Err e
                      | Ok opts => Parse ps fs opts rest
                      end
                  end
              end
          end
      end
  end.

(* ------------------------------------------------------------------ *)
(** ** Two sets of options *)

Section Simulation.
Context {A B : Type} (R : A -> B -> Prop).

Definition flag_rel (f : flag A) (g : flag B) : Prop :=
  match f, g with
  | BoolVar s, BoolVar t => forall v a b, R a b -> R (s v a) (t v b)
  | StringVar s, StringVar t => forall v a b, R a b -> R (s v a) (t v b)
  | IntVar s, IntVar t => forall v a b, R a b -> R (s v a) (t v b)
  | DurationVar s, DurationVar t => forall v a b, R a b -> R (s v a) (t v b)
  | _, _ => False
  end.

(** Every option of the one set is one of the other. *)
Definition flags_rel (fa : FlagSet A) (fb : FlagSet B) : Prop :=
  forall name f, formal fa name = Some f -> exists g, formal fb name = Some g /\ flag_rel f g.

Lemma set_value_rel ps f g name v a b a' : flag_rel f g -> R a b ->
  set_value ps f name v a = Ok a' -> exists b', set_value ps g name v b = Ok b' /\ R a' b'.
Proof.
  destruct f, g; cbn; try done; intros Hf Hab; repeat case_match; intros [= <-]; eauto.
Qed.

Lemma Parse_rel ps fa fb : flags_rel fa fb -> forall n args a b a' rest, (length args <= n)%nat ->
  R a b -> Parse ps fa a args = Ok (a', rest) -> exists b', Parse ps fb b args = Ok (b', rest) /\ R a' b'.
Proof.
  intros Hfs. induction n as [|n IH]; intros [|arg args] a b a' rest Hl Hab; cbn in Hl; try lia;
    try (intros [= <- <-]; by eauto).
  cbn [Parse]. destruct (classify arg) as [| | |name value]; [by intros [= <- <-]; eauto..|done|].
  destruct (formal fa name) as [f|] eqn:Ef; [|by case_match].
  destruct (Hfs name f Ef) as (g & -> & Hfg).
  assert (forall v args' r, (length args' <= n)%nat ->
    match set_value ps f name v a with Err e => Err e | Ok a => Parse ps fa a args' end = Ok (a', r) ->
    exists b', match set_value ps g name v b with Err e => Err e | Ok b => Parse ps fb b args' end = Ok (b', r) /\ R a' b') as Hset.
  { intros v args' r Hl'. destruct (set_value ps f name v a) as [a1|] eqn:Es; [|done].
    destruct (set_value_rel ps f g name v a b a1 Hfg Hab Es) as (b1 & -> & H1). by apply IH. }
  destruct f, g; try done; (destruct value as [v|]; [by apply Hset; lia|]); try (by apply Hset; lia);
    destruct args as [|v args]; try done; apply Hset; cbn in Hl; lia.
Qed.
End Simulation.
