(* ===== verification/Commands.v ===== *)
(** * The programs [cmd/lnproxy-node], [cmd/lnproxy-init] and
    [cmd/lnproxy-windows-server]

    From the arguments to the component that is started: the options, the
    configuration they give, and the files, passphrases and certificates
    loaded before [Exit.Run] or [Server.Run] takes over. *)
From S2P Require Import Prelude GoIO GoStrings Json Codec Protocol GoTime Base64 Crypto GoText GoFS.
From S2P Require Import Auth AuthProps Config Trust Logging Setup GoFlag.

(* ------------------------------------------------------------------ *)
(** ** Options *)

Record node_options := mkNodeOptions {
  no_init : bool;
  no_configPath : string;
  no_dataDir : string;
  no_listen : string;
  no_serverAddress : string;
  no_fingerprint : string;
  no_passphraseSrc : string;
  no_console : bool;
  no_capacity : Z;
  no_idleTimeout : Duration
}.

Record init_options := mkInitOptions {
  io_configPath : string;
  io_dataDir : string;
  io_listen : string;
  io_serverAddress : string;
  io_fingerprint : string;
  io_passphraseSrc : string;
  io_capacity : Z;
  io_idleTimeout : Duration
}.

Definition node_flags : FlagSet node_options := [
  ("init", BoolVar (fun v '(mkNodeOptions _ b c d e f g h i j) => mkNodeOptions v b c d e f g h i j));
  ("config", StringVar (fun v '(mkNodeOptions a _ c d e f g h i j) => mkNodeOptions a v c d e f g h i j));
  ("data-dir", StringVar (fun v '(mkNodeOptions a b _ d e f g h i j) => mkNodeOptions a b v d e f g h i j));
  ("listen", StringVar (fun v '(mkNodeOptions a b c _ e f g h i j) => mkNodeOptions a b c v e f g h i j));
  ("server", StringVar (fun v '(mkNodeOptions a b c d _ f g h i j) => mkNodeOptions a b c d v f g h i j));
  ("fingerprint", StringVar (fun v '(mkNodeOptions a b c d e _ g h i j) => mkNodeOptions a b c d e v g h i j));
  ("passphrase", StringVar (fun v '(mkNodeOptions a b c d e f _ h i j) => mkNodeOptions a b c d e f v h i j));
  ("console", BoolVar (fun v '(mkNodeOptions a b c d e f g _ i j) => mkNodeOptions a b c d e f g v i j));
  ("capacity", IntVar (fun v '(mkNodeOptions a b c d e f g h _ j) => mkNodeOptions a b c d e f g h v j));
  ("idle-timeout", DurationVar (fun v '(mkNodeOptions a b c d e f g h i _) => mkNodeOptions a b c d e f g h i v))
]%string.

Definition init_flags : FlagSet init_options := [
  ("config", StringVar (fun v '(mkInitOptions _ b c d e f g h) => mkInitOptions v b c d e f g h));
  ("data-dir", StringVar (fun v '(mkInitOptions a _ c d e f g h) => mkInitOptions a v c d e f g h));
  ("listen", StringVar (fun v '(mkInitOptions a b _ d e f g h) => mkInitOptions a b v d e f g h));
  ("server", StringVar (fun v '(mkInitOptions a b c _ e f g h) => mkInitOptions a b c v e f g h));
  ("fingerprint", StringVar (fun v '(mkInitOptions a b c d _ f g h) => mkInitOptions a b c d v f g h));
  ("passphrase", StringVar (fun v '(mkInitOptions a b c d e _ g h) => mkInitOptions a b c d e v g h));
  ("capacity", IntVar (fun v '(mkInitOptions a b c d e f _ h) => mkInitOptions a b c d e f v h));
  ("idle-timeout", DurationVar (fun v '(mkInitOptions a b c d e f g _) => mkInitOptions a b c d e f g v))
]%string.

Definition node_defaults : node_options := mkNodeOptions false "" "" "" "" "" "" false 0 0.
Definition init_defaults : init_options := mkInitOptions "" "" "" "" "" "" 0 0.

(** [len(args) == 0 || args[0] == "-h" || args[0] == "--help"], then the role. *)
Definition role_of (usage : string) (args : list string) : result (string * list string) :=
  match args with
  | [] => Err (ENew usage)
  | role :: rest =>
      if bool_decide (role = "-h"%string) || bool_decide (role = "--help"%string) then Err (ENew usage)
      else if bool_decide (role = RoleServer) || bool_decide (role = Config.RoleExit) ||
              bool_decide (role = RoleServerExit)
      then Ok (role, rest)
      else Err (ENew ("unsupported role " +:+ Quote role))
  end.

Definition parseInvocation (args : list string) : result (string * list string) :=
  role_of "usage: lnproxy-node <server|exit|server-exit> [options]" args.

Definition parseOptions (ps : parsers) (args : list string) : result node_options :=
  let? r := Parse ps node_flags node_defaults args in Ok r.1.

Definition init_parseOptions (ps : parsers) (args : list string) : result (string * init_options) :=
  let? r := role_of "usage: lnproxy-init <server|exit|server-exit> [options]" args in
  let? o := Parse ps init_flags init_defaults r.2 in
  Ok (r.1, o.1).

(* ------------------------------------------------------------------ *)
(** ** The configuration *)

Definition with_role (role : string) (n : Node) : Node :=
  mkNode role n.(nd_ListenAddress) n.(nd_DataDirectory) n.(nd_CertificateFile) n.(nd_KeyFile)
    n.(nd_VerifierFile) n.(nd_ServerAddress) n.(nd_ServerFingerprint) n.(nd_PassphraseSource)
    n.(nd_ConnectionLimit) n.(nd_IdleTimeout) n.(nd_ExitName) n.(nd_ExitID) n.(nd_Capacity) n.(nd_Console).

Definition with_dataDir (dir : string) (n : Node) : Node :=
  mkNode n.(nd_Role) n.(nd_ListenAddress) (or_else dir n.(nd_DataDirectory)) n.(nd_CertificateFile)
    n.(nd_KeyFile) n.(nd_VerifierFile) n.(nd_ServerAddress) n.(nd_ServerFingerprint)
    n.(nd_PassphraseSource) n.(nd_ConnectionLimit) n.(nd_IdleTimeout) n.(nd_ExitName) n.(nd_ExitID)
    n.(nd_Capacity) n.(nd_Console).

(** The [if opts.x != "" { cfg.X = opts.x }] of both programs. *)
Definition override (listen server fingerprint passphrase : string) (console : bool) (capacity idle : Z)
  (n : Node) : Node :=
  mkNode n.(nd_Role) (or_else listen n.(nd_ListenAddress)) n.(nd_DataDirectory) n.(nd_CertificateFile)
    n.(nd_KeyFile) n.(nd_VerifierFile) (or_else server n.(nd_ServerAddress))
    (or_else fingerprint n.(nd_ServerFingerprint)) (or_else passphrase n.(nd_PassphraseSource))
    n.(nd_ConnectionLimit) (if idle >? 0 then idle else n.(nd_IdleTimeout)) n.(nd_ExitName)
    n.(nd_ExitID) (if capacity >? 0 then capacity else n.(nd_Capacity)) (console || n.(nd_Console)).

Definition node_config (os : OS) (readFault : option error) (role : string) (o : node_options) (fs : FS)
  : result Node :=
  let? cfg :=
    if o.(no_init) then DefaultNode os role
    else if negb (empty_string o.(no_configPath)) then
      match LoadNode os readFault o.(no_configPath) fs with
      | (_, Some e) => Err e
      | (n, None) => Ok (with_role role n)
      end
    else DefaultNode os role in
  Ok (override o.(no_listen) o.(no_serverAddress) o.(no_fingerprint) o.(no_passphraseSrc) o.(no_console)
        o.(no_capacity) o.(no_idleTimeout) (FillPaths os (with_dataDir o.(no_dataDir) cfg))).

Definition init_config (os : OS) (role : string) (o : init_options) : result Node :=
  let? cfg := DefaultNode os role in
  Ok (override o.(io_listen) o.(io_serverAddress) o.(io_fingerprint) o.(io_passphraseSrc) false
        o.(io_capacity) o.(io_idleTimeout) (FillPaths os (with_dataDir o.(io_dataDir) cfg))).

(* ------------------------------------------------------------------ *)
(** ** Running *)

(** The rest of the machine a program runs on. *)
Record machine := mkMachine {
  mc_init : init_env;
  mc_readFault : option error;
  mc_openLog : open_faults;
  mc_terminal : Terminal;
  mc_environment : gmap string bytes;
  mc_answer : result string;
  mc_lower : bytes -> bytes;
  mc_keyPair : bytes -> bytes -> result bytes
}.

(** What a program ends up doing. *)
Inductive started : Type :=
  | Initialized
  | ExitRuns (cfg : Node) (passphrase : bytes) (trust : option KnownHosts)
  | ServerRuns (cfg : Node) (verifier : Verifier) (certificate : bytes).

Definition accepted_answer (lower : bytes -> bytes) (answer : string) : bool :=
  let answer := string_of (ToLower lower (TrimSpace (bytes_of answer))) in
  bool_decide (answer = "y"%string) || bool_decide (answer = "yes"%string).

Definition exit_confirmer (m : machine) (host fingerprint : string) : result bool :=
  if negb m.(mc_terminal).(tm_isTerminal)
  then Err (ENew "standard input is not a terminal; run E once interactively to trust S or configure --fingerprint")
  else let? answer := m.(mc_answer) in Ok (accepted_answer m.(mc_lower) answer).

Definition loadExitKnownHosts (m : machine) (cfg : Node) (fs : FS) : result KnownHosts :=
  match LoadKnownHosts m.(mc_readFault) (filepath_Join cfg.(nd_DataDirectory) "known-hosts.json") fs with
  | Err e => Err (EWrap "load known hosts: " e)
  | Ok k => Ok (SetConfirmer (Some (exit_confirmer m)) k)
  end.

(** The branch of [cfg.Role == config.RoleExit]. *)
Definition run_exit (m : machine) (cfg : Node) (fs : FS) : result started :=
  match NormalizeServerAddress (bytes_of cfg.(nd_ServerAddress)) with
  | Err e => Err (EWrap "exit mode: " e)
  | Ok address =>
      let cfg := mkNode cfg.(nd_Role) cfg.(nd_ListenAddress) cfg.(nd_DataDirectory) cfg.(nd_CertificateFile)
        cfg.(nd_KeyFile) cfg.(nd_VerifierFile) (string_of address) cfg.(nd_ServerFingerprint)
        cfg.(nd_PassphraseSource) cfg.(nd_ConnectionLimit) cfg.(nd_IdleTimeout) cfg.(nd_ExitName)
        cfg.(nd_ExitID) cfg.(nd_Capacity) cfg.(nd_Console) in
      let? passphrase := ResolvePassphrase m.(mc_terminal) m.(mc_environment) m.(mc_readFault) fs
        (bytes_of cfg.(nd_PassphraseSource)) in
      if empty_string cfg.(nd_ServerFingerprint)
      then let? knownHosts := loadExitKnownHosts m cfg fs in Ok (ExitRuns cfg passphrase (Some knownHosts))
      else Ok (ExitRuns cfg passphrase None)
  end.

Definition run_server (m : machine) (cfg : Node) (fs : FS) : result started :=
  match LoadVerifier m.(mc_readFault) cfg.(nd_VerifierFile) fs with
  | Err e => Err (EWrap "load passphrase verifier (run --init first): " e)
  | Ok verifier =>
      let pair :=
        let? cert := ReadFile m.(mc_readFault) cfg.(nd_CertificateFile) fs in
        let? key := ReadFile m.(mc_readFault) cfg.(nd_KeyFile) fs in m.(mc_keyPair) cert key in
      match pair with
      | Err e => Err (EWrap "load TLS certificate: " e)
      | Ok certificate => Ok (ServerRuns cfg verifier certificate)
      end
  end.

Section Programs.
Variable IDKey : bytes -> bytes -> Z -> Z -> Z -> Z -> bytes.
Variable ps : parsers.

(** [run] of [lnproxy-node]. *)
Definition node_run (m : machine) (args : list string) (fs : FS) : result started * FS :=
  match parseInvocation args with
  | Err e => (Err e, fs)
  | Ok (role, args) =>
      match parseOptions ps args with
      | Err e => (Err e, fs)
      | Ok o =>
          match node_config m.(mc_init).(ie_os) m.(mc_readFault) role o fs with
          | Err e => (Err e, fs)
          | Ok cfg =>
              match New m.(mc_openLog) m.(mc_init).(ie_goos) cfg.(nd_DataDirectory)
                      (cfg.(nd_Console) || o.(no_init)) fs with
              | (Err e, fs) => (Err e, fs)
              | (Ok _, fs) =>
                  if o.(no_init) then
                    match Initialize IDKey m.(mc_init) cfg o.(no_configPath) fs with
                    | (Some e, fs) => (Err e, fs)
                    | (None, fs) => (Ok Initialized, fs)
                    end
                  else if is_role cfg Config.RoleExit then (run_exit m cfg fs, fs)
                  else (run_server m cfg fs, fs)
              end
          end
      end
  end.

(** [run] of [lnproxy-init]. *)
Definition init_run (m : machine) (args : list string) (fs : FS) : result started * FS :=
  match init_parseOptions ps args with
  | Err e => (Err e, fs)
  | Ok (role, o) =>
      match init_config m.(mc_init).(ie_os) role o with
      | Err e => (Err e, fs)
      | Ok cfg =>
          match Initialize IDKey m.(mc_init) cfg o.(io_configPath) fs with
          | (Some e, fs) => (Err e, fs)
          | (None, fs) => (Ok Initialized, fs)
          end
      end
  end.
End Programs.

(** [run] of [lnproxy-windows-server]: the exit code; [serve] is what
    [silentserver.Run] returns. *)
Definition windows_run (os : OS) (ft : open_faults) (serve : string -> FS -> option error) (fs : FS) : Z * FS :=
  match DefaultDataDir os with
  | Err _ => (1, fs)
  | Ok dataDir =>
      match New ft "windows" dataDir false fs with
      | (Err _, fs) => (1, fs)
      | (Ok _, fs) =>
          match serve dataDir fs with
          | Some e => ((if errors_Is e ErrCanceled then 0 else 1), fs)
          | None => (0, fs)
          end
      end
  end.

(* ------------------------------------------------------------------ *)
(** ** The two ways to initialise *)

Definition as_node (o : init_options) : node_options :=
  mkNodeOptions true o.(io_configPath) o.(io_dataDir) o.(io_listen) o.(io_serverAddress) o.(io_fingerprint)
    o.(io_passphraseSrc) false o.(io_capacity) o.(io_idleTimeout).

Lemma init_flags_rel : flags_rel (fun o n => n = as_node o) init_flags node_flags.
Proof.
  intros name f. unfold init_flags. cbn [formal].
  repeat (case_bool_decide; [subst; intros [= <-]; eexists; (split; [vm_compute; reflexivity|]); by intros v [] ? ->|]).
  done.
Qed.

Lemma init_node_parse ps args o rest : Parse ps init_flags init_defaults args = Ok (o, rest) ->
  parseOptions ps ("--init"%string :: args) = Ok (as_node o).
Proof.
  intros H. unfold parseOptions.
  change (Parse ps node_flags node_defaults ("--init"%string :: args))
    with (Parse ps node_flags (as_node init_defaults) args).
  destruct (Parse_rel _ ps _ _ init_flags_rel (length args) args init_defaults _ o rest (le_n _) eq_refl H)
    as (n & -> & ->). done.
Qed.

Lemma init_node_config os fault role o fs : node_config os fault role (as_node o) fs = init_config os role o.
Proof. done. Qed.

(** File systems that differ in the file [l] at most. *)
Definition agree (l : string) (fs fs' : FS) : Prop :=
  fs.(fs_umask) = fs'.(fs_umask) /\ forall q, q <> l -> fs.(fs_files) !! q = fs'.(fs_files) !! q.

(** A computation that neither looks at the file [l] nor touches it. *)
Definition respects (l : string) (f : FS -> option error * FS) : Prop :=
  forall fs fs', agree l fs fs' -> (f fs).1 = (f fs').1 /\ agree l (f fs).2 (f fs').2.

Section Respects.
Context {l : string}.

Lemma agree_insert fs fs' q f : agree l fs fs' ->
  agree l (with_files (<[q := f]> fs.(fs_files)) fs) (with_files (<[q := f]> fs'.(fs_files)) fs').
Proof.
  intros [Hu Hf]. split; [done|]. intros q' Hq'. cbn.
  destruct (decide (q = q')) as [->|]; [by rewrite !lookup_insert_eq|]. rewrite !lookup_insert_ne by done. by apply Hf.
Qed.

Lemma agree_delete fs fs' q : agree l fs fs' ->
  agree l (os_Remove q fs) (os_Remove q fs').
Proof.
  intros [Hu Hf]. split; [done|]. intros q' Hq'. cbn.
  destruct (decide (q = q')) as [->|]; [by rewrite !lookup_delete_eq|]. rewrite !lookup_delete_ne by done. by apply Hf.
Qed.

Lemma WriteFile_respects ft path data mode : path <> l -> respects l (WriteFile ft path data mode).
Proof.
  intros Hp fs fs' H. pose proof H as [Hu Hf]. unfold WriteFile. rewrite Hu, (Hf path Hp).
  destruct ft as [[e|e n]|]; cbn; split; try done; by apply agree_insert.
Qed.

Lemma Chmod_respects ft path mode : path <> l -> respects l (Chmod ft path mode).
Proof.
  intros Hp fs fs' H. pose proof H as [Hu Hf]. unfold Chmod. rewrite (Hf path Hp).
  destruct ft as [e|]; [done|]. destruct (_ !! path); cbn; split; try done; by apply agree_insert.
Qed.

Lemma Rename_respects ft old new : old <> l -> respects l (Rename ft old new).
Proof.
  intros Hp fs fs' H. pose proof H as [Hu Hf]. unfold Rename. rewrite (Hf old Hp).
  destruct ft as [e|]; [done|]. destruct (_ !! old) as [f|]; cbn; [|done]. split; [done|].
  apply (agree_insert (os_Remove old fs) (os_Remove old fs')). by apply agree_delete.
Qed.

Lemma respects_const e : respects l (fun fs => (e, fs)).
Proof. by intros fs fs' H. Qed.

Lemma respects_bind f g h : respects l f -> respects l g -> (forall e, respects l (h e)) ->
  respects l (fun fs => match f fs with (None, fs) => g fs | (Some e, fs) => h e fs end).
Proof.
  intros Hf Hg Hh fs fs' H. destruct (Hf fs fs' H) as [He Ha].
  destruct (f fs) as [[e|] fs1], (f fs') as [[e'|] fs1']; cbn in He, Ha; try done; [injection He as <-; by apply Hh|by apply Hg].
Qed.

Lemma respects_ext f g : (forall fs, f fs = g fs) -> respects l f -> respects l g.
Proof. intros E H fs fs' Ha. rewrite <- !E. by apply H. Qed.

Lemma respects_remove q e : respects l (fun fs => (Some e, os_Remove q fs)).
Proof. intros fs fs' H. split; [done|]. by apply agree_delete. Qed.
End Respects.

Ltac solve_respects :=
  repeat first
    [ apply respects_const | apply respects_remove
    | apply WriteFile_respects; assumption | apply Chmod_respects; assumption | apply Rename_respects; assumption
    | apply respects_bind; [| |intros ?] ].

Section Files.
Context {l : string}.

Lemma writePrivateFile_respects ft path data : temp_name path <> l ->
  respects l (writePrivateFile ft path data).
Proof. intros Ht. unfold writePrivateFile. destruct (ft_mkdir ft); solve_respects. Qed.

Lemma save_rename_respects ft path data : temp_name path <> l -> respects l (save_rename ft path data).
Proof. intros Ht. unfold save_rename. destruct (ft_mkdir ft); solve_respects. Qed.

Lemma writeFile_respects goos ft path data mode : temp_name path <> l ->
  respects l (writeFile goos ft path data mode).
Proof.
  intros Ht. unfold writeFile.
  destruct (bool_decide _); (apply respects_bind; [solve_respects| |intros; solve_respects]).
  all: set (finish := fun fs => match Rename (ft_rename ft) (temp_name path) path fs with
    | (Some e, fs) => (Some e, os_Remove (temp_name path) fs) | (None, fs) => (None, fs) end).
  all: assert (respects l finish) as Hfin by solve_respects.
  - apply (respects_ext (fun fs => match Chmod (ft_chmod ft) (temp_name path) mode fs with
      | (None, fs) => finish fs | (Some _, fs) => finish fs end)); [|solve_respects; exact Hfin].
    intros fs. by destruct (Chmod _ _ _ fs) as [[e|] fs1].
  - apply (respects_ext (fun fs => match Chmod (ft_chmod ft) (temp_name path) mode fs with
      | (None, fs) => finish fs | (Some e, fs) => (Some e, os_Remove (temp_name path) fs) end)); [|solve_respects; exact Hfin].
    intros fs. by destruct (Chmod _ _ _ fs) as [[e|] fs1].
Qed.

Lemma GenerateCertificate_respects goos c ftc ftk cp kp host :
  temp_name cp <> l -> temp_name kp <> l -> respects l (GenerateCertificate goos c ftc ftk cp kp host).
Proof.
  intros Hc Hk. unfold GenerateCertificate. repeat (case_match; try apply respects_const).
  all: apply respects_bind; [by apply writeFile_respects|by apply writeFile_respects|intros; apply respects_const].
Qed.

(** [Initialize] works on the verifier, the key pair and the configuration. *)
Lemma Initialize_respects IDKey env cfg path :
  cfg.(nd_VerifierFile) <> l -> temp_name cfg.(nd_VerifierFile) <> l ->
  temp_name cfg.(nd_CertificateFile) <> l -> temp_name cfg.(nd_KeyFile) <> l ->
  temp_name (if empty_string path then filepath_Join cfg.(nd_DataDirectory) "node.json" else path) <> l ->
  respects l (Initialize IDKey env cfg path).
Proof.
  intros Hv Htv Htc Htk Htn fs fs' Ha. unfold Initialize. destruct (ie_mkdir env); [done|].
  assert (Stat (ie_stat env) (nd_VerifierFile cfg) fs = Stat (ie_stat env) (nd_VerifierFile cfg) fs') as ->.
  { unfold Stat. by rewrite (proj2 Ha). }
  destruct (Stat _ _ fs'); [|done]. destruct (PromptPassphrase _ _); [|done].
  destruct (NewVerifier _ _ _) as [v|]; [|done]. revert fs fs' Ha.
  apply (respects_bind (Verifier_Save v (ie_saveVerifier env) (nd_VerifierFile cfg)));
    [by apply writePrivateFile_respects| |intros; apply respects_const].
  destruct (is_role cfg Config.RoleExit); [by apply save_rename_respects|].
  apply (respects_bind (GenerateCertificate (ie_goos env) (ie_cert env) (ie_saveCert env) (ie_saveKey env)
    (nd_CertificateFile cfg) (nd_KeyFile cfg) "")); [by apply GenerateCertificate_respects|by apply save_rename_respects
    |intros; apply respects_const].
Qed.
End Files.

Lemma agree_sym l fs fs' : agree l fs fs' -> agree l fs' fs.
Proof. intros [Hu Hf]. split; [done|]. intros q Hq. by rewrite Hf. Qed.

(** Opening the log touches the log file only. *)
Lemma New_agree goos dir console fs :
  exists lg fs1, New no_open_faults goos dir console fs = (Ok lg, fs1) /\
    agree (filepath_Join dir "lnproxy.log") fs fs1.
Proof.
  unfold New. case_bool_decide; [by eexists _, _; split; [done|split]|].
  unfold newRotatingWriter, open. cbn [no_open_faults of_mkdir of_open of_stat lw_path].
  eexists _, _. split; [done|]. unfold OpenAppend. destruct (_ !! _); [by split|]. split; [done|].
  intros q Hq. cbn. by rewrite lookup_insert_ne.
Qed.

(** C36: [lnproxy-init ROLE OPTIONS] and [lnproxy-node ROLE --init OPTIONS] do the
    same: for options of the former they report the same result and leave the
    same files behind, the log file apart, which only the latter opens. *)
Theorem init_programs_agree IDKey ps m role args o cfg fs :
  init_parseOptions ps (role :: args) = Ok (role, o) ->
  init_config m.(mc_init).(ie_os) role o = Ok cfg ->
  m.(mc_openLog) = no_open_faults ->
  let logfile := filepath_Join cfg.(nd_DataDirectory) "lnproxy.log" in
  let path := if empty_string o.(io_configPath) then filepath_Join cfg.(nd_DataDirectory) "node.json"
              else o.(io_configPath) in
  logfile ∉ [cfg.(nd_VerifierFile); temp_name cfg.(nd_VerifierFile); temp_name cfg.(nd_CertificateFile);
             temp_name cfg.(nd_KeyFile); temp_name path] ->
  (init_run IDKey ps m (role :: args) fs).1 = (node_run IDKey ps m (role :: "--init"%string :: args) fs).1 /\
  agree logfile (init_run IDKey ps m (role :: args) fs).2
    (node_run IDKey ps m (role :: "--init"%string :: args) fs).2.
Proof.
  intros Hp Hc Hlog logfile path Hne.
  assert (role_of "usage: lnproxy-node <server|exit|server-exit> [options]" (role :: "--init"%string :: args)
    = Ok (role, "--init"%string :: args) /\ exists rest, Parse ps init_flags init_defaults args = Ok (o, rest))
    as (Hr & rest & Hparse).
  { unfold init_parseOptions, role_of in *. destruct (_ || _); [done|]. destruct (_ || _); [|done]. split; [done|].
    cbn [result_bind fst snd] in Hp. destruct (Parse _ _ _ args) as [[o' rest]|]; [|done].
    cbn in Hp. injection Hp as <-. by eexists. }
  unfold init_run, node_run, parseInvocation. rewrite Hp, Hr, (init_node_parse ps args o rest Hparse), init_node_config, Hc, Hlog.
  destruct (New_agree (ie_goos (mc_init m)) (nd_DataDirectory cfg) (nd_Console cfg || no_init (as_node o)) fs)
    as (lg & fs1 & -> & Ha).
  change (no_init (as_node o)) with true. change (no_configPath (as_node o)) with (io_configPath o). cbv iota.
  destruct (Initialize_respects (l := logfile) IDKey (mc_init m) cfg (io_configPath o)) with (fs := fs) (fs' := fs1)
    as [He Hf]; [intros E; apply Hne; rewrite <- E; unfold path; set_solver..|exact Ha|].
  destruct (Initialize _ _ _ _ fs) as [[e|] fs2], (Initialize _ _ _ _ fs1) as [[e'|] fs3]; cbn in *; try done.
  by injection He as <-.
Qed.

Definition demo_machine : machine :=
  mkMachine (fresh_env demo_os "linux" (bytes_of "secret") (repeat x53 16) demo_cert_source)
    None no_open_faults (mkTerminal true (Ok []) (Ok [])) ∅ (Ok "y"%string) (fun b => b) (fun c _ => Ok c).
Definition demo_parsers : parsers := mkParsers (fun _ => Some 5) (fun _ => Some 9).
Definition demo_args : list string := ["--data-dir"; "/srv/ln"; "-listen=:8443"]%string.

Lemma init_programs_agree_witness :
  (init_run demo_IDKey demo_parsers demo_machine (RoleServerExit :: demo_args) (mkFS ∅ 0)).1 =
  (node_run demo_IDKey demo_parsers demo_machine (RoleServerExit :: "--init"%string :: demo_args) (mkFS ∅ 0)).1.
Proof.
  eapply (init_programs_agree demo_IDKey demo_parsers demo_machine RoleServerExit demo_args);
    [vm_compute; reflexivity|vm_compute; reflexivity|reflexivity|].
  intros H. apply list_elem_of_In in H. vm_compute in H.
  repeat (destruct H as [H|H]; [discriminate H|]). exact H.
Defined.

(** The option [--data-dir] moves the data directory and the configuration
    file, but the verifier and the key pair stay in the default directory. *)
Theorem data_dir_moves_only_config os role o cfg base :
  DefaultDataDir os = Ok base -> o.(io_dataDir) <> ""%string -> init_config os role o = Ok cfg ->
  cfg.(nd_DataDirectory) = o.(io_dataDir) /\
  cfg.(nd_VerifierFile) = filepath_Join base "passphrase.json" /\
  cfg.(nd_CertificateFile) = filepath_Join base "server.crt" /\
  cfg.(nd_KeyFile) = filepath_Join base "server.key".
Proof.
  intros Hb Hd. unfold init_config, DefaultNode. rewrite Hb. cbn [result_bind]. intros [= <-]. cbn.
  assert (forall s d, s <> ""%string -> or_else s d = s) as Hor.
  { intros s d Hs. unfold or_else, empty_string. by rewrite bool_decide_false. }
  unfold empty_string at 1. rewrite !(Hor (io_dataDir o)) by done. rewrite bool_decide_false by done.
  rewrite !Hor by apply filepath_Join_nonempty. done.
Qed.

Lemma data_dir_moves_only_config_witness :
  exists cfg, init_config demo_os RoleServer (mkInitOptions "" "/srv/ln" "" "" "" "" 0 0) = Ok cfg /\
    cfg.(nd_DataDirectory) = "/srv/ln"%string /\
    cfg.(nd_VerifierFile) = filepath_Join "/home/u/.config/lnproxy" "passphrase.json".
Proof.
  eexists. split; [vm_compute; reflexivity|].
  destruct (data_dir_moves_only_config demo_os RoleServer (mkInitOptions "" "/srv/ln" "" "" "" "" 0 0)
    (mkNode "server" ":443" "/srv/ln" "/home/u/.config/lnproxy/server.crt" "/home/u/.config/lnproxy/server.key"
       "/home/u/.config/lnproxy/passphrase.json" "" "" "prompt" 256 DefaultIdle "host" "host" 128 false)
    "/home/u/.config/lnproxy") as (H1 & H2 & _);
    [vm_compute; reflexivity|discriminate|vm_compute; reflexivity|].
  split; [exact H1|exact H2].
Defined.
