(* ===== verification/ClientStreams.v ===== *)
(** * The client's streams: [managerDialer], [countedStream] and the drain of
    [Shutdown] in [internal/client/runtime.go]

    The proxies dial through [managerDialer], which asks the manager for the
    selected exit and, if the user allows it, for any exit; every stream it
    hands out is counted until it is closed, and [Shutdown] waits for the
    count to drop. *)
From stdpp Require Import relations.
From S2P Require Import Prelude GoStrings GoTime Json Codec Protocol SystemProxy Runtime.

(** [Runtime.active] and the streams handed out, by number; [true] once
    [Close] has run. *)
Record streams := mkStreams {
  cs_active : Z;
  cs_handed : list bool
}.

Definition no_streams : streams := mkStreams 0 [].

(** [active.Add(1)] and the new [countedStream]. *)
Definition count_stream (s : streams) : streams :=
  mkStreams (wrap_i64 (s.(cs_active) + 1)) (s.(cs_handed) ++ [false]).

(** [countedStream.Close]: the body of [once.Do] runs once. *)
Definition counted_Close (n : nat) (s : streams) : streams :=
  match s.(cs_handed) !! n with
  | Some false => mkStreams (wrap_i64 (s.(cs_active) - 1)) (<[n := true]> s.(cs_handed))
  | _ => s
  end.

Definition open_request (host : string) (port : Z) (exitID : string) : OpenRequest :=
  mkOpenRequest 0 exitID host port ProtocolTCP false.

(** [managerDialer.Dial]: [first] and [second] are the answers of the two calls
    of [Manager.Dial]; the requests that were made are returned too. *)
Definition Dialer_Dial (r : Runtime) (host : string) (port : Z)
  (first second : OpenRequest -> option error) (s : streams)
  : option error * list OpenRequest * streams :=
  let request := open_request host port r.(rt_exitID) in
  match first request with
  | None => (None, [request], count_stream s)
  | Some e =>
      if r.(rt_fallback) && negb (bool_decide (r.(rt_exitID) = "auto"%string)) then
        let again := open_request host port "auto" in
        match second again with
        | None => (None, [request; again], count_stream s)
        | Some fallbackErr => (Some fallbackErr, [request; again], s)
        end
      else (Some e, [request], s)
  end.

(** What the loop of [Shutdown] selects: the deadline, a tick with the count
    it loads, or the end of the context. *)
Inductive drain_event : Type := Deadline | Tick (active : Z) | CtxDone.

(** The events it waits through, up to and including the one that ends the
    wait; [None] when none of them does. *)
Fixpoint drain (events : list drain_event) : option (list drain_event) :=
  match events with
  | [] => None
  | Deadline :: _ => Some [Deadline]
  | CtxDone :: _ => Some [CtxDone]
  | Tick active :: rest => if active >? 0 then (cons (Tick active)) <$> drain rest else Some [Tick active]
  end.

(* ------------------------------------------------------------------ *)
(** ** Counting *)

Inductive cstep (s : streams) : streams -> Prop :=
  | c_dial r host port first second err reqs s' :
      Dialer_Dial r host port first second s = (err, reqs, s') -> cstep s s'
  | c_close n : cstep s (counted_Close n s).

Definition open_count (s : streams) : nat := length (filter (fun b => b = false) s.(cs_handed)).

Definition counted (s : streams) : Prop := s.(cs_active) = wrap_i64 (Z.of_nat (open_count s)).

Lemma wrap_i64_add a b : wrap_i64 (wrap_i64 a + b) = wrap_i64 (a + b).
Proof.
  unfold wrap_i64.
  replace ((a + 2 ^ 63) mod 2 ^ 64 - 2 ^ 63 + b + 2 ^ 63) with ((a + 2 ^ 63) mod 2 ^ 64 + b) by lia.
  rewrite Zplus_mod_idemp_l. f_equal. f_equal. lia.
Qed.

Lemma count_stream_counted s : counted s -> counted (count_stream s).
Proof.
  unfold counted, open_count. cbn. intros ->. by rewrite filter_app, length_app, wrap_i64_add, Nat2Z.inj_add.
Qed.

Lemma open_count_close l n : l !! n = Some false ->
  (length (filter (fun b => b = false) l) = S (length (filter (fun b => b = false) (<[n := true]> l))))%nat.
Proof.
  revert n. induction l as [|b l IH]; intros [|n] H; [done|done| |].
  - injection H as ->. cbn. done.
  - cbn in H. change (<[S n := true]> (b :: l)) with (b :: <[n := true]> l). rewrite !filter_cons.
    destruct (decide (b = false)); cbn [length]; by rewrite (IH n H).
Qed.

Lemma counted_Close_counted n s : counted s -> counted (counted_Close n s).
Proof.
  unfold counted, counted_Close, open_count. intros H.
  destruct (cs_handed s !! n) as [[]|] eqn:E; [done| |done]. cbn. rewrite H.
  replace (wrap_i64 (Z.of_nat (length (filter (fun b => b = false) (cs_handed s)))) - 1)
    with (wrap_i64 (Z.of_nat (length (filter (fun b => b = false) (cs_handed s)))) + (- 1)) by lia.
  rewrite wrap_i64_add, (open_count_close _ _ E), Nat2Z.inj_succ, <- Z.add_1_r, <- Z.add_assoc, Z.add_0_r. done.
Qed.

Lemma cstep_counted s s' : counted s -> cstep s s' -> counted s'.
Proof.
  intros H [r host port first second err reqs s1 E|n]; [|by apply counted_Close_counted].
  unfold Dialer_Dial in E. destruct (first _); [|injection E as _ _ <-; by apply count_stream_counted].
  destruct (_ && _); [|by injection E as _ _ <-].
  destruct (second _); injection E as _ _ <-; [done|by apply count_stream_counted].
Qed.

Lemma open_count_zero s : open_count s = 0%nat <-> Forall (fun closed => closed = true) s.(cs_handed).
Proof.
  unfold open_count. induction s.(cs_handed) as [|b l IH]; [by split|]. rewrite Forall_cons, filter_cons, <-IH. destruct b.
  - rewrite decide_False by done. tauto.
  - rewrite decide_True by done. cbn [length]. split; [lia|by intros []].
Qed.

Lemma counted_exact s : counted s -> Z.of_nat (length s.(cs_handed)) < 2 ^ 63 ->
  s.(cs_active) = Z.of_nat (open_count s).
Proof.
  intros Hc Hlen. assert (open_count s <= length s.(cs_handed))%nat by apply length_filter.
  unfold counted in Hc. rewrite wrap_i64_small in Hc by (unfold in_i64; lia). done.
Qed.

(** The count of active streams is exact: whatever streams were dialled and
    closed, in whatever order and however often, it is the number of streams
    handed out and not yet closed; so it never drops below zero, and a tick
    ends the wait of [Shutdown] exactly when every stream has been closed. *)
Theorem active_count_exact (s : streams) (rest : list drain_event) :
  rtc cstep no_streams s -> Z.of_nat (length s.(cs_handed)) < 2 ^ 63 ->
  s.(cs_active) = Z.of_nat (open_count s) /\
  (drain (Tick s.(cs_active) :: rest) = Some [Tick s.(cs_active)] <->
   Forall (fun closed => closed = true) s.(cs_handed)).
Proof.
  intros Hrun Hlen.
  assert (counted s) as Hc.
  { assert (counted no_streams) as H0 by done. revert H0. clear Hlen. induction Hrun; eauto using cstep_counted. }
  pose proof (counted_exact s Hc Hlen) as He. split; [done|]. rewrite <-open_count_zero.
  cbn [drain]. destruct (cs_active s >? 0) eqn:E.
  - split; [|lia]. destruct (drain rest) as [[|e l]|] eqn:Ed; cbn; [|done..].
    destruct rest as [|[|a|] rest]; cbn in Ed; [done..| |done]. destruct (a >? 0); [|done]. by destruct (drain rest).
  - split; [lia|done].
Qed.

(** The dialer's requests: the exit the user selected first; any exit after
    it, only if the user allowed that and had not asked for any exit already;
    the answer is that of the last request, and a stream is counted exactly
    when one was opened. *)
Theorem dialer_requests (r : Runtime) host port first second s :
  let '(err, reqs, s') := Dialer_Dial r host port first second s in
  let selected := open_request host port r.(rt_exitID) in
  let any := open_request host port "auto" in
  s' = (if err is None then count_stream s else s) /\
  match first selected with
  | None => err = None /\ reqs = [selected]
  | Some e =>
      if decide (r.(rt_fallback) = true /\ r.(rt_exitID) <> "auto"%string)
      then err = second any /\ reqs = [selected; any]
      else err = Some e /\ reqs = [selected]
  end.
Proof.
  unfold Dialer_Dial. destruct (first _) as [e|]; [|done].
  destruct (rt_fallback r); cbn [andb]; [|case_decide; [naive_solver|done]].
  case_bool_decide; cbn [negb]; (case_decide; [|naive_solver]); [naive_solver|]. by destruct (second _).
Qed.
