(* ===== verification/Shell.v ===== *)
(** * The interactive client: [internal/client/shell.go] and [run] of
    [cmd/lnproxy-client/main.go]

    Lines of input are split into fields and executed on the runtime
    ([Runtime.v]) and the manager ([Manager.v]), which here work on each other:
    the calls [Start] and [Shutdown] record are made on the manager.  What the
    user types at the password prompt and what dialling gives are arguments.
    The code runs in the monad of [SystemProxy.v]. *)
From S2P Require Import Prelude GoIO GoStrings GoTime Json Codec Protocol Session GoText GoFS Config.
From S2P Require Import SystemProxy Auth Trust Runtime Server Exit Manager GoFlag.

#[local] Open Scope machine_scope.

Record client := mkClient {
  cl_runtime : Runtime;
  cl_manager : Manager;
  cl_out : list string
}.

(** What the outside answers while one command runs: the terminal, the
    listeners of [Start] (its [se_connect] is not used: the manager answers),
    the transport name and session of a successful [Reconnect] or its error,
    and the error of closing a session. *)
Record answers := mkAnswers {
  an_terminal : Terminal;
  an_start : start_env;
  an_reconnect : result (string * sid);
  an_close : option error
}.

(* ------------------------------------------------------------------ *)
(** ** The manager's calls, one after the other *)

Definition Reconnect (outcome : result (string * sid)) (m : Manager) : option error * Manager :=
  match Reconnect_begin m with
  | (Err e, m) => (Some e, m)
  | (Ok (_, p), m) =>
      if not_configured p then let e := ENew "not configured" in (Some e, setError e m)
      else
        match outcome with
        | Err e => (Some e, setError e m)
        | Ok (transport, sess) => (None, Reconnect_finish transport sess m)
        end
  end.

Definition Connect (address passphrase : bytes) (outcome : result (string * sid)) (m : Manager)
  : option error * Manager :=
  match configure false address passphrase m with
  | (Some e, m) => (Some e, m)
  | (None, m) => Reconnect outcome m
  end.

(** [Close]: its error is that of closing the session it had. *)
Definition Close_manager (closing : option error) (m : Manager) : option error * Manager :=
  match Manager_Close m with
  | (None, m) => (None, m)
  | (Some _, m) => (closing, m)
  end.

(** The calls the runtime made on the manager, in order. *)
Definition manager_call (address passphrase : bytes) (a : answers) (m : Manager) (c : call) : Manager :=
  match c with
  | ConnectManager => (Connect address passphrase a.(an_reconnect) m).2
  | CloseManager => (Close_manager a.(an_close) m).2
  | CloseHTTP | CloseSOCKS => m
  end.
Definition manager_calls (address passphrase : bytes) (a : answers) (before after : Runtime) (m : Manager) : Manager :=
  fold_left (manager_call address passphrase a) (drop (length before.(rt_calls)) after.(rt_calls)) m.

(* ------------------------------------------------------------------ *)
(** ** Lines and fields *)

(** [strings.Fields]. *)
Fixpoint fields_of (cur : bytes) (l : list (rune * bytes)) : list bytes :=
  match l with
  | [] => match cur with [] => [] | _ => [cur] end
  | (r, t) :: l =>
      if is_space_rune r
      then match cur with [] => fields_of [] l | _ => cur :: fields_of [] l end
      else fields_of (cur ++ t) l
  end.
Definition Fields (s : bytes) : list bytes := fields_of [] (split_runes s).

(** [reader.ReadString('\n')]: the text up to and including the newline, or
    all that is left and the reader's error. *)
Definition ReadString (r : Reader) : bytes * option error * Reader :=
  match GoNet.cut_first x0a r.(rd_buf) with
  | Some (line, rest) => (line ++ [x0a], None, mkReader rest r.(rd_err))
  | None => (r.(rd_buf), Some r.(rd_err), mkReader [] r.(rd_err))
  end.

Definition State_string (s : State) : string :=
  match s with
  | StateDisconnected => "disconnected"
  | StateConnecting => "connecting"
  | StateConnected => "connected"
  end.

Definition exit_le (a b : ExitInfo) : Prop := String.le a.(ei_ID) b.(ei_ID).
#[export] Instance exit_le_dec : RelDecision exit_le.
Proof. intros a b. unfold exit_le. apply _. Defined.

Definition tab : string := String (Ascii.ascii_of_nat 9) "".

(** One line of the table of exits. *)
Definition exit_line (e : ExitInfo) : string :=
  e.(ei_ID) +:+ tab +:+ e.(ei_Name) +:+ tab +:+ e.(ei_Health) +:+ tab +:+ Itoa e.(ei_LatencyMS) +:+ "ms" +:+
  tab +:+ Itoa e.(ei_ActiveConnections) +:+ tab +:+ Itoa e.(ei_Capacity).

Definition help_text : list string :=
  ["connect <S IP>"; "status"; "exits"; "use <exit-id|auto> [fallback]"; "reconnect"; "disconnect"; "help"; "quit"]%string.

(* ------------------------------------------------------------------ *)
(** ** Commands *)

Section Shell.
Context {D : Type} `{SystemProxy D}.
Variable lower : bytes -> bytes.

(** The client afterwards, whether to quit, and the error. *)
Definition reply : Type := client * bool * option error.
Definition answer (c : client) (e : option error) : M D reply := mret (c, false, e).

Definition say (ls : list string) (c : client) : client :=
  mkClient c.(cl_runtime) c.(cl_manager) (c.(cl_out) ++ ls).
Definition with_manager (m : Manager) (c : client) : client := mkClient c.(cl_runtime) m c.(cl_out).

Definition exec_connect (a : answers) (address : bytes) (c : client) : M D reply :=
  match PromptPassphrase a.(an_terminal) false with
  | Err e => answer c (Some e)
  | Ok passphrase =>
      let connected := (Connect address passphrase a.(an_reconnect) c.(cl_manager)).1 in
      let env := mkStartEnv connected a.(an_start).(se_http) a.(an_start).(se_socks)
                   a.(an_start).(se_pid) a.(an_start).(se_now) in
      r <- Start env c.(cl_runtime) ;;
      let c := mkClient r.1 (manager_calls address passphrase a c.(cl_runtime) r.1 c.(cl_manager)) c.(cl_out) in
      match r.2 with
      | Some e => answer c (Some e)
      | None =>
          answer (say (["Authentication success!"%string;
                        ("HTTP proxy listening on " +:+ r.1.(rt_httpAddr))%string] ++
                       (if empty_string r.1.(rt_socksAddr) then []
                        else [("SOCKS5 proxy listening on " +:+ r.1.(rt_socksAddr))%string])) c) None
      end
  end.

Definition exec_status (c : client) : client :=
  let m := c.(cl_manager) in
  let r := c.(cl_runtime) in
  say ([("state: " +:+ State_string m.(mg_state))%string] ++
       (if empty_string m.(mg_transport) then [] else [("transport: " +:+ m.(mg_transport))%string]) ++
       [("exit: " +:+ r.(rt_exitID))%string; ("http: " +:+ r.(rt_httpAddr))%string] ++
       (if empty_string r.(rt_socksAddr) then [] else [("socks5: " +:+ r.(rt_socksAddr))%string]) ++
       match m.(mg_lastError) with None => [] | Some e => [("last error: " +:+ Error e)%string] end) c.

(** [sort.Slice] by ID; the catalog is a copy. *)
Definition exec_exits (c : client) : client :=
  match c.(cl_manager).(mg_catalog) with
  | [] => say ["no exits available"%string] c
  | catalog => say (("ID" +:+ tab +:+ "NAME" +:+ tab +:+ "HEALTH" +:+ tab +:+ "LATENCY" +:+ tab +:+ "LOAD" +:+ tab +:+ "CAPACITY")%string
                    :: map exit_line (merge_sort exit_le catalog)) c
  end.

Definition exec_use (args : list bytes) (c : client) : client * option error :=
  let set id fallback :=
    match SetExit c.(cl_manager).(mg_catalog) (string_of id) fallback c.(cl_runtime) with
    | (Some e, r) => (mkClient r c.(cl_manager) c.(cl_out), Some e)
    | (None, r) => (say [("new streams will use " +:+ string_of id)%string] (mkClient r c.(cl_manager) c.(cl_out)), None)
    end in
  match args with
  | [id] => set id false
  | [id; flag] =>
      match ParseBool (string_of flag) with
      | None => (c, Some (ENew "fallback must be true or false"))
      | Some b => set id b
      end
  | _ => (c, Some (ENew "usage: use <exit-id|auto> [fallback]"))
  end.

(** [execute] on a non-empty list of fields. *)
Definition execute (a : answers) (cmd : bytes) (args : list bytes) (c : client) : M D reply :=
  let name := string_of (ToLower lower cmd) in
  let named s := bool_decide (name = s%string) in
  if named "connect"%string then
    match args with
    | [address] => exec_connect a address c
    | _ => answer c (Some (ENew "usage: connect <S IP>"))
    end
  else if named "status"%string then answer (exec_status c) None
  else if named "exits"%string then answer (exec_exits c) None
  else if named "use"%string then let '(c, e) := exec_use args c in answer c e
  else if named "reconnect"%string then
    let '(e, m) := Reconnect a.(an_reconnect) c.(cl_manager) in answer (with_manager m c) e
  else if named "disconnect"%string then
    let '(e, m) := Close_manager a.(an_close) c.(cl_manager) in answer (with_manager m c) e
  else if named "help"%string then answer (say help_text c) None
  else if named "quit"%string || named "exit"%string then mret (c, true, None)
  else answer c (Some (ENew ("unknown command " +:+ Quote (string_of cmd) +:+ "; use help"))).

(** [Run]: [answers] for the commands in turn.  [None] is running out of
    fuel. *)
Fixpoint run_loop (fuel : nat) (script : nat -> answers) (input : Reader) (c : client)
  : M D (option (option error * client)) :=
  match fuel with
  | O => mret None
  | S k =>
      let c := say ["> "%string] c in
      let '(line, err, input) := ReadString input in
      match err, line with
      | Some e, [] => mret (Some (if bool_decide (e = EOF) then None else Some e, c))
      | _, _ =>
          match Fields (TrimSpace line) with
          | [] => match err with
                  | Some _ => mret (Some (None, c))
                  | None => run_loop k script input c
                  end
          | cmd :: args =>
              r <- execute (script 0%nat) cmd args c ;;
              let '(c, quit, err) := r in
              let c := match err with Some e => say [("error: " +:+ Error e)%string] c | None => c end in
              if quit then mret (Some (None, c))
              else if bool_decide (err = Some EOF) then mret (Some (None, c))
              else run_loop k (fun n => script (S n)) input c
          end
      end
  end.
Definition Run (script : nat -> answers) (input : Reader) (c : client) : M D (option (option error * client)) :=
  run_loop (S (length input.(rd_buf))) script input c.

(** The end of [run] of [lnproxy-client]: the shell, then the shutdown; an
    error of each is reported. *)
Definition client_run (script : nat -> answers) (input : Reader) (cfg : RuntimeConfig)
  : M D (option error * option error) :=
  r <- Run script input (mkClient (NewRuntime cfg) NewManager ["> connect <S IP>"%string]) ;;
  match r with
  | None => mret (None, None)
  | Some (err, c) => s <- Shutdown c.(cl_runtime) ;; mret (err, s.2)
  end.
End Shell.

(* ------------------------------------------------------------------ *)
(** ** Code whose errors are values *)

Section NoFail.
Context {D : Type} `{SystemProxy D}.

(** The code returns or the process dies; [P] holds of what it returns. *)
Definition returns {A} (m : M D A) (P : A -> Prop) : Prop :=
  forall sc w, match m sc w with (Val a, _, _) => P a | (Fail _, _, _) => False | (Crashed, _, _) => True end.

Lemma returns_ret {A} (a : A) (P : A -> Prop) : P a -> returns (mret a) P.
Proof. by intros Ha sc w. Qed.

Lemma returns_bind {A B} (m : M D A) (f : A -> M D B) P Q :
  returns m P -> (forall a, P a -> returns (f a) Q) -> returns (mbind m f) Q.
Proof.
  intros Hm Hf sc w. unfold mbind. specialize (Hm sc w).
  destruct (m sc w) as [[[a|e|] sc1] w1]; [by apply Hf|done|done].
Qed.

Lemma returns_try {A} (m : M D A) : returns (mtry m) (fun _ => True).
Proof. intros sc w. unfold mtry. by destruct (m sc w) as [[[a|e|] sc1] w1]. Qed.

Lemma returns_ignore {A} (m : M D A) : returns (mignore m) (fun _ => True).
Proof. eapply returns_bind; [apply returns_try|]. intros r _. by apply returns_ret. Qed.

Lemma returns_weaken {A} (m : M D A) (P Q : A -> Prop) : returns m P -> (forall a, P a -> Q a) -> returns m Q.
Proof. intros Hm HPQ sc w. specialize (Hm sc w). destruct (m sc w) as [[[a|e|] ?] ?]; auto. Qed.

Lemma apply_proxy_returns env r : returns (apply_proxy env r) (fun _ => True).
Proof.
  unfold apply_proxy. eapply returns_bind; [apply returns_try|]. intros [s|e] _.
  - eapply returns_bind; [apply returns_try|]. intros [[]|e] _; [|by apply returns_ret].
    eapply returns_bind; [apply returns_try|]. intros [[]|e] _; [by apply returns_ret|].
    eapply returns_bind; [apply returns_ignore|]. intros ? _. destruct (errors_Is _ _); by apply returns_ret.
  - destruct (errors_Is _ _); by apply returns_ret.
Qed.

(** [Start] reports its errors; when the manager does not connect it reports
    one, whatever else happens. *)
Lemma Start_returns env r :
  returns (Start env r) (fun x => env.(se_connect) <> None -> x.2 <> None).
Proof.
  unfold Start. destruct (rt_closed r); [by apply returns_ret|]. destruct (rt_started r); [by apply returns_ret|].
  eapply returns_bind; [apply returns_try|]. intros [[]|e] _; [|by apply returns_ret].
  destruct (se_connect env); [by apply returns_ret|]. destruct (se_http env); [|by apply returns_ret].
  destruct (rc_SOCKS5 _); [destruct (se_socks env); [|by apply returns_ret]|];
    (eapply returns_weaken; [apply apply_proxy_returns|done]).
Qed.

Lemma execute_returns lower a cmd args c :
  returns (execute lower a cmd args c) (fun _ => True).
Proof.
  unfold execute, answer.
  repeat (case_bool_decide; cbn [orb]; [try (by apply returns_ret)|]); try (by apply returns_ret).
  - destruct args as [|ad [|]]; try (by apply returns_ret). unfold exec_connect, answer.
    destruct (PromptPassphrase _ _); [|by apply returns_ret].
    eapply returns_bind; [apply Start_returns|]. intros r _. destruct r.2; by apply returns_ret.
  - destruct (exec_use args c). by apply returns_ret.
  - destruct (Reconnect _ _). by apply returns_ret.
  - destruct (Close_manager _ _). by apply returns_ret.
Qed.

Lemma ReadString_shrinks r line err r' : ReadString r = (line, err, r') ->
  match err with
  | None => (length r'.(rd_buf) < length r.(rd_buf))%nat
  | Some _ => r'.(rd_buf) = [] /\ line = r.(rd_buf)
  end.
Proof.
  unfold ReadString. destruct (GoNet.cut_first x0a (rd_buf r)) as [[l rest]|] eqn:E; intros [= <- <- <-]; [|done].
  apply GoNet.cut_first_Some in E as [-> _]. cbn. rewrite length_app. cbn. lia.
Qed.

Lemma run_loop_returns lower fuel : forall script input c, (length input.(rd_buf) < fuel)%nat ->
  returns (run_loop lower fuel script input c) (fun o => o <> None).
Proof.
  induction fuel as [|k IH]; intros script input c Hf; [lia|]. cbn [run_loop].
  destruct (ReadString input) as [[line err] input'] eqn:E. apply ReadString_shrinks in E.
  assert (match err, line with Some _, [] => False | _, _ => True end -> (length input'.(rd_buf) < k)%nat) as Hk.
  { destruct err as [e|]; [|lia]. destruct E as [-> ->]. destruct (rd_buf input); [done|]. cbn in *. lia. }
  destruct err as [e|], line as [|b line]; [by apply returns_ret|..]; specialize (Hk I);
    (destruct (Fields _) as [|cmd args]; [first [by apply returns_ret|by apply IH]|]);
    (eapply returns_bind; [apply execute_returns|]); intros [[c' quit] e'] _;
    (destruct quit; [by apply returns_ret|]); (case_bool_decide; [by apply returns_ret|by apply IH]).
Qed.
End NoFail.

(** The shell ends: on every input that ends, whatever the commands and the
    system answer, [Run] returns after finitely many commands (or the process
    dies); it does not loop and its errors are values. *)
Theorem shell_returns {D} `{SystemProxy D} lower script input c sc w :
  match Run (D := D) lower script input c sc w with
  | (Val o, _, _) => o <> None
  | (Fail _, _, _) => False
  | (Crashed, _, _) => True
  end.
Proof. apply (run_loop_returns lower (S (length input.(rd_buf))) script input c). lia. Qed.

(* ------------------------------------------------------------------ *)
(** ** Disconnecting *)

Section Disconnect.
Context {D : Type} `{SystemProxy D}.
Variable lower : bytes -> bytes.

(** Commands in turn, with their replies. *)
Fixpoint execute_all (cmds : list (answers * bytes * list bytes)) (c : client)
  : M D (client * list (option error)) :=
  match cmds with
  | [] => mret (c, [])
  | (a, cmd, args) :: cmds =>
      r <- execute lower a cmd args c ;;
      rest <- execute_all cmds r.1.1 ;;
      mret (rest.1, r.2 :: rest.2)
  end.

Definition finished (m : Manager) : Prop := m.(mg_closed) = true /\ m.(mg_session) = None.

Lemma Reconnect_finished outcome m : finished m ->
  exists e, Reconnect outcome m = (Some e, m).
Proof. intros [Hc _]. unfold Reconnect, Reconnect_begin. rewrite Hc. eauto. Qed.

Lemma Connect_finished address passphrase outcome m : finished m ->
  (Connect address passphrase outcome m).1 <> None /\ finished (Connect address passphrase outcome m).2.
Proof.
  intros Hf. unfold Connect, configure. destruct (NormalizeServerAddress address); [|done].
  destruct passphrase; [done|].
  match goal with |- context [Reconnect _ ?m'] => assert (finished m') as Hf' by done;
    destruct (Reconnect_finished outcome m' Hf') as [e ->] end. done.
Qed.

Lemma Close_finished closing m : finished (Close_manager closing m).2.
Proof. unfold Close_manager, Manager_Close. by destruct (mg_session m). Qed.

Lemma manager_calls_finished address passphrase a before after m : finished m ->
  finished (manager_calls address passphrase a before after m).
Proof.
  unfold manager_calls. generalize (drop (length (rt_calls before)) (rt_calls after)). intros l. revert m.
  induction l as [|k l IH]; intros m Hf; [done|]. cbn. apply IH. destruct k; cbn; try done.
  - by apply Connect_finished.
  - apply Close_finished.
Qed.

(** [connect] and [reconnect], however written. *)
Definition is_connect (cmd : bytes) : bool :=
  let name := string_of (ToLower lower cmd) in
  bool_decide (name = "connect"%string) || bool_decide (name = "reconnect"%string).

Lemma execute_finished a cmd args c : finished c.(cl_manager) ->
  returns (execute lower a cmd args c)
    (fun r => finished r.1.1.(cl_manager) /\ (is_connect cmd = true -> r.2 <> None)).
Proof.
  intros Hf. unfold execute, is_connect, answer. set (name := string_of (ToLower lower cmd)).
  set (conn := bool_decide (name = "connect"%string) || bool_decide (name = "reconnect"%string)).
  assert (forall s, name = s -> s <> "connect"%string -> s <> "reconnect"%string -> conn = true -> False) as Hno.
  { intros s E H1 H2. unfold conn. rewrite E. by rewrite !bool_decide_false. }
  case_bool_decide as E1.
  { destruct args as [|ad [|]]; try (by apply returns_ret). unfold exec_connect, answer.
    destruct (PromptPassphrase _ _) as [p|]; [|by apply returns_ret].
    destruct (Connect_finished ad p (an_reconnect a) _ Hf) as [He _].
    eapply returns_bind; [apply Start_returns|]. intros r Hr. specialize (Hr He).
    destruct r.2; [|done]. apply returns_ret. cbn. split; [by apply manager_calls_finished|done]. }
  case_bool_decide as E2; [apply returns_ret; split; [done|intros Hx; by destruct (Hno _ E2)]|].
  case_bool_decide as E3.
  { apply returns_ret. cbn. split; [|intros Hx; by destruct (Hno _ E3)]. unfold exec_exits. by destruct (mg_catalog _). }
  case_bool_decide as E4.
  { destruct (exec_use args c) as [c' e] eqn:Eu. apply returns_ret. split; [|intros Hx; by destruct (Hno _ E4)].
    cbn [fst snd]. assert (cl_manager c' = cl_manager c) as ->; [|done]. revert Eu. unfold exec_use.
    repeat case_match; intros [= <- _]; done. }
  case_bool_decide as E5.
  { destruct (Reconnect_finished (an_reconnect a) _ Hf) as [e ->]. by apply returns_ret. }
  case_bool_decide as E6.
  { pose proof (Close_finished (an_close a) (cl_manager c)) as Hc. destruct (Close_manager _ _) as [e m].
    apply returns_ret. split; [done|intros Hx; by destruct (Hno _ E6)]. }
  assert (conn = false) as -> by (unfold conn; by rewrite ?bool_decide_false).
  case_bool_decide; [by apply returns_ret|]. destruct (_ || _); by apply returns_ret.
Qed.

Lemma execute_all_finished cmds : forall c, finished c.(cl_manager) ->
  returns (execute_all cmds c) (fun r => finished r.1.(cl_manager) /\
    Forall2 (fun cmd e => is_connect cmd.1.2 = true -> e <> None) cmds r.2).
Proof.
  induction cmds as [|[[a cmd] args] cmds IH]; intros c Hf; cbn; [by apply returns_ret|].
  eapply returns_bind; [by apply execute_finished|]. intros r [Hr He].
  eapply returns_bind; [by apply IH|]. intros rest [Hm Hrest]. apply returns_ret. by split; [|constructor].
Qed.
End Disconnect.

(** After [disconnect] the client stays disconnected: whatever commands
    follow, every [connect] and every [reconnect] reports an error and the
    manager never has a session again. *)
Theorem disconnect_is_final {D} `{SystemProxy D} lower a cmds c sc w c1 e sc1 w1 c2 replies sc2 w2 :
  execute (D := D) lower a (bytes_of "disconnect") [] c sc w = (Val (c1, false, e), sc1, w1) ->
  execute_all lower cmds c1 sc1 w1 = (Val (c2, replies), sc2, w2) ->
  c2.(cl_manager).(mg_session) = None /\
  Forall2 (fun cmd e => is_connect lower cmd.1.2 = true -> e <> None) cmds replies.
Proof.
  assert (string_of (ToLower lower (bytes_of "disconnect")) = "disconnect"%string) as Hname by reflexivity.
  unfold execute at 1. rewrite Hname. cbn [bool_decide]. rewrite !bool_decide_false by done. rewrite bool_decide_true by done.
  pose proof (Close_finished (an_close a) (cl_manager c)) as Hc. destruct (Close_manager _ _) as [e' m].
  intros [= <- _ <- <-] H2. pose proof (execute_all_finished lower cmds (with_manager m c) Hc sc w) as Hall.
  rewrite H2 in Hall. destruct Hall as [[_ Hs] Hr]. by split.
Qed.

Definition demo_answers : answers :=
  mkAnswers (mkTerminal true (Ok (bytes_of "pw")) (Ok [])) (mkStartEnv None (Ok "127.0.0.1:80"%string) (Ok ""%string) 7 "")
    (Ok ("quic"%string, 3%nat)) None.
Definition demo_client : client := mkClient (NewRuntime (mkRuntimeConfig "/d" false 0)) NewManager [].
Definition demo_commands : list (answers * bytes * list bytes) :=
  [(demo_answers, bytes_of "Reconnect", []); (demo_answers, bytes_of "connect", [bytes_of "10.0.0.1"])].
Definition demo_after : client :=
  mkClient (markStopped (with_call ConnectManager (NewRuntime (mkRuntimeConfig "/d" false 0))))
    (configure false (bytes_of "10.0.0.1") (bytes_of "pw") (Manager_Close NewManager).2).2 [].

Lemma disconnect_is_final_witness :
  Forall2 (fun cmd e => is_connect (fun b => b) cmd.1.2 = true -> e <> None) demo_commands
    [Some (ENew "client manager is closed"); Some (ENew "client manager is closed")].
Proof.
  apply (disconnect_is_final (D := unit) (H := Unsupported unit) (fun b => b) demo_answers demo_commands demo_client
    [] (mkWorld tt (mkFS ∅ 0)) (with_manager (Manager_Close NewManager).2 demo_client) None [] (mkWorld tt (mkFS ∅ 0))
    demo_after _ [] (mkWorld tt (mkFS ∅ 0))); vm_compute; reflexivity.
Defined.

(** [exits] prints every exit of the catalog once, in the order of their
    names. *)
Theorem exits_sorted c e rest : c.(cl_manager).(mg_catalog) = e :: rest ->
  exists header shown, cl_out (exec_exits c) = c.(cl_out) ++ header :: map exit_line shown /\
    shown ≡ₚ c.(cl_manager).(mg_catalog) /\ Sorted exit_le shown.
Proof.
  intros E. unfold exec_exits. rewrite E. eexists _, (merge_sort exit_le (e :: rest)). split; [done|].
  split; [apply merge_sort_Permutation|]. apply Sorted_merge_sort.
  intros a b. unfold exit_le. apply String.le_total.
Qed.
