(* ===== verification/Probe.v ===== *)
(** * The probe: [cmd/lnproxy-probe/main.go]

    Options, the stages of one run and the exit code.  The trust store is in
    [Trust.v].  What the network does in a stage is an argument: an error, a
    result, or nothing before the stage's timer.  Stages are reported in order;
    the elapsed time in front of each line is left out. *)
From S2P Require Import Prelude GoIO GoStrings GoTime Json Codec Protocol Session GoText GoFS GoNet.
From S2P Require Import Config Auth Trust GoFlag Exit.

(* ------------------------------------------------------------------ *)
(** ** Options *)

Record options := mkOptions {
  op_server : string;
  op_passphrase : string;
  op_fingerprint : string;
  op_transport : string;
  op_sessionMode : string;
  op_target : string;
  op_timeout : Duration;
  op_httpPath : string
}.

Definition default_options : options :=
  mkOptions "" "prompt" "" "auto" "safe" "127.0.0.1:8080" (15 * Second) "/".

Definition probe_flags : FlagSet options := [
  ("server", StringVar (fun v '(mkOptions _ b c d e f g h) => mkOptions v b c d e f g h));
  ("passphrase", StringVar (fun v '(mkOptions a _ c d e f g h) => mkOptions a v c d e f g h));
  ("fingerprint", StringVar (fun v '(mkOptions a b _ d e f g h) => mkOptions a b v d e f g h));
  ("transport", StringVar (fun v '(mkOptions a b c _ e f g h) => mkOptions a b c v e f g h));
  ("session-mode", StringVar (fun v '(mkOptions a b c d _ f g h) => mkOptions a b c d v f g h));
  ("target", StringVar (fun v '(mkOptions a b c d e _ g h) => mkOptions a b c d e v g h));
  ("timeout", DurationVar (fun v '(mkOptions a b c d e f _ h) => mkOptions a b c d e f v h));
  ("http-path", StringVar (fun v '(mkOptions a b c d e f g _) => mkOptions a b c d e f g v))
]%string.

Definition parseTarget (value : string) : result (bytes * Z) :=
  match SplitHostPort (TrimSpace (bytes_of value)) with
  | Err e => Err (EWrap ("invalid --target " +:+ Quote value +:+ ": ") e)
  | Ok (host, portText) =>
      match Atoi (string_of portText) with
      | Err _ => Err (ENew ("invalid --target port " +:+ Quote (string_of portText)))
      | Ok port =>
          if (port <? 1) || (port >? 65535)
          then Err (ENew ("invalid --target port " +:+ Quote (string_of portText)))
          else match host with
               | [] => Err (ENew "--target host is required")
               | _ => Ok (host, wrap_u 16 port)
               end
      end
  end.

Definition one_of (s : string) (l : list string) : bool := existsb (fun t => bool_decide (s = t)) l.

(** The checks after [flags.Parse]. *)
Definition check_options (o : options) : result options :=
  if empty_string o.(op_server) then Err (ENew "--server is required")
  else
    match NormalizeServerAddress (bytes_of o.(op_server)) with
    | Err e => Err (EWrap "invalid --server: " e)
    | Ok normalized =>
        let o := mkOptions (string_of normalized) o.(op_passphrase) o.(op_fingerprint) o.(op_transport)
          o.(op_sessionMode) o.(op_target) o.(op_timeout) o.(op_httpPath) in
        if negb (one_of o.(op_transport) ["auto"; "quic"; "tcp"]%string)
        then Err (ENew ("invalid --transport " +:+ Quote o.(op_transport)))
        else if negb (one_of o.(op_sessionMode) ["safe"; "client"]%string)
        then Err (ENew ("invalid --session-mode " +:+ Quote o.(op_sessionMode)))
        else
          let? _ := parseTarget o.(op_target) in
          if o.(op_timeout) <=? 0 then Err (ENew "--timeout must be positive")
          else match bytes_of o.(op_httpPath) with
               | [] => Err (ENew "--http-path must start with /")
               | b :: _ => if b =b x2f then Ok o else Err (ENew "--http-path must start with /")
               end
    end.

Definition parseOptions (ps : parsers) (args : list string) : result options :=
  let? r := Parse ps probe_flags default_options args in check_options r.1.

(* ------------------------------------------------------------------ *)
(** ** Stages *)

Record stageError := mkStageError { sg_stage : string; sg_timeout : bool; sg_err : error }.

(** What a stage with a timer ends with. *)
Inductive timed (A : Type) : Type := Ready (a : A) | Expired.
Arguments Ready {A}.
Arguments Expired {A}.

(** The answers of the network.  A dial fails on the way or brings the peer's
    certificates. *)
Record network := mkNetwork {
  nw_quic : result (list bytes);
  nw_control : option error;
  nw_tcp : result (list bytes);
  nw_auth : timed (option error);
  nw_auth_stats : Z * (Z * Z) * (Z * Z);
  nw_start : option error;
  nw_catalog : timed (list ExitInfo + option error);
  nw_open : result string;
  nw_http : timed (result (Z * Z))
}.

Section Probe.
Variables upper lower : bytes -> bytes.
(** Whether an error of the system says that it is a timeout. *)
Variable timeout_method : error -> bool.
Variable show : error -> string.

Fixpoint isTimeout (e : error) : bool :=
  bool_decide (e = ErrDeadlineExceeded) || timeout_method e ||
  match e with EWrap _ inner | ETrust inner => isTimeout inner | _ => false end.

Definition transportError (stage : string) (e : error) : stageError := mkStageError stage (isTimeout e) e.

(** A run: what was reported and the trust store. *)
Record probe := mkProbe { pb_log : list string; pb_trust : memoryTrust }.

Definition stage (line : string) (p : probe) : probe := mkProbe (p.(pb_log) ++ [line]) p.(pb_trust).
Definition stage_text (e : stageError) : string := e.(sg_stage) +:+ ": " +:+ show e.(sg_err).

(** A dial: the network, then [VerifyConnection] of [ClientTLSConfig]. *)
Definition dial (server : string) (peer : result (list bytes)) (p : probe) : option error * probe :=
  match peer with
  | Err e => (Some e, p)
  | Ok certs =>
      match @VerifyConnection memoryTrust (memoryTrust_Trust upper lower) upper ""
              (string_of (addressHost (bytes_of server))) certs (Some p.(pb_trust)) with
      | (e, t) => (e, mkProbe p.(pb_log) (default p.(pb_trust) t))
      end
  end.

Definition verified (p : probe) : probe :=
  stage ("tls: verified fingerprint=" +:+ p.(pb_trust).(mt_fingerprint)) p.

Definition connectQUIC (o : options) (n : network) (p : probe) : option stageError * probe :=
  let p := stage "transport: QUIC dial" p in
  match dial o.(op_server) n.(nw_quic) p with
  | (Some e, p) => (Some (transportError "QUIC dial" e), p)
  | (None, p) =>
      let p := stage "transport: QUIC control stream" (verified p) in
      match n.(nw_control) with
      | Some e => (Some (transportError "QUIC control stream" e), p)
      | None => (None, p)
      end
  end.

Definition connectTCP (o : options) (n : network) (p : probe) : option stageError * probe :=
  let p := stage "transport: TCP/TLS dial" p in
  match dial o.(op_server) n.(nw_tcp) p with
  | (Some e, p) => (Some (transportError "TCP/TLS dial" e), p)
  | (None, p) => (None, verified p)
  end.

(** The transport's name, or the error. *)
Definition connect (o : options) (n : network) (p : probe) : (stageError + string) * probe :=
  let finish name (r : option stageError * probe) :=
    match r with (Some e, p) => (inl e, p) | (None, p) => (inr name, p) end in
  if bool_decide (o.(op_transport) = "quic"%string) then finish ProtocolQUIC (connectQUIC o n p)
  else if bool_decide (o.(op_transport) = "tcp"%string) then finish ProtocolTLS (connectTCP o n p)
  else
    match connectQUIC o n p with
    | (None, p) => (inr ProtocolQUIC, p)
    | (Some e, p) =>
        if bool_decide (e.(sg_stage) = "QUIC control stream"%string) then (inl e, p)
        else finish ProtocolTLS
          (connectTCP o n (stage ("transport: QUIC unavailable (" +:+ stage_text e +:+ "); falling back to TCP") p))
    end.

Definition delta (after before : Z) : Z := if after <? before then 0 else wrap_u 64 (after - before).

(** [fmt.Sprintf("%.2f", float64(value)/mib)] for values that a [float64]
    holds exactly (below 2^53): hundredths, rounded half to even. *)
Definition hundredths (value : Z) : Z :=
  let q := (value * 100) / 2 ^ 20 in
  let r := (value * 100) mod 2 ^ 20 in
  if (2 * r >? 2 ^ 20) || ((2 * r =? 2 ^ 20) && Z.odd q) then q + 1 else q.
Definition formatBytes (value : Z) : string :=
  if value >=? 2 ^ 20 then
    let h := hundredths value in
    Itoa (h / 100) +:+ "." +:+ Itoa (h mod 100 / 10) +:+ Itoa (h mod 10) +:+ "MiB"
  else Itoa value +:+ "B".

Definition authenticate (n : network) (p : probe) : option stageError * probe :=
  let p := stage "auth: challenge and Argon2id" p in
  match n.(nw_auth) with
  | Ready (Some e) => (Some (mkStageError "authentication" false e), p)
  | Expired => (Some (mkStageError "authentication" true ErrDeadlineExceeded), p)
  | Ready None =>
      let '(duration, before, after) := n.(nw_auth_stats) in
      (None, stage ("auth: ok duration=" +:+ Itoa duration +:+ "ms heap_total_delta=" +:+
        formatBytes (delta after.1 before.1) +:+ " sys=" +:+ formatBytes after.2) p)
  end.

(** [handleControl]: the first catalog is kept in the channel. *)
Definition handleControl (f : Frame) (catalog : option (list ExitInfo)) : option (list ExitInfo) :=
  if negb (bool_decide (f.(fr_Type) = FrameCatalog)) then catalog
  else
    match DecodeJSON f with
    | (_, Some _) => catalog
    | (c, None) => match catalog with None => Some c.(cat_Exits) | Some _ => catalog end
    end.

(** [inr] in [nw_catalog] is a session that ended, with its error if any. *)
Definition startSession (o : options) (n : network) (p : probe) : (stageError + list ExitInfo) * probe :=
  let p := stage ("session: starting (" +:+ o.(op_sessionMode) +:+ " mode)") p in
  match n.(nw_start) with
  | Some e => (inl (mkStageError "session start" false e), p)
  | None =>
      let p := stage "catalog: waiting" p in
      match n.(nw_catalog) with
      | Ready (inl exits) => (inr exits, p)
      | Ready (inr e) =>
          (inl (mkStageError "catalog" false (default (ENew "session closed before catalog") e)), p)
      | Expired => (inl (mkStageError "catalog" true ErrDeadlineExceeded), p)
      end
  end.

Definition http_request (o : options) : bytes :=
  let crlf := [x0d; x0a] in
  bytes_of ("GET " +:+ o.(op_httpPath) +:+ " HTTP/1.1") ++ crlf ++ bytes_of ("Host: " +:+ o.(op_target)) ++ crlf ++
  bytes_of "User-Agent: lnproxy-probe/1" ++ crlf ++ bytes_of "Connection: close" ++ crlf ++ crlf.

Definition maxHTTPResponseBody : Z := Z.shiftl 1 20.

(** The goroutine of [testHTTP] on its stream [p]: the request, the end of the
    sending side, and the response that [ReadResponse] makes of the bytes
    received: its status and its body, with the error that ends reading it. *)
Definition http_exchange (ReadResponse : bytes -> result (Z * bytes * option error)) (o : options) (p : ptr)
  (received : bytes) (s : Session) : result (Z * Z) * Session :=
  match Stream_Write p (http_request o) s with
  | (_, Some e, s) => (Err e, s)
  | (_, None, s) =>
      match Stream_CloseWrite p s with
      | (Some e, s) => (Err e, s)
      | (None, s) =>
          match ReadResponse received with
          | Err e => (Err e, s)
          | Ok (status, body, ending) =>
              let count := Z.of_nat (length body) in
              (* the limit is reached before the error is *)
              if maxHTTPResponseBody <=? count then (Ok (status, maxHTTPResponseBody), s)
              else match ending with Some e => (Err e, s) | None => (Ok (status, count), s) end
          end
      end
  end.

(** An error that is not a [stageError] is the [parseTarget] one. *)
Definition testHTTP (o : options) (n : network) (p : probe) : option (stageError + error) * probe :=
  match parseTarget o.(op_target) with
  | Err e => (Some (inr e), p)
  | Ok (host, port) =>
      let p := stage ("stream: opening " +:+ string_of (JoinHostPort host (itoa port)) +:+ " via auto") p in
      match n.(nw_open) with
      | Err e => (Some (inl (transportError "stream open" e)), p)
      | Ok exitID =>
          let p := stage ("stream: opened exit=" +:+ exitID) p in
          match n.(nw_http) with
          | Ready (Err e) => (Some (inl (mkStageError "HTTP request" false e)), p)
          | Ready (Ok (status, count)) =>
              (None, stage ("http: status=" +:+ Itoa status +:+ " bytes=" +:+ Itoa count) p)
          | Expired => (Some (inl (mkStageError "HTTP request" true ErrDeadlineExceeded)), p)
          end
      end
  end.

(** [probe.run]. *)
Definition probe_run (o : options) (n : network) (p : probe) : option (stageError + error) * probe :=
  let p := stage ("config: server=" +:+ o.(op_server) +:+ " transport=" +:+ o.(op_transport) +:+
    " session_mode=" +:+ o.(op_sessionMode) +:+ " target=" +:+ o.(op_target)) p in
  match connect o n p with
  | (inl e, p) => (Some (inl e), p)
  | (inr name, p) =>
      match authenticate n p with
      | (Some e, p) => (Some (inl e), p)
      | (None, p) =>
          match startSession o n p with
          | (inl e, p) => (Some (inl e), p)
          | (inr catalog, p) =>
              let p := stage ("catalog: " +:+ Itoa (Z.of_nat (length catalog)) +:+ " exit(s)") p in
              match testHTTP o n p with
              | (Some e, p) => (Some e, p)
              | (None, p) => (None, stage ("transport: " +:+ name) p)
              end
          end
      end
  end.

(** [run]: the exit code; [passphrase] is [ResolvePassphrase]. *)
Definition run (ps : parsers) (args : list string) (passphrase : string -> result bytes)
  (answers : list (result string)) (n : network) : Z * list string :=
  match parseOptions ps args with
  | Err e => if errors_Is e ErrHelp then (0, []) else (1, [])
  | Ok o =>
      match passphrase o.(op_passphrase) with
      | Err _ => (1, [])
      | Ok _ =>
          match probe_run o n (mkProbe [] (newMemoryTrust upper o.(op_fingerprint) answers)) with
          | (None, p) => (0, (stage "PASS" p).(pb_log))
          | (Some (inl e), p) => ((if e.(sg_timeout) then 2 else 1), (stage ("FAIL " +:+ stage_text e) p).(pb_log))
          | (Some (inr e), p) => (1, (stage ("FAIL " +:+ show e) p).(pb_log))
          end
      end
  end.
End Probe.

(* ------------------------------------------------------------------ *)
(** ** Properties *)

Lemma parseTarget_Ok value host port : parseTarget value = Ok (host, port) ->
  host <> [] /\ 1 <= port <= 65535.
Proof.
  unfold parseTarget. destruct (SplitHostPort _) as [[h pt]|]; [|done].
  destruct (Atoi _) as [n|]; [|done]. destruct (Z.ltb_spec n 1); [done|].
  destruct (n >? 65535) eqn:E; [done|]. cbn [orb]. destruct h; [done|]. intros [= <- <-].
  split; [done|]. rewrite wrap_u_small; lia.
Qed.

Lemma one_of_spec s l : one_of s l = true <-> s ∈ l.
Proof.
  unfold one_of. rewrite existsb_exists. split.
  - intros (t & Hin & Ht). apply bool_decide_eq_true in Ht. subst. by apply list_elem_of_In.
  - intros H. exists s. split; [by apply list_elem_of_In|]. by apply bool_decide_eq_true.
Qed.

Lemma options_checked ps args o : parseOptions ps args = Ok o ->
  (exists given, NormalizeServerAddress given = Ok (bytes_of o.(op_server))) /\
  o.(op_transport) ∈ ["auto"; "quic"; "tcp"]%string /\ o.(op_sessionMode) ∈ ["safe"; "client"]%string /\
  (exists host port, parseTarget o.(op_target) = Ok (host, port) /\ host <> [] /\ 1 <= port <= 65535) /\
  0 < o.(op_timeout) /\ (exists rest, bytes_of o.(op_httpPath) = x2f :: rest).
Proof.
  unfold parseOptions. intros H. apply result_bind_Ok in H as ([o0 rest] & _ & H). cbn [fst] in H.
  unfold check_options in H. destruct (empty_string _); [done|].
  destruct (NormalizeServerAddress _) as [srv|] eqn:En; [|done]. cbn [op_transport op_sessionMode op_target op_timeout op_httpPath] in H.
  destruct (one_of (op_transport o0) _) eqn:Et; [|done]. destruct (one_of (op_sessionMode o0) _) eqn:Em; [|done].
  cbn [negb] in H. apply result_bind_Ok in H as ([host port] & Hp & H).
  destruct (Z.leb_spec (op_timeout o0) 0); [done|].
  destruct (bytes_of (op_httpPath o0)) as [|b path] eqn:Eh; [done|]. destruct (b =b x2f) eqn:Eb; [|done].
  apply Byte.byte_dec_bl in Eb as ->. injection H as <-.
  cbn [op_server op_transport op_sessionMode op_target op_timeout op_httpPath].
  split_and!; [eexists; rewrite bytes_of_string_of; exact En|by apply one_of_spec|by apply one_of_spec| |done|by eexists].
  exists host, port. split; [done|]. by apply (parseTarget_Ok (op_target o0)).
Qed.

(** The count that the exchange reports is bounded, whatever the response. *)
Lemma http_exchange_bounded ReadResponse o p received s status count s' :
  http_exchange ReadResponse o p received s = (Ok (status, count), s') -> 0 <= count <= maxHTTPResponseBody.
Proof.
  unfold http_exchange. destruct (Stream_Write _ _ _) as [[n [e|]] s1]; [done|].
  destruct (Stream_CloseWrite _ _) as [[e|] s2]; [done|].
  destruct (ReadResponse received) as [[[st body] ending]|e]; [|done].
  destruct (Z.leb_spec maxHTTPResponseBody (Z.of_nat (length body))).
  - intros [= _ <- _]. split; [vm_compute|]; done.
  - destruct ending; [done|]. intros [= _ <- _]. lia.
Qed.

(** Options that [parseOptions] accepts are usable: the server is a
    normalised address, transport and mode are known ones, the target has a
    host and a port between 1 and 65535, the timeout is positive and the path
    is absolute. *)
Theorem probe_options_usable ps args o : parseOptions ps args = Ok o ->
  (exists given, NormalizeServerAddress given = Ok (bytes_of o.(op_server))) /\
  o.(op_transport) ∈ ["auto"; "quic"; "tcp"]%string /\ o.(op_sessionMode) ∈ ["safe"; "client"]%string /\
  (exists host port, parseTarget o.(op_target) = Ok (host, port) /\ host <> [] /\ 1 <= port <= 65535) /\
  0 < o.(op_timeout) /\ (exists rest, bytes_of o.(op_httpPath) = x2f :: rest).
Proof. apply options_checked. Qed.

Lemma probe_options_usable_witness :
  (exists rest, bytes_of (op_httpPath (mkOptions "192.0.2.10:443" "prompt" "" "tcp" "safe" "127.0.0.1:8080" (15 * Second) "/")) = x2f :: rest).
Proof.
  apply (probe_options_usable (mkParsers (fun _ => None) (fun _ => None)) ["--server"; "192.0.2.10"; "-transport=tcp"]%string).
  vm_compute. reflexivity.
Defined.

(** What a network has to do for a run to pass. *)
Definition passes (o : options) (n : network) : Prop :=
  n.(nw_auth) = Ready None /\ n.(nw_start) = None /\ (exists exits, n.(nw_catalog) = Ready (inl exits)) /\
  is_ok n.(nw_open) = true /\ (exists r, n.(nw_http) = Ready (Ok r)).

Definition config_line (o : options) : string :=
  "config: server=" +:+ o.(op_server) +:+ " transport=" +:+ o.(op_transport) +:+
  " session_mode=" +:+ o.(op_sessionMode) +:+ " target=" +:+ o.(op_target).

Section Runs.
Variables upper lower : bytes -> bytes.
Variable timeout_method : error -> bool.
Variable show : error -> string.
Variables (o : options) (n : network) (p : probe).
Hypothesis target_ok : is_ok (parseTarget o.(op_target)) = true.

Lemma testHTTP_passes q : (testHTTP timeout_method o n q).1 = None <->
  is_ok n.(nw_open) = true /\ exists r, n.(nw_http) = Ready (Ok r).
Proof.
  unfold testHTTP. destruct (parseTarget _) as [[host port]|]; [|done].
  destruct (nw_open n); [|by split; [|intros []]].
  destruct (nw_http n) as [[[st ct]|e]|]; cbn; split; try done; try (by intros (_ & r & [= ])); eauto.
Qed.

Lemma startSession_passes q : (exists exits, (startSession o n q).1 = inr exits) <->
  n.(nw_start) = None /\ exists exits, n.(nw_catalog) = Ready (inl exits).
Proof.
  unfold startSession. destruct (nw_start n); [by split; [intros []|intros []]|].
  destruct (nw_catalog n) as [[ex|e]|]; cbn; split; try (by intros []); try (by intros (_ & ? & [=])); eauto.
Qed.

Lemma authenticate_passes q : (authenticate n q).1 = None <-> n.(nw_auth) = Ready None.
Proof.
  unfold authenticate. destruct (nw_auth n) as [[e|]|]; [done| |done].
  by destruct (nw_auth_stats n) as [[d b] a].
Qed.

(** A run passes when a transport connects and the later stages pass; its
    errors are those of stages. *)
Lemma probe_run_passes :
  let r := probe_run upper lower timeout_method show o n p in
  (r.1 = None <-> (exists name q, connect upper lower timeout_method show o n (stage (config_line o) p) = (inr name, q)) /\
    passes o n) /\
  (forall e, r.1 <> Some (inr e)).
Proof.
  unfold probe_run, passes. fold (config_line o).
  destruct (connect _ _ _ _ o n _) as [[e|name] q]; cbn zeta.
  { cbn. split; [|by intros]. split; [done|]. by intros ((? & ? & [=]) & _). }
  pose proof (authenticate_passes q) as Ha. destruct (authenticate n q) as [[e|] q1]; cbn in Ha.
  { cbn. split; [|by intros]. split; [done|]. intros (_ & H & _). apply Ha in H. done. }
  pose proof (startSession_passes q1) as Hs. destruct (startSession o n q1) as [[e|exits] q2]; cbn in Hs.
  { cbn. split; [|by intros]. split; [done|]. intros (_ & _ & H1 & H2 & _).
    destruct (proj2 Hs (conj H1 H2)) as [? [=]]. }
  pose proof (testHTTP_passes (stage ("catalog: " +:+ Itoa (Z.of_nat (length exits)) +:+ " exit(s)") q2)) as Hh.
  assert (forall e, (testHTTP timeout_method o n (stage ("catalog: " +:+ Itoa (Z.of_nat (length exits)) +:+ " exit(s)") q2)).1
    <> Some (inr e)) as Hne.
  { intros e. unfold testHTTP. destruct (parseTarget _) as [[host port]|]; [|done].
    destruct (nw_open n); [|done]. by destruct (nw_http n) as [[[]|]|]. }
  destruct (testHTTP _ _ _ _) as [[e|] q3]; cbn in *.
  - split; [|done]. split; [done|]. intros (_ & _ & _ & _ & H). apply Hh in H. done.
  - split; [|done]. split; [|done]. intros _. split; [by eexists _, _|]. split; [by apply Ha|].
    destruct (proj1 Hs ltac:(eauto)) as [H1 H2]. split; [done|]. split; [done|]. by apply Hh.
Qed.
End Runs.

(** The last line of a report. *)
Definition last_line (log : list string) (line : string) : Prop := exists before, log = before ++ [line].

(** The exit code tells how the run went: 0, with [PASS] as the last line,
    exactly when a transport connects, the handshake and the session succeed,
    a catalog arrives, the stream opens and an HTTP response is read; 2
    exactly when the stage that failed had timed out, and 1 otherwise, with a
    last line that names the stage. *)
Theorem probe_exit_code upper lower timeout_method show ps args passphrase answers n o :
  parseOptions ps args = Ok o -> is_ok (passphrase o.(op_passphrase)) = true ->
  let p := mkProbe [] (newMemoryTrust upper o.(op_fingerprint) answers) in
  let '(code, log) := run upper lower timeout_method show ps args passphrase answers n in
  let passed := (exists name q, connect upper lower timeout_method show o n (stage (config_line o) p) = (inr name, q)) /\
             passes o n in
  (passed -> code = 0 /\ last_line log "PASS") /\
  (~ passed -> exists e q, probe_run upper lower timeout_method show o n p = (Some (inl e), q) /\
    code = (if e.(sg_timeout) then 2 else 1) /\ last_line log ("FAIL " +:+ stage_text show e)).
Proof.
  intros Ho Hpass p. destruct (options_checked ps args o Ho) as (_ & _ & _ & (host & port & Ht & _) & _).
  destruct (probe_run_passes upper lower timeout_method show o n p) as [Hiff Hne]; [by rewrite Ht|].
  unfold run. rewrite Ho. destruct (passphrase _); [|done]. fold p.
  destruct (probe_run _ _ _ _ o n p) as [[[e|e]|] q]; cbn in Hiff, Hne |- *.
  - split; [intros Hp; by apply Hiff in Hp|]. intros _. exists e, q. split; [done|]. split; [done|]. by eexists.
  - by destruct (Hne e).
  - split; [intros _; split; [done|by eexists]|]. intros Hn. destruct Hn. by apply Hiff.
Qed.

Definition demo_network : network :=
  mkNetwork (Err (EForeign 111 "no route")) None (Ok [bytes_of "certificate"]) (Ready None) (23, (0, 0), (4096, 2097152))
    None (Ready (inl [])) (Ok "direct"%string) (Ready (Ok (200, 12))).

Lemma probe_exit_code_witness :
  (run (fun b => b) (fun b => b) (fun _ => false) Error (mkParsers (fun _ => None) (fun _ => None))
     ["--server"; "192.0.2.10"]%string (fun _ => Ok (bytes_of "pw")) [Ok "yes"%string] demo_network).1 = 0.
Proof.
  pose proof (probe_exit_code (fun b => b) (fun b => b) (fun _ => false) Error (mkParsers (fun _ => None) (fun _ => None))
    ["--server"; "192.0.2.10"]%string (fun _ => Ok (bytes_of "pw")) [Ok "yes"%string] demo_network
    (mkOptions "192.0.2.10:443" "prompt" "" "auto" "safe" "127.0.0.1:8080" (15 * Second) "/")) as H.
  destruct (run _ _ _ _ _ _ _ _ _) as [code log]. cbn [fst].
  destruct H as [H _]; [vm_compute; reflexivity|reflexivity|]. apply H.
  split; [|by split_and!; eauto]. eexists _, _. vm_compute. reflexivity.
Defined.

(** The transports a run tries: [quic] and [tcp] only the one named; [auto]
    the second only after the QUIC dial itself failed, and a control stream
    that cannot be opened is reported and not hidden. *)
Theorem probe_transport_policy upper lower timeout_method show o n p :
  let quic := connectQUIC upper lower timeout_method o n p in
  let result := connect upper lower timeout_method show o n p in
  (o.(op_transport) = "quic"%string ->
     result = (match quic.1 with Some e => inl e | None => inr ProtocolQUIC end, quic.2)) /\
  (o.(op_transport) = "tcp"%string -> exists r, connectTCP upper lower timeout_method o n p = r /\
     result = (match r.1 with Some e => inl e | None => inr ProtocolTLS end, r.2)) /\
  (o.(op_transport) = "auto"%string ->
     match (dial upper lower o.(op_server) n.(nw_quic) (stage "transport: QUIC dial" p)).1 with
     | None => result = (match n.(nw_control) with
         | Some e => inl (transportError timeout_method "QUIC control stream" e)
         | None => inr ProtocolQUIC end, quic.2)
     | Some e => exists line r,
         connectTCP upper lower timeout_method o n (stage line quic.2) = r /\
         result = (match r.1 with Some e => inl e | None => inr ProtocolTLS end, r.2)
     end).
Proof.
  cbn zeta. split_and!; intros Ht; unfold connect; rewrite Ht.
  - rewrite bool_decide_true by done. by destruct (connectQUIC _ _ _ _ _ _) as [[e|] q].
  - rewrite bool_decide_false, bool_decide_true by done. eexists. split; [done|].
    by destruct (connectTCP _ _ _ _ _ _) as [[e|] q].
  - rewrite !bool_decide_false by done. unfold connectQUIC.
    destruct (dial _ _ _ _ _) as [[e|] q]; cbn [fst snd].
    + exists ("transport: QUIC unavailable (" +:+ stage_text show (transportError timeout_method "QUIC dial" e) +:+
        "); falling back to TCP")%string. eexists. split; [reflexivity|]. rewrite bool_decide_false by done. cbn [snd].
      by destruct (connectTCP _ _ _ _ _ _) as [[e'|] q'].
    + destruct (nw_control n); [|done]. cbn [transportError sg_stage]. by rewrite bool_decide_true.
Qed.
