(* ===== verification/Forwarding.v ===== *)
(** * Forwarding: streams from a client through the server to an exit

    The whole of [forwardOpen] and [serveExitStream]
    ([internal/node/server.go]), cut where [Session.Dial] blocks, on top of the
    sessions of [internal/session] and the exit node of
    [internal/node/exit.go]; and what the three programs do together: a request
    travels from the client's session to the exit's dial, the verdict travels
    back, and the IDs of two clients can meet on the way. *)
From S2P Require Import Prelude GoIO GoStrings GoTime Json Codec Protocol Registry RateLimiter Session.
From S2P Require Import SessionSteps SessionProps Crypto Auth AuthProps GoText GoFS GoNet Config Trust.
From S2P Require Import Server ServerProps Exit.

(* ------------------------------------------------------------------ *)
(** ** The handlers *)

(** How a handler of an open request stands.  [Dropped]: the client's stream
    could not be acknowledged, and the other end is closed. *)
Inductive forwarding : Type :=
  | Rejected (message : string)
  | Dropped
  | RelayDirect
  | Waiting (i : sid) (q : ptr)     (* [exit.session.Dial] waits *)
  | RelayExit (i : sid) (q : ptr).

(** [serveExitStream] on the stream [p]; [dial] is the result of dialling. *)
Definition serveExitStream {C} (dial : bytes -> result C) (p : ptr) (sess : Session)
  : option (forwarding * Session) :=
  match stream_at p sess with
  | None => None
  | Some st =>
      let request := st.(st_request) in
      match (let? address := DialDestination request.(or_Destination) request.(or_Port) in
             dial address)%go with
      | Err err =>
          let message := ("destination unavailable: " +:+ Error err)%string in
          Some (Rejected message, (Stream_Reject p message sess).2)
      | Ok _ =>
          match Stream_Accept p sess with
          | (Some _, sess) => Some (Dropped, sess)
          | (None, sess) => Some (RelayDirect, sess)
          end
      end
  end.

(** A method called on session [i]. *)
Definition on_session {A} (i : sid) (f : Session -> A * Session) (s : Server) : option (A * Server) :=
  match s.(sv_sessions) !! i with
  | None => None
  | Some sess => let '(a, sess) := f sess in Some (a, with_sessions (<[i := sess]> s.(sv_sessions)) s)
  end.

Definition reject_stream (c : sid) (p : ptr) (message : string) (s : Server) : option (forwarding * Server) :=
  match on_session c (Stream_Reject p message) s with
  | Some (_, s) => Some (Rejected message, s)
  | None => None
  end.

(** [stream.Accept()] and what follows it: the relay, or the close of the other
    end. *)
Definition accept_stream (c : sid) (p : ptr) (relay : forwarding) (close : Server -> Server) (s : Server)
  : option (forwarding * Server) :=
  match on_session c (Stream_Accept p) s with
  | Some (None, s) => Some (relay, s)
  | Some (Some _, s) => Some (Dropped, close s)
  | None => None
  end.

Definition stream_request (c : sid) (p : ptr) (s : Server) : option OpenRequest :=
  match s.(sv_sessions) !! c with
  | None => None
  | Some sess => match stream_at p sess with Some st => Some st.(st_request) | None => None end
  end.

(** [forwardOpen] on the stream [p] of the client session [c], until it is over
    or [exit.session.Dial] waits for an answer. *)
Definition forward_begin {C} (dial : bytes -> result C) (ord : order) (c : sid) (p : ptr) (s : Server)
  : option (forwarding * Server) :=
  match stream_request c p s with
  | None => None
  | Some request =>
      match forwardOpen request ord s with
      | Reject message => reject_stream c p message s
      | DialDirect host port =>
          match (let? address := DialDestination host port in dial address)%go with
          | Err err => reject_stream c p ("destination unavailable: " +:+ Error err) s
          | Ok _ => accept_stream c p RelayDirect (fun s => s) s
          end
      | DialExit i request =>
          match dial_exit i request s with
          | (None, _) => None
          | (Some (Err err), s) => reject_stream c p ("exit unavailable: " +:+ Error err) s
          | (Some (Ok (q, request)), s) =>
              match on_session i (open_send q request) s with
              | None => None
              | Some (Some err, s) => reject_stream c p ("exit unavailable: " +:+ Error err) s
              | Some (None, s) => Some (Waiting i q, s)
              end
          end
      end
  end.

(** The rest, when [Dial] takes the alternative [choice] of its [select];
    [None] when that is not ready. *)
Definition forward_end (choice : open_choice) (c : sid) (p : ptr) (i : sid) (q : ptr) (s : Server)
  : option (forwarding * Server) :=
  match s.(sv_sessions) !! i with
  | None => None
  | Some sess =>
      match open_wait q choice sess with
      | None => None
      | Some (Err err, sess) =>
          reject_stream c p ("exit unavailable: " +:+ Error err)
            (with_sessions (<[i := sess]> s.(sv_sessions)) s)
      | Some (Ok q, sess) =>
          accept_stream c p (RelayExit i q)
            (fun s => match on_session i (Stream_Close q) s with Some (_, s) => s | None => s end)
            (with_sessions (<[i := sess]> s.(sv_sessions)) s)
      end
  end.

(* ------------------------------------------------------------------ *)
(** ** One hop of an open request *)

(** The read loop turns the frame [f] into the stream [p]. *)
Definition receives (f : Frame) (s : Session) (p : ptr) (s' : Session) : Prop :=
  readLoop_frame f s = Continue s' \/ readLoop_frame f s = Dispatch p s'.

Definition sendable (r : OpenRequest) : Prop :=
  OpenRequest_ok r /\ r.(or_RequestID) <> 0 /\ r.(or_Destination) <> ""%string /\ r.(or_Port) <> 0 /\
  r.(or_Protocol) = ProtocolTCP.

Lemma open_frame_decodes r : sendable r ->
  DecodeOpen (mkFrame FrameOpen r.(or_RequestID) (print (to_json r))) = Ok r.
Proof. intros (? & ? & ? & ? & ?). by apply DecodeOpen_Marshal. Qed.

Lemma open_send_writes q r s s' : open_send q r s = (None, s') -> forall w, s.(ss_writer) = Some w ->
  s' = with_writer (Some (sink_append w (frame_bytes (mkFrame FrameOpen r.(or_RequestID) (print (to_json r)))))) s.
Proof.
  unfold open_send. intros H w Hw. rewrite Hw in H. unfold WriteJSON, Marshal, Writer_Write in H.
  destruct (WriteFrame _ _) as [[e|] w'] eqn:E; [done|]. injection H as <-.
  by apply WriteFrame_None in E as ->.
Qed.

(** A decodable open frame becomes a registered stream that carries its
    request. *)
Lemma open_received f r s : f.(fr_Type) = FrameOpen -> DecodeOpen f = Ok r -> s.(ss_closed) = false ->
  exists s', receives f s (length s.(ss_heap)) s' /\
    stream_at (length s.(ss_heap)) s' = Some (with_request r (newStream r.(or_RequestID) s.(ss_config))) /\
    lookup_stream r.(or_RequestID) s' = Some (length s.(ss_heap)) /\
    s'.(ss_writer) = s.(ss_writer) /\ s'.(ss_closed) = false /\ s'.(ss_done) = s.(ss_done).
Proof.
  intros Ht Hd Hc. unfold receives, readLoop_frame. rewrite Ht, bool_decide_true, Hd by done.
  cbn [alloc]. cbn [with_heap ss_closed]. rewrite Hc. unfold dispatch.
  assert (forall h, (s.(ss_heap) ++ [h]) !! length s.(ss_heap) = Some h) as Hl.
  { intros h. by rewrite lookup_app_r, Nat.sub_diag by lia. }
  destruct (length _ <? 64)%nat; eexists; (split; [first [by left|by right]|]);
    unfold stream_at, lookup_stream; cbn; rewrite Hl, lookup_insert_eq; by split_and!.
Qed.

Lemma open_register_fields r s q r' s' : open_register r s = (Ok (q, r'), s') ->
  exists w id, s.(ss_writer) = Some w /\ s.(ss_closed) = false /\
    s'.(ss_writer) = Some w /\ s'.(ss_closed) = false /\ s'.(ss_done) = s.(ss_done) /\
    q = length s.(ss_heap) /\ stream_at q s' = Some (newStream id s.(ss_config)) /\
    s'.(ss_heap) = s.(ss_heap) ++ [newStream id s.(ss_config)] /\
    s'.(ss_streams) = <[id := q]> s.(ss_streams) /\
    id = (if r.(or_RequestID) =? 0 then wrap_u 64 (s.(ss_nextID) + 1) else r.(or_RequestID)) /\
    r' = mkOpenRequest id r.(or_ExitID) r.(or_Destination) r.(or_Port)
      (if empty_string r.(or_Protocol) then ProtocolTCP else r.(or_Protocol)) r.(or_ClientSelected).
Proof.
  destruct r as [id exit dest port proto sel]. unfold open_register. cbn [alloc with_nextID with_heap ss_closed ss_writer].
  destruct (ss_closed s) eqn:Ec; [done|]. destruct (ss_writer s) as [w|] eqn:Ew; [|done].
  intros [= <- <- <-]. eexists w, _. cbn. rewrite Ec, Ew. split_and!; try done.
  unfold stream_at. cbn. by rewrite lookup_app_r, Nat.sub_diag by lia.
Qed.

(** What a client may ask for. *)
Definition askable (r : OpenRequest) : Prop :=
  OpenRequest_ok r /\ r.(or_Destination) <> ""%string /\ r.(or_Port) <> 0 /\
  (r.(or_Protocol) = ""%string \/ r.(or_Protocol) = ProtocolTCP).

Lemma opened_sendable r s q r' s' : open_register r s = (Ok (q, r'), s') -> askable r ->
  r'.(or_RequestID) <> 0 -> sendable r'.
Proof.
  intros H ((H1 & H2 & H3 & H4 & H5) & Hd & Hp & Hproto) Hid.
  destruct (open_register_fields _ _ _ _ _ H) as (w & id & _ & _ & _ & _ & _ & _ & _ & _ & _ & -> & ->).
  assert ((if empty_string (or_Protocol r) then ProtocolTCP else or_Protocol r) = ProtocolTCP) as ->.
  { destruct Hproto as [-> | ->]; vm_compute; reflexivity. }
  refine (conj (conj _ (conj H2 (conj H3 (conj H4 _)))) (conj Hid (conj Hd (conj Hp eq_refl)))); [|done].
  cbn. destruct (or_RequestID r =? 0); [|done]. apply Z.mod_pos_bound. lia.
Qed.

Lemma sendable_kept r s q r' s' : open_register r s = (Ok (q, r'), s') -> sendable r -> r' = r.
Proof.
  intros H (_ & Hid & _ & _ & Hp).
  destruct (open_register_fields _ _ _ _ _ H) as (w & id & _ & _ & _ & _ & _ & _ & _ & _ & _ & -> & ->).
  rewrite (proj2 (Z.eqb_neq _ _) Hid), Hp. destruct r; cbn in *; by subst.
Qed.

(** A handler that waits has registered a stream under the client's own ID on
    the exit's session and written the client's request to it. *)
Lemma forward_begin_waits {C} (dial : bytes -> result C) ord c p s i q s' r :
  forward_begin dial ord c p s = Some (Waiting i q, s') -> stream_request c p s = Some r -> sendable r ->
  forwardOpen r ord s = DialExit i r /\
  exists sess sess' w,
    s.(sv_sessions) !! i = Some sess /\ sess.(ss_writer) = Some w /\
    s'.(sv_sessions) = <[i := sess']> s.(sv_sessions) /\
    sess'.(ss_writer) =
      Some (sink_append w (frame_bytes (mkFrame FrameOpen r.(or_RequestID) (print (to_json r))))) /\
    q = length sess.(ss_heap) /\
    sess'.(ss_heap) = sess.(ss_heap) ++ [newStream r.(or_RequestID) sess.(ss_config)] /\
    sess'.(ss_streams) = <[r.(or_RequestID) := q]> sess.(ss_streams).
Proof.
  unfold forward_begin. intros H Hr Hs. rewrite Hr in H.
  assert (Hreject : forall m s0, reject_stream c p m s0 = Some (Waiting i q, s') -> False).
  { intros m s0. unfold reject_stream. by destruct (on_session _ _ _) as [[? ?]|]. }
  destruct (forwardOpen r ord s) as [m|h port|x req] eqn:Ef; [by apply Hreject in H| |].
  { destruct (_ : result C) in H; [|by apply Hreject in H]. unfold accept_stream in H.
    by destruct (on_session _ _ _) as [[[|] ?]|]. }
  assert (req = r) as ->.
  { unfold forwardOpen in Ef. destruct (Select _ _ _ _); [|done]. case_bool_decide; [done|].
    destruct (sv_exitConns s !! _); [by injection Ef|done]. }
  unfold dial_exit in H. destruct (sv_sessions s !! x) as [sess|] eqn:Ex; [|done].
  destruct (open_register r sess) as [[[q0 r0]|e] sess1] eqn:Eo; [|by apply Hreject in H].
  pose proof (sendable_kept _ _ _ _ _ Eo Hs) as ->.
  destruct (open_register_fields _ _ _ _ _ Eo) as (w & id & Hw & _ & Hw' & _ & _ & Hq & _ & Hh & Hm & Hid & _).
  rewrite (proj2 (Z.eqb_neq _ _)) in Hid by apply Hs. subst id.
  unfold on_session in H. cbn [with_sessions sv_sessions] in H.
  rewrite list_lookup_insert_eq in H by by eapply lookup_lt_Some.
  destruct (open_send q0 r sess1) as [[e|] sess2] eqn:Es; [by apply Hreject in H|].
  injection H as <- <- <-. split; [done|]. pose proof (open_send_writes _ _ _ _ Es w Hw') as ->.
  eexists sess, _, w. rewrite list_insert_insert_eq. split_and!; try done.
Qed.

(** An open request reaches the exit unchanged, through the server: what
    the client's [Open] wrote is read by the server's session as a stream with
    the client's request, and when the server sends the request on, what it
    writes to the exit's connection is read by the exit as a stream with the
    same request, whose destination is the address the exit dials. *)
Theorem request_reaches_exit (C : Type) (r r' : OpenRequest) (cs cs1 cs2 : Session) (k : ptr)
  (Hask : askable r) (Hid : r'.(or_RequestID) <> 0)
  (Hopen : open_register r cs = (Ok (k, r'), cs1)) (Hsend : open_send k r' cs1 = (None, cs2)) :
  exists wc f, cs.(ss_writer) = Some wc /\ cs2.(ss_writer) = Some (sink_append wc (frame_bytes f)) /\
  forall (s : Server) (c : sid) (sess : Session),
    s.(sv_sessions) !! c = Some sess -> sess.(ss_closed) = false ->
    exists p sess', receives f sess p sess' /\
    let s1 := with_sessions (<[c := sess']> s.(sv_sessions)) s in
    stream_request c p s1 = Some r' /\
    forall (dial : bytes -> result C) ord i q s2, forward_begin dial ord c p s1 = Some (Waiting i q, s2) ->
    exists xs xs' wx g, s1.(sv_sessions) !! i = Some xs /\ xs.(ss_writer) = Some wx /\
      s2.(sv_sessions) !! i = Some xs' /\ xs'.(ss_writer) = Some (sink_append wx (frame_bytes g)) /\
      forall es, es.(ss_closed) = false ->
      exists p' es' st, receives g es p' es' /\ stream_at p' es' = Some st /\ st.(st_request) = r' /\
        DialDestination st.(st_request).(or_Destination) st.(st_request).(or_Port) =
          Ok (JoinHostPort (bytes_of r.(or_Destination)) (portString r.(or_Port))).
Proof.
  pose proof (opened_sendable _ _ _ _ _ Hopen Hask Hid) as Hs.
  destruct (open_register_fields _ _ _ _ _ Hopen) as (w & id & Hw & _ & Hw' & _ & _ & _ & _ & _ & _ & _ & Hr').
  pose proof (open_send_writes _ _ _ _ Hsend w Hw') as ->.
  pose proof (open_frame_decodes r' Hs) as Hdec.
  exists w, (mkFrame FrameOpen r'.(or_RequestID) (print (to_json r'))). split_and!; [done|done|].
  intros s c sess Hc Hopen1. destruct (open_received (mkFrame _ _ _) _ sess eq_refl Hdec Hopen1) as (sess' & Hrec & Hst & _).
  exists (length (ss_heap sess)), sess'. split; [done|]. intros s1.
  assert (stream_request c (length (ss_heap sess)) s1 = Some r') as Hreq.
  { unfold stream_request, s1. cbn. rewrite list_lookup_insert_eq by by eapply lookup_lt_Some. by rewrite Hst. }
  split; [exact Hreq|]. intros dial ord i q s2 Hf.
  destruct (forward_begin_waits _ _ _ _ _ _ _ _ _ Hf Hreq Hs) as (_ & xs & xs' & wx & Hx & Hwx & Hss & Hwx' & _).
  exists xs, xs', wx, (mkFrame FrameOpen r'.(or_RequestID) (print (to_json r'))).
  split_and!; try done. { rewrite Hss, list_lookup_insert_eq by by eapply lookup_lt_Some. done. }
  intros es He. destruct (open_received (mkFrame _ _ _) _ es eq_refl Hdec He) as (es' & Hrec' & Hst' & _).
  eexists _, es', _. split_and!; [done|done|done|]. cbn. unfold DialDestination.
  destruct Hs as (_ & _ & Hd & Hp & _). rewrite Hr' in *. cbn [or_Destination or_Port] in *.
  unfold empty_string. by rewrite bool_decide_false, (proj2 (Z.eqb_neq _ _) Hp) by done.
Qed.

(* ------------------------------------------------------------------ *)
(** ** One hop of an answer *)

(** The stream [p] of [s] is to answer the stream [q] of [t], which waits, both
    under the ID [n]. *)
Definition linked (n : Z) (s : Session) (p : ptr) (t : Session) (q : ptr) : Prop :=
  (exists st, stream_at p s = Some st /\ st.(st_id) = n /\ string_ok st.(st_remoteExit)) /\
  lookup_stream n t = Some q /\
  exists st, stream_at q t = Some st /\ st.(st_ack) = [].

(** What was written between [out] and [out'] is one frame, and the read loop of
    [t] goes on with [t'] after it. *)
Definition delivers (out out' t t' : Session) : Prop :=
  exists w f, out.(ss_writer) = Some w /\ out'.(ss_writer) = Some (sink_append w (frame_bytes f)) /\
    readLoop_frame f t = Continue t'.

Lemma ack_delivered n (a : Ack) s s1 s' t q st : writeFrameJSON FrameOpenAck n a s = (None, s1) ->
  s'.(ss_writer) = s1.(ss_writer) -> Ack_ok a ->
  lookup_stream n t = Some q -> stream_at q t = Some st -> st.(st_ack) = [] ->
  delivers s s' t (set_stream q (with_ack [a] st) t).
Proof.
  intros Hw Hs Ha Hl Hst Hack. apply writeFrameJSON_None in Hw as (w & Hw & Hw').
  exists w, (mkFrame FrameOpenAck n (print (to_json a))). rewrite Hs. split_and!; [done|done|].
  unfold readLoop_frame. cbn [fr_Type]. rewrite bool_decide_false, bool_decide_true by done.
  unfold DecodeJSON. cbn [fr_Payload fr_ID]. rewrite (@Unmarshal_Marshal _ _ Ack_laws a _ Ha eq_refl), Hl, Hst.
  unfold push_ack. by rewrite Hack.
Qed.

Lemma set_stream_at q st st' t : stream_at q t = Some st' -> stream_at q (set_stream q st t) = Some st.
Proof. unfold stream_at, set_stream. cbn. intros H. apply list_lookup_insert_eq. by eapply lookup_lt_Some. Qed.

Lemma accept_hop n s p t q s' : linked n s p t q -> Stream_Accept p s = (None, s') ->
  exists t' t'', delivers s s' t t' /\ open_wait q OnAck t' = Some (Ok q, t'').
Proof.
  intros ((st & Hst & Hn & Hex) & Hl & sq & Hq & Hack). unfold Stream_Accept. rewrite Hst, Hn.
  destruct (st_done st); [done|]. destruct (writeFrameJSON _ _ _ _) as [[e|] s1] eqn:E; [done|]. intros [= <-].
  exists (set_stream q (with_ack [mkAck true "" st.(st_remoteExit) ""] sq) t). eexists. split.
  - by eapply ack_delivered.
  - unfold open_wait. rewrite (set_stream_at _ _ _ _ Hq). cbn [with_ack st_ack ack_OK]. reflexivity.
Qed.

Lemma reject_hop n s p t q s' m : linked n s p t q -> Stream_Reject p m s = (None, s') ->
  m <> ""%string -> string_ok m ->
  exists t' t'', delivers s s' t t' /\ open_wait q OnAck t' = Some (Err (ENew m), t'').
Proof.
  intros ((st & Hst & Hn & _) & Hl & sq & Hq & Hack) H Hne Hm. unfold Stream_Reject in H. rewrite Hst, Hn in H.
  destruct (writeFrameJSON _ _ _ _) as [e s1] eqn:E. injection H as -> <-.
  exists (set_stream q (with_ack [mkAck false m "" ""] sq) t). eexists. split.
  - eapply ack_delivered; try done; first [apply forceClose_writer|by split_and!].
  - unfold open_wait. rewrite (set_stream_at _ _ _ _ Hq). cbn [with_ack st_ack ack_OK ack_Error].
    unfold empty_string. rewrite bool_decide_false by done. reflexivity.
Qed.

(** [s] with the session [i] replaced. *)
Definition put (i : sid) (sess : Session) (s : Server) : Server :=
  with_sessions (<[i := sess]> s.(sv_sessions)) s.

Lemma on_session_put {A} c i (f : Session -> A * Session) sess sess' s :
  c <> i -> s.(sv_sessions) !! c = Some sess ->
  on_session c f (put i sess' s) =
    Some ((f sess).1, with_sessions (<[c := (f sess).2]> (<[i := sess']> s.(sv_sessions))) s).
Proof.
  intros Hne Hc. unfold on_session, put. cbn. rewrite list_lookup_insert_ne, Hc by done. by destruct (f sess).
Qed.

Lemma forward_end_put choice c p i q xs xs' s : s.(sv_sessions) !! i = Some xs ->
  forward_end choice c p i q (put i xs' s) =
  match open_wait q choice xs' with
  | None => None
  | Some (Err err, xs'') => reject_stream c p ("exit unavailable: " +:+ Error err) (put i xs'' s)
  | Some (Ok q, xs'') =>
      accept_stream c p (RelayExit i q)
        (fun s => match on_session i (Stream_Close q) s with Some (_, s) => s | None => s end) (put i xs'' s)
  end.
Proof.
  intros Hi. unfold forward_end, put. cbn [with_sessions sv_sessions].
  rewrite list_lookup_insert_eq by by eapply lookup_lt_Some.
  destruct (open_wait q choice xs') as [[[|] ?]|]; by rewrite ?list_insert_insert_eq.
Qed.

(** The exit's verdict as [serve] sends it. *)
Lemma serve_accepts {T C} (dial : bytes -> result C) p es (e : Exit T) es' e' :
  serve dial p es e = (true, es', e') -> Stream_Accept p es = (None, es').
Proof.
  unfold serve. destruct (stream_at p es); [|done]. destruct (_ : result C); [|done].
  destruct (Stream_Accept p es) as [[|] ?]; [done|]. by intros [= <- _].
Qed.

Lemma serve_refuses {T C} (dial : bytes -> result C) p es (e : Exit T) st address err :
  stream_at p es = Some st ->
  DialDestination st.(st_request).(or_Destination) st.(st_request).(or_Port) = Ok address ->
  dial address = Err err ->
  serve dial p es e = (false, (Stream_Reject p ("destination unavailable: " +:+ Error err) es).2, e).
Proof. intros Hst Ha Hd. unfold serve. rewrite Hst, Ha. cbn. by rewrite Hd. Qed.

Lemma put_lookup c i sess sess' s : c <> i -> is_Some (s.(sv_sessions) !! c) ->
  sv_sessions (with_sessions (<[c := sess]> (<[i := sess']> s.(sv_sessions))) s) !! c = Some sess.
Proof.
  intros Hne [x Hx]. cbn. apply list_lookup_insert_eq. rewrite length_insert. by eapply lookup_lt_Some.
Qed.

(** The exit's verdict is what the client's [Open] returns.  When the exit
    has dialled the destination and accepted, the server relays and the client
    gets its stream, unless the server cannot write to the client, which drops
    both ends.  When the exit cannot reach the destination, nothing is relayed
    and the client's [Open] fails with the exit's reason. *)
Theorem verdict_reaches_client {T C : Type} (dial : bytes -> result C) (e e' : Exit T) (n : Z)
  (es xs sess cs es' : Session) (s : Server) (c i : sid) (x p q k : ptr) (b : bool) (stx : Stream)
  (Hx : stream_at x es = Some stx) (Hxq : linked n es x xs q) (Hpk : linked n sess p cs k)
  (Hne : c <> i) (Hi : s.(sv_sessions) !! i = Some xs) (Hc : s.(sv_sessions) !! c = Some sess)
  (Hserve : serve dial x es e = (b, es', e')) :
  (b = true ->
   exists xs' fw s2, delivers es es' xs xs' /\
     forward_end OnAck c p i q (put i xs' s) = Some (fw, s2) /\
     match fw with
     | RelayExit i' q' => i' = i /\ q' = q /\
         exists sess' cs' cs'', s2.(sv_sessions) !! c = Some sess' /\ delivers sess sess' cs cs' /\
           open_wait k OnAck cs' = Some (Ok k, cs'')
     | Dropped => (Stream_Accept p sess).1 <> None
     | _ => False
     end) /\
  (forall address err, DialDestination stx.(st_request).(or_Destination) stx.(st_request).(or_Port) = Ok address ->
   dial address = Err err ->
   let reason := ("destination unavailable: " +:+ Error err)%string in
   let told := ("exit unavailable: " +:+ reason)%string in
   string_ok reason -> string_ok told -> (Stream_Reject x reason es).1 = None ->
   b = false /\
   exists xs' s2, delivers es es' xs xs' /\
     forward_end OnAck c p i q (put i xs' s) = Some (Rejected told, s2) /\
     ((Stream_Reject p told sess).1 = None ->
      exists sess' cs' cs'', s2.(sv_sessions) !! c = Some sess' /\ delivers sess sess' cs cs' /\
        open_wait k OnAck cs' = Some (Err (ENew told), cs''))).
Proof.
  split.
  - intros ->. pose proof (serve_accepts _ _ _ _ _ _ Hserve) as Ha.
    destruct (accept_hop _ _ _ _ _ _ Hxq Ha) as (xs' & xs'' & Hd & Hw). exists xs'.
    rewrite (forward_end_put _ _ _ _ _ _ _ _ Hi), Hw. unfold accept_stream.
    rewrite (on_session_put c i _ sess) by done.
    destruct (Stream_Accept p sess) as [[e0|] sess'] eqn:Es; eexists _, _; (split; [done|]); (split; [reflexivity|]); [done|].
    split_and!; try done. destruct (accept_hop _ _ _ _ _ _ Hpk Es) as (cs' & cs'' & Hd' & Hw').
    exists sess', cs', cs''. split_and!; try done. apply put_lookup; by eauto.
  - intros address err Hda Hdial reason told Hok1 Hok2 Hrej.
    rewrite (serve_refuses dial x es e stx address err) in Hserve by done. injection Hserve as <- <- _.
    split; [done|]. destruct (Stream_Reject x reason es) as [o es1] eqn:Er. cbn in Hrej. subst o.
    destruct (reject_hop _ _ _ _ _ _ _ Hxq Er) as (xs' & xs'' & Hd & Hw); [done|done|].
    exists xs'. rewrite (forward_end_put _ _ _ _ _ _ _ _ Hi), Hw. change (Error (ENew reason)) with reason. fold told.
    unfold reject_stream. rewrite (on_session_put c i _ sess) by done. eexists. split; [|split; [reflexivity|]].
    { unfold reason in Er. by rewrite Er. }
    intros Hrej. destruct (Stream_Reject p told sess) as [o sess'] eqn:Es. cbn in Hrej. subst o.
    destruct (reject_hop _ _ _ _ _ _ _ Hpk Es) as (cs' & cs'' & Hd' & Hw'); [done|done|].
    exists sess', cs', cs''. split_and!; try done. apply put_lookup; by eauto.
Qed.

(* ------------------------------------------------------------------ *)
(** ** Two clients of one exit *)

(** No frame under the ID [n] touches a stream that is not the one registered
    under [n]. *)
Lemma frame_touches_registered f s q1 q2 n : f.(fr_ID) = n -> lookup_stream n s = Some q2 -> q1 <> q2 ->
  (q1 < length s.(ss_heap))%nat ->
  stream_at q1 (outcome_session (readLoop_frame f s)) = stream_at q1 s.
Proof.
  intros Hn Hl Hne Hlt. unfold readLoop_frame.
  assert (forall st, stream_at q1 (with_heap (s.(ss_heap) ++ [st]) s) = stream_at q1 s) as Hh.
  { intros st. unfold stream_at. cbn. by apply lookup_app_l. }
  assert (forall st, stream_at q1 (set_stream q2 st s) = stream_at q1 s) as Hs.
  { intros st. unfold stream_at. cbn. by apply list_lookup_insert_ne. }
  assert (forall A `{Json A} t id (v : A), stream_at q1 (writeFrameJSON t id v s).2 = stream_at q1 s) as Hw.
  { intros. unfold writeFrameJSON. destruct (ss_done s), (ss_closed s), (ss_writer s); try done.
    by destruct (WriteJSON _ _ _ _). }
  case_bool_decide.
  { destruct (DecodeOpen f) as [r|e]; [|apply Hw]. cbn [alloc]. cbn [with_heap ss_closed].
    destruct (ss_closed s); cbn [outcome_session].
    - rewrite forceClose_other by lia. apply Hh.
    - unfold dispatch. destruct (_ <? 64)%nat; apply Hh. }
  rewrite Hn, Hl. repeat case_bool_decide.
  - destruct (DecodeJSON f) as [a [e|]]; [done|]. destruct (stream_at q2 s); [apply Hs|done].
  - by destruct (fr_Payload f).
  - unfold remoteClose. cbn. destruct (stream_at q2 s); [|done]. destruct (st_remoteEOF _); [done|apply Hs].
  - destruct (DecodeJSON f). cbn. by rewrite forceClose_other.
  - by destruct (ss_control s).
Qed.

(** Two clients of one exit collide: requests of two clients that carry the
    same ID, as the first requests of all clients do, share one slot of the
    exit's session.  Once the second is sent on, what the exit sends under that
    ID, also for the first request, goes to the second client's stream, and no
    frame under that ID changes the first one's again, the answer its [Open]
    waits for included. *)
Theorem clients_collide {C : Type} (dial : bytes -> result C) (s s1 s2 : Server) (ord ord' : order)
  (c c' i : sid) (p p' q q' : ptr) (r r' : OpenRequest)
  (Hr : stream_request c p s = Some r) (Hs : sendable r) (Hf : forward_begin dial ord c p s = Some (Waiting i q, s1))
  (Hr' : stream_request c' p' s1 = Some r') (Hs' : sendable r')
  (Hf' : forward_begin dial ord' c' p' s1 = Some (Waiting i q', s2))
  (Hid : r.(or_RequestID) = r'.(or_RequestID)) :
  exists xs, s2.(sv_sessions) !! i = Some xs /\ q <> q' /\
    (exists st, stream_at q xs = Some st /\ st.(st_ack) = [] /\ st.(st_reads) = [] /\ st.(st_done) = false) /\
    (forall data, data <> [] ->
       readLoop_frame (mkFrame FrameData r.(or_RequestID) data) xs = Deliver q' data xs) /\
    (forall f, f.(fr_ID) = r.(or_RequestID) ->
       stream_at q (outcome_session (readLoop_frame f xs)) = stream_at q xs).
Proof.
  destruct (forward_begin_waits _ _ _ _ _ _ _ _ _ Hf Hr Hs) as (_ & xs & xs1 & w & Hx & _ & Hs1 & _ & Hq & Hh & _).
  destruct (forward_begin_waits _ _ _ _ _ _ _ _ _ Hf' Hr' Hs') as (_ & xs1' & xs2 & w' & Hx' & _ & Hs2 & _ & Hq' & Hh' & Hm).
  rewrite Hs1, list_lookup_insert_eq in Hx' by by eapply lookup_lt_Some. injection Hx' as <-.
  assert (q < q')%nat by (rewrite Hq, Hq', Hh, length_app; cbn; lia).
  exists xs2. split_and!.
  - rewrite Hs2, list_lookup_insert_eq; [done|]. rewrite Hs1, length_insert. by eapply lookup_lt_Some.
  - lia.
  - unfold stream_at. rewrite Hh', lookup_app_l by lia. rewrite Hh, Hq, lookup_app_r, Nat.sub_diag by lia. by eexists.
  - intros data Hd. unfold readLoop_frame. cbn [fr_Type fr_ID fr_Payload].
    rewrite !bool_decide_false, bool_decide_true by done. unfold lookup_stream. rewrite Hm, Hid, lookup_insert_eq.
    by destruct data.
  - intros f Hfid. apply (frame_touches_registered _ _ _ q' r.(or_RequestID)); [done| |lia|rewrite Hh', length_app; lia].
    unfold lookup_stream. by rewrite Hm, Hid, lookup_insert_eq.
Qed.

(* ------------------------------------------------------------------ *)
(** ** A run: two clients and the exit [paris] *)

Definition demo_wire : Sink := mkSink [] None EOF.
Definition demo_peer : Session := (Session.Start (Ok demo_wire) true (New (Session.mkConfig 0 0))).2.

Definition demo_hub : Server :=
  let s := (handleClient_begin demo_wire [] demo_server).2 in
  let s := (handleClient_begin demo_wire [] s).2 in
  let s := (handleExit_begin demo_wire s).2 in
  demo_register 2 s.

Definition demo_order (s : Server) : order := map_to_list (rg_exits (sv_registry s)).

Definition demo_ask (host : string) : OpenRequest := mkOpenRequest 0 "paris" host 443 "" true.
Definition demo_asked (host : string) : OpenRequest := mkOpenRequest 1 "paris" host 443 "tcp" true.
Definition demo_frame (host : string) : Frame :=
  mkFrame FrameOpen 1 (print (to_json (demo_asked host))).

(** Session [c] reads an open frame. *)
Definition demo_receive (c : sid) (f : Frame) (s : Server) : Server :=
  match s.(sv_sessions) !! c with
  | Some sess => put c (outcome_session (readLoop_frame f sess)) s
  | None => s
  end.

Definition demo_dial (ok : bool) (address : bytes) : result unit :=
  if ok then Ok tt else Err (ENew "connection refused").

Definition demo_forward (c : sid) (p : ptr) (s : Server) : Server :=
  match forward_begin (demo_dial true) (demo_order s) c p s with Some (_, s) => s | None => s end.

Definition demo_both : Server :=
  demo_receive 1 (demo_frame "b.example") (demo_receive 0 (demo_frame "a.example") demo_hub).
Definition demo_first : Server := demo_forward 0 0 demo_both.

Lemma demo_sendable host : string_ok host -> host <> ""%string -> sendable (demo_asked host).
Proof. intros. split; [|done]. refine (conj _ (conj _ (conj _ (conj _ _)))); done. Qed.

Lemma clients_collide_witness : exists xs, (demo_forward 1 0 demo_first).(sv_sessions) !! 2%nat = Some xs /\
  readLoop_frame (mkFrame FrameData 1 (bytes_of "for a")) xs = Deliver 1 (bytes_of "for a") xs.
Proof.
  destruct (clients_collide (demo_dial true) demo_both demo_first (demo_forward 1 0 demo_first)
    (demo_order demo_both) (demo_order demo_first) 0 1 2 0 0 0 1 (demo_asked "a.example") (demo_asked "b.example"))
    as (xs & H1 & _ & _ & H2 & _);
    try (vm_compute; reflexivity).
  - by apply demo_sendable.
  - by apply demo_sendable.
  - exists xs. split; [exact H1|]. apply H2. discriminate.
Defined.

Definition demo_open : Session := (open_register (demo_ask "a.example") demo_peer).2.

Lemma request_reaches_exit_witness : exists wc f, demo_peer.(ss_writer) = Some wc /\
  (open_send 0 (demo_asked "a.example") demo_open).2.(ss_writer) = Some (sink_append wc (frame_bytes f)).
Proof.
  destruct (request_reaches_exit unit (demo_ask "a.example") (demo_asked "a.example") demo_peer demo_open
    (open_send 0 (demo_asked "a.example") demo_open).2 0) as (wc & f & H1 & H2 & _).
  - split; [refine (conj _ (conj _ (conj _ (conj _ _)))); done|]. split_and!; [done|done|by left].
  - done.
  - vm_compute. reflexivity.
  - vm_compute. reflexivity.
  - exists wc, f. split; [exact H1|exact H2].
Defined.

(** The server of that run sends the request on and waits. *)
Example demo_waits :
  option_map fst (forward_begin (demo_dial true) (demo_order demo_both) 0 0 demo_both) = Some (Waiting 2 0).
Proof. vm_compute. reflexivity. Qed.

(** The exit with the stream of the first request. *)
Definition demo_exit_session : Session := outcome_session (readLoop_frame (demo_frame "a.example") demo_peer).

Definition session_of (i : sid) (s : Server) : Session := default demo_peer (s.(sv_sessions) !! i).

Lemma verdict_reaches_client_witness :
  exists xs' s2, delivers demo_exit_session (serve (demo_dial false) 0 demo_exit_session demo_exit).1.2
      (session_of 2 demo_first) xs' /\
    forward_end OnAck 0 0 2 0 (put 2 xs' demo_first) =
      Some (Rejected "exit unavailable: destination unavailable: connection refused", s2).
Proof.
  destruct (verdict_reaches_client (demo_dial false) demo_exit demo_exit 1 demo_exit_session
    (session_of 2 demo_first) (session_of 0 demo_first) (open_send 0 (demo_asked "a.example") demo_open).2
    (serve (demo_dial false) 0 demo_exit_session demo_exit).1.2 demo_first 0 2 0 0 0 0 false
    (with_request (demo_asked "a.example") (newStream 1 (ss_config demo_peer)))) as [_ H].
  - vm_compute. reflexivity.
  - split; [|split].
    + eexists. split; [vm_compute; reflexivity|]. split; reflexivity.
    + vm_compute. reflexivity.
    + eexists. split; [vm_compute; reflexivity|reflexivity].
  - split; [|split].
    + eexists. split; [vm_compute; reflexivity|]. split; reflexivity.
    + vm_compute. reflexivity.
    + eexists. split; [vm_compute; reflexivity|reflexivity].
  - discriminate.
  - vm_compute. reflexivity.
  - vm_compute. reflexivity.
  - vm_compute. reflexivity.
  - destruct (H (bytes_of "a.example:443") (ENew "connection refused")) as (_ & xs' & s2 & H1 & H2 & _).
    + vm_compute. reflexivity.
    + reflexivity.
    + vm_compute. reflexivity.
    + vm_compute. reflexivity.
    + vm_compute. reflexivity.
    + exists xs', s2. split; [exact H1|exact H2].
Defined.
