(* ===== verification/Tunnel.v ===== *)
(** * Tunnels: from a local proxy request to the connection the exit makes

    The parts of the program composed as they run: the SOCKS5 front end asks
    the dialer of [internal/client/runtime.go], which asks the manager's session
    for a stream; the server forwards the request to an exit, or dials itself;
    the verdict comes back the same way.  Every hop goes through the bytes the
    writer of a session puts on its connection and the frame that the read loop
    at the other end makes of them.  The passage is undisturbed: no other frame
    is on its way. *)
From S2P Require Import Prelude GoIO GoStrings GoTime Json Codec Protocol Registry RateLimiter Session.
From S2P Require Import SessionSteps SessionProps GoText GoFS GoNet Config Trust Server ServerProps.
From S2P Require Import Exit SystemProxy Runtime ClientStreams Manager Forwarding Socks5 HttpConnect.

(* ------------------------------------------------------------------ *)
(** ** The passage of a request *)

(** The client's session, the server, the exit's session and state, and what
    became of the last request at the server. *)
Record Path (T : Type) := mkPath {
  pa_client : Session;
  pa_server : Server;
  pa_exit : Session;
  pa_node : Exit T;
  pa_forwarded : option forwarding
}.
Arguments mkPath {T}.
Arguments pa_client {T}.
Arguments pa_server {T}.
Arguments pa_exit {T}.
Arguments pa_node {T}.
Arguments pa_forwarded {T}.

Definition written_by (s : Session) : bytes :=
  match s.(ss_writer) with Some w => w.(sk_out) | None => [] end.

(** [peer] after its read loop has handled the frame written between [before]
    and [after]; nothing happens when none was. *)
Definition arrives (before after peer : Session) : Session :=
  match drop (length (written_by before)) (written_by after) with
  | [] => peer
  | sent => outcome_session (readLoop_step (ReadFrame (mkReader sent EOF)).1 peer)
  end.

Definition session_at (i : sid) (s : Server) (default_session : Session) : Session :=
  default default_session (s.(sv_sessions) !! i).

(** The end of the client's [Open]: an answer, or its context's deadline. *)
Definition await (k : ptr) (cs : Session) : result ptr * Session :=
  match open_wait k OnAck cs with
  | Some r => r
  | None => default (Err ErrDeadlineExceeded, cs) (open_wait k (OnContext ErrDeadlineExceeded) cs)
  end.

Section Tunnel.
Context {T C : Type}.
(** The dial of the server and that of the exit. *)
Variables dialS dialX : bytes -> result C.
(** The order in which the server goes through its exits, and the number of the
    client's session there. *)
Variables (ord : order) (c : sid).

(** What the server and the exit do with a request that has become the stream
    [p] of the client's session at the server. *)
Definition serve_request (p : ptr) (path : Path T) : Path T :=
  match forward_begin dialS ord c p path.(pa_server) with
  | None => mkPath path.(pa_client) path.(pa_server) path.(pa_exit) path.(pa_node) None
  | Some (Waiting i q, s2) =>
      let xs := session_at i path.(pa_server) path.(pa_exit) in
      let xs' := session_at i s2 path.(pa_exit) in
      let es := arrives xs xs' path.(pa_exit) in
      let '(_, es', node) := serve dialX (length path.(pa_exit).(ss_heap)) es path.(pa_node) in
      let s3 := put i (arrives es es' xs') s2 in
      match forward_end OnAck c p i q s3 with
      | Some (fw, s4) => mkPath path.(pa_client) s4 es' node (Some fw)
      | None => mkPath path.(pa_client) s3 es' node (Some (Waiting i q))
      end
  | Some (fw, s2) => mkPath path.(pa_client) s2 path.(pa_exit) path.(pa_node) (Some fw)
  end.

(** [Session.Dial] on the client's session. *)
Definition tunnel_open (request : OpenRequest) (path : Path T) : result ptr * Path T :=
  let '(mkPath cs s es node fw) := path in
  match open_register request cs with
  | (Err e, cs) => (Err e, mkPath cs s es node fw)
  | (Ok (k, r), cs1) =>
      match open_send k r cs1 with
      | (Some e, cs2) => (Err e, mkPath cs2 s es node fw)
      | (None, cs2) =>
          let sess := session_at c s cs in
          let sess1 := arrives cs1 cs2 sess in
          let path := serve_request (length sess.(ss_heap)) (mkPath cs2 (put c sess1 s) es node None) in
          let cs3 := arrives sess1 (session_at c path.(pa_server) sess1) cs2 in
          let '(verdict, cs4) := await k cs3 in
          (verdict, mkPath cs4 path.(pa_server) path.(pa_exit) path.(pa_node) path.(pa_forwarded))
      end
  end.

(** [Manager.Dial]. *)
Definition manager_dial (m : Manager) (request : OpenRequest) (path : Path T) : result ptr * Path T :=
  match Manager_Dial m with
  | Err e => (Err e, path)
  | Ok _ => tunnel_open request path
  end.

(** [managerDialer.Dial] with the streams it hands out. *)
Definition dialer_dial (r : Runtime) (m : Manager) (host : bytes) (port : Z) (s : streams) (path : Path T)
  : result ptr * streams * Path T :=
  match manager_dial m (open_request (string_of host) port r.(rt_exitID)) path with
  | (Ok k, path) => (Ok k, count_stream s, path)
  | (Err e, path) =>
      if r.(rt_fallback) && negb (bool_decide (r.(rt_exitID) = "auto"%string)) then
        match manager_dial m (open_request (string_of host) port "auto") path with
        | (Ok k, path) => (Ok k, count_stream s, path)
        | (Err e, path) => (Err e, s, path)
        end
      else (Err e, s, path)
  end.

(** [dialer_dial] is [Dialer_Dial] of [ClientStreams.v] for the answers that
    the path gives. *)
Definition answer_of (r : result ptr * Path T) : option error :=
  match r.1 with Ok _ => None | Err e => Some e end.

Lemma dialer_dial_Dialer_Dial r m host port s path :
  let first request := answer_of (manager_dial m request path) in
  let path1 := (manager_dial m (open_request (string_of host) port r.(rt_exitID)) path).2 in
  let second request := answer_of (manager_dial m request path1) in
  let '(res, s', _) := dialer_dial r m host port s path in
  let '(err, _, s'') := Dialer_Dial r (string_of host) port first second s in
  s' = s'' /\ answer_of (res, path) = err.
Proof.
  cbv zeta. unfold dialer_dial, Dialer_Dial, answer_of. destruct (manager_dial m _ path) as [[k|e] path1]; [done|].
  cbn [fst snd]. destruct (_ && _); [|done]. by destruct (manager_dial m _ path1) as [[k|e'] path2].
Qed.
End Tunnel.

(* ------------------------------------------------------------------ *)
(** ** Sessions in good order *)

(** The session is open and its connection takes whatever is written. *)
Definition healthy (s : Session) : Prop :=
  s.(ss_closed) = false /\ s.(ss_done) = false /\ exists w, s.(ss_writer) = Some w /\ w.(sk_room) = None.

Definition fits {A} `{Json A} (a : A) : Prop := Z.of_nat (length (print (to_json a))) <= MaxFrameSize.

(** [s] once the frame [f] has been written. *)
Definition sent (f : Frame) (s : Session) : Session :=
  with_writer ((fun w => sink_append w (frame_bytes f)) <$> s.(ss_writer)) s.

Definition json_frame {A} `{Json A} (t : FrameType) (n : Z) (a : A) : Frame := mkFrame t n (print (to_json a)).

Lemma send_json {A} `{Json A} t n (a : A) s : healthy s -> fits a ->
  writeFrameJSON t n a s = (None, sent (json_frame t n a) s).
Proof.
  intros (Hc & Hd & w & Hw & Hr) Hf. unfold writeFrameJSON. rewrite Hc, Hd, Hw.
  unfold WriteJSON, Marshal, Writer_Write. rewrite WriteFrame_room; [|done|by unfold has_room; rewrite Hr].
  unfold sent. by rewrite Hw.
Qed.

Lemma send_open k r s : healthy s -> fits r ->
  open_send k r s = (None, sent (json_frame FrameOpen r.(or_RequestID) r) s).
Proof.
  intros (Hc & Hd & w & Hw & Hr) Hf. unfold open_send. rewrite Hw.
  unfold WriteJSON, Marshal, Writer_Write. rewrite WriteFrame_room; [|done|by unfold has_room; rewrite Hr].
  unfold sent. by rewrite Hw.
Qed.

Lemma healthy_sent f s : healthy s -> healthy (sent f s).
Proof.
  intros (Hc & Hd & w & Hw & Hr). split_and!; [done|done|]. unfold sent. rewrite Hw.
  eexists. split; [reflexivity|]. cbn. by rewrite Hr.
Qed.

(** Health depends on three fields. *)
Lemma healthy_same s s' : healthy s -> s'.(ss_closed) = s.(ss_closed) -> s'.(ss_done) = s.(ss_done) ->
  s'.(ss_writer) = s.(ss_writer) -> healthy s'.
Proof. unfold healthy. by intros H -> -> ->. Qed.

Lemma arrives_sent f s s' peer : healthy s -> s'.(ss_writer) = (sent f s).(ss_writer) -> frame_ok f ->
  arrives s s' peer = outcome_session (readLoop_frame f peer).
Proof.
  intros (_ & _ & w & Hw & Hr) Hs Hf. unfold arrives, written_by. rewrite Hs. unfold sent. rewrite Hw. cbn [with_writer ss_writer fmap option_fmap option_map].
  unfold sink_append. cbn [sk_out]. rewrite drop_app_length.
  pose proof (ReadFrame_frame_bytes f [] EOF Hf) as Hread. rewrite app_nil_r in Hread.
  destruct (frame_bytes f) as [|b l]; [done|]. by rewrite Hread.
Qed.

(* ------------------------------------------------------------------ *)
(** ** A stream at one end *)

(** The stream [p] of [s] carries the ID [n] and is open. *)
Definition connected (n : Z) (s : Session) (p : ptr) : Prop :=
  lookup_stream n s = Some p /\
  exists st, stream_at p s = Some st /\ st.(st_id) = n /\ st.(st_done) = false /\ st.(st_closed) = false.

(** And nothing has been said about it yet. *)
Definition fresh_stream (n : Z) (s : Session) (p : ptr) : Prop :=
  lookup_stream n s = Some p /\
  exists st, stream_at p s = Some st /\ st.(st_id) = n /\ st.(st_done) = false /\ st.(st_closed) = false /\
    st.(st_closeOnce) = false /\ st.(st_ack) = [] /\ st.(st_remoteExit) = ""%string.

Lemma fresh_connected n s p : fresh_stream n s p -> connected n s p.
Proof. intros (Hl & st & Hst & Hn & Hd & Hc & _). split; [done|]. by exists st. Qed.

Lemma fresh_same n s s' p : fresh_stream n s p -> s'.(ss_heap) = s.(ss_heap) -> s'.(ss_streams) = s.(ss_streams) ->
  fresh_stream n s' p.
Proof. unfold fresh_stream, lookup_stream, stream_at. by intros H -> ->. Qed.
Lemma connected_same n s s' p : connected n s p -> s'.(ss_heap) = s.(ss_heap) -> s'.(ss_streams) = s.(ss_streams) ->
  connected n s' p.
Proof. unfold connected, lookup_stream, stream_at. by intros H -> ->. Qed.

Definition accepted : Ack := mkAck true "" "" "".
Definition refused (message : string) : Ack := mkAck false message "" "".

Lemma Stream_Accept_fresh n s p : fresh_stream n s p -> healthy s ->
  Stream_Accept p s = (None, sent (json_frame FrameOpenAck n accepted) s).
Proof.
  intros (_ & st & Hst & Hn & Hd & _ & _ & _ & Hx) Hh. unfold Stream_Accept. rewrite Hst, Hd, Hn, Hx.
  fold accepted. rewrite send_json; [done|done|]. vm_compute. discriminate.
Qed.

Lemma Stream_Reject_fresh n s p m : fresh_stream n s p -> healthy s -> fits (refused m) ->
  Stream_Reject p m s = (None, forceClose p (ENew m) (sent (json_frame FrameOpenAck n (refused m)) s)).
Proof.
  intros (_ & st & Hst & Hn & _) Hh Hf. unfold Stream_Reject. rewrite Hst, Hn. fold (refused m).
  by rewrite send_json.
Qed.

(** A closed stream is no longer registered. *)
Lemma unregister_gone n s p st : lookup_stream n s = Some p -> stream_at p s = Some st -> st.(st_id) = n ->
  lookup_stream n (unregister p s) = None.
Proof.
  unfold lookup_stream, unregister. intros Hl -> Hn. rewrite Hn, bool_decide_true by done. apply lookup_delete_eq.
Qed.

Lemma forceClose_keeps_gone n s p e : lookup_stream n s = None -> lookup_stream n (forceClose p e s) = None.
Proof.
  unfold lookup_stream, forceClose, unregister. intros Hn. destruct (stream_at p s) as [st|] eqn:E; [|done].
  destruct (st_closeOnce st); [done|]. rewrite (set_stream_at _ _ _ _ E). case_bool_decide as Hb; [|done].
  cbn in *. destruct (decide (st_id st = n)) as [->|Hne]; [by apply lookup_delete_eq|by rewrite lookup_delete_ne].
Qed.

Lemma forceClose_gone n s p e : fresh_stream n s p -> lookup_stream n (forceClose p e s) = None.
Proof.
  intros (Hl & st & Hst & Hn & _ & _ & Ho & _). unfold forceClose. rewrite Hst, Ho.
  eapply (unregister_gone n (set_stream p _ s)); [done|by eapply set_stream_at|done].
Qed.

(** The answer read where the stream waits. *)
Definition answered (a : Ack) (p : ptr) (s : Session) : Session :=
  match stream_at p s with Some st => set_stream p (with_ack [a] st) s | None => s end.

Lemma answer_arrives n s s' t q (a : Ack) : healthy s -> s'.(ss_writer) = (sent (json_frame FrameOpenAck n a) s).(ss_writer) ->
  0 <= n < 2 ^ 64 -> fits a -> Ack_ok a -> fresh_stream n t q ->
  arrives s s' t = answered a q t.
Proof.
  intros Hh Hs Hn Hf Ha (Hl & st & Hst & Hid & _ & _ & _ & Hack & _).
  rewrite (arrives_sent (json_frame FrameOpenAck n a) s s') by done.
  unfold readLoop_frame, json_frame. cbn [fr_Type]. rewrite bool_decide_false, bool_decide_true by done.
  unfold DecodeJSON. cbn [fr_Payload fr_ID].
  rewrite (@Unmarshal_Marshal _ _ Ack_laws a _ Ha eq_refl), Hl, Hst. unfold push_ack, answered. by rewrite Hack, Hst.
Qed.

Lemma answered_ok n s p : fresh_stream n s p ->
  exists s', open_wait p OnAck (answered accepted p s) = Some (Ok p, s') /\ connected n s' p /\
    s'.(ss_writer) = s.(ss_writer) /\ s'.(ss_closed) = s.(ss_closed) /\ s'.(ss_done) = s.(ss_done).
Proof.
  intros (Hl & st & Hst & Hn & Hd & Hc & _). unfold answered. rewrite Hst. unfold open_wait.
  rewrite (set_stream_at _ _ _ _ Hst). cbn [with_ack st_ack ack_OK accepted]. eexists. split; [reflexivity|].
  split_and!; try done. split; [done|]. eexists. split; [eapply set_stream_at, set_stream_at, set_stream_at, Hst|].
  by split_and!.
Qed.

Lemma answered_refused n s p m : fresh_stream n s p -> m <> ""%string ->
  exists s', open_wait p OnAck (answered (refused m) p s) = Some (Err (ENew m), s') /\ lookup_stream n s' = None.
Proof.
  intros (Hl & st & Hst & Hn & Hd & Hc & Ho & _) Hm. unfold answered. rewrite Hst. unfold open_wait.
  rewrite (set_stream_at _ _ _ _ Hst). cbn [with_ack st_ack ack_OK ack_Error refused].
  unfold empty_string. rewrite bool_decide_false by done. eexists. split; [reflexivity|].
  apply forceClose_keeps_gone. unfold removeStream. eapply unregister_gone; [exact Hl|eapply set_stream_at, set_stream_at, Hst|done].
Qed.

(* ------------------------------------------------------------------ *)
(** ** The hops of a request *)

(** The request as [Open] sends it. *)
Definition opened (r : OpenRequest) (s : Session) : OpenRequest :=
  mkOpenRequest (if r.(or_RequestID) =? 0 then wrap_u 64 (s.(ss_nextID) + 1) else r.(or_RequestID))
    r.(or_ExitID) r.(or_Destination) r.(or_Port)
    (if empty_string r.(or_Protocol) then ProtocolTCP else r.(or_Protocol)) r.(or_ClientSelected).

Lemma opened_same r s : sendable r -> opened r s = r.
Proof.
  intros (_ & Hid & _ & _ & Hp). unfold opened. rewrite (proj2 (Z.eqb_neq _ _) Hid), Hp. destruct r; cbn in *; by subst.
Qed.

Lemma new_fresh n s p config r : lookup_stream n s = Some p ->
  stream_at p s = Some (with_request r (newStream n config)) -> fresh_stream n s p.
Proof. intros Hl Hst. split; [done|]. eexists. by split_and!. Qed.

Lemma open_register_healthy r s : healthy s ->
  exists s', open_register r s = (Ok (length s.(ss_heap), opened r s), s') /\ healthy s' /\
    s'.(ss_writer) = s.(ss_writer) /\ fresh_stream (opened r s).(or_RequestID) s' (length s.(ss_heap)).
Proof.
  intros Hh. pose proof Hh as (Hc & Hd & w & Hw & _).
  destruct (open_register r s) as [[[q r']|e] s'] eqn:E.
  - destruct (open_register_fields _ _ _ _ _ E) as (w' & id & Hw' & _ & Hws & Hcs & Hds & -> & Hst & _ & Hm & Hid & Hr').
    assert (r' = opened r s) as -> by (rewrite Hr', Hid; reflexivity).
    exists s'. split_and!; [done|apply (healthy_same s); congruence|congruence|].
    cbn [opened or_RequestID]. rewrite <-Hid. split; [|eexists; by split_and!].
    unfold lookup_stream. rewrite Hm. apply lookup_insert_eq.
  - exfalso. destruct r. unfold open_register in E. cbn [alloc with_nextID with_heap ss_closed ss_writer] in E.
    by rewrite Hc, Hw in E.
Qed.

Lemma request_arrives r s s' peer : healthy s -> healthy peer ->
  s'.(ss_writer) = (sent (json_frame FrameOpen r.(or_RequestID) r) s).(ss_writer) -> sendable r -> fits r ->
  exists st, stream_at (length peer.(ss_heap)) (arrives s s' peer) = Some st /\ st.(st_request) = r /\
    fresh_stream r.(or_RequestID) (arrives s s' peer) (length peer.(ss_heap)) /\
    healthy (arrives s s' peer) /\ (arrives s s' peer).(ss_writer) = peer.(ss_writer).
Proof.
  intros Hh Hp Hs Hr Hf. rewrite (arrives_sent (json_frame FrameOpen (or_RequestID r) r) s s') by first [done|split; [apply Hr|done]].
  destruct (open_received (json_frame FrameOpen (or_RequestID r) r) r peer eq_refl (open_frame_decodes r Hr) ltac:(apply Hp))
    as (p' & Hrec & Hst & Hl & Hw & Hc & Hd).
  assert (outcome_session (readLoop_frame (json_frame FrameOpen (or_RequestID r) r) peer) = p') as ->.
  { by destruct Hrec as [-> | ->]. }
  eexists. split_and!; [exact Hst|done|by eapply new_fresh| |done].
  apply (healthy_same peer); [done| |done|done]. rewrite Hc. symmetry. apply Hp.
Qed.

Section Hops.
Context {T C : Type}.
Implicit Types e : Exit T.

Definition address_of (r : OpenRequest) : bytes := JoinHostPort (bytes_of r.(or_Destination)) (portString r.(or_Port)).

Lemma DialDestination_sendable r : sendable r ->
  DialDestination r.(or_Destination) r.(or_Port) = Ok (address_of r).
Proof.
  intros (_ & _ & Hd & Hp & _). unfold DialDestination, empty_string.
  by rewrite bool_decide_false, (proj2 (Z.eqb_neq _ _) Hp) by done.
Qed.

Lemma serve_fresh_ok (dial : bytes -> result C) x es e st r v : fresh_stream r.(or_RequestID) es x ->
  stream_at x es = Some st -> st.(st_request) = r -> healthy es -> sendable r -> dial (address_of r) = Ok v ->
  exists e', serve dial x es e = (true, sent (json_frame FrameOpenAck r.(or_RequestID) accepted) es, e') /\
    e'.(ex_active) = wrap_i64 (e.(ex_active) + 1).
Proof.
  intros Hx Hst Hreq Hh Hr Hd. unfold serve. rewrite Hst, Hreq, DialDestination_sendable by done. cbn. rewrite Hd.
  rewrite (Stream_Accept_fresh _ _ _ Hx Hh). by eexists.
Qed.

Lemma serve_fresh_refused (dial : bytes -> result C) x es e st r err : fresh_stream r.(or_RequestID) es x ->
  stream_at x es = Some st -> st.(st_request) = r -> healthy es -> sendable r -> dial (address_of r) = Err err ->
  let reason := ("destination unavailable: " +:+ Error err)%string in fits (refused reason) ->
  serve dial x es e = (false, forceClose x (ENew reason)
    (sent (json_frame FrameOpenAck r.(or_RequestID) (refused reason)) es), e).
Proof.
  intros Hx Hst Hreq Hh Hr Hd reason Hf. unfold serve. rewrite Hst, Hreq, DialDestination_sendable by done. cbn. rewrite Hd.
  fold reason. by rewrite (Stream_Reject_fresh _ _ _ _ Hx Hh Hf).
Qed.

(** The server sends the request on to the exit. *)
Lemma forward_begin_ready (dial : bytes -> result C) ord c p s i r xs : stream_request c p s = Some r ->
  sendable r -> fits r -> forwardOpen r ord s = DialExit i r -> s.(sv_sessions) !! i = Some xs -> healthy xs ->
  exists xs', forward_begin dial ord c p s = Some (Waiting i (length xs.(ss_heap)), put i xs' s) /\ healthy xs' /\
    xs'.(ss_writer) = (sent (json_frame FrameOpen r.(or_RequestID) r) xs).(ss_writer) /\
    fresh_stream r.(or_RequestID) xs' (length xs.(ss_heap)).
Proof.
  intros Hreq Hr Hf Hfw Hi Hh. destruct (open_register_healthy r xs Hh) as (xs1 & Ho & Hh1 & Hw1 & Hfr).
  rewrite (opened_same r xs Hr) in Ho, Hfr.
  exists (sent (json_frame FrameOpen r.(or_RequestID) r) xs1). split_and!.
  - unfold forward_begin. rewrite Hreq, Hfw. unfold dial_exit. rewrite Hi, Ho. unfold on_session. cbn [with_sessions sv_sessions].
    rewrite list_lookup_insert_eq by by eapply lookup_lt_Some. rewrite send_open by done.
    unfold put. by rewrite list_insert_insert_eq.
  - by apply healthy_sent.
  - unfold sent. cbn. by rewrite Hw1.
  - by eapply fresh_same.
Qed.
End Hops.

(* ------------------------------------------------------------------ *)
(** ** The whole passage *)

Section Passage.
Context {T C : Type}.
Variables dialS dialX : bytes -> result C.
Variables (ord : order) (c i : sid).
Implicit Types path : Path T.

(** The request can reach the server: the client's session and the one at the
    server's end of it are in good order, and the request can be sent. *)
Record sendable_on (r : OpenRequest) path : Prop := mk_sendable_on {
  so_client : healthy path.(pa_client);
  so_request : sendable (opened r path.(pa_client));
  so_fits : fits (opened r path.(pa_client));
  so_session : exists sess, path.(pa_server).(sv_sessions) !! c = Some sess /\ healthy sess
}.

(** It can go through: the server routes it to the exit whose session has the
    number [i], and that session and the one at the exit's end are in good order
    too. *)
Record ready (r : OpenRequest) path : Prop := mk_ready {
  rd_sendable : sendable_on r path;
  rd_other : c <> i;
  rd_link : exists xs, path.(pa_server).(sv_sessions) !! i = Some xs /\ healthy xs;
  rd_exit : healthy path.(pa_exit);
  rd_route : forwardOpen (opened r path.(pa_client)) ord path.(pa_server) = DialExit i (opened r path.(pa_client))
}.

Lemma session_at_put j s d sess : is_Some (s.(sv_sessions) !! j) -> session_at j (put j sess s) d = sess.
Proof.
  intros [x Hx]. unfold session_at, put. cbn. by rewrite list_lookup_insert_eq by by eapply lookup_lt_Some.
Qed.
Lemma session_at_put_ne j j' s d sess : j <> j' -> session_at j (put j' sess s) d = session_at j s d.
Proof. intros Hne. unfold session_at, put. cbn. by rewrite list_lookup_insert_ne by done. Qed.
Lemma put_some j j' s sess : is_Some (s.(sv_sessions) !! j) -> is_Some ((put j' sess s).(sv_sessions) !! j).
Proof. intros [x Hx]. apply lookup_lt_is_Some. unfold put. cbn. rewrite length_insert. by eapply lookup_lt_Some. Qed.
Lemma put_put j s a b : put j a (put j b s) = put j a s.
Proof. unfold put. cbn. by rewrite list_insert_insert_eq. Qed.

(** How far the request has come when the exit has it: the sessions of the
    client, of the server with both, and of the exit. *)
Record underway (r : OpenRequest) path (cs sess xs es : Session) (k p q x : ptr) : Prop := mk_underway {
  uw_client : fresh_stream r.(or_RequestID) cs k;
  uw_session : fresh_stream r.(or_RequestID) sess p;
  uw_link : fresh_stream r.(or_RequestID) xs q;
  uw_exit : fresh_stream r.(or_RequestID) es x;
  uw_healthy_session : healthy sess;
  uw_healthy_exit : healthy es;
  uw_request : exists st, stream_at x es = Some st /\ st.(st_request) = r;
  uw_here : is_Some (path.(pa_server).(sv_sessions) !! c) /\ is_Some (path.(pa_server).(sv_sessions) !! i)
}.

(** What is left of [tunnel_open] from there. *)
Definition tunnel_back path (cs sess xs es : Session) (k p q x : ptr) : result ptr * Path T :=
  let '(_, es', node) := serve dialX x es path.(pa_node) in
  let s3 := put i (arrives es es' xs) (put c sess path.(pa_server)) in
  let path3 :=
    match forward_end OnAck c p i q s3 with
    | Some (fw, s4) => mkPath cs s4 es' node (Some fw)
    | None => mkPath cs s3 es' node (Some (Waiting i q))
    end in
  let '(verdict, cs') := await k (arrives sess (session_at c path3.(pa_server) sess) cs) in
  (verdict, mkPath cs' path3.(pa_server) path3.(pa_exit) path3.(pa_node) path3.(pa_forwarded)).

(** The request as it stands at the server. *)
Lemma tunnel_sent r path : sendable_on r path -> exists cs sess k p,
  fresh_stream (opened r path.(pa_client)).(or_RequestID) cs k /\
  fresh_stream (opened r path.(pa_client)).(or_RequestID) sess p /\ healthy sess /\
  is_Some (path.(pa_server).(sv_sessions) !! c) /\
  let s1 := put c sess path.(pa_server) in
  stream_request c p s1 = Some (opened r path.(pa_client)) /\
  tunnel_open dialS dialX ord c r path =
    let path1 := serve_request dialS dialX ord c p (mkPath cs s1 path.(pa_exit) path.(pa_node) None) in
    let '(verdict, cs') := await k (arrives sess (session_at c path1.(pa_server) sess) cs) in
    (verdict, mkPath cs' path1.(pa_server) path1.(pa_exit) path1.(pa_node) path1.(pa_forwarded)).
Proof.
  destruct path as [cs s es node fw]. intros [Hcs Hreq Hfit (sess & Hc & Hsess)].
  cbn [pa_client pa_server pa_exit pa_node] in *. set (r' := opened r cs) in *.
  destruct (open_register_healthy r cs Hcs) as (cs1 & Ho & Hh1 & Hw1 & Hk). fold r' in Ho, Hk.
  set (cs2 := sent (json_frame FrameOpen r'.(or_RequestID) r') cs1).
  destruct (request_arrives r' cs1 cs2 sess Hh1 Hsess eq_refl Hreq Hfit) as (st & Hst & Hstr & Hp & Hsess1 & _).
  exists cs2, (arrives cs1 cs2 sess), (length cs.(ss_heap)), (length sess.(ss_heap)).
  split; [by eapply fresh_same|]. split; [exact Hp|]. split; [exact Hsess1|]. split; [by eexists|]. split.
  - unfold stream_request, put. cbn. rewrite list_lookup_insert_eq by by eapply lookup_lt_Some. by rewrite Hst, Hstr.
  - unfold tunnel_open. rewrite Ho, send_open by done. fold cs2.
    assert (session_at c s cs = sess) as -> by (unfold session_at; by rewrite Hc). reflexivity.
Qed.

Lemma tunnel_out r path : ready r path -> exists cs sess xs es k p q x,
  underway (opened r path.(pa_client)) path cs sess xs es k p q x /\
  tunnel_open dialS dialX ord c r path = tunnel_back path cs sess xs es k p q x.
Proof.
  intros [Hsend Hne (xs & Hi & Hxs) Hes Hroute].
  destruct (tunnel_sent r path Hsend) as (cs & sess & k & p & Hk & Hp & Hsess & Hc & Hsr & Heq).
  set (r' := opened r path.(pa_client)) in *. set (s1 := put c sess path.(pa_server)) in *.
  assert (s1.(sv_sessions) !! i = Some xs) as Hi1 by (unfold s1, put; cbn; by rewrite list_lookup_insert_ne).
  destruct (forward_begin_ready dialS ord c _ s1 i r' xs Hsr ltac:(apply Hsend) ltac:(apply Hsend) Hroute Hi1 Hxs)
    as (xs' & Hfb & Hxs' & Hwx & Hq).
  destruct (request_arrives r' xs xs' path.(pa_exit) Hxs Hes Hwx ltac:(apply Hsend) ltac:(apply Hsend))
    as (st' & Hst' & Hstr' & Hx & Hes1 & _).
  exists cs, sess, xs', (arrives xs xs' path.(pa_exit)), k, p, (length xs.(ss_heap)), (length path.(pa_exit).(ss_heap)).
  split; [split; try done; by eauto|]. rewrite Heq. unfold tunnel_back, serve_request.
  cbn [pa_server pa_exit pa_node pa_client]. rewrite Hfb.
  assert (session_at i s1 path.(pa_exit) = xs) as -> by (unfold session_at; by rewrite Hi1).
  rewrite session_at_put by eauto. destruct (serve _ _ _ _) as [[b es'] node'].
  rewrite put_put. by destruct (forward_end _ _ _ _ _ _) as [[fw' s4]|].
Qed.

Lemma on_session_at {A} (f : Session -> A * Session) xs sess s : c <> i -> is_Some (s.(sv_sessions) !! c) ->
  on_session c f (put i xs (put c sess s)) = Some ((f sess).1, put c (f sess).2 (put i xs (put c sess s))).
Proof.
  intros Hne [y Hy]. unfold on_session, put. cbn.
  rewrite list_lookup_insert_ne, list_lookup_insert_eq by (done || by eapply lookup_lt_Some). by destruct (f sess).
Qed.

Lemma await_ok k cs cs' : open_wait k OnAck cs = Some (Ok k, cs') -> await k cs = (Ok k, cs').
Proof. unfold await. by intros ->. Qed.
Lemma await_refused k cs cs' e : open_wait k OnAck cs = Some (Err e, cs') -> await k cs = (Err e, cs').
Proof. unfold await. by intros ->. Qed.

Lemma accepted_ok : fits accepted /\ Ack_ok accepted.
Proof. split; [vm_compute; discriminate|by split_and!]. Qed.

(** The exit reaches the destination: the client has its stream, the server
    relays, and the four streams are open under one ID. *)
Lemma back_accepts r path cs sess xs es k p q x v : underway r path cs sess xs es k p q x -> c <> i -> sendable r ->
  dialX (address_of r) = Ok v ->
  exists path', tunnel_back path cs sess xs es k p q x = (Ok k, path') /\
    path'.(pa_forwarded) = Some (RelayExit i q) /\
    connected r.(or_RequestID) path'.(pa_client) k /\
    (exists sess', path'.(pa_server).(sv_sessions) !! c = Some sess' /\ connected r.(or_RequestID) sess' p) /\
    (exists xs', path'.(pa_server).(sv_sessions) !! i = Some xs' /\ connected r.(or_RequestID) xs' q) /\
    connected r.(or_RequestID) path'.(pa_exit) x /\
    path'.(pa_node).(ex_active) = wrap_i64 (path.(pa_node).(ex_active) + 1).
Proof.
  intros [Hk Hp Hq Hx Hsess Hes (st & Hst & Hstr) [Hc Hi]] Hne Hr Hd. set (n := r.(or_RequestID)) in *.
  assert (0 <= n < 2 ^ 64) as Hn by apply Hr. destruct accepted_ok as [Hfa Hoka].
  destruct (serve_fresh_ok dialX x es path.(pa_node) st r v Hx Hst Hstr Hes Hr Hd) as (node & Hserve & Hact).
  unfold tunnel_back. rewrite Hserve. fold n.
  rewrite (answer_arrives n es _ xs q accepted Hes eq_refl Hn Hfa Hoka Hq).
  destruct (answered_ok n xs q Hq) as (xs' & Hw & Hq' & _). destruct (put_some i c path.(pa_server) sess Hi) as [y Hy].
  rewrite (forward_end_put _ _ _ _ _ _ _ _ Hy), Hw. unfold accept_stream. rewrite on_session_at by done.
  rewrite (Stream_Accept_fresh n sess p Hp Hsess). cbn [fst snd pa_server].
  rewrite session_at_put by by apply put_some, put_some.
  rewrite (answer_arrives n sess _ cs k accepted Hsess eq_refl Hn Hfa Hoka Hk).
  destruct (answered_ok n cs k Hk) as (cs' & Hw' & Hk' & _). rewrite (await_ok _ _ _ Hw').
  eexists. split; [reflexivity|]. cbn [pa_forwarded pa_client pa_server pa_exit pa_node]. split_and!; try done.
  - exists (sent (json_frame FrameOpenAck n accepted) sess). split; [|by eapply connected_same; [apply fresh_connected|..]].
    unfold put. cbn. apply list_lookup_insert_eq. rewrite !length_insert. destruct Hc. by eapply lookup_lt_Some.
  - exists xs'. split; [|done]. unfold put. cbn. rewrite list_lookup_insert_ne by done.
    apply list_lookup_insert_eq. rewrite length_insert. destruct Hi. by eapply lookup_lt_Some.
  - by eapply connected_same; [apply fresh_connected|..].
Qed.

(** The server dials by itself. *)
Lemma tunnel_direct r path : sendable_on r path ->
  let r' := opened r path.(pa_client) in
  forwardOpen r' ord path.(pa_server) = DialDirect r'.(or_Destination) r'.(or_Port) ->
  match dialS (address_of r') with
  | Ok _ => exists k path', tunnel_open dialS dialX ord c r path = (Ok k, path') /\
      path'.(pa_forwarded) = Some RelayDirect /\ connected r'.(or_RequestID) path'.(pa_client) k /\
      exists p sess, path'.(pa_server).(sv_sessions) !! c = Some sess /\ connected r'.(or_RequestID) sess p
  | Err err =>
      let told := ("destination unavailable: " +:+ Error err)%string in
      string_ok told -> fits (refused told) ->
      exists path', tunnel_open dialS dialX ord c r path = (Err (ENew told), path') /\
        path'.(pa_forwarded) = Some (Rejected told) /\ lookup_stream r'.(or_RequestID) path'.(pa_client) = None /\
        exists sess, path'.(pa_server).(sv_sessions) !! c = Some sess /\ lookup_stream r'.(or_RequestID) sess = None
  end.
Proof.
  intros Hsend r' Hroute.
  destruct (tunnel_sent r path Hsend) as (cs & sess & k & p & Hk & Hp & Hsess & Hc & Hsr & Heq).
  fold r' in Hk, Hp, Hsr. set (s1 := put c sess path.(pa_server)) in *. pose proof (so_request _ _ Hsend) as Hr.
  fold r' in Hr. set (n := r'.(or_RequestID)) in *. assert (0 <= n < 2 ^ 64) as Hn by apply Hr.
  assert (forwardOpen r' ord s1 = DialDirect r'.(or_Destination) r'.(or_Port)) as Hfw by exact Hroute.
  assert (s1.(sv_sessions) !! c = Some sess) as Hs1.
  { unfold s1, put. cbn. apply list_lookup_insert_eq. destruct Hc. by eapply lookup_lt_Some. }
  assert (forall sess', put c sess' s1 = put c sess' path.(pa_server)) as Hput by (intros; apply put_put).
  rewrite Heq. unfold serve_request, forward_begin. cbn [pa_server pa_exit pa_node pa_client].
  rewrite Hsr, Hfw, (DialDestination_sendable r' Hr). cbn [result_bind].
  destruct (dialS (address_of r')) as [v|err] eqn:Ed.
  - destruct accepted_ok as [Hfa Hoka]. unfold accept_stream, on_session.
    rewrite Hs1, (Stream_Accept_fresh n sess p Hp Hsess). fold (put c (sent (json_frame FrameOpenAck n accepted) sess) s1).
    cbn [pa_server pa_exit pa_node pa_client pa_forwarded]. rewrite Hput, session_at_put by done.
    rewrite (answer_arrives n sess _ cs k accepted Hsess eq_refl Hn Hfa Hoka Hk).
    destruct (answered_ok n cs k Hk) as (cs' & Hw' & Hk' & _). rewrite (await_ok _ _ _ Hw').
    eexists k, _. split; [reflexivity|]. split_and!; [done|exact Hk'|]. exists p, (sent (json_frame FrameOpenAck n accepted) sess).
    split; [|by eapply connected_same; [apply fresh_connected|..]].
    unfold put. cbn. apply list_lookup_insert_eq. destruct Hc. by eapply lookup_lt_Some.
  - intros Hok Hf. set (told := ("destination unavailable: " +:+ Error err)%string) in *.
    unfold reject_stream, on_session. rewrite Hs1, (Stream_Reject_fresh n sess p told Hp Hsess Hf).
    fold (put c (forceClose p (ENew told) (sent (json_frame FrameOpenAck n (refused told)) sess)) s1).
    cbn [pa_server pa_exit pa_node pa_client pa_forwarded]. rewrite Hput, session_at_put by done.
    rewrite (answer_arrives n sess _ cs k (refused told) Hsess (forceClose_writer _ _ _) Hn Hf ltac:(by split_and!) Hk).
    destruct (answered_refused n cs k told Hk ltac:(done)) as (cs' & Hw' & Hk'). rewrite (await_refused _ _ _ _ Hw').
    eexists. split; [reflexivity|]. split_and!; [done|exact Hk'|].
    exists (forceClose p (ENew told) (sent (json_frame FrameOpenAck n (refused told)) sess)).
    split; [|by apply forceClose_gone, (fresh_same n sess)].
    unfold put. cbn. apply list_lookup_insert_eq. destruct Hc. by eapply lookup_lt_Some.
Qed.

(** The exit does not: the client learns why, nothing is relayed, and no stream
    is left under the ID. *)
Lemma back_refuses r path cs sess xs es k p q x err : underway r path cs sess xs es k p q x -> c <> i -> sendable r ->
  dialX (address_of r) = Err err ->
  let reason := ("destination unavailable: " +:+ Error err)%string in
  let told := ("exit unavailable: " +:+ reason)%string in
  string_ok reason -> string_ok told -> fits (refused reason) -> fits (refused told) ->
  exists path', tunnel_back path cs sess xs es k p q x = (Err (ENew told), path') /\
    path'.(pa_forwarded) = Some (Rejected told) /\
    lookup_stream r.(or_RequestID) path'.(pa_client) = None /\
    (exists sess', path'.(pa_server).(sv_sessions) !! c = Some sess' /\ lookup_stream r.(or_RequestID) sess' = None) /\
    (exists xs', path'.(pa_server).(sv_sessions) !! i = Some xs' /\ lookup_stream r.(or_RequestID) xs' = None) /\
    lookup_stream r.(or_RequestID) path'.(pa_exit) = None /\ path'.(pa_node) = path.(pa_node).
Proof.
  intros [Hk Hp Hq Hx Hsess Hes (st & Hst & Hstr) [Hc Hi]] Hne Hr Hd reason told Hok1 Hok2 Hf1 Hf2.
  set (n := r.(or_RequestID)) in *. assert (0 <= n < 2 ^ 64) as Hn by apply Hr.
  unfold tunnel_back. rewrite (serve_fresh_refused dialX x es path.(pa_node) st r err Hx Hst Hstr Hes Hr Hd Hf1).
  fold n reason. rewrite (answer_arrives n es _ xs q (refused reason) Hes (forceClose_writer _ _ _) Hn Hf1 ltac:(by split_and!) Hq).
  destruct (answered_refused n xs q reason Hq ltac:(done)) as (xs' & Hw & Hgone).
  destruct (put_some i c path.(pa_server) sess Hi) as [y Hy].
  rewrite (forward_end_put _ _ _ _ _ _ _ _ Hy), Hw. change (Error (ENew reason)) with reason. fold told.
  unfold reject_stream. rewrite on_session_at by done.
  rewrite (Stream_Reject_fresh n sess p told Hp Hsess Hf2). cbn [fst snd pa_server].
  rewrite session_at_put by by apply put_some, put_some.
  rewrite (answer_arrives n sess _ cs k (refused told) Hsess (forceClose_writer _ _ _) Hn Hf2 ltac:(by split_and!) Hk).
  destruct (answered_refused n cs k told Hk ltac:(done)) as (cs' & Hw' & Hk'). rewrite (await_refused _ _ _ _ Hw').
  eexists. split; [reflexivity|]. cbn [pa_forwarded pa_client pa_server pa_exit pa_node]. split_and!; try done.
  - exists (forceClose p (ENew told) (sent (json_frame FrameOpenAck n (refused told)) sess)).
    split; [|by apply forceClose_gone, (fresh_same n sess)].
    unfold put. cbn. apply list_lookup_insert_eq. rewrite !length_insert. destruct Hc. by eapply lookup_lt_Some.
  - exists xs'. split; [|done]. unfold put. cbn. rewrite list_lookup_insert_ne by done.
    apply list_lookup_insert_eq. rewrite length_insert. destruct Hi. by eapply lookup_lt_Some.
  - by apply forceClose_gone, (fresh_same n es).
Qed.
End Passage.

(* ------------------------------------------------------------------ *)
(** ** From the local proxies *)

Section FrontEnds.
Context {T C : Type}.
Variables dialS dialX : bytes -> result C.
Variables (ord : order) (c i : sid).
Variables (rt : Runtime) (m : Manager) (s : streams) (path : Path T).
Variables (host : bytes) (port : Z).

Let first : OpenRequest := open_request (string_of host) port rt.(rt_exitID).
Let n : Z := (opened first path.(pa_client)).(or_RequestID).
Let address : bytes := JoinHostPort host (portString port).

(** The four streams of a tunnel under one ID: at the client, at the server to
    the client and to the exit, and at the exit. *)
Definition tunnel_up (path' : Path T) (k : ptr) : Prop :=
  connected n path'.(pa_client) k /\
  exists p q x sess xs, path'.(pa_forwarded) = Some (RelayExit i q) /\
    path'.(pa_server).(sv_sessions) !! c = Some sess /\ connected n sess p /\
    path'.(pa_server).(sv_sessions) !! i = Some xs /\ connected n xs q /\
    connected n path'.(pa_exit) x /\
    path'.(pa_node).(ex_active) = wrap_i64 (path.(pa_node).(ex_active) + 1).

(** Nothing is relayed and no stream is left. *)
Definition tunnel_down (path' : Path T) (told : string) : Prop :=
  path'.(pa_forwarded) = Some (Rejected told) /\ lookup_stream n path'.(pa_client) = None /\
  exists sess xs, path'.(pa_server).(sv_sessions) !! c = Some sess /\ lookup_stream n sess = None /\
    path'.(pa_server).(sv_sessions) !! i = Some xs /\ lookup_stream n xs = None /\
    lookup_stream n path'.(pa_exit) = None /\ path'.(pa_node) = path.(pa_node).

(** What the client is told when the exit cannot dial. *)
Definition exit_reason (err : error) : string := "destination unavailable: " +:+ Error err.
Definition client_reason (err : error) : string := "exit unavailable: " +:+ exit_reason err.
Definition tellable (err : error) : Prop :=
  string_ok (exit_reason err) /\ string_ok (client_reason err) /\
  fits (refused (exit_reason err)) /\ fits (refused (client_reason err)).

Context (Hsession : is_Some m.(mg_session)) (Hready : ready ord c i first path).

Lemma address_opened cs : address_of (opened first cs) = address.
Proof. unfold address_of, opened, first, open_request, address. cbn [or_Destination or_Port]. by rewrite bytes_of_string_of. Qed.

Lemma manager_dial_open request : manager_dial dialS dialX ord c m request path = tunnel_open dialS dialX ord c request path.
Proof. unfold manager_dial, Manager_Dial. by destruct Hsession as [x ->]. Qed.

Lemma dialer_accepts v : dialX address = Ok v ->
  exists k path', dialer_dial dialS dialX ord c rt m host port s path = (Ok k, count_stream s, path') /\ tunnel_up path' k.
Proof.
  intros Hd. destruct (tunnel_out dialS dialX ord c i first path Hready) as (cs & sess & xs & es & k & p & q & x & Hu & Heq).
  destruct (back_accepts dialX c i _ _ _ _ _ _ _ _ _ _ v Hu ltac:(apply Hready) ltac:(apply (rd_sendable _ _ _ _ _ Hready)))
    as (path' & Hb & Hfw & Hk & (sess' & Hc & Hp) & (xs' & Hi & Hq) & Hx & Hact); [by rewrite address_opened|].
  exists k, path'. split.
  - unfold dialer_dial. rewrite manager_dial_open. fold first. by rewrite Heq, Hb.
  - split; [exact Hk|]. exists p, q, x, sess', xs'. by split_and!.
Qed.

Lemma dialer_refuses err : dialX address = Err err -> tellable err ->
  rt.(rt_fallback) = false \/ rt.(rt_exitID) = "auto"%string ->
  exists path', dialer_dial dialS dialX ord c rt m host port s path = (Err (ENew (client_reason err)), s, path') /\
    tunnel_down path' (client_reason err).
Proof.
  intros Hd (H1 & H2 & H3 & H4) Hfb.
  destruct (tunnel_out dialS dialX ord c i first path Hready) as (cs & sess & xs & es & k & p & q & x & Hu & Heq).
  destruct (back_refuses dialX c i _ _ _ _ _ _ _ _ _ _ err Hu ltac:(apply Hready) ltac:(apply (rd_sendable _ _ _ _ _ Hready)))
    as (path' & Hb & Hfw & Hk & (sess' & Hc & Hp) & (xs' & Hi & Hq) & Hx & Hact);
    [by rewrite address_opened|exact H1|exact H2|exact H3|exact H4|].
  exists path'. split.
  - unfold dialer_dial. rewrite manager_dial_open. fold first. rewrite Heq, Hb.
    assert (rt_fallback rt && negb (bool_decide (rt_exitID rt = "auto"%string)) = false) as ->; [|done].
    destruct Hfb as [-> | ->]; [done|by destruct (rt_fallback rt)].
  - split; [exact Hfw|]. split; [exact Hk|]. exists sess', xs'. by split_and!.
Qed.
End FrontEnds.

(** The dial of a front end, on a given path. *)
Definition front_dial {T C} (dialS dialX : bytes -> result C) (ord : order) (c : sid) (rt : Runtime) (m : Manager)
  (s : streams) (path : Path T) (host : bytes) (port : Z) : result ptr :=
  (dialer_dial dialS dialX ord c rt m host port s path).1.1.

(** C4: a SOCKS5 request becomes a tunnel, through all the program's parts: a
    local program offers no authentication and asks for a host and a port; the
    client is connected, the sessions on the way are in good order and the
    server routes the request to an exit.  Then the exit dials exactly that host
    and port.  When it gets its connection, the program is told success and
    relayed to a stream that is joined, under one ID, to the server's two
    streams and the exit's, and nothing of what it sent after the request is
    lost.  When it does not, and no other exit is to be tried, the program is
    told failure, nothing is relayed, no stream is left anywhere, and the client
    knows the exit's reason. *)
Theorem socks_tunnel {T C : Type} (dialS dialX : bytes -> result C) (ord : order) (c i : sid)
  (rt : Runtime) (m : Manager) (s : streams) (path : Path T)
  (methods rest : bytes) (e : error) (a : Socks5.address) (port : Z) (w : Sink)
  (Hm : (1 <= length methods <= 255)%nat) (Hin : In x00 methods)
  (Ha : address_ok a) (Hp : 1 <= port <= 65535) (Hroom : has_room w 12)
  (Hsession : is_Some m.(mg_session))
  (Hready : ready ord c i (open_request (string_of (address_host a)) port rt.(rt_exitID)) path) :
  let host := address_host a in
  let rw := mkRW (mkReader (greeting_bytes methods ++ request_bytes a port ++ rest) e) w in
  let served := Socks5.handle (front_dial dialS dialX ord c rt m s path) rw in
  let dialled := dialer_dial dialS dialX ord c rt m host port s path in
  match dialX (JoinHostPort host (portString port)) with
  | Ok _ => exists k path', dialled = (Ok k, count_stream s, path') /\ tunnel_up c i rt path host port path' k /\
      served = (Relaying host port k, mkRW (mkReader rest e) (sink_append w ([x05; x00] ++ reply_bytes x00)))
  | Err err => tellable err -> rt.(rt_fallback) = false \/ rt.(rt_exitID) = "auto"%string ->
      exists path', dialled = (Err (ENew (client_reason err)), s, path') /\
      tunnel_down c i rt path host port path' (client_reason err) /\
      served = (DialFailed host port (ENew (client_reason err)),
        mkRW (mkReader rest e) (sink_append w ([x05; x00] ++ reply_bytes x05)))
  end.
Proof.
  intros host rw served dialled.
  pose proof (socks_conversation (front_dial dialS dialX ord c rt m s path) methods rest e a port w
    Hm Hin Ha Hp Hroom : served = _) as Hserved. fold host in Hserved.
  destruct (dialX _) as [v|err] eqn:E.
  - destruct (dialer_accepts dialS dialX ord c i rt m s path host port Hsession Hready v E) as (k & path' & Hd & Hup).
    unfold front_dial in Hserved. rewrite Hd in Hserved. exists k, path'. by split_and!.
  - intros Ht Hfb.
    destruct (dialer_refuses dialS dialX ord c i rt m s path host port Hsession Hready err E Ht Hfb) as (path' & Hd & Hdown).
    unfold front_dial in Hserved. rewrite Hd in Hserved. exists path'. by split_and!.
Qed.

(** The same when the server dials the destination itself, as it does for the
    exit it is. *)
Theorem socks_direct_tunnel {T C : Type} (dialS dialX : bytes -> result C) (ord : order) (c : sid)
  (rt : Runtime) (m : Manager) (s : streams) (path : Path T)
  (methods rest : bytes) (e : error) (a : Socks5.address) (port : Z) (w : Sink) (v : C)
  (Hm : (1 <= length methods <= 255)%nat) (Hin : In x00 methods)
  (Ha : address_ok a) (Hp : 1 <= port <= 65535) (Hroom : has_room w 12)
  (Hsession : is_Some m.(mg_session))
  (Hsend : sendable_on c (open_request (string_of (address_host a)) port rt.(rt_exitID)) path)
  (Hroute : forwardOpen (opened (open_request (string_of (address_host a)) port rt.(rt_exitID)) path.(pa_client)) ord
     path.(pa_server) = DialDirect (string_of (address_host a)) port)
  (Hdial : dialS (JoinHostPort (address_host a) (portString port)) = Ok v) :
  let host := address_host a in
  let rw := mkRW (mkReader (greeting_bytes methods ++ request_bytes a port ++ rest) e) w in
  exists k path', dialer_dial dialS dialX ord c rt m host port s path = (Ok k, count_stream s, path') /\
    path'.(pa_forwarded) = Some RelayDirect /\
    Socks5.handle (front_dial dialS dialX ord c rt m s path) rw =
      (Relaying host port k, mkRW (mkReader rest e) (sink_append w ([x05; x00] ++ reply_bytes x00))).
Proof.
  intros host rw.
  pose proof (socks_conversation (front_dial dialS dialX ord c rt m s path) methods rest e a port w
    Hm Hin Ha Hp Hroom) as Hserved. fold host rw in Hserved. cbv zeta in Hserved.
  pose proof (tunnel_direct dialS dialX ord c _ path Hsend Hroute) as Hd. cbv zeta in Hd.
  rewrite address_opened in Hd. fold host in Hd, Hdial. rewrite Hdial in Hd. destruct Hd as (k & path' & Ho & Hfw & _).
  assert (dialer_dial dialS dialX ord c rt m host port s path = (Ok k, count_stream s, path')) as Hdd.
  { unfold dialer_dial, manager_dial, Manager_Dial. destruct Hsession as [y ->]. by rewrite Ho. }
  exists k, path'. unfold front_dial in Hserved. rewrite Hdd in Hserved. by split_and!.
Qed.

(** The same for CONNECT requests of the HTTP proxy. *)
Theorem http_connect_tunnel {T C : Type} (dialS dialX : bytes -> result C) (ord : order) (c i : sid)
  (rt : Runtime) (m : Manager) (s : streams) (path : Path T) (request : Request) (host : bytes) (port : Z) (w : Sink)
  (v : C) (Hdest : HttpConnect.splitHostPort request.(rq_Host) 443 = Ok (host, port))
  (Hroom : has_room w (length HttpConnect.established)) (Hsession : is_Some m.(mg_session))
  (Hready : ready ord c i (open_request (string_of host) port rt.(rt_exitID)) path)
  (Hdial : dialX (JoinHostPort host (portString port)) = Ok v) :
  exists k path', dialer_dial dialS dialX ord c rt m host port s path = (Ok k, count_stream s, path') /\
    tunnel_up c i rt path host port path' k /\
    HttpConnect.handleConnect (front_dial dialS dialX ord c rt m s path) request w =
      (HttpConnect.Tunnel host port k, sink_append w HttpConnect.established).
Proof.
  destruct (dialer_accepts dialS dialX ord c i rt m s path host port Hsession Hready v Hdial) as (k & path' & Hd & Hup).
  exists k, path'. split_and!; [done|done|]. unfold HttpConnect.handleConnect. rewrite Hdest. unfold front_dial. rewrite Hd.
  cbn [fst]. by rewrite Sink_Write_room.
Qed.

(* ------------------------------------------------------------------ *)
(** ** A run: a SOCKS5 request for [a.example:443] through the exit [paris] *)

Definition demo_runtime : Runtime :=
  (SetExit [mkExitInfo "paris" "Paris" "proxy" "healthy" 10 0 4 [] 0] "paris" false
    (NewRuntime (mkRuntimeConfig "/d" false 0))).2.
Definition demo_manager : Manager := Reconnect_finish "quic" 0 NewManager.
Definition demo_path : Path unit := mkPath demo_peer demo_hub demo_peer demo_exit None.
Definition demo_name : bytes := bytes_of "a.example".

Lemma demo_ready : ready (demo_order demo_hub) 0 2
  (open_request (string_of demo_name) 443 demo_runtime.(rt_exitID)) demo_path.
Proof.
  split; [split| | | |].
  - split_and!; [reflexivity|reflexivity|]. eexists. split; reflexivity.
  - split; [|by split_and!]. refine (conj _ (conj _ (conj _ (conj _ _)))); done.
  - vm_compute. discriminate.
  - eexists. split; [vm_compute; reflexivity|]. split_and!; [reflexivity|reflexivity|]. eexists. split; reflexivity.
  - discriminate.
  - eexists. split; [vm_compute; reflexivity|]. split_and!; [reflexivity|reflexivity|]. eexists. split; reflexivity.
  - split_and!; [reflexivity|reflexivity|]. eexists. split; reflexivity.
  - vm_compute. reflexivity.
Qed.

Lemma socks_tunnel_witness : exists k path',
  dialer_dial (fun _ => Err EOF) (demo_dial true) (demo_order demo_hub) 0 demo_runtime demo_manager demo_name 443
    no_streams demo_path = (Ok k, count_stream no_streams, path') /\
  tunnel_up 0 2 demo_runtime demo_path demo_name 443 path' k.
Proof.
  destruct (socks_tunnel (fun _ => Err EOF) (demo_dial true) (demo_order demo_hub) 0 2 demo_runtime demo_manager
    no_streams demo_path [x00] [] EOF (AddrDomain demo_name) 443 (mkSink [] None EOF)) as (k & path' & H1 & H2 & _).
  - cbn. lia.
  - left. reflexivity.
  - vm_compute. split; repeat constructor.
  - lia.
  - exact I.
  - eexists. reflexivity.
  - exact demo_ready.
  - exists k, path'. split; [exact H1|exact H2].
Defined.
