(* ===== verification/Handlers.v ===== *)
(** * The front ends' handlers and the streams they hold

    The client runs one goroutine per connection of a local program
    ([handle] of [internal/proxy/socks5] and [internal/proxy/httpconnect]).  A
    handler dials at most once, through [managerDialer]; the stream it is given
    is counted until its first [Close], which a handler may call twice: in
    [Relay] and in a [defer].  This file interleaves any number of handlers with
    one another and shows that no stream is lost: whatever way a handler ends,
    its stream is closed and uncounted, so that [Shutdown] does not wait for it. *)
From stdpp Require Import relations.
From S2P Require Import Prelude GoIO GoStrings GoTime Json Codec Protocol SystemProxy Runtime ClientStreams.
From S2P Require Import GoText GoNet Socks5 HttpConnect.

(** The dial of a handler: the stream is known by its number. *)
Definition counted_dial (r : Runtime) (first second : OpenRequest -> option error) (s : streams)
  (host : bytes) (port : Z) : result nat :=
  match Dialer_Dial r (string_of host) port first second s with
  | (None, _, _) => Ok (length s.(cs_handed))
  | (Some e, _, _) => Err e
  end.

(** What it leaves of the counted streams. *)
Definition after_dial (r : Runtime) (first second : OpenRequest -> option error) (s : streams)
  (host : bytes) (port : Z) : streams :=
  (Dialer_Dial r (string_of host) port first second s).2.

(** The streams after a SOCKS5 handler has dialled and replied, and the calls of
    [target.Close] that remain: the deferred one and, after a relay, [Relay]'s
    before it. *)
Definition socks_streams (r : Runtime) first second (s : streams) (o : served nat) : streams * list nat :=
  match o with
  | NoGreeting _ | BadRequest _ => (s, [])
  | DialFailed host port _ => (after_dial r first second s host port, [])
  | ReplyFailed host port target => (after_dial r first second s host port, [target])
  | Relaying host port target => (after_dial r first second s host port, [target; target])
  end.

(** The same for the HTTP proxy: [Close] is called once, by [Relay], by a
    [defer], or by [handleConnect] when the reply could not be written. *)
Definition http_streams (r : Runtime) first second (s : streams) (o : http_served nat) : streams * list nat :=
  match o with
  | Answered _ _ => (s, [])
  | TargetLost host port target | Tunnel host port target | Forwarded host port target _ =>
      (after_dial r first second s host port, [target])
  end.

(** A handler: its connection is accepted; it has dialled, and these [Close]s
    remain; it has returned. *)
Inductive handler : Type := Accepted | Closing (targets : list nat) | Returned.

Record Front := mkFront { fr_handlers : list handler; fr_streams : streams }.

Definition no_front : Front := mkFront [] no_streams.

(** The steps.  What the user has selected, what the manager answers and what
    the local program sends are arbitrary, and how long a relay lasts: its
    [Close] is a step of its own. *)
Inductive fstep (f : Front) : Front -> Prop :=
  | f_accept :
      fstep f (mkFront (f.(fr_handlers) ++ [Accepted]) f.(fr_streams))
  | f_socks i r first second rw o rw' s l :
      f.(fr_handlers) !! i = Some Accepted ->
      Socks5.handle (counted_dial r first second f.(fr_streams)) rw = (o, rw') ->
      socks_streams r first second f.(fr_streams) o = (s, l) ->
      fstep f (mkFront (<[i := Closing l]> f.(fr_handlers)) s)
  | f_http i r first second parsed writeErr w o w' s l :
      f.(fr_handlers) !! i = Some Accepted ->
      HttpConnect.handle (counted_dial r first second f.(fr_streams)) parsed writeErr w = (o, w') ->
      http_streams r first second f.(fr_streams) o = (s, l) ->
      fstep f (mkFront (<[i := Closing l]> f.(fr_handlers)) s)
  | f_close i n l :
      f.(fr_handlers) !! i = Some (Closing (n :: l)) ->
      fstep f (mkFront (<[i := Closing l]> f.(fr_handlers)) (counted_Close n f.(fr_streams)))
  | f_return i :
      f.(fr_handlers) !! i = Some (Closing []) ->
      fstep f (mkFront (<[i := Returned]> f.(fr_handlers)) f.(fr_streams)).

(* ------------------------------------------------------------------ *)
(** ** Who holds a stream *)

Definition targets (h : handler) : list nat := match h with Closing l => l | _ => [] end.

(** Handler [i] has still to close stream [n]. *)
Definition holds (f : Front) (i n : nat) : Prop :=
  exists h, f.(fr_handlers) !! i = Some h /\ n ∈ targets h.

Definition is_open (s : streams) (n : nat) : Prop := s.(cs_handed) !! n = Some false.

Record front_ok (f : Front) : Prop := mk_front_ok {
  fo_known : forall i n, holds f i n -> (n < length f.(fr_streams).(cs_handed))%nat;
  fo_alone : forall i j n, holds f i n -> holds f j n -> i = j;
  fo_open : forall n, is_open f.(fr_streams) n -> exists i, holds f i n;
  fo_counted : counted f.(fr_streams)
}.

Lemma holds_set f i h0 h s j n : f.(fr_handlers) !! i = Some h0 ->
  holds (mkFront (<[i := h]> f.(fr_handlers)) s) j n <->
  (j = i /\ n ∈ targets h) \/ (j <> i /\ holds f j n).
Proof.
  intros Hi. unfold holds. cbn. destruct (decide (j = i)) as [->|Hne].
  - rewrite list_lookup_insert_eq by (by eapply lookup_lt_Some). split.
    + intros (h' & [= <-] & Hn). by left.
    + intros [[_ Hn]|[? _]]; [by exists h|done].
  - rewrite list_lookup_insert_ne by done. split; [intros H; by right|]. by intros [[? _]|[_ ?]].
Qed.

(** A handler that gives up some of its streams, which are closed. *)
Lemma ok_release f i h0 h s : front_ok f -> f.(fr_handlers) !! i = Some h0 -> counted s ->
  length s.(cs_handed) = length f.(fr_streams).(cs_handed) ->
  (forall n, is_open s n -> is_open f.(fr_streams) n) ->
  (forall n, n ∈ targets h -> n ∈ targets h0) ->
  (forall n, n ∈ targets h0 -> is_open s n -> n ∈ targets h) ->
  front_ok (mkFront (<[i := h]> f.(fr_handlers)) s).
Proof.
  intros [Hk Ha Ho _] Hi Hc Hlen Hsub Hless Hmore.
  assert (forall j n, holds (mkFront (<[i := h]> f.(fr_handlers)) s) j n -> holds f j n) as Hold.
  { intros j n H. apply (holds_set _ _ _ _ _ _ _ Hi) in H as [[-> Hn]|[_ H]]; [|done].
    exists h0. split; [done|]. by apply Hless. }
  split; cbn [fr_streams]; [|eauto| |done].
  - intros j n H. rewrite Hlen. eauto.
  - intros n Hn. destruct (Ho n (Hsub n Hn)) as (j & Hj). exists j. apply (holds_set _ _ _ _ _ _ _ Hi).
    destruct (decide (j = i)) as [->|]; [left|by right]. split; [done|]. apply Hmore; [|done].
    destruct Hj as (h' & Hh & Hn'). congruence.
Qed.

(** A handler that held no stream is given a new one. *)
Lemma ok_dialled f i h0 l : front_ok f -> f.(fr_handlers) !! i = Some h0 -> targets h0 = [] -> l <> [] ->
  Forall (eq (length f.(fr_streams).(cs_handed))) l ->
  front_ok (mkFront (<[i := Closing l]> f.(fr_handlers)) (count_stream f.(fr_streams))).
Proof.
  intros [Hk Ha Ho Hc] Hi Ht Hne Hl. set (m := length f.(fr_streams).(cs_handed)) in *.
  assert (forall j n, holds (mkFront (<[i := Closing l]> f.(fr_handlers)) (count_stream f.(fr_streams))) j n ->
    (j = i /\ n = m) \/ (holds f j n /\ (n < m)%nat)) as Hnew.
  { intros j n H. apply (holds_set _ _ _ _ _ _ _ Hi) in H as [[-> Hn]|[_ H]]; [left|right; eauto].
    split; [done|]. symmetry. by apply (proj1 (Forall_forall _ _) Hl). }
  split; cbn [fr_streams].
  - intros j n H. cbn. rewrite length_app. cbn. fold m. destruct (Hnew _ _ H) as [[_ ->]|[_ ?]]; lia.
  - intros j j' n H H'. destruct (Hnew _ _ H) as [[-> ->]|[H1 L1]], (Hnew _ _ H') as [[-> E]|[H2 L2]]; subst; eauto; lia.
  - intros n Hn. unfold is_open in Hn. cbn in Hn. destruct (decide (n = m)) as [->|Hnm].
    + exists i. apply (holds_set _ _ _ _ _ _ _ Hi). left. split; [done|]. cbn.
      destruct l as [|x l]; [done|]. apply Forall_cons in Hl as [<- _]. by left.
    + assert (n < m)%nat as Hlt.
      { apply lookup_lt_Some in Hn. rewrite length_app in Hn. cbn in Hn. unfold m in *. lia. }
      rewrite lookup_app_l in Hn by done. destruct (Ho n Hn) as (j & Hj). exists j.
      apply (holds_set _ _ _ _ _ _ _ Hi). right. split; [|done]. intros ->.
      destruct Hj as (h' & Hh & Hn'). rewrite Hi in Hh. injection Hh as <-. rewrite Ht in Hn'. by apply not_elem_of_nil in Hn'.
  - by apply count_stream_counted.
Qed.

(** What a dial leaves: nothing new, or one stream, which the handler holds. *)
Definition dialled (s s' : streams) (l : list nat) : Prop :=
  (s' = s /\ l = []) \/ (s' = count_stream s /\ l <> [] /\ Forall (eq (length s.(cs_handed))) l).

Lemma counted_dial_after r first second s host port :
  match counted_dial r first second s host port with
  | Ok n => n = length s.(cs_handed) /\ after_dial r first second s host port = count_stream s
  | Err _ => after_dial r first second s host port = s
  end.
Proof.
  unfold counted_dial, after_dial, Dialer_Dial. destruct (first _); [|done].
  destruct (_ && _); [|done]. by destruct (second _).
Qed.

Lemma socks_dialled r first second s rw o rw' s' l :
  Socks5.handle (counted_dial r first second s) rw = (o, rw') ->
  socks_streams r first second s o = (s', l) -> dialled s s' l.
Proof.
  unfold Socks5.handle. destruct (negotiate rw) as [[e|] rw1]; [intros [= <- <-] [= <- <-]; by left|].
  destruct (readRequest _) as [[[host port]|e] r1]; [|intros [= <- <-] [= <- <-]; by left].
  pose proof (counted_dial_after r first second s host port) as Hd.
  destruct (counted_dial _ _ _ _ host port) as [n|e]; [|intros [= <- <-] [= <- <-]; rewrite Hd; by left].
  destruct Hd as [-> Hd]. destruct (writeReply _ _ _) as [[e|] w]; intros [= <- <-] [= <- <-]; right;
    (split; [done|]); (split; [done|]); by repeat constructor.
Qed.

Lemma http_dialled r first second s parsed writeErr w o w' s' l :
  HttpConnect.handle (counted_dial r first second s) parsed writeErr w = (o, w') ->
  http_streams r first second s o = (s', l) -> dialled s s' l.
Proof.
  unfold HttpConnect.handle, handleConnect, handleHTTP, refuse. intros H.
  pose proof (counted_dial_after r first second s) as Hd.
  repeat (case_match; try (injection H as <- <-; intros [= <- <-]; by left)); injection H as <- <-; intros [= <- <-];
    right; match goal with E : counted_dial _ _ _ _ ?h ?p = Ok _ |- _ => specialize (Hd h p); rewrite E in Hd end;
    destruct Hd as [-> Hd]; (split; [done|]); (split; [done|]); by repeat constructor.
Qed.

Lemma step_front_ok f f' : front_ok f -> fstep f f' -> front_ok f'.
Proof.
  intros Hok Hstep. pose proof Hok as [Hk Ha Ho Hc].
  assert (forall i h0 s l, f.(fr_handlers) !! i = Some h0 -> targets h0 = [] -> dialled f.(fr_streams) s l ->
    front_ok (mkFront (<[i := Closing l]> f.(fr_handlers)) s)) as Hd.
  { intros i h0 s l Hi Ht [[-> ->]|(-> & Hne & Hl)]; [|by eapply ok_dialled].
    eapply ok_release; [done..| | |]; intros n Hn; [done|by apply not_elem_of_nil in Hn|]. by rewrite Ht in Hn. }
  destruct Hstep as [|i r first second rw o rw' s l Hi H E|i r first second parsed we w o w' s l Hi H E|i n l Hi|i Hi].
  - assert (forall j n, holds (mkFront (f.(fr_handlers) ++ [Accepted]) f.(fr_streams)) j n <-> holds f j n) as Hh.
    { intros j n. unfold holds. cbn. split; intros (h & Hj & Hn).
      - apply lookup_snoc_Some in Hj as [[_ Hj]|[_ <-]]; [by exists h|by apply not_elem_of_nil in Hn].
      - exists h. split; [by apply lookup_app_l_Some|done]. }
    split; cbn [fr_streams]; [| | |done].
    + intros j n H. apply Hh in H. by eapply Hk.
    + intros i j n H1 H2. apply Hh in H1, H2. by eapply Ha.
    + intros n Hn. destruct (Ho n Hn) as (i & Hi). exists i. by apply Hh.
  - eapply Hd; [done|done|]. by eapply socks_dialled.
  - eapply Hd; [done|done|]. by eapply http_dialled.
  - assert (forall m, is_open (counted_Close n f.(fr_streams)) m -> is_open f.(fr_streams) m /\ m <> n) as Hopen.
    { intros m. unfold is_open, counted_Close. destruct (cs_handed _ !! n) as [[]|] eqn:E; cbn; intros Hm.
      - split; [done|congruence].
      - apply list_lookup_insert_Some in Hm as [(_ & ? & _)|[? ?]]; [done|]. by split.
      - split; [done|congruence]. }
    eapply ok_release; try done; cbn [targets].
    + by apply counted_Close_counted.
    + unfold counted_Close. destruct (cs_handed _ !! n) as [[]|]; [done|apply length_insert|done].
    + intros m Hm. by apply Hopen.
    + intros m Hm. by right.
    + intros m Hm Hop. apply elem_of_cons in Hm as [->|]; [|done]. by apply Hopen in Hop as [_ ?].
  - eapply ok_release; [done..| | |]; intros n Hn; [done|by apply not_elem_of_nil in Hn..].
Qed.

Lemma front_reachable_ok f : rtc fstep no_front f -> front_ok f.
Proof.
  assert (front_ok no_front) as H0.
  { split; [intros i n (h & H & _)|intros i j n (h & H & _)|intros n H|]; done. }
  intros Hrun. revert H0. induction Hrun; eauto using step_front_ok.
Qed.

(** C40: no stream is lost by the front ends: in every interleaving of any number
    of SOCKS5 and HTTP connections, whatever the programs send, the manager
    answers and the user selects meanwhile, the count of active streams is the
    number of streams handed out and not yet closed, each of which is held by
    exactly one handler that has still to close it, also when its reply failed
    or it was relayed and is closed twice.  Once all handlers have returned the
    count is zero, and the wait of [Shutdown] ends with its next tick. *)
Theorem handlers_release_streams (f : Front) (rest : list drain_event) :
  rtc fstep no_front f -> Z.of_nat (length f.(fr_streams).(cs_handed)) < 2 ^ 63 ->
  f.(fr_streams).(cs_active) = Z.of_nat (open_count f.(fr_streams)) /\
  (forall n, is_open f.(fr_streams) n -> exists i, holds f i n /\ forall j, holds f j n -> j = i) /\
  (Forall (fun h => h = Returned) f.(fr_handlers) ->
   f.(fr_streams).(cs_active) = 0 /\
   drain (Tick f.(fr_streams).(cs_active) :: rest) = Some [Tick f.(fr_streams).(cs_active)]).
Proof.
  intros Hrun Hlen. destruct (front_reachable_ok f Hrun) as [Hk Ha Ho Hc].
  pose proof (counted_exact _ Hc Hlen) as Hact. split_and!; [done| |].
  - intros n Hn. destruct (Ho n Hn) as (i & Hi). exists i. split; [done|]. intros j Hj. by eapply Ha.
  - intros Hall. assert (f.(fr_streams).(cs_active) = 0) as H0; [|by rewrite H0].
    rewrite Hact. destruct (open_count_zero f.(fr_streams)) as [_ Hz]. rewrite Hz; [done|].
    apply Forall_lookup. intros n [] Hn; [done|]. destruct (Ho n Hn) as (i & h & Hi & Hm).
    rewrite Forall_lookup in Hall. apply Hall in Hi as ->. by apply not_elem_of_nil in Hm.
Qed.

(** A run: two connections are accepted; the first, a SOCKS5 request, is relayed
    and returns; the second has not said anything yet. *)
Definition demo_dialler : Runtime := NewRuntime (mkRuntimeConfig "/d" false 0).
Definition demo_request : ReadWriter :=
  mkRW (mkReader [x05; x01; x00; x05; x01; x00; x03; x01; x68; x00; x50] EOF) (mkSink [] None EOF).
Definition demo_front (h : handler) (s : streams) : Front := mkFront [h; Accepted] s.
Definition one_open : streams := count_stream no_streams.

Lemma demo_handlers_run : rtc fstep no_front (demo_front Returned (counted_Close 0 one_open)).
Proof.
  eapply rtc_l; [apply f_accept|]. eapply rtc_l; [apply f_accept|].
  eapply rtc_l; [apply (f_socks (demo_front Accepted no_streams) 0 demo_dialler (fun _ => None) (fun _ => None)
    demo_request (Relaying [x68] 80 0%nat)
    (Socks5.handle (counted_dial demo_dialler (fun _ => None) (fun _ => None) no_streams) demo_request).2
    one_open [0%nat; 0%nat]); reflexivity|].
  eapply rtc_l; [by apply (f_close (demo_front (Closing [0%nat; 0%nat]) one_open) 0 0 [0%nat])|].
  eapply rtc_l; [by apply (f_close (demo_front (Closing [0%nat]) (counted_Close 0 one_open)) 0 0 [])|].
  eapply rtc_l; [by apply (f_return (demo_front (Closing []) (counted_Close 0 (counted_Close 0 one_open))) 0)|].
  reflexivity.
Qed.

Lemma handlers_release_streams_witness : (counted_Close 0 one_open).(cs_active) = Z.of_nat (open_count (counted_Close 0 one_open)).
Proof.
  destruct (handlers_release_streams _ [] demo_handlers_run) as [H _]; [vm_compute; reflexivity|exact H].
Defined.
