(* ===== verification/FrontEnds.v ===== *)
(** * FrontEnds: the listeners of the client's two proxies

    [New], [Start], [Addr], [Close] and [serve] of [internal/proxy/socks5] and
    of [internal/proxy/httpconnect], which are the same code in both packages.
    The goroutines are the steps of a relation; sockets are those of
    [Transport], the accepted connections among them; which connections arrive
    and how the system fails are the choices of the steps.  What a handler does
    with its connection is in [Tunnel] and [Handlers]; here it only ends, and
    closes it ([defer connection.Close()]). *)
From S2P Require Import Prelude GoIO GoStrings Protocol GoTime GoFS Transport.

(* ------------------------------------------------------------------ *)
(** ** The front ends of the client *)

(** [Server]: the dialer, the logger and the timeout do not change. *)
Record Server := mkServer { sv_listener : option Z; sv_closed : bool }.

Definition New : Server := mkServer None false.

(** [net.Listen] fails with the error of [listen], or opens a socket. *)
Definition Start (listen : result unit) (s : Server) (so : Sockets) : result Z * Server * Sockets :=
  match listen with
  | Err e => (Err e, s, so)
  | Ok _ => let '(l, so) := socket_open so in (Ok l, mkServer (Some l) s.(sv_closed), so)
  end.

Definition Addr (s : Server) : option Z := s.(sv_listener).

(** [Close] up to the end of its critical section: the listener it will close. *)
Definition Close_begin (s : Server) : option Z * Server :=
  (s.(sv_listener), mkServer s.(sv_listener) true).

(** [ApplyIdleDeadline]: the deadline of a connection ([None] for none) once
    its handler has set it, if it sets one; the handlers clear it before they
    relay. *)
Definition ApplyIdleDeadline (timeout : Duration) (now : Time) (deadline : option Time) : option Time :=
  if timeout >? 0 then Some (now + timeout) else deadline.

(** A goroutine in [serve]: about to read [s.listener]; in [Accept] of a
    listener; after a failed [Accept]. *)
Inductive loop : Type := Reading | Accepting (l : Z) | Failed (e : error).

(** The end of [serve]: what is logged. *)
Definition serve_failed (message : string) (e : error) (s : Server) : list (string * error) :=
  if negb s.(sv_closed) then [(message, e)] else [].

(** The running program: the goroutines in [serve], the listeners [Close] is
    about to close, the connections handed to [handle] so far and those whose
    handlers still run, the log. *)
Record World := mkWorld {
  fw_server : Server;
  fw_sockets : Sockets;
  fw_loops : list loop;
  fw_closing : list Z;
  fw_handled : list Z;
  fw_live : list Z;
  fw_log : list (string * error)
}.

Section Steps.
Variable message : string.

(** A step of a goroutine in [serve], with the sockets, the connection it
    accepted and what it logged. *)
Inductive serve_step (s : Server) (so : Sockets)
  : loop -> list loop -> Sockets -> list Z -> list (string * error) -> Prop :=
  | serve_read l : s.(sv_listener) = Some l -> serve_step s so Reading [Accepting l] so [] []
  | serve_accept l c so' :
      l ∈ so.(so_open) -> socket_open so = (c, so') -> serve_step s so (Accepting l) [Reading] so' [c] []
  | serve_error l e : serve_step s so (Accepting l) [Failed e] so [] []
  | serve_return e : serve_step s so (Failed e) [] so [] (serve_failed message e s).

(** Steps of [serve] and of a pending [Close]. *)
Inductive inner_step (w : World) : World -> Prop :=
  | in_serve l1 x l2 xs so' conns logged :
      w.(fw_loops) = l1 ++ x :: l2 -> serve_step w.(fw_server) w.(fw_sockets) x xs so' conns logged ->
      inner_step w (mkWorld w.(fw_server) so' (l1 ++ xs ++ l2) w.(fw_closing)
        (w.(fw_handled) ++ conns) (w.(fw_live) ++ conns) (w.(fw_log) ++ logged))
  | in_close c1 l c2 :
      w.(fw_closing) = c1 ++ l :: c2 ->
      inner_step w (mkWorld w.(fw_server) (socket_close l w.(fw_sockets)) w.(fw_loops) (c1 ++ c2)
        w.(fw_handled) w.(fw_live) w.(fw_log)).

(** A handler returns: its deferred [connection.Close()]. *)
Inductive handler_step (w : World) : World -> Prop :=
  | handler_ends l1 c l2 :
      w.(fw_live) = l1 ++ c :: l2 ->
      handler_step w (mkWorld w.(fw_server) (socket_close c w.(fw_sockets)) w.(fw_loops) w.(fw_closing)
        w.(fw_handled) (l1 ++ l2) w.(fw_log)).

Definition do_start (listen : result unit) (w : World) : World :=
  let '(r, s, so) := Start listen w.(fw_server) w.(fw_sockets) in
  mkWorld s so (match r with Ok _ => w.(fw_loops) ++ [Reading] | Err _ => w.(fw_loops) end)
    w.(fw_closing) w.(fw_handled) w.(fw_live) w.(fw_log).

Definition do_close (w : World) : World :=
  let '(l, s) := Close_begin w.(fw_server) in
  mkWorld s w.(fw_sockets) w.(fw_loops) (w.(fw_closing) ++ option_list l) w.(fw_handled) w.(fw_live) w.(fw_log).

Definition init (so : Sockets) : World := mkWorld New so [] [] [] [] [].

(** Runs with at most one successful [Start], as the client's runtime has. *)
Inductive front_run (so : Sockets) : World -> Prop :=
  | fr_init : front_run so (init so)
  | fr_start listen w :
      front_run so w -> w.(fw_server).(sv_listener) = None -> front_run so (do_start listen w)
  | fr_close w : front_run so w -> front_run so (do_close w)
  | fr_inner w w' : front_run so w -> inner_step w w' -> front_run so w'
  | fr_handler w w' : front_run so w -> handler_step w w' -> front_run so w'.

(** From here on, with the number of inner steps. *)
Inductive goes_on (w : World) : nat -> World -> Prop :=
  | go_nil : goes_on w 0 w
  | go_inner n w1 w2 : goes_on w n w1 -> inner_step w1 w2 -> goes_on w (S n) w2
  | go_handler n w1 w2 : goes_on w n w1 -> handler_step w1 w2 -> goes_on w n w2.

(** *** What holds in every run *)

(** The goroutine and the pending closes are about the one listener; the
    sockets are those of before, the listener's while it is open, and one for
    each running handler. *)
Definition front_ok (so : Sockets) (w : World) : Prop :=
  match w.(fw_server).(sv_listener) with
  | None => w.(fw_loops) = [] /\ w.(fw_closing) = [] /\ w.(fw_sockets) = so /\ w.(fw_live) = []
  | Some l =>
      ((w.(fw_loops) = [] \/ w.(fw_loops) = [Reading] \/ w.(fw_loops) = [Accepting l] \/
       exists e, w.(fw_loops) = [Failed e]) /\
      Forall (fun x => x = l) w.(fw_closing)) /\
      ((l ∉ so.(so_open)) /\ l < w.(fw_sockets).(so_next)) /\
      (w.(fw_sockets).(so_open) ∖ {[ l ]} = so.(so_open) ∪ list_to_set w.(fw_live) /\
      (forall x, x ∈ w.(fw_sockets).(so_open) -> x < w.(fw_sockets).(so_next)) /\
      NoDup (l :: w.(fw_live)) /\ Forall (fun x => x ∉ so.(so_open)) w.(fw_live))
  end.

Lemma singleton_mid {A} (l1 : list A) x l2 y : [y] = l1 ++ x :: l2 -> l1 = [] /\ l2 = [] /\ x = y.
Proof. destruct l1 as [|? [|]]; intros [= ??]; subst; try done. Qed.

(** A step of [serve] in a run with one listener. *)
Lemma front_serve so w l l1 x l2 xs so' conns logged :
  front_ok so w -> w.(fw_server).(sv_listener) = Some l -> w.(fw_loops) = l1 ++ x :: l2 ->
  serve_step w.(fw_server) w.(fw_sockets) x xs so' conns logged ->
  l1 = [] /\ l2 = [] /\ (xs = [] \/ xs = [Reading] \/ xs = [Accepting l] \/ exists e, xs = [Failed e]) /\
  (x = Reading \/ x = Accepting l \/ exists e, x = Failed e).
Proof.
  intros Hok Hl Hx Hstep. unfold front_ok in Hok. rewrite Hl in Hok. destruct Hok as ((Hloops & _) & _).
  rewrite Hx in Hloops. destruct Hloops as [H|[H|[H|[e H]]]]; [by destruct l1|..];
    apply eq_sym, singleton_mid in H as (-> & -> & ->); split_and!; try done; inversion Hstep; subst; eauto;
    rewrite Hl in *; simplify_eq; eauto.
Qed.

(** What a step of [serve] does to the sockets. *)
Lemma serve_sockets s so x xs so' conns logged : serve_step s so x xs so' conns logged ->
  (so' = so /\ conns = []) \/
  (conns = [so.(so_next)] /\ so' = mkSockets (so.(so_next) + 1) ({[ so.(so_next) ]} ∪ so.(so_open))).
Proof. intros []; auto. right. unfold socket_open in *. by simplify_eq. Qed.

Lemma front_inner so w w' : (forall x, x ∈ so.(so_open) -> x < so.(so_next)) ->
  front_ok so w -> inner_step w w' -> front_ok so w'.
Proof.
  intros Hso Hok Hstep. pose proof Hok as Hok0. unfold front_ok in Hok |- *.
  destruct Hstep as [l1 x l2 xs so' conns logged Hx Hs|c1 l0 c2 Hc]; cbn.
  - destruct (sv_listener _) as [l|] eqn:Hl.
    + destruct (front_serve _ _ _ _ _ _ _ _ _ _ Hok0 Hl Hx Hs) as (-> & -> & Hxs & _). rewrite app_nil_r.
      destruct Hok as ((_ & H2) & (H3 & H3') & H4 & H5 & H6 & H7). split; [done|].
      destruct (serve_sockets _ _ _ _ _ _ _ Hs) as [[-> ->]|[-> ->]]; [by rewrite app_nil_r|]. cbn.
      assert (so_next (fw_sockets w) ∉ so_open (fw_sockets w)) as Hn by (intros ?%H5; lia).
      split; [split; [done|lia]|]. split_and!.
      * rewrite list_to_set_app_L. cbn. set_solver by lia.
      * intros y Hy. apply elem_of_union in Hy as [Hy%elem_of_singleton|Hy]; [lia|]. specialize (H5 y Hy). lia.
      * rewrite app_comm_cons. apply NoDup_app. split_and!; [done| |apply NoDup_singleton].
        intros y Hy Hz. apply list_elem_of_singleton in Hz as ->. apply elem_of_cons in Hy as [E|Hy]; [lia|].
        apply Hn. assert (so_next (fw_sockets w) ∈ so_open (fw_sockets w) ∖ {[l]}) as Hin; [|set_solver].
        rewrite H4. apply elem_of_union_r, elem_of_list_to_set. done.
      * apply Forall_app. split; [done|]. apply Forall_singleton. intros Hin. apply Hn. set_solver.
    + destruct Hok as (H & _). rewrite Hx in H. by destruct l1.
  - destruct (sv_listener _) as [l|].
    + destruct Hok as ((H1 & H2) & H3 & H4 & H5 & H6 & H7). rewrite Hc in H2. apply Forall_app in H2 as [H2 H2'].
      apply Forall_cons in H2' as [-> H2']. split_and!; try done; [by apply Forall_app|apply H3..| |].
      * rewrite <-H4. set_solver.
      * intros x Hx. apply H5. set_solver.
    + destruct Hok as (_ & H & _). rewrite Hc in H. by destruct c1.
Qed.

Lemma front_handler so w w' : front_ok so w -> handler_step w w' -> front_ok so w'.
Proof.
  unfold front_ok. intros Hok [l1 c l2 Hc]. cbn. rewrite Hc in Hok. destruct (sv_listener _) as [l|].
  - destruct Hok as (H1 & H2 & H4 & H5 & H6 & H7). split; [done|]. split; [done|].
    rewrite <-Permutation_middle in H6. apply Forall_app in H7 as [H7 [H7' H7'']%Forall_cons].
    apply NoDup_cons in H6 as [N1 N2]. apply NoDup_cons in N2 as [N2 N3].
    rewrite list_to_set_app_L in H4. cbn in H4. split_and!.
    + rewrite list_to_set_app_L. assert (c ∉@{gset Z} list_to_set l1 ∪ list_to_set l2) as Hn.
      { rewrite <-list_to_set_app_L, elem_of_list_to_set. done. }
      set_solver.
    + intros x Hx. apply H5. set_solver.
    + apply NoDup_cons. split; [|done]. intros Hin. apply N1. by apply list_elem_of_further.
    + by apply Forall_app.
  - destruct Hok as (_ & _ & _ & H). by destruct l1.
Qed.

Lemma front_run_ok so w : (forall n, n ∈ so.(so_open) -> n < so.(so_next)) -> front_run so w -> front_ok so w.
Proof.
  intros Hso Hrun. induction Hrun as [|listen w Hrun IH Hn|w Hrun IH|w w' Hrun IH Hstep|w w' Hrun IH Hstep].
  - done.
  - unfold front_ok in IH. rewrite Hn in IH. destruct IH as (H1 & H2 & H3 & H4).
    unfold do_start, Start. destruct listen as [u|e]; unfold front_ok; cbn; rewrite ?Hn; [|done].
    rewrite H1, H2, H3, H4. assert (so_next so ∉ so_open so) by (intros ?%Hso; lia).
    split_and!; [by auto|done|done|lia|cbn; set_solver| |apply NoDup_singleton|done].
    intros x Hx. apply elem_of_union in Hx as [->%elem_of_singleton|Hx%Hso]; lia.
  - unfold front_ok, do_close in *. cbn. destruct (sv_listener _) as [l|]; cbn.
    + destruct IH as ((? & ?) & ?). split; [|done]. split; [done|]. apply Forall_app.
      split; [done|by apply Forall_singleton].
    + by rewrite app_nil_r.
  - by eapply front_inner.
  - by eapply front_handler.
Qed.

(** *** Shutting down *)

Definition weight (x : loop) : nat := match x with Reading => 3 | Accepting _ => 2 | Failed _ => 1 end.
Definition fuel (w : World) : nat := (sum_list_with weight w.(fw_loops) + length w.(fw_closing))%nat.

(** [Close] was called, and its listener is closed. *)
Definition closed (w : World) : Prop :=
  w.(fw_server).(sv_closed) = true /\
  exists l, w.(fw_server).(sv_listener) = Some l /\ l ∉ w.(fw_sockets).(so_open).

Lemma closed_step so w w' : front_ok so w -> closed w -> inner_step w w' ->
  closed w' /\ (fuel w' < fuel w)%nat /\ w'.(fw_handled) = w.(fw_handled) /\ w'.(fw_log) = w.(fw_log) /\
  w'.(fw_live) = w.(fw_live).
Proof.
  intros Hok (Hc & l & Hl & Hnot) Hstep.
  destruct Hstep as [l1 x l2 xs so' conns logged Hx Hs|c1 l0 c2 Hcl]; unfold closed, fuel; cbn.
  - destruct (front_serve _ _ _ _ _ _ _ _ _ _ Hok Hl Hx Hs) as (-> & -> & _ & Hwhich). rewrite Hx. cbn.
    inversion Hs; subst; cbn.
    + rewrite !app_nil_r. split_and!; eauto; lia.
    + destruct Hwhich as [|[[= ->]|[]]]; done.
    + rewrite !app_nil_r. split_and!; eauto; lia.
    + unfold serve_failed. rewrite Hc, !app_nil_r. split_and!; eauto; cbn; lia.
  - rewrite Hcl, !length_app. cbn. split_and!; try done; [|lia].
    exists l. split; [done|]. set_solver.
Qed.

Lemma closed_handler w w' : closed w -> handler_step w w' ->
  closed w' /\ fuel w' = fuel w /\ w'.(fw_handled) = w.(fw_handled) /\ w'.(fw_log) = w.(fw_log) /\
  w'.(fw_live) ⊆ w.(fw_live).
Proof.
  intros (Hc & l & Hl & Hnot) [l1 c l2 E]. unfold closed, fuel. cbn. rewrite E. split_and!; try done.
  - exists l. split; [done|]. set_solver.
  - intros x. rewrite !elem_of_app, elem_of_cons. tauto.
Qed.

Lemma closed_stuck so w : front_ok so w -> closed w -> ~ (exists w', inner_step w w') ->
  w.(fw_loops) = [] /\ w.(fw_closing) = [].
Proof.
  intros Hok (_ & l & Hl & _) Hstuck. split.
  - unfold front_ok in Hok. rewrite Hl in Hok. destruct Hok as (([H|[H|[H|[e H]]]] & _) & _); [done|..]; exfalso;
      apply Hstuck; eexists; eapply (in_serve w [] _ []); try done; [by apply serve_read|by apply (serve_error _ _ l ErrClosed)|by apply serve_return].
  - destruct (fw_closing w) as [|x xs] eqn:E; [done|]. exfalso. apply Hstuck. eexists. by apply (in_close w [] x xs).
Qed.

Lemma closed_goes_on so w n w' : (forall x, x ∈ so.(so_open) -> x < so.(so_next)) ->
  front_ok so w -> closed w -> goes_on w n w' ->
  (front_ok so w' /\ closed w') /\ (n + fuel w' <= fuel w)%nat /\
  w'.(fw_handled) = w.(fw_handled) /\ w'.(fw_log) = w.(fw_log) /\ w'.(fw_live) ⊆ w.(fw_live).
Proof.
  intros Hso Hok Hcl. induction 1 as [|n w1 w2 _ ([IHo IHc] & IHf & IHh & IHl & IHv) H
    |n w1 w2 _ ([IHo IHc] & IHf & IHh & IHl & IHv) H].
  - split_and!; done || lia.
  - destruct (closed_step _ _ _ IHo IHc H) as (? & ? & -> & -> & ->).
    split_and!; try done; [by eapply front_inner|lia].
  - destruct (closed_handler _ _ IHc H) as (? & ? & -> & -> & ?).
    split_and!; try done; [by eapply front_handler|lia|by etrans].
Qed.

(** C37: a closed front end comes to rest: once [Close] has closed the listener,
    the goroutine in [serve] ends within a bounded number of steps, whatever
    errors [Accept] gives and whatever the handlers do; until then no
    connection is handed to [handle] and no error is logged.  [Close] does not
    wait for the handlers: the sockets left are those the process had before
    [Start] and those of the connections whose handlers still run, all accepted
    before, and each is closed when its handler returns. *)
Theorem closed_front_end_stops (so : Sockets) (w w' : World) (n : nat)
  (Hso : forall x, x ∈ so.(so_open) -> x < so.(so_next))
  (Hrun : front_run so w) (Hclosed : closed w) (Hsteps : goes_on w n w') :
  (n <= fuel w)%nat /\ w'.(fw_handled) = w.(fw_handled) /\ w'.(fw_log) = w.(fw_log) /\
  w'.(fw_sockets).(so_open) = so.(so_open) ∪ list_to_set w'.(fw_live) /\ w'.(fw_live) ⊆ w.(fw_live) /\
  (~ (exists w'', inner_step w' w'') -> w'.(fw_loops) = [] /\ w'.(fw_closing) = []).
Proof.
  pose proof (front_run_ok _ _ Hso Hrun) as Hok. clear Hrun.
  destruct (closed_goes_on _ _ _ _ Hso Hok Hclosed Hsteps) as ([Hok' Hcl'] & Hf & Hh & Hl & Hv).
  split_and!; try done; [lia| |by eapply closed_stuck].
  destruct Hcl' as (_ & l & El & Hnot). unfold front_ok in Hok'. rewrite El in Hok'.
  destruct Hok' as (_ & _ & <- & _). set_solver.
Qed.

(** After one failed [Accept] the front end is deaf: the listener is open and
    [Addr] still gives its address, but nothing is ever accepted again. *)
Lemma deaf_front_end w n w' : w.(fw_loops) = [] -> goes_on w n w' ->
  w'.(fw_loops) = [] /\ w'.(fw_handled) = w.(fw_handled) /\ Addr w'.(fw_server) = Addr w.(fw_server).
Proof.
  intros H. induction 1 as [|n w1 w2 _ (IH & IHh & IHa) Hstep|n w1 w2 _ (IH & IHh & IHa) Hstep]; [done| |].
  - destruct Hstep as [l1 x l2 xs so' conns logged Hx _|c1 l c2 Hc]; [rewrite IH in Hx; by destruct l1|done].
  - by destruct Hstep.
Qed.
End Steps.

(** The two front ends: the same code with different messages. *)
Definition socks5_serve := serve_step "SOCKS5 accept failed".
Definition httpconnect_serve := serve_step "HTTP proxy accept failed".
Definition httpconnect_New := New.
Definition httpconnect_Start := Start.
Definition httpconnect_Addr := Addr.
Definition httpconnect_Close_begin := Close_begin.

(** A run: one connection, then [Close]; its handler returns later. *)
Definition demo_sockets : Sockets := mkSockets 5 {[ 1; 4 ]}.
Definition demo_server (closed : bool) : Server := mkServer (Some 5) closed.
Definition demo_opened : Sockets := mkSockets 6 ({[ 5 ]} ∪ {[ 1; 4 ]}).
Definition demo_busy : Sockets := mkSockets 7 ({[ 6 ]} ∪ ({[ 5 ]} ∪ {[ 1; 4 ]})).
Definition demo_closed : World :=
  mkWorld (demo_server true) (socket_close 5 demo_busy) [Accepting 5] [] [6] [6] [].
Definition demo_stopped : World := mkWorld (demo_server true) (socket_close 5 demo_busy) [] [] [6] [6] [].
Definition demo_rest : World :=
  mkWorld (demo_server true) (socket_close 6 (socket_close 5 demo_busy)) [] [] [6] [] [].

Lemma demo_front_run m : front_run m demo_sockets demo_closed.
Proof.
  eapply fr_inner; [|by apply (in_close m (mkWorld (demo_server true) demo_busy [Accepting 5] [5] [6] [6] []) [] 5 [])].
  apply (fr_close m _ (mkWorld (demo_server false) demo_busy [Accepting 5] [] [6] [6] [])).
  eapply fr_inner; [|by apply (in_serve m (mkWorld (demo_server false) demo_busy [Reading] [] [6] [6] []) [] Reading []
    [Accepting 5] demo_busy [] []); [|by apply serve_read]].
  eapply fr_inner; [|apply (in_serve m (mkWorld (demo_server false) demo_opened [Accepting 5] [] [] [] []) [] (Accepting 5) []
    [Reading] demo_busy [6] []); [done|by apply serve_accept; [apply elem_of_union_l, elem_of_singleton|]]].
  eapply fr_inner; [|by apply (in_serve m (mkWorld (demo_server false) demo_opened [Reading] [] [] [] []) [] Reading []
    [Accepting 5] demo_opened [] []); [|by apply serve_read]].
  apply (fr_start m _ (Ok tt) (init demo_sockets)); [apply fr_init|done].
Defined.

Lemma demo_goes_on m : goes_on m demo_closed 2 demo_stopped /\ goes_on m demo_closed 2 demo_rest.
Proof.
  assert (goes_on m demo_closed 2 demo_stopped) as H.
  { eapply go_inner; [eapply go_inner; [apply go_nil|]|].
    - by apply (in_serve _ demo_closed [] (Accepting 5) [] [Failed ErrClosed] (socket_close 5 demo_busy) [] []); [|apply serve_error].
    - by apply (in_serve _ (mkWorld (demo_server true) (socket_close 5 demo_busy) [Failed ErrClosed] [] [6] [6] []) []
        (Failed ErrClosed) [] [] (socket_close 5 demo_busy) [] []); [|apply serve_return]. }
  split; [exact H|]. eapply go_handler; [exact H|]. by apply (handler_ends demo_stopped [] 6 []).
Qed.

(** The loop has stopped while the connection is still handled; then that is
    closed too. *)
Lemma closed_front_end_stops_witness :
  (2 <= fuel demo_closed)%nat /\
  demo_stopped.(fw_sockets).(so_open) = demo_sockets.(so_open) ∪ {[ 6 ]} ∪ ∅ /\
  demo_rest.(fw_sockets).(so_open) = demo_sockets.(so_open) ∪ ∅.
Proof.
  assert (forall x, x ∈ demo_sockets.(so_open) -> x < demo_sockets.(so_next)) as Hso.
  { intros x Hx. cbn in Hx |- *. set_unfold in Hx. lia. }
  assert (closed demo_closed) as Hc.
  { split; [reflexivity|]. exists 5. split; [reflexivity|]. vm_compute. intros H. inversion H. }
  destruct (closed_front_end_stops "SOCKS5 accept failed" demo_sockets demo_closed demo_stopped 2 Hso
    (demo_front_run _) Hc (proj1 (demo_goes_on _))) as (H1 & _ & _ & H2 & _).
  destruct (closed_front_end_stops "SOCKS5 accept failed" demo_sockets demo_closed demo_rest 2 Hso
    (demo_front_run _) Hc (proj2 (demo_goes_on _))) as (_ & _ & _ & H3 & _).
  split; [exact H1|]. split; [|exact H3]. rewrite <-(assoc_L (∪)). exact H2.
Defined.
