(* ===== verification/ServerRun.v ===== *)
(** * ServerRun: [Run], [acceptQUIC] and [acceptTCP] of [internal/node/server.go]

    The opening of the two listeners, the accept loops and the last [select] of
    [Run], as a step relation over the sockets of [Transport].  An accepted TCP
    connection is a socket of its own, which its handler closes; a QUIC
    connection uses the UDP socket, and waits in a queue of the QUIC listener
    until it is accepted.  What [handleConnection] does with a connection is in
    [Server]; the loop that expires exits is [catalog_tick] there. *)
From stdpp Require Import relations.
From S2P Require Import Prelude GoIO GoStrings Protocol GoTime GoFS Transport.

(* ------------------------------------------------------------------ *)
(** ** [Run] of the server *)














(* ------------------------------------------------------------------ *)
(** *** What holds while it runs *)














