(* ===== verification/ClientMain.v ===== *)
(** * The start of the client program: [run] of [cmd/lnproxy-client/main.go]

    From the arguments to the shell: the options, the data directory, the known
    hosts and the question that confirms a new server; and how the manager's
    [connectTransport] checks a server's certificate with them.  The shell and
    the shutdown that follow are [client_run] of [Shell]. *)
From S2P Require Import Prelude GoIO GoStrings Json Codec Protocol GoTime Crypto GoText GoFS GoNet.
From S2P Require Import Config Trust Transport Logging GoFlag Commands Runtime Exit.

Record client_options := mkClientOptions { co_socks5 : bool; co_drainTimeout : Duration }.

Definition client_flags : FlagSet client_options := [
  ("socks5", BoolVar (fun v o => mkClientOptions v o.(co_drainTimeout)));
  ("drain-timeout", DurationVar (fun v o => mkClientOptions o.(co_socks5) v))
]%string.
Definition client_defaults : client_options := mkClientOptions false (10 * Second).

(** The machine: what reading the file of known hosts gives, and the answer to
    the question whether a server is trusted ([fmt.Fscanln]). *)
Record client_machine := mkClientMachine {
  cm_os : OS;
  cm_goos : string;
  cm_openLog : open_faults;
  cm_readFault : option error;
  cm_answer : result string;
  cm_lower : bytes -> bytes
}.

Inductive client_started : Type :=
  | UsageShown
  | ClientRuns (cfg : RuntimeConfig) (drainTimeout : Duration) (trust : KnownHosts).

Definition client_confirmer (m : client_machine) (host fingerprint : string) : result bool :=
  (let? answer := m.(cm_answer) in Ok (accepted_answer m.(cm_lower) answer))%go.

Definition help_asked (args : list string) : bool :=
  match args with
  | [a] => bool_decide (a = "-h"%string) || bool_decide (a = "--help"%string)
  | _ => false
  end.

(** [run] up to the shell. *)
Definition client_main (ps : parsers) (m : client_machine) (args : list string) (fs : FS)
  : result client_started * FS :=
  if help_asked args then (Ok UsageShown, fs)
  else
    match Parse ps client_flags client_defaults args with
    | Err e => (Err e, fs)
    | Ok (o, _) =>
        match DefaultDataDir m.(cm_os) with
        | Err e => (Err e, fs)
        | Ok dataDir =>
            match New m.(cm_openLog) m.(cm_goos) "" true fs with
            | (Err e, fs) => (Err e, fs)
            | (Ok _, fs) =>
                match LoadKnownHosts m.(cm_readFault) (filepath_Join dataDir "known-hosts.json") fs with
                | Err e => (Err e, fs)
                | Ok k =>
                    (Ok (ClientRuns (mkRuntimeConfig dataDir o.(co_socks5) 0) o.(co_drainTimeout)
                          (SetConfirmer (Some (client_confirmer m)) k)), fs)
                end
            end
        end
    end.

(** The check of a server's certificate that [connectTransport] sets up: the
    stored fingerprint, if there is one, is the expected one. *)
Definition check_server (upper : bytes -> bytes) (address : bytes) (peer : list bytes) (t : KnownStore)
  : option error * option KnownStore :=
  let host := string_of (addressHost address) in
  let expected := Known_Get host t.(ks_known) in
  VerifyConnection (H := KnownStore_Trust upper) upper expected host peer (Some t).

(* ------------------------------------------------------------------ *)
(** ** Properties *)

Lemma client_main_runs ps m args fs cfg d k fs' :
  client_main ps m args fs = (Ok (ClientRuns cfg d k), fs') ->
  fs' = fs /\ exists dir k0, DefaultDataDir m.(cm_os) = Ok dir /\ cfg.(rc_DataDirectory) = dir /\
    LoadKnownHosts m.(cm_readFault) (filepath_Join dir "known-hosts.json") fs = Ok k0 /\
    k = SetConfirmer (Some (client_confirmer m)) k0.
Proof.
  unfold client_main. destruct (help_asked args); [done|]. destruct (Parse _ _ _ _) as [[o rest]|]; [|done].
  destruct (DefaultDataDir _) as [dir|] eqn:Ed; [|done]. unfold New. rewrite bool_decide_true by done.
  destruct (LoadKnownHosts _ _ _) as [k0|] eqn:Ek; [|done]. intros [= <- <- <- <-]. split; [done|].
  exists dir, k0. by split_and!.
Qed.

Lemma LoadKnownHosts_path fault path fs k : LoadKnownHosts fault path fs = Ok k -> k.(kh_path) = path.
Proof.
  unfold LoadKnownHosts. destruct (ReadFile _ _ _) as [data|e].
  - destruct (parse data) as [j|]; [|done]. destruct (dec_map j _) as [m [e|]]; [done|]. by intros [= <-].
  - destruct (errors_Is _ _); [|done]. by intros [= <-].
Qed.

(** A server whose fingerprint is known is checked against it and nothing else:
    no question, no change of the store. *)
Lemma check_known upper address cert peer t : entry (string_of (addressHost address)) t.(ks_known) <> ""%string ->
  check_server upper address (cert :: peer) t =
    ((if EqualFingerprint upper (entry (string_of (addressHost address)) t.(ks_known)) (Fingerprint cert)
      then None else (check_server upper address (cert :: peer) t).1), Some t) /\
  ((check_server upper address (cert :: peer) t).1 = None <->
   EqualFingerprint upper (entry (string_of (addressHost address)) t.(ks_known)) (Fingerprint cert) = true).
Proof.
  intros Hne. unfold check_server, VerifyConnection, Known_Get. cbv zeta.
  assert (empty_string (entry (string_of (addressHost address)) (ks_known t)) = false) as -> by by apply bool_decide_eq_false.
  cbn [negb]. by destruct (EqualFingerprint _ _ _).
Qed.

(** A server that is not known is accepted only when the confirmer agrees and
    the store could be saved. *)
Lemma check_unknown upper address cert peer t t' :
  entry (string_of (addressHost address)) t.(ks_known) = ""%string ->
  check_server upper address (cert :: peer) t = (None, Some t') ->
  exists confirm, t.(ks_known).(kh_confirm) = Some confirm /\
    confirm (string_of (addressHost address)) (Fingerprint cert) = Ok true /\
    Known_Save upper (default no_faults (head t.(ks_faults))) (string_of (addressHost address)) (Fingerprint cert)
      t.(ks_known) t.(ks_fs) = (None, t'.(ks_known), t'.(ks_fs)).
Proof.
  intros Hn. unfold check_server, VerifyConnection, Known_Get. cbv zeta. rewrite Hn.
  change (empty_string "") with true. cbn [negb]. destruct t as [k fs fts]. cbn [ks_known ks_fs ks_faults] in *.
  cbn [Trust_Save KnownStore_Trust ks_known ks_fs ks_faults].
  destruct (Known_Save _ _ _ _ k fs) as [[e k'] fs'] eqn:Es. destruct e as [e|]; [done|]. intros [= <-].
  cbn [ks_known ks_fs]. unfold Known_Save in Es. rewrite Hn in Es. change (empty_string "") with true in Es.
  cbn [negb andb] in Es. destruct (kh_confirm k) as [confirm|] eqn:Ec; [|done].
  rewrite NormalizeFingerprint_canonical in Es. exists confirm.
  destruct (confirm _ _) as [[]|] eqn:Ea; [done|by injection Es..].
Qed.

(** C39: the client trusts a new server only after the user said so, once and for
    all runs: when a client accepts a server it has no fingerprint for, the
    user answered yes; and every later run of the program, whatever its
    options and whatever the user would answer then, accepts a server under
    that address exactly when its certificate has the same digest, without
    asking. *)
Theorem trust_survives_restart (upper : bytes -> bytes) (ps : parsers) (m m' : client_machine)
  (args args' : list string) (fs fs1 fs2 : FS) (cfg cfg' : RuntimeConfig) (d d' : Duration) (k k' : KnownHosts)
  (faults faults' : list save_faults) (address cert cert' : bytes) (peer peer' : list bytes)
  (entries : gmap string string) (t : KnownStore)
  (Hstart : client_main ps m args fs = (Ok (ClientRuns cfg d k), fs1))
  (Hentries : k.(kh_entries) = Some entries)
  (Hnew : entry (string_of (addressHost address)) k = ""%string)
  (Hok : map_ok (<[string_of (addressHost address) := Fingerprint cert]> entries))
  (Haccept : check_server upper address (cert :: peer) (mkStore k fs1 faults) = (None, Some t))
  (Hsame : m'.(cm_os) = m.(cm_os)) (Hread : m'.(cm_readFault) = None)
  (Hagain : client_main ps m' args' t.(ks_fs) = (Ok (ClientRuns cfg' d' k'), fs2)) :
  (exists answer, m.(cm_answer) = Ok answer /\ accepted_answer m.(cm_lower) answer = true) /\
  let again := check_server upper address (cert' :: peer') (mkStore k' fs2 faults') in
  (again.1 = None <-> sha256 cert' = sha256 cert) /\ again.2 = Some (mkStore k' fs2 faults').
Proof.
  destruct (client_main_runs _ _ _ _ _ _ _ _ Hstart) as (-> & dir & k0 & Hdir & _ & Hload & Hk).
  destruct (client_main_runs _ _ _ _ _ _ _ _ Hagain) as (-> & dir' & k0' & Hdir' & _ & Hload' & Hk').
  rewrite Hsame, Hdir in Hdir'. injection Hdir' as <-.
  destruct (check_unknown _ _ _ _ (mkStore k fs faults) _ Hnew Haccept) as (confirm & Hc & Hyes & Hsave).
  cbn [ks_known ks_fs ks_faults] in Hc, Hsave. split.
  - rewrite Hk in Hc. injection Hc as <-. unfold client_confirmer in Hyes.
    destruct (cm_answer m) as [a|]; [|done]. exists a. split; [done|]. by injection Hyes.
  - pose proof (known_hosts_roundtrip upper _ _ _ _ _ _ _ None entries Hentries
      ltac:(by rewrite NormalizeFingerprint_canonical) Hsave) as [Hl He].
    rewrite NormalizeFingerprint_canonical in He. rewrite Hk in Hl. cbn [SetConfirmer kh_path] in Hl.
    rewrite (LoadKnownHosts_path _ _ _ _ Hload), <- Hread, Hload' in Hl. injection Hl as Hl.
    assert (entry (string_of (addressHost address)) k' = Fingerprint cert) as Hk'e.
    { rewrite Hk', Hl, <- He. done. }
    pose proof (Fingerprint_nonempty cert) as Hf. apply bool_decide_eq_false in Hf.
    destruct (check_known upper address cert' peer' (mkStore k' (ks_fs t) faults')) as [Heq Hiff];
      [cbn [ks_known]; by rewrite Hk'e|].
    split; [|by rewrite Heq]. rewrite Hiff. cbn [ks_known]. rewrite Hk'e. unfold EqualFingerprint.
    rewrite bool_decide_eq_true, !NormalizeFingerprint_canonical. split.
    + intros E. symmetry. by apply Fingerprint_inj.
    + intros E. unfold Fingerprint. by rewrite E.
Qed.

(** A first run in which the user types YES, and a second one without a
    terminal. *)
Definition demo_answering (answer : result string) : client_machine :=
  mkClientMachine demo_os "linux" no_open_faults None answer (map (fun b => if b =b x59 then x79 else b)).

Definition demo_runs (m : client_machine) (args : list string) (fs : FS) : KnownHosts :=
  match (client_main demo_parsers m args fs).1 with Ok (ClientRuns _ _ k) => k | _ => mkKnown "" None None end.

Definition demo_yes : client_machine := demo_answering (Ok " Y"%string).
Definition demo_no : client_machine := demo_answering (Err EOF).
Definition demo_address : bytes := bytes_of "192.0.2.7:9000".

Definition demo_first_store : KnownStore := mkStore (demo_runs demo_yes [] (mkFS ∅ 0)) (mkFS ∅ 0) [].
Definition demo_trusting : KnownStore :=
  default demo_first_store (check_server (fun b => b) demo_address [demo_cert] demo_first_store).2.
Definition demo_second_store : KnownStore :=
  mkStore (demo_runs demo_no ["-socks5"]%string demo_trusting.(ks_fs)) demo_trusting.(ks_fs) [].

Lemma trust_survives_restart_witness :
  (exists answer, demo_yes.(cm_answer) = Ok answer /\ accepted_answer demo_yes.(cm_lower) answer = true) /\
  ((check_server (fun b => b) demo_address [demo_cert2] demo_second_store).1 = None <->
   sha256 demo_cert2 = sha256 demo_cert).
Proof.
  destruct (trust_survives_restart (fun b => b) demo_parsers demo_yes demo_no [] ["-socks5"]%string
    (mkFS ∅ 0) (mkFS ∅ 0) demo_trusting.(ks_fs)
    (mkRuntimeConfig "/home/u/.config/lnproxy" false 0) (mkRuntimeConfig "/home/u/.config/lnproxy" true 0)
    (10 * Second) (10 * Second) (demo_runs demo_yes [] (mkFS ∅ 0))
    (demo_runs demo_no ["-socks5"]%string demo_trusting.(ks_fs)) [] [] demo_address demo_cert demo_cert2 [] []
    ∅ demo_trusting) as [H1 [H2 _]].
  - reflexivity.
  - reflexivity.
  - vm_compute. reflexivity.
  - apply map_Forall_insert_2; [split; vm_compute; reflexivity|apply map_Forall_empty].
  - vm_compute. reflexivity.
  - reflexivity.
  - reflexivity.
  - vm_compute. reflexivity.
  - split; [exact H1|exact H2].
Defined.
